(** * AppBound: the licence ledger and the access issuance handler

    A shallow embedding of [contracts/AppBoundLicense.sol] (the contracts
    [AppBoundLicense] and [CollectibleLicenseNFT]) and of the [/api/auth]
    handler of [backend/index.js].

    Solidity storage mappings are finite maps read with a default of zero,
    [uint256] and [address] values are binary naturals, and a call to a
    contract is a computation in a state-and-revert monad: a failed
    [require] aborts the call and the storage of the transaction is the
    storage it started from.

    [_safeMint] and [safeTransferFrom] call [onERC721Received] on the
    recipient.  Each contract comes twice: with recipients that answer and
    call nothing, and, in the modules whose name ends in R, with recipients
    that run code of their own and call back into the contract. *)

From stdpp Require Import gmap strings list fin_maps.
From Stdlib Require Import NArith ZArith Lia Ascii.

Open Scope string_scope.
Open Scope N_scope.

(** ** Machine types *)

Abbreviation address := N (only parsing).
Abbreviation uint256 := N (only parsing).
Abbreviation uint64 := N (only parsing).
Abbreviation uint96 := N (only parsing).
Abbreviation bytes32 := N (only parsing).

Definition uint256_limit : N := 2 ^ 256.

(** ** Reverts and the transaction monad *)

Inductive revert_reason : Type :=
| Error (msg : string)      (* require(cond, msg) / revert(msg) *)
| Panic (code : N).         (* checked arithmetic, array bounds *)

Inductive result (A : Type) : Type :=
| Ok (a : A)
| Revert (r : revert_reason).
Arguments Ok {A} a.
Arguments Revert {A} r.

Definition Tx (St A : Type) : Type := St -> result (A * St).

Definition ret {St A} (a : A) : Tx St A := fun s => Ok (a, s).

Definition bind {St A B} (m : Tx St A) (k : A -> Tx St B) : Tx St B :=
  fun s => match m s with
           | Ok (a, s') => k a s'
           | Revert r => Revert r
           end.

Definition revert {St A} (r : revert_reason) : Tx St A := fun _ => Revert r.

Definition require {St} (cond : bool) (msg : string) : Tx St unit :=
  if cond then ret tt else revert (Error msg).

Definition gets {St A} (f : St -> A) : Tx St A := fun s => Ok (f s, s).

Definition modify {St} (f : St -> St) : Tx St unit := fun s => Ok (tt, f s).

Definition when {St} (cond : bool) (m : Tx St unit) : Tx St unit :=
  if cond then m else ret tt.

Notation "'let*' x ':=' m 'in' k" := (bind m (fun x => k))
  (at level 10, x name, m at level 100, k at level 200).
Notation "m ';;;' k" := (bind m (fun _ => k))
  (at level 100, k at level 200, right associativity).

(** The storage a transaction leaves behind: the new storage when the call
    returns, the old one when it reverts. *)
Definition commit {St A} (m : Tx St A) (s : St) : St :=
  match m s with
  | Ok (_, s') => s'
  | Revert _ => s
  end.

Definition reverted {St A} (m : Tx St A) (s : St) : Prop :=
  exists r, m s = Revert r.

(** [++x] on a [uint256] under Solidity 0.8: overflow panics with code 0x11. *)
Definition checked_incr {St} (n : uint256) : Tx St uint256 :=
  if n + 1 <? uint256_limit then ret (n + 1) else revert (Panic 17).

(** ** The ledger host

    What the contracts and the backend take from their environment: the
    keccak-256 digest (of a string, of a packed address and of a pair of
    words, as [MerkleProof] uses it) and the answer of a recipient to
    [onERC721Received] when the recipient does not call back into the
    contract.  The contracts are first written down with such recipients;
    [Callbacks] then has the recipients that call back, and the minting and
    safe-transfer paths that call them. *)

Class Host : Type := {
  keccak256 : string -> bytes32;
  keccak256_address : address -> bytes32;
  keccak256_pair : bytes32 -> bytes32 -> bytes32;
  onERC721Received : address -> address -> address -> uint256 -> bool
}.

(** ** Events *)

Inductive Event : Type :=
| Transfer (from to : address) (tokenId : uint256)
| LicenseMinted (to : address) (tokenId : uint256) (appId : string) (expiry : uint64)
| LicenseBurned (owner : address) (tokenId : uint256)
| Redeemed (user : address) (tokenId : uint256).

(** ** The ERC721 base contract

    The token registry the two contracts inherit: owners, approvals and
    token URIs.  Balances and the enumeration tables are bookkeeping derived
    from [_owners] that no licence code reads; they are left out. *)

Record ERC721Storage : Type := {
  _owners : gmap N N;
  _tokenApprovals : gmap N N;
  _operatorApprovals : gset (N * N);
  _tokenURIs : gmap N string
}.

Definition ERC721_empty : ERC721Storage :=
  {| _owners := ∅; _tokenApprovals := ∅; _operatorApprovals := ∅; _tokenURIs := ∅ |}.

(** Reading [mapping(uint256 => address)] and friends: absent is zero. *)
Definition slot {K} `{Countable K} (m : gmap K N) (k : K) : N := default 0 (m !! k).

(** A contract deriving from ERC721: where its registry lives, how it logs,
    and the hook it overrides. *)
Class ERC721Contract (St : Type) : Type := {
  erc : St -> ERC721Storage;
  with_erc : ERC721Storage -> St -> St;
  emit : Event -> St -> St;
  _beforeTokenTransfer : address -> address -> uint256 -> Tx St unit
}.

Section ERC721.
Context `{Host} {St : Type} `{ERC721Contract St}.

Definition set_owner (tokenId : uint256) (to : address) (e : ERC721Storage) : ERC721Storage :=
  {| _owners := <[tokenId := to]> (_owners e);
     _tokenApprovals := _tokenApprovals e;
     _operatorApprovals := _operatorApprovals e;
     _tokenURIs := _tokenURIs e |}.

Definition clear_owner (tokenId : uint256) (e : ERC721Storage) : ERC721Storage :=
  {| _owners := delete tokenId (_owners e);
     _tokenApprovals := _tokenApprovals e;
     _operatorApprovals := _operatorApprovals e;
     _tokenURIs := _tokenURIs e |}.

Definition set_approval (tokenId : uint256) (to : address) (e : ERC721Storage) : ERC721Storage :=
  {| _owners := _owners e;
     _tokenApprovals := <[tokenId := to]> (_tokenApprovals e);
     _operatorApprovals := _operatorApprovals e;
     _tokenURIs := _tokenURIs e |}.

Definition clear_approval (tokenId : uint256) (e : ERC721Storage) : ERC721Storage :=
  {| _owners := _owners e;
     _tokenApprovals := delete tokenId (_tokenApprovals e);
     _operatorApprovals := _operatorApprovals e;
     _tokenURIs := _tokenURIs e |}.

Definition set_operator (owner operator : address) (approved : bool) (e : ERC721Storage)
  : ERC721Storage :=
  {| _owners := _owners e;
     _tokenApprovals := _tokenApprovals e;
     _operatorApprovals :=
       if approved then {[ (owner, operator) ]} ∪ _operatorApprovals e
       else _operatorApprovals e ∖ {[ (owner, operator) ]};
     _tokenURIs := _tokenURIs e |}.

Definition set_uri (tokenId : uint256) (uri : string) (e : ERC721Storage) : ERC721Storage :=
  {| _owners := _owners e;
     _tokenApprovals := _tokenApprovals e;
     _operatorApprovals := _operatorApprovals e;
     _tokenURIs := <[tokenId := uri]> (_tokenURIs e) |}.

Definition clear_uri (tokenId : uint256) (e : ERC721Storage) : ERC721Storage :=
  {| _owners := _owners e;
     _tokenApprovals := _tokenApprovals e;
     _operatorApprovals := _operatorApprovals e;
     _tokenURIs := delete tokenId (_tokenURIs e) |}.

Definition update_erc (f : ERC721Storage -> ERC721Storage) : Tx St unit :=
  modify (fun s => with_erc (f (erc s)) s).

Definition _ownerOf (tokenId : uint256) : Tx St address :=
  gets (fun s => slot (_owners (erc s)) tokenId).

Definition _exists (tokenId : uint256) : Tx St bool :=
  let* owner := _ownerOf tokenId in ret (negb (owner =? 0)).

Definition ownerOf (tokenId : uint256) : Tx St address :=
  let* owner := _ownerOf tokenId in
  require (negb (owner =? 0)) "ERC721: invalid token ID" ;;;
  ret owner.

Definition isApprovedForAll (owner operator : address) : Tx St bool :=
  gets (fun s => bool_decide ((owner, operator) ∈ _operatorApprovals (erc s))).

Definition getApproved (tokenId : uint256) : Tx St address :=
  let* minted := _exists tokenId in
  require minted "ERC721: invalid token ID" ;;;
  gets (fun s => slot (_tokenApprovals (erc s)) tokenId).

Definition _isApprovedOrOwner (spender : address) (tokenId : uint256) : Tx St bool :=
  let* owner := ownerOf tokenId in
  let* all := isApprovedForAll owner spender in
  let* approved := getApproved tokenId in
  ret ((spender =? owner) || all || (approved =? spender)).

Definition _checkOnERC721Received (operator from to : address) (tokenId : uint256)
  : Tx St bool :=
  ret (onERC721Received to operator from tokenId).

Definition _mint (to : address) (tokenId : uint256) : Tx St unit :=
  require (negb (to =? 0)) "ERC721: mint to the zero address" ;;;
  let* minted := _exists tokenId in
  require (negb minted) "ERC721: token already minted" ;;;
  _beforeTokenTransfer 0 to tokenId ;;;
  let* minted := _exists tokenId in
  require (negb minted) "ERC721: token already minted" ;;;
  update_erc (set_owner tokenId to) ;;;
  modify (emit (Transfer 0 to tokenId)).

Definition _safeMint (msg_sender : address) (to : address) (tokenId : uint256) : Tx St unit :=
  _mint to tokenId ;;;
  let* ok := _checkOnERC721Received msg_sender 0 to tokenId in
  require ok "ERC721: transfer to non ERC721Receiver implementer".

Definition ERC721_burn (tokenId : uint256) : Tx St unit :=
  let* owner := ownerOf tokenId in
  _beforeTokenTransfer owner 0 tokenId ;;;
  let* owner := ownerOf tokenId in
  update_erc (clear_approval tokenId) ;;;
  update_erc (clear_owner tokenId) ;;;
  modify (emit (Transfer owner 0 tokenId)).

(** ERC721URIStorage._burn *)
Definition ERC721URIStorage_burn (tokenId : uint256) : Tx St unit :=
  ERC721_burn tokenId ;;;
  let* uri := gets (fun s => default "" (_tokenURIs (erc s) !! tokenId)) in
  when (negb (String.eqb uri "")) (update_erc (clear_uri tokenId)).

Definition _setTokenURI (tokenId : uint256) (uri : string) : Tx St unit :=
  let* minted := _exists tokenId in
  require minted "ERC721URIStorage: URI set of nonexistent token" ;;;
  update_erc (set_uri tokenId uri).

Definition tokenURI (tokenId : uint256) : Tx St string :=
  let* minted := _exists tokenId in
  require minted "ERC721: invalid token ID" ;;;
  gets (fun s => default "" (_tokenURIs (erc s) !! tokenId)).

Definition _transfer (from to : address) (tokenId : uint256) : Tx St unit :=
  let* owner := ownerOf tokenId in
  require (owner =? from) "ERC721: transfer from incorrect owner" ;;;
  require (negb (to =? 0)) "ERC721: transfer to the zero address" ;;;
  _beforeTokenTransfer from to tokenId ;;;
  let* owner := ownerOf tokenId in
  require (owner =? from) "ERC721: transfer from incorrect owner" ;;;
  update_erc (clear_approval tokenId) ;;;
  update_erc (set_owner tokenId to) ;;;
  modify (emit (Transfer from to tokenId)).

Definition transferFrom (msg_sender from to : address) (tokenId : uint256) : Tx St unit :=
  let* ok := _isApprovedOrOwner msg_sender tokenId in
  require ok "ERC721: caller is not token owner or approved" ;;;
  _transfer from to tokenId.

Definition safeTransferFrom (msg_sender from to : address) (tokenId : uint256) : Tx St unit :=
  let* ok := _isApprovedOrOwner msg_sender tokenId in
  require ok "ERC721: caller is not token owner or approved" ;;;
  _transfer from to tokenId ;;;
  let* ok := _checkOnERC721Received msg_sender from to tokenId in
  require ok "ERC721: transfer to non ERC721Receiver implementer".

Definition approve (msg_sender to : address) (tokenId : uint256) : Tx St unit :=
  let* owner := ownerOf tokenId in
  require (negb (to =? owner)) "ERC721: approval to current owner" ;;;
  let* all := isApprovedForAll owner msg_sender in
  require ((msg_sender =? owner) || all)
    "ERC721: approve caller is not token owner or approved for all" ;;;
  update_erc (set_approval tokenId to).

Definition setApprovalForAll (msg_sender operator : address) (approved : bool) : Tx St unit :=
  require (negb (msg_sender =? operator)) "ERC721: approve to caller" ;;;
  update_erc (set_operator msg_sender operator approved).
End ERC721.

(** ERC2981 and MerkleProof, as far as the minting paths use them. *)

Definition _feeDenominator : uint96 := 10000.

Section MerkleProof.
Context `{Host}.

Definition _hashPair (a b : bytes32) : bytes32 :=
  if a <? b then keccak256_pair a b else keccak256_pair b a.

Definition processProof (proof : list bytes32) (leaf : bytes32) : bytes32 :=
  fold_left _hashPair proof leaf.

Definition verify (proof : list bytes32) (root leaf : bytes32) : bool :=
  processProof proof leaf =? root.
End MerkleProof.

(** Strings.toHexString(value, length): "0x" and 2 * length lower-case
    hexadecimal digits, the low digits of [value] (an address has 20 bytes,
    a role 32, so nothing is cut off). *)
Definition _SYMBOLS : string := "0123456789abcdef".

Definition hex_symbol (d : N) : ascii :=
  match String.get (N.to_nat d) _SYMBOLS with
  | Some c => c
  | None => "0"%char
  end.

Fixpoint hex_digits (n : nat) (value : N) (acc : string) : string :=
  match n with
  | O => acc
  | S n' => hex_digits n' (value / 16) (String (hex_symbol (value mod 16)) acc)
  end.

Definition toHexString (value : N) (length : nat) : string :=
  String.append "0x" (hex_digits (2 * length) value EmptyString).

(** The text of the revert of AccessControl._checkRole. *)
Definition AccessControl_missing_role (account : address) (role : bytes32) : string :=
  String.append "AccessControl: account "
    (String.append (toHexString account 20)
       (String.append " is missing role " (toHexString role 32))).

(** [bytes(s).length > 0] *)
Definition nonempty (s : string) : bool := (0 <? String.length s)%nat.

(** The tokens minted so far, oldest first, as the event log records them. *)
Definition minted_ids (log : list Event) : list uint256 :=
  omap (fun e => match e with
                 | Transfer 0 _ tokenId => Some tokenId
                 | _ => None
                 end) log.

(** The ids [1, 2, .., n]. *)
Definition ids_upto (n : uint256) : list uint256 := map N.of_nat (seq 1 (N.to_nat n)).

Definition is_LicenseMinted (e : Event) : bool :=
  match e with LicenseMinted _ _ _ _ => true | _ => false end.

Definition license_events (log : list Event) : list Event :=
  List.filter is_LicenseMinted log.

(** * CollectibleLicenseNFT *)

Module CollectibleLicenseNFT.

Record License : Type := {
  appId : string;
  expiry : uint64;
  soulbound : bool;
  ephemeral : bool
}.

Definition License_zero : License :=
  {| appId := ""; expiry := 0; soulbound := false; ephemeral := false |}.

Record State : Type := {
  erc721 : ERC721Storage;
  licenses : gmap N License;
  userAppToken : gmap (N * N) N;
  redeemed : gmap N bool;
  nextTokenId : uint256;
  MAX_SUPPLY : uint256;
  openMinting : bool;
  merkleRoot : bytes32;
  _roles : gset (N * N);
  _tokenRoyaltyInfo : gmap N (N * N);
  log : list Event
}.

Definition set_erc721 (e : ERC721Storage) (s : State) : State :=
  {| erc721 := e; licenses := licenses s; userAppToken := userAppToken s;
     redeemed := redeemed s; nextTokenId := nextTokenId s; MAX_SUPPLY := MAX_SUPPLY s;
     openMinting := openMinting s; merkleRoot := merkleRoot s; _roles := _roles s;
     _tokenRoyaltyInfo := _tokenRoyaltyInfo s; log := log s |}.

Definition set_licenses (f : gmap N License -> gmap N License) (s : State) : State :=
  {| erc721 := erc721 s; licenses := f (licenses s); userAppToken := userAppToken s;
     redeemed := redeemed s; nextTokenId := nextTokenId s; MAX_SUPPLY := MAX_SUPPLY s;
     openMinting := openMinting s; merkleRoot := merkleRoot s; _roles := _roles s;
     _tokenRoyaltyInfo := _tokenRoyaltyInfo s; log := log s |}.

Definition set_userAppToken (f : gmap (N * N) N -> gmap (N * N) N) (s : State) : State :=
  {| erc721 := erc721 s; licenses := licenses s; userAppToken := f (userAppToken s);
     redeemed := redeemed s; nextTokenId := nextTokenId s; MAX_SUPPLY := MAX_SUPPLY s;
     openMinting := openMinting s; merkleRoot := merkleRoot s; _roles := _roles s;
     _tokenRoyaltyInfo := _tokenRoyaltyInfo s; log := log s |}.

Definition set_redeemed (f : gmap N bool -> gmap N bool) (s : State) : State :=
  {| erc721 := erc721 s; licenses := licenses s; userAppToken := userAppToken s;
     redeemed := f (redeemed s); nextTokenId := nextTokenId s; MAX_SUPPLY := MAX_SUPPLY s;
     openMinting := openMinting s; merkleRoot := merkleRoot s; _roles := _roles s;
     _tokenRoyaltyInfo := _tokenRoyaltyInfo s; log := log s |}.

Definition set_nextTokenId (n : uint256) (s : State) : State :=
  {| erc721 := erc721 s; licenses := licenses s; userAppToken := userAppToken s;
     redeemed := redeemed s; nextTokenId := n; MAX_SUPPLY := MAX_SUPPLY s;
     openMinting := openMinting s; merkleRoot := merkleRoot s; _roles := _roles s;
     _tokenRoyaltyInfo := _tokenRoyaltyInfo s; log := log s |}.

Definition set_openMinting (b : bool) (s : State) : State :=
  {| erc721 := erc721 s; licenses := licenses s; userAppToken := userAppToken s;
     redeemed := redeemed s; nextTokenId := nextTokenId s; MAX_SUPPLY := MAX_SUPPLY s;
     openMinting := b; merkleRoot := merkleRoot s; _roles := _roles s;
     _tokenRoyaltyInfo := _tokenRoyaltyInfo s; log := log s |}.

Definition set_merkleRoot (r : bytes32) (s : State) : State :=
  {| erc721 := erc721 s; licenses := licenses s; userAppToken := userAppToken s;
     redeemed := redeemed s; nextTokenId := nextTokenId s; MAX_SUPPLY := MAX_SUPPLY s;
     openMinting := openMinting s; merkleRoot := r; _roles := _roles s;
     _tokenRoyaltyInfo := _tokenRoyaltyInfo s; log := log s |}.

Definition set_roles (f : gset (N * N) -> gset (N * N)) (s : State) : State :=
  {| erc721 := erc721 s; licenses := licenses s; userAppToken := userAppToken s;
     redeemed := redeemed s; nextTokenId := nextTokenId s; MAX_SUPPLY := MAX_SUPPLY s;
     openMinting := openMinting s; merkleRoot := merkleRoot s; _roles := f (_roles s);
     _tokenRoyaltyInfo := _tokenRoyaltyInfo s; log := log s |}.

Definition set_tokenRoyaltyInfo (f : gmap N (N * N) -> gmap N (N * N)) (s : State) : State :=
  {| erc721 := erc721 s; licenses := licenses s; userAppToken := userAppToken s;
     redeemed := redeemed s; nextTokenId := nextTokenId s; MAX_SUPPLY := MAX_SUPPLY s;
     openMinting := openMinting s; merkleRoot := merkleRoot s; _roles := _roles s;
     _tokenRoyaltyInfo := f (_tokenRoyaltyInfo s); log := log s |}.

Definition push_event (e : Event) (s : State) : State :=
  {| erc721 := erc721 s; licenses := licenses s; userAppToken := userAppToken s;
     redeemed := redeemed s; nextTokenId := nextTokenId s; MAX_SUPPLY := MAX_SUPPLY s;
     openMinting := openMinting s; merkleRoot := merkleRoot s; _roles := _roles s;
     _tokenRoyaltyInfo := _tokenRoyaltyInfo s; log := log s ++ [e] |}.

(** Reads of the public mappings. *)
Definition license_of (s : State) (tokenId : uint256) : License :=
  default License_zero (licenses s !! tokenId).

Definition lookup (s : State) (user : address) (aHash : bytes32) : uint256 :=
  slot (userAppToken s) (user, aHash).

Definition is_redeemed (s : State) (tokenId : uint256) : bool :=
  default false (redeemed s !! tokenId).

Definition owner_of (s : State) (tokenId : uint256) : address :=
  slot (_owners (erc721 s)) tokenId.

Definition DEFAULT_ADMIN_ROLE : bytes32 := 0.

Section Contract.
Context `{Host}.

Definition MINTER_ROLE : bytes32 := keccak256 "MINTER_ROLE".

Definition hasRole (s : State) (role : bytes32) (account : address) : bool :=
  bool_decide ((role, account) ∈ _roles s).

Definition onlyRole (role : bytes32) (msg_sender : address) : Tx State unit :=
  let* ok := gets (fun s => hasRole s role msg_sender) in
  if ok then ret tt else revert (Error (AccessControl_missing_role msg_sender role)).

(** The override of _beforeTokenTransfer(from, to, tokenId, batchSize).  Its
    call to super is ERC721Enumerable's bookkeeping, which touches neither
    the licences nor the index. *)
Definition beforeTokenTransfer (from to : address) (tokenId : uint256) : Tx State unit :=
  when (negb (from =? 0) && negb (to =? 0)) (
    let* lic := gets (fun s => license_of s tokenId) in
    require (negb (soulbound lic)) "Token is soulbound" ;;;
    when (nonempty (appId lic)) (
      let aHash := keccak256 (appId lic) in
      let* cur := gets (fun s => lookup s from aHash) in
      when (cur =? tokenId) (modify (set_userAppToken (delete (from, aHash)))) ;;;
      modify (set_userAppToken <[(to, aHash) := tokenId]>))).

#[export] Instance Collectible_ERC721 : ERC721Contract State :=
  {| erc := erc721;
     with_erc := set_erc721;
     emit := push_event;
     _beforeTokenTransfer := beforeTokenTransfer |}.

Definition _setTokenRoyalty (tokenId : uint256) (receiver : address) (feeNumerator : uint96)
  : Tx State unit :=
  require (feeNumerator <=? _feeDenominator) "ERC2981: royalty fee will exceed salePrice" ;;;
  require (negb (receiver =? 0)) "ERC2981: Invalid parameters" ;;;
  modify (set_tokenRoyaltyInfo <[tokenId := (receiver, feeNumerator)]>).

Definition _resetTokenRoyalty (tokenId : uint256) : Tx State unit :=
  modify (set_tokenRoyaltyInfo (delete tokenId)).

Definition _burn (tokenId : uint256) : Tx State unit :=
  ERC721URIStorage_burn tokenId ;;;
  _resetTokenRoyalty tokenId.

Definition constructor (msg_sender : address) (maxSupply_ : uint256) : State :=
  {| erc721 := ERC721_empty; licenses := ∅; userAppToken := ∅; redeemed := ∅;
     nextTokenId := 0; MAX_SUPPLY := maxSupply_;
     openMinting := false; merkleRoot := 0;
     _roles := {[ (DEFAULT_ADMIN_ROLE, msg_sender); (MINTER_ROLE, msg_sender) ]};
     _tokenRoyaltyInfo := ∅; log := [] |}.

(** The licence block shared by mintCollectible and openMint. *)
Definition write_license (to : address) (tokenId : uint256) (appId_ : string)
    (expiry_ : uint64) (soulbound_ ephemeral_ : bool) : Tx State unit :=
  when (nonempty appId_) (
    let aHash := keccak256 appId_ in
    let* cur := gets (fun s => lookup s to aHash) in
    require (cur =? 0) "User already owns this app" ;;;
    modify (set_licenses <[tokenId :=
      {| appId := appId_; expiry := expiry_;
         soulbound := soulbound_; ephemeral := ephemeral_ |}]>) ;;;
    modify (set_userAppToken <[(to, aHash) := tokenId]>) ;;;
    modify (push_event (LicenseMinted to tokenId appId_ expiry_))).

Definition mintCollectible (msg_sender to : address) (tokenURI_ appId_ : string)
    (expiry_ : uint64) (soulbound_ ephemeral_ : bool)
    (royaltyReceiver : address) (royaltyFraction : uint96) : Tx State uint256 :=
  onlyRole MINTER_ROLE msg_sender ;;;
  let* next := gets nextTokenId in
  let* max := gets MAX_SUPPLY in
  require (next <? max) "Max supply reached" ;;;
  let* tokenId := checked_incr next in
  modify (set_nextTokenId tokenId) ;;;
  _safeMint msg_sender to tokenId ;;;
  _setTokenURI tokenId tokenURI_ ;;;
  write_license to tokenId appId_ expiry_ soulbound_ ephemeral_ ;;;
  when (negb (royaltyReceiver =? 0))
    (_setTokenRoyalty tokenId royaltyReceiver royaltyFraction) ;;;
  ret tokenId.

Definition openMint (msg_sender : address) (tokenURI_ appId_ : string)
    (expiry_ : uint64) (soulbound_ ephemeral_ : bool)
    (merkleProof : list bytes32) : Tx State uint256 :=
  let* enabled := gets openMinting in
  require enabled "Open minting disabled" ;;;
  let* next := gets nextTokenId in
  let* max := gets MAX_SUPPLY in
  require (next <? max) "Max supply reached" ;;;
  let* root := gets merkleRoot in
  when (negb (root =? 0)) (
    let leaf := keccak256_address msg_sender in
    require (verify merkleProof root leaf) "Not allowlisted") ;;;
  let* tokenId := checked_incr next in
  modify (set_nextTokenId tokenId) ;;;
  _safeMint msg_sender msg_sender tokenId ;;;
  _setTokenURI tokenId tokenURI_ ;;;
  write_license msg_sender tokenId appId_ expiry_ soulbound_ ephemeral_ ;;;
  ret tokenId.

(** [a[i]] on a calldata array: reading past the end panics with 0x32. *)
Definition at_index {A} (a : list A) (i : nat) : Tx State A :=
  match a !! i with
  | Some x => ret x
  | None => revert (Panic 50)
  end.

(** The body of the [for] loop of batchMint from index [i] on, [n]
    iterations being left. *)
Fixpoint batchMint_from (msg_sender : address) (n i : nat)
    (recipients : list address) (uris appIds : list string) (expiries : list uint64)
    (soulbounds ephemerals : list bool)
    (royaltyReceivers : list address) (royaltyFractions : list uint96) : Tx State unit :=
  match n with
  | O => ret tt
  | S n' =>
      let* to := at_index recipients i in
      let* uri := at_index uris i in
      let* app := at_index appIds i in
      let* exp := at_index expiries i in
      let* sb := at_index soulbounds i in
      let* eph := at_index ephemerals i in
      let* rr := at_index royaltyReceivers i in
      let* rf := at_index royaltyFractions i in
      mintCollectible msg_sender to uri app exp sb eph rr rf ;;;
      batchMint_from msg_sender n' (S i) recipients uris appIds expiries
        soulbounds ephemerals royaltyReceivers royaltyFractions
  end.

Definition same_length {A B} (a : list A) (b : list B) : bool :=
  (length a =? length b)%nat.

(** The eight arrays of a batch have one length. *)
Definition same_lengths {A B C D E F G I} (a : list A) (b : list B) (c : list C)
    (d : list D) (e : list E) (f : list F) (g : list G) (i : list I) : Prop :=
  length a = length b /\ length b = length c /\ length c = length d /\
  length d = length e /\ length e = length f /\ length f = length g /\
  length g = length i.

Definition batchMint (msg_sender : address)
    (recipients : list address) (uris appIds : list string) (expiries : list uint64)
    (soulbounds ephemerals : list bool)
    (royaltyReceivers : list address) (royaltyFractions : list uint96) : Tx State unit :=
  onlyRole MINTER_ROLE msg_sender ;;;
  require (same_length recipients uris &&
           same_length uris appIds &&
           same_length appIds expiries &&
           same_length expiries soulbounds &&
           same_length soulbounds ephemerals &&
           same_length ephemerals royaltyReceivers &&
           same_length royaltyReceivers royaltyFractions)
    "Array length mismatch" ;;;
  batchMint_from msg_sender (length recipients) 0 recipients uris appIds expiries
    soulbounds ephemerals royaltyReceivers royaltyFractions.

(** openMint, redeem and burn are [nonReentrant]; when no recipient calls
    back the guard is never found entered.  [CollectibleLicenseNFTR] has
    the guard. *)
Definition redeem (msg_sender : address) (tokenId : uint256) : Tx State unit :=
  let* owner := ownerOf tokenId in
  require (owner =? msg_sender) "Not owner" ;;;
  let* lic := gets (fun s => license_of s tokenId) in
  require (ephemeral lic) "Not ephemeral" ;;;
  let* done := gets (fun s => is_redeemed s tokenId) in
  require (negb done) "Already redeemed" ;;;
  modify (set_redeemed <[tokenId := true]>) ;;;
  modify (push_event (Redeemed msg_sender tokenId)).

(** The storage after a redeem that went through. *)
Definition redeemed_state (caller : address) (tokenId : uint256) (s : State) : State :=
  push_event (Redeemed caller tokenId) (set_redeemed <[tokenId := true]> s).

Definition burn (msg_sender : address) (tokenId : uint256) : Tx State unit :=
  let* owner := ownerOf tokenId in
  require (owner =? msg_sender) "Not owner" ;;;
  let* lic := gets (fun s => license_of s tokenId) in
  when (nonempty (appId lic)) (
    let aHash := keccak256 (appId lic) in
    modify (set_userAppToken (delete (msg_sender, aHash))) ;;;
    modify (set_licenses (delete tokenId))) ;;;
  _burn tokenId.

Definition setOpenMinting (msg_sender : address) (enabled : bool) : Tx State unit :=
  onlyRole DEFAULT_ADMIN_ROLE msg_sender ;;;
  modify (set_openMinting enabled).

Definition setMerkleRoot (msg_sender : address) (root : bytes32) : Tx State unit :=
  onlyRole DEFAULT_ADMIN_ROLE msg_sender ;;;
  modify (set_merkleRoot root).

(** AccessControl: every role is administered by DEFAULT_ADMIN_ROLE. *)
Definition grantRole (msg_sender : address) (role : bytes32) (account : address)
  : Tx State unit :=
  onlyRole DEFAULT_ADMIN_ROLE msg_sender ;;;
  modify (set_roles (fun r => {[ (role, account) ]} ∪ r)).

Definition revokeRole (msg_sender : address) (role : bytes32) (account : address)
  : Tx State unit :=
  onlyRole DEFAULT_ADMIN_ROLE msg_sender ;;;
  modify (set_roles (fun r => r ∖ {[ (role, account) ]})).

Definition renounceRole (msg_sender : address) (role : bytes32) (account : address)
  : Tx State unit :=
  require (account =? msg_sender) "AccessControl: can only renounce roles for self" ;;;
  modify (set_roles (fun r => r ∖ {[ (role, account) ]})).

(** ** Transactions *)

Inductive Call : Type :=
| call_mintCollectible (to : address) (tokenURI_ appId_ : string) (expiry_ : uint64)
    (soulbound_ ephemeral_ : bool) (royaltyReceiver : address) (royaltyFraction : uint96)
| call_openMint (tokenURI_ appId_ : string) (expiry_ : uint64)
    (soulbound_ ephemeral_ : bool) (merkleProof : list bytes32)
| call_batchMint (recipients : list address) (uris appIds : list string)
    (expiries : list uint64) (soulbounds ephemerals : list bool)
    (royaltyReceivers : list address) (royaltyFractions : list uint96)
| call_redeem (tokenId : uint256)
| call_burn (tokenId : uint256)
| call_transferFrom (from to : address) (tokenId : uint256)
| call_safeTransferFrom (from to : address) (tokenId : uint256)
| call_approve (to : address) (tokenId : uint256)
| call_setApprovalForAll (operator : address) (approved : bool)
| call_setOpenMinting (enabled : bool)
| call_setMerkleRoot (root : bytes32)
| call_grantRole (role : bytes32) (account : address)
| call_revokeRole (role : bytes32) (account : address)
| call_renounceRole (role : bytes32) (account : address).

Record Txn : Type := { msg_sender : address; msg_call : Call }.

Definition forget {A} (m : Tx State A) : Tx State unit := m ;;; ret tt.

Definition dispatch (tx : Txn) : Tx State unit :=
  let sender := msg_sender tx in
  match msg_call tx with
  | call_mintCollectible to uri app exp sb eph rr rf =>
      forget (mintCollectible sender to uri app exp sb eph rr rf)
  | call_openMint uri app exp sb eph proof =>
      forget (openMint sender uri app exp sb eph proof)
  | call_batchMint rs us aps es sbs ephs rrs rfs =>
      batchMint sender rs us aps es sbs ephs rrs rfs
  | call_redeem tokenId => redeem sender tokenId
  | call_burn tokenId => burn sender tokenId
  | call_transferFrom from to tokenId => transferFrom sender from to tokenId
  | call_safeTransferFrom from to tokenId => safeTransferFrom sender from to tokenId
  | call_approve to tokenId => approve sender to tokenId
  | call_setApprovalForAll operator approved => setApprovalForAll sender operator approved
  | call_setOpenMinting enabled => setOpenMinting sender enabled
  | call_setMerkleRoot root => setMerkleRoot sender root
  | call_grantRole role account => grantRole sender role account
  | call_revokeRole role account => revokeRole sender role account
  | call_renounceRole role account => renounceRole sender role account
  end.

(** A mint by [minter] to [to] with no application id. *)
Definition blank_mint (minter to : address) : Txn :=
  {| msg_sender := minter;
     msg_call := call_mintCollectible to "" "" 0 false false 0 0 |}.

(** One transaction, then a history of them, applied to the storage. *)
Definition step (s : State) (tx : Txn) : State := commit (dispatch tx) s.

Definition run (txs : list Txn) (s : State) : State := fold_left step txs s.

(** ** Consistency of the ownership index with the registry *)

(** Every index entry names a token that exists, is held by the entry's
    owner and carries the entry's application. *)
Definition no_dangling (s : State) : Prop :=
  forall user aHash tokenId,
    lookup s user aHash = tokenId -> tokenId <> 0 ->
    owner_of s tokenId = user /\ user <> 0 /\
    nonempty (appId (license_of s tokenId)) = true /\
    aHash = keccak256 (appId (license_of s tokenId)).

(** No token is named by two index entries. *)
Definition no_duplicate (s : State) : Prop :=
  forall user aHash user' aHash' tokenId,
    lookup s user aHash = tokenId -> lookup s user' aHash' = tokenId ->
    tokenId <> 0 -> user = user' /\ aHash = aHash'.

(** Every live licensed token is the entry of its holder and
    application. *)
Definition index_complete (s : State) : Prop :=
  forall tokenId,
    owner_of s tokenId <> 0 ->
    nonempty (appId (license_of s tokenId)) = true ->
    lookup s (owner_of s tokenId) (keccak256 (appId (license_of s tokenId))) = tokenId.

(** What every state reached from a deployment with [maxSupply_]
    satisfies. *)
Record Inv (maxSupply_ : uint256) (s : State) : Prop := {
  inv_ids : forall tokenId, owner_of s tokenId <> 0 -> 1 <= tokenId <= nextTokenId s;
  inv_index : no_dangling s;
  inv_minted : minted_ids (log s) = ids_upto (nextTokenId s);
  inv_supply : nextTokenId s <= MAX_SUPPLY s;
  inv_max : MAX_SUPPLY s = maxSupply_
}.
End Contract.
End CollectibleLicenseNFT.

(** * AppBoundLicense *)

Module AppBoundLicense.

Record License : Type := {
  appId : string;
  expiry : uint64
}.

Definition License_zero : License := {| appId := ""; expiry := 0 |}.

Record State : Type := {
  erc721 : ERC721Storage;
  licenses : gmap N License;
  userAppToken : gmap (N * N) N;
  nextTokenId : uint256;
  _owner : address;
  log : list Event
}.

Definition set_erc721 (e : ERC721Storage) (s : State) : State :=
  {| erc721 := e; licenses := licenses s; userAppToken := userAppToken s;
     nextTokenId := nextTokenId s; _owner := _owner s; log := log s |}.

Definition set_licenses (f : gmap N License -> gmap N License) (s : State) : State :=
  {| erc721 := erc721 s; licenses := f (licenses s); userAppToken := userAppToken s;
     nextTokenId := nextTokenId s; _owner := _owner s; log := log s |}.

Definition set_userAppToken (f : gmap (N * N) N -> gmap (N * N) N) (s : State) : State :=
  {| erc721 := erc721 s; licenses := licenses s; userAppToken := f (userAppToken s);
     nextTokenId := nextTokenId s; _owner := _owner s; log := log s |}.

Definition set_nextTokenId (n : uint256) (s : State) : State :=
  {| erc721 := erc721 s; licenses := licenses s; userAppToken := userAppToken s;
     nextTokenId := n; _owner := _owner s; log := log s |}.

Definition set_owner_account (a : address) (s : State) : State :=
  {| erc721 := erc721 s; licenses := licenses s; userAppToken := userAppToken s;
     nextTokenId := nextTokenId s; _owner := a; log := log s |}.

Definition push_event (e : Event) (s : State) : State :=
  {| erc721 := erc721 s; licenses := licenses s; userAppToken := userAppToken s;
     nextTokenId := nextTokenId s; _owner := _owner s; log := log s ++ [e] |}.

Definition license_of (s : State) (tokenId : uint256) : License :=
  default License_zero (licenses s !! tokenId).

Definition lookup (s : State) (user : address) (aHash : bytes32) : uint256 :=
  slot (userAppToken s) (user, aHash).

Definition owner_of (s : State) (tokenId : uint256) : address :=
  slot (_owners (erc721 s)) tokenId.

Section Contract.
Context `{Host}.

Definition onlyOwner (msg_sender : address) : Tx State unit :=
  let* owner := gets _owner in
  require (owner =? msg_sender) "Ownable: caller is not the owner".

(** The override of _beforeTokenTransfer(from, to, tokenId); its call to
    super is ERC721's empty hook. *)
Definition beforeTokenTransfer (from to : address) (tokenId : uint256) : Tx State unit :=
  when (negb (from =? 0) && negb (to =? 0)) (
    let* lic := gets (fun s => license_of s tokenId) in
    let aHash := keccak256 (appId lic) in
    let* cur := gets (fun s => lookup s from aHash) in
    when (cur =? tokenId) (modify (set_userAppToken (delete (from, aHash)))) ;;;
    modify (set_userAppToken <[(to, aHash) := tokenId]>)).

#[export] Instance AppBound_ERC721 : ERC721Contract State :=
  {| erc := erc721;
     with_erc := set_erc721;
     emit := push_event;
     _beforeTokenTransfer := beforeTokenTransfer |}.

Definition constructor (msg_sender : address) : State :=
  {| erc721 := ERC721_empty; licenses := ∅; userAppToken := ∅;
     nextTokenId := 0; _owner := msg_sender; log := [] |}.

Definition mintTo (msg_sender to : address) (appId_ tokenURI_ : string) (expiry_ : uint64)
  : Tx State uint256 :=
  onlyOwner msg_sender ;;;
  let aHash := keccak256 appId_ in
  let* cur := gets (fun s => lookup s to aHash) in
  require (cur =? 0) "ALREADY_OWN_THIS_APP" ;;;
  let* next := gets nextTokenId in
  let* tokenId := checked_incr next in
  modify (set_nextTokenId tokenId) ;;;
  _safeMint msg_sender to tokenId ;;;
  _setTokenURI tokenId tokenURI_ ;;;
  modify (set_licenses <[tokenId := {| appId := appId_; expiry := expiry_ |}]>) ;;;
  modify (set_userAppToken <[(to, aHash) := tokenId]>) ;;;
  modify (push_event (LicenseMinted to tokenId appId_ expiry_)) ;;;
  ret tokenId.

Definition burn (msg_sender : address) (tokenId : uint256) : Tx State unit :=
  let* owner := ownerOf tokenId in
  require (owner =? msg_sender) "NOT_OWNER" ;;;
  let* lic := gets (fun s => license_of s tokenId) in
  let aHash := keccak256 (appId lic) in
  modify (set_licenses (delete tokenId)) ;;;
  modify (set_userAppToken (delete (msg_sender, aHash))) ;;;
  ERC721URIStorage_burn tokenId ;;;
  modify (push_event (LicenseBurned msg_sender tokenId)).

Definition checkLicense (user : address) (appId_ : string)
  : Tx State (uint256 * string * uint64) :=
  let aHash := keccak256 appId_ in
  let* tokenId := gets (fun s => lookup s user aHash) in
  if negb (tokenId =? 0) then
    let* metadataURI := tokenURI tokenId in
    let* lic := gets (fun s => license_of s tokenId) in
    ret (tokenId, metadataURI, expiry lic)
  else ret (tokenId, "", 0).

(** Ownable *)
Definition transferOwnership (msg_sender newOwner : address) : Tx State unit :=
  onlyOwner msg_sender ;;;
  require (negb (newOwner =? 0)) "Ownable: new owner is the zero address" ;;;
  modify (set_owner_account newOwner).

Definition renounceOwnership (msg_sender : address) : Tx State unit :=
  onlyOwner msg_sender ;;;
  modify (set_owner_account 0).

Inductive Call : Type :=
| call_mintTo (to : address) (appId_ tokenURI_ : string) (expiry_ : uint64)
| call_burn (tokenId : uint256)
| call_transferFrom (from to : address) (tokenId : uint256)
| call_safeTransferFrom (from to : address) (tokenId : uint256)
| call_approve (to : address) (tokenId : uint256)
| call_setApprovalForAll (operator : address) (approved : bool)
| call_transferOwnership (newOwner : address)
| call_renounceOwnership.

Record Txn : Type := { msg_sender : address; msg_call : Call }.

Definition dispatch (tx : Txn) : Tx State unit :=
  let sender := msg_sender tx in
  match msg_call tx with
  | call_mintTo to app uri exp => mintTo sender to app uri exp ;;; ret tt
  | call_burn tokenId => burn sender tokenId
  | call_transferFrom from to tokenId => transferFrom sender from to tokenId
  | call_safeTransferFrom from to tokenId => safeTransferFrom sender from to tokenId
  | call_approve to tokenId => approve sender to tokenId
  | call_setApprovalForAll operator approved => setApprovalForAll sender operator approved
  | call_transferOwnership newOwner => transferOwnership sender newOwner
  | call_renounceOwnership => renounceOwnership sender
  end.

Definition step (s : State) (tx : Txn) : State := commit (dispatch tx) s.

Definition run (txs : list Txn) (s : State) : State := fold_left step txs s.

(** ** Consistency of the ownership index with the registry *)

Definition no_dangling (s : State) : Prop :=
  forall user aHash tokenId,
    lookup s user aHash = tokenId -> tokenId <> 0 ->
    owner_of s tokenId = user /\ user <> 0 /\
    aHash = keccak256 (appId (license_of s tokenId)).

Definition no_duplicate (s : State) : Prop :=
  forall user aHash user' aHash' tokenId,
    lookup s user aHash = tokenId -> lookup s user' aHash' = tokenId ->
    tokenId <> 0 -> user = user' /\ aHash = aHash'.

Definition index_complete (s : State) : Prop :=
  forall tokenId,
    owner_of s tokenId <> 0 ->
    lookup s (owner_of s tokenId) (keccak256 (appId (license_of s tokenId))) = tokenId.

Record Inv (s : State) : Prop := {
  inv_ids : forall tokenId, owner_of s tokenId <> 0 -> 1 <= tokenId <= nextTokenId s;
  inv_index : no_dangling s;
  inv_minted : minted_ids (log s) = ids_upto (nextTokenId s)
}.
End Contract.
End AppBoundLicense.

(** * Recipients that call back

    [_checkOnERC721Received] calls [onERC721Received] on a recipient that
    has code.  The recipient runs with the storage as the caller has left it
    so far, may read it, may call the token contract any number of times
    (itself, or through other contracts, so under any sender) and go on
    according to whether each call returned or reverted, and in the end
    answers or reverts.  An answer other than the selector makes the caller
    revert with "ERC721: transfer to non ERC721Receiver implementer", and so
    does a revert without data; a revert with data is passed on.  An
    account without code is [Answer true]. *)

Module Callbacks.

Inductive Script (St Txn : Type) : Type :=
| Answer (accept : bool)
| Throw (reason : revert_reason)
| Call (tx : Txn) (k : result unit -> Script St Txn)
| Look (k : St -> Script St Txn).
Arguments Answer {St Txn} accept.
Arguments Throw {St Txn} reason.
Arguments Call {St Txn} tx k.
Arguments Look {St Txn} k.

(** [receiver to operator from tokenId]: what [to] does when it is called
    with onERC721Received(operator, from, tokenId, ""). *)
Class Receivers (St Txn : Type) : Type := {
  receiver : address -> address -> address -> uint256 -> Script St Txn
}.

(** A call that finds the call stack exhausted fails without revert data.
    No [require] of the contracts has an empty message, and [Error ""]
    stands for a revert without data. *)
Definition call_failed : revert_reason := Error "".

Definition without_data (reason : revert_reason) : bool :=
  match reason with
  | Error "" => true
  | _ => false
  end.

(** The recipient's code, [reenter] being the token contract as the
    recipient can call it.  A call that reverts leaves the storage as it was
    before that call, and the recipient goes on. *)
Fixpoint run_script {St Txn} (reenter : Txn -> Tx St unit) (sc : Script St Txn)
  : Tx St bool :=
  match sc with
  | Answer accept => ret accept
  | Throw reason => revert reason
  | Call tx k =>
      fun s => match reenter tx s with
               | Ok (_, s') => run_script reenter (k (Ok tt)) s'
               | Revert r => run_script reenter (k (Revert r)) s
               end
  | Look k => fun s => run_script reenter (k s) s
  end.

Section ERC721.
Context `{Host} {St Txn : Type} `{ERC721Contract St} `{Receivers St Txn}.
Variable reenter : Txn -> Tx St unit.

(** The try and the catch of _checkOnERC721Received. *)
Definition _checkOnERC721Received (operator from to : address) (tokenId : uint256)
  : Tx St bool :=
  fun s =>
    match run_script reenter (receiver to operator from tokenId) s with
    | Ok answer => Ok answer
    | Revert reason =>
        if without_data reason
        then Revert (Error "ERC721: transfer to non ERC721Receiver implementer")
        else Revert reason
    end.

Definition _safeMint (msg_sender : address) (to : address) (tokenId : uint256) : Tx St unit :=
  _mint to tokenId ;;;
  let* ok := _checkOnERC721Received msg_sender 0 to tokenId in
  require ok "ERC721: transfer to non ERC721Receiver implementer".

Definition safeTransferFrom (msg_sender from to : address) (tokenId : uint256) : Tx St unit :=
  let* ok := _isApprovedOrOwner msg_sender tokenId in
  require ok "ERC721: caller is not token owner or approved" ;;;
  _transfer from to tokenId ;;;
  let* ok := _checkOnERC721Received msg_sender from to tokenId in
  require ok "ERC721: transfer to non ERC721Receiver implementer".

(** [to] answers as the host says and calls nothing. *)
Definition answers_only (to : address) : Prop :=
  forall operator from tokenId,
    receiver to operator from tokenId = Answer (onERC721Received to operator from tokenId).
End ERC721.

(** Code that calls nothing: it may read the storage, and it answers or
    reverts. *)
Fixpoint calls_nothing {St Txn : Type} (sc : Script St Txn) : Prop :=
  match sc with
  | Answer _ | Throw _ => True
  | Call _ _ => False
  | Look k => forall s, calls_nothing (k s)
  end.

(** [to] does not call back, whoever sends it which token. *)
Definition quiet {St Txn : Type} `{Receivers St Txn} (to : address) : Prop :=
  forall operator from tokenId, calls_nothing (receiver to operator from tokenId).

(** No recipient calls back. *)
Definition no_callbacks {St Txn : Type} `{Receivers St Txn} : Prop :=
  forall to, quiet (St := St) (Txn := Txn) to.

(** The recipients that answer as the host says and call nothing: accounts
    without code, and contracts whose onERC721Received leaves the token
    contract alone. *)
Definition passive `{Host} {St Txn : Type} : Receivers St Txn :=
  {| receiver := fun to operator from tokenId =>
       Answer (onERC721Received to operator from tokenId) |}.

(** The host on which every recipient accepts: what a call that returned
    has met when its recipient called nothing. *)
Definition accepting (H : Host) : Host :=
  {| keccak256 := keccak256;
     keccak256_address := keccak256_address;
     keccak256_pair := keccak256_pair;
     onERC721Received := fun _ _ _ _ => true |}.

(** A call as a contract written in Solidity makes it: when the token
    contract reverts the caller reverts with the same reason, and otherwise
    it accepts the token. *)
Definition then_accept {St Txn : Type} (tx : Txn) : Script St Txn :=
  Call tx (fun r => match r with
                    | Ok _ => Answer true
                    | Revert reason => Throw reason
                    end).
End Callbacks.

(** ** AppBoundLicense with recipients that call back

    Only mintTo and safeTransferFrom call a recipient.  burn is
    [nonReentrant] and calls nobody, so the guard is never found entered. *)

Module AppBoundLicenseR.
Import AppBoundLicense.

Section Contract.
Context `{Host} `{R : Callbacks.Receivers State Txn}.

Definition mintTo (reenter : Txn -> Tx State unit) (msg_sender to : address)
    (appId_ tokenURI_ : string) (expiry_ : uint64) : Tx State uint256 :=
  onlyOwner msg_sender ;;;
  let aHash := keccak256 appId_ in
  let* cur := gets (fun s => lookup s to aHash) in
  require (cur =? 0) "ALREADY_OWN_THIS_APP" ;;;
  let* next := gets nextTokenId in
  let* tokenId := checked_incr next in
  modify (set_nextTokenId tokenId) ;;;
  Callbacks._safeMint reenter msg_sender to tokenId ;;;
  _setTokenURI tokenId tokenURI_ ;;;
  modify (set_licenses <[tokenId := {| appId := appId_; expiry := expiry_ |}]>) ;;;
  modify (set_userAppToken <[(to, aHash) := tokenId]>) ;;;
  modify (push_event (LicenseMinted to tokenId appId_ expiry_)) ;;;
  ret tokenId.

(** A call at call depth [depth] below the limit: the calls a recipient
    makes run one level deeper, and at the limit they fail. *)
Fixpoint dispatch (depth : nat) (tx : Txn) : Tx State unit :=
  let reenter : Txn -> Tx State unit :=
    match depth with
    | O => fun _ => revert Callbacks.call_failed
    | S d => dispatch d
    end in
  let sender := msg_sender tx in
  match msg_call tx with
  | call_mintTo to app uri exp => mintTo reenter sender to app uri exp ;;; ret tt
  | call_burn tokenId => burn sender tokenId
  | call_transferFrom from to tokenId => transferFrom sender from to tokenId
  | call_safeTransferFrom from to tokenId =>
      Callbacks.safeTransferFrom reenter sender from to tokenId
  | call_approve to tokenId => approve sender to tokenId
  | call_setApprovalForAll operator approved => setApprovalForAll sender operator approved
  | call_transferOwnership newOwner => transferOwnership sender newOwner
  | call_renounceOwnership => renounceOwnership sender
  end.

Definition step (depth : nat) (s : State) (tx : Txn) : State := commit (dispatch depth tx) s.

Definition run (depth : nat) (txs : list Txn) (s : State) : State :=
  fold_left (step depth) txs s.

(** A transfer to an account whose slot for the token's application holds
    another token. *)
Definition displaces (s : State) (tx : Txn) : bool :=
  match msg_call tx with
  | call_transferFrom _ to tokenId | call_safeTransferFrom _ to tokenId =>
      let cur := lookup s to (keccak256 (appId (license_of s tokenId))) in
      negb (cur =? 0) && negb (cur =? tokenId)
  | _ => false
  end.

(** No transaction of the history is such a transfer. *)
Fixpoint undisplaced (depth : nat) (txs : list Txn) (s : State) : bool :=
  match txs with
  | [] => true
  | tx :: rest => negb (displaces s tx) && undisplaced depth rest (step depth s tx)
  end.
End Contract.
End AppBoundLicenseR.

(** ** CollectibleLicenseNFT with recipients that call back

    mintCollectible, openMint, batchMint and safeTransferFrom call a
    recipient.  openMint, redeem and burn are [nonReentrant]: [entered] says
    whether the guard is set where the call is made, which is so inside the
    callback of an openMint and in whatever is called from there. *)

Module CollectibleLicenseNFTR.
Import CollectibleLicenseNFT.

Section Contract.
Context `{Host} `{R : Callbacks.Receivers State Txn}.

Definition nonReentrant {A} (entered : bool) (body : Tx State A) : Tx State A :=
  require (negb entered) "ReentrancyGuard: reentrant call" ;;;
  body.

Definition mintCollectible (reenter : Txn -> Tx State unit) (msg_sender to : address)
    (tokenURI_ appId_ : string) (expiry_ : uint64) (soulbound_ ephemeral_ : bool)
    (royaltyReceiver : address) (royaltyFraction : uint96) : Tx State uint256 :=
  onlyRole MINTER_ROLE msg_sender ;;;
  let* next := gets nextTokenId in
  let* max := gets MAX_SUPPLY in
  require (next <? max) "Max supply reached" ;;;
  let* tokenId := checked_incr next in
  modify (set_nextTokenId tokenId) ;;;
  Callbacks._safeMint reenter msg_sender to tokenId ;;;
  _setTokenURI tokenId tokenURI_ ;;;
  write_license to tokenId appId_ expiry_ soulbound_ ephemeral_ ;;;
  when (negb (royaltyReceiver =? 0))
    (_setTokenRoyalty tokenId royaltyReceiver royaltyFraction) ;;;
  ret tokenId.

(** The body of openMint; [reenter] runs with the guard set. *)
Definition openMint (reenter : Txn -> Tx State unit) (msg_sender : address)
    (tokenURI_ appId_ : string) (expiry_ : uint64) (soulbound_ ephemeral_ : bool)
    (merkleProof : list bytes32) : Tx State uint256 :=
  let* enabled := gets openMinting in
  require enabled "Open minting disabled" ;;;
  let* next := gets nextTokenId in
  let* max := gets MAX_SUPPLY in
  require (next <? max) "Max supply reached" ;;;
  let* root := gets merkleRoot in
  when (negb (root =? 0)) (
    let leaf := keccak256_address msg_sender in
    require (verify merkleProof root leaf) "Not allowlisted") ;;;
  let* tokenId := checked_incr next in
  modify (set_nextTokenId tokenId) ;;;
  Callbacks._safeMint reenter msg_sender msg_sender tokenId ;;;
  _setTokenURI tokenId tokenURI_ ;;;
  write_license msg_sender tokenId appId_ expiry_ soulbound_ ephemeral_ ;;;
  ret tokenId.

Fixpoint batchMint_from (reenter : Txn -> Tx State unit) (msg_sender : address) (n i : nat)
    (recipients : list address) (uris appIds : list string) (expiries : list uint64)
    (soulbounds ephemerals : list bool)
    (royaltyReceivers : list address) (royaltyFractions : list uint96) : Tx State unit :=
  match n with
  | O => ret tt
  | S n' =>
      let* to := at_index recipients i in
      let* uri := at_index uris i in
      let* app := at_index appIds i in
      let* exp := at_index expiries i in
      let* sb := at_index soulbounds i in
      let* eph := at_index ephemerals i in
      let* rr := at_index royaltyReceivers i in
      let* rf := at_index royaltyFractions i in
      mintCollectible reenter msg_sender to uri app exp sb eph rr rf ;;;
      batchMint_from reenter msg_sender n' (S i) recipients uris appIds expiries
        soulbounds ephemerals royaltyReceivers royaltyFractions
  end.

Definition batchMint (reenter : Txn -> Tx State unit) (msg_sender : address)
    (recipients : list address) (uris appIds : list string) (expiries : list uint64)
    (soulbounds ephemerals : list bool)
    (royaltyReceivers : list address) (royaltyFractions : list uint96) : Tx State unit :=
  onlyRole MINTER_ROLE msg_sender ;;;
  require (same_length recipients uris &&
           same_length uris appIds &&
           same_length appIds expiries &&
           same_length expiries soulbounds &&
           same_length soulbounds ephemerals &&
           same_length ephemerals royaltyReceivers &&
           same_length royaltyReceivers royaltyFractions)
    "Array length mismatch" ;;;
  batchMint_from reenter msg_sender (length recipients) 0 recipients uris appIds expiries
    soulbounds ephemerals royaltyReceivers royaltyFractions.

Fixpoint dispatch (depth : nat) (entered : bool) (tx : Txn) : Tx State unit :=
  let reenter (guard : bool) : Txn -> Tx State unit :=
    match depth with
    | O => fun _ => revert Callbacks.call_failed
    | S d => dispatch d guard
    end in
  let sender := msg_sender tx in
  match msg_call tx with
  | call_mintCollectible to uri app exp sb eph rr rf =>
      forget (mintCollectible (reenter entered) sender to uri app exp sb eph rr rf)
  | call_openMint uri app exp sb eph proof =>
      forget (nonReentrant entered (openMint (reenter true) sender uri app exp sb eph proof))
  | call_batchMint rs us aps es sbs ephs rrs rfs =>
      batchMint (reenter entered) sender rs us aps es sbs ephs rrs rfs
  | call_redeem tokenId => nonReentrant entered (redeem sender tokenId)
  | call_burn tokenId => nonReentrant entered (burn sender tokenId)
  | call_transferFrom from to tokenId => transferFrom sender from to tokenId
  | call_safeTransferFrom from to tokenId =>
      Callbacks.safeTransferFrom (reenter entered) sender from to tokenId
  | call_approve to tokenId => approve sender to tokenId
  | call_setApprovalForAll operator approved => setApprovalForAll sender operator approved
  | call_setOpenMinting enabled => setOpenMinting sender enabled
  | call_setMerkleRoot root => setMerkleRoot sender root
  | call_grantRole role account => grantRole sender role account
  | call_revokeRole role account => revokeRole sender role account
  | call_renounceRole role account => renounceRole sender role account
  end.

(** A transaction: the guard is not set when it starts. *)
Definition step (depth : nat) (s : State) (tx : Txn) : State :=
  commit (dispatch depth false tx) s.

Definition run (depth : nat) (txs : list Txn) (s : State) : State :=
  fold_left (step depth) txs s.

(** A transfer of a token with an application id to an account whose slot
    for that application holds another token. *)
Definition displaces (s : State) (tx : Txn) : bool :=
  match msg_call tx with
  | call_transferFrom _ to tokenId | call_safeTransferFrom _ to tokenId =>
      let lic := license_of s tokenId in
      let cur := lookup s to (keccak256 (appId lic)) in
      nonempty (appId lic) && negb (cur =? 0) && negb (cur =? tokenId)
  | _ => false
  end.

Fixpoint undisplaced (depth : nat) (txs : list Txn) (s : State) : bool :=
  match txs with
  | [] => true
  | tx :: rest => negb (displaces s tx) && undisplaced depth rest (step depth s tx)
  end.

(** A licence record belongs to a token that exists and names an
    application. *)
Definition records_live (s : State) : Prop :=
  forall tokenId lic, licenses s !! tokenId = Some lic ->
    owner_of s tokenId <> 0 /\ nonempty (appId lic) = true.
End Contract.
End CollectibleLicenseNFTR.

(** * The access issuance handler (backend/index.js) *)

Module Backend.

(** What the handler reads from the deployed contract through the
    provider; a call that reverts, or that the contract does not have,
    throws. *)
Record Contract : Type := {
  call_userAppToken : address -> bytes32 -> result uint256;
  call_checkLicense : address -> string -> result (uint256 * string * uint64)
}.

(** The payload signed by [jwt.sign(.., { expiresIn: "15m" })]. *)
Record AccessToken : Type := {
  jwt_wallet : address;
  jwt_appId : string;
  jwt_tokenId : uint256;
  jwt_iat : Z;
  jwt_exp : Z
}.

Inductive Response : Type :=
| status_400 (error : string)
| status_403 (error : string)
| status_500 (error : string)
| status_200 (accessToken : AccessToken) (tokenId : uint256).

(** [Number(b)] for a non-negative BigInt: the nearest double, ties to
    even, which is an integer again. *)
Definition Number (b : N) : Z :=
  let n := Z.of_N b in
  if (n <? 2 ^ 53)%Z then n
  else
    let e := (Z.log2 n - 52)%Z in
    let q := Z.shiftr n e in
    let r := Z.land n (Z.ones e) in
    let half := (2 ^ (e - 1))%Z in
    let q' := if (r <? half)%Z then q
              else if (half <? r)%Z then (q + 1)%Z
              else if Z.even q then q else (q + 1)%Z in
    (q' * 2 ^ e)%Z.

(** [Math.floor(Date.now() / 1000)], [ms] being the clock in milliseconds. *)
Definition seconds (ms : Z) : Z := (ms / 1000)%Z.

(** The largest time value of a JavaScript [Date], in milliseconds. *)
Definition max_time_value : Z := 8640000000000000.

(** The access token the handler signs for [w], [app] and [t]. *)
Definition token_for (now_ms : Z) (w : address) (app : string) (t : uint256) : AccessToken :=
{| jwt_wallet := w; jwt_appId := app; jwt_tokenId := t;
   jwt_iat := seconds now_ms; jwt_exp := (seconds now_ms + 900)%Z |}.

Section Handler.
Context `{Host}.

(** The two members of the request body; a member that is missing or
    empty is falsy.  A wallet that is present is a well-formed address. *)
Definition auth (contract : Contract) (now_ms : Z)
    (wallet : option address) (appId : string) : Response :=
  match wallet with
  | None => status_400 "wallet and appId required"
  | Some w =>
      if negb (nonempty appId) then status_400 "wallet and appId required"
      else
        match call_userAppToken contract w (keccak256 appId) with
        | Revert _ => status_500 "server error"
        | Ok tokenId =>
            if tokenId =? 0 then status_403 "No license for this wallet & appId"
            else
              match call_checkLicense contract w appId with
              | Revert _ => status_500 "server error"
              | Ok (_, _, meta_expiry) =>
                  let expiry := if meta_expiry =? 0 then 0%Z else Number meta_expiry in
                  if negb (expiry =? 0)%Z && (expiry <? seconds now_ms)%Z
                  then status_403 "License expired"
                  else
                    let token := token_for now_ms w appId tokenId in
                    status_200 token tokenId
              end
        end
  end.

Definition value_of {St A} (m : Tx St A) (s : St) : result A :=
  match m s with
  | Ok (a, _) => Ok a
  | Revert r => Revert r
  end.

(** The deployed AppBoundLicense, seen from the provider. *)
Definition AppBound_view (s : AppBoundLicense.State) : Contract :=
  {| call_userAppToken := fun user aHash => Ok (AppBoundLicense.lookup s user aHash);
     call_checkLicense := fun user app =>
       value_of (AppBoundLicense.checkLicense user app) s |}.

(** CollectibleLicenseNFT has the [userAppToken] getter and no
    [checkLicense]. *)
Definition Collectible_view (s : CollectibleLicenseNFT.State) : Contract :=
  {| call_userAppToken := fun user aHash => Ok (CollectibleLicenseNFT.lookup s user aHash);
     call_checkLicense := fun _ _ => Revert (Error "") |}.
(** The same contract when a block is mined between the two reads of the
    handler, which awaits them one after the other: [s1] is the storage at
    the userAppToken read, [s2] at the checkLicense read. *)
Definition AppBound_reads (s1 s2 : AppBoundLicense.State) : Contract :=
  {| call_userAppToken := fun user aHash => Ok (AppBoundLicense.lookup s1 user aHash);
     call_checkLicense := fun user app =>
       value_of (AppBoundLicense.checkLicense user app) s2 |}.
End Handler.
End Backend.

(** * The scripts and the page

    scripts/deploy.js deploys AppBoundLicense from the first signer;
    scripts/seed.js has that signer mint the demo licence to the second
    one; the page asks the backend for access to the demo application. *)

Module Scripts.
Section Scripts.
Context `{Host}.

Definition deploy (deployer : address) : AppBoundLicense.State :=
  AppBoundLicense.constructor deployer.

Definition seed (deployer user : address) : Tx AppBoundLicense.State uint256 :=
  AppBoundLicense.mintTo deployer user "demo-app" "ipfs://demo-metadata" 0.

(** What checkAccess leaves in the message of the page, or alerts.  axios
    rejects a response whose status is not 2xx, and the handler sets
    [success] on every 200. *)
Inductive Message : Type :=
| alert (text : string)
| access_granted (accessToken : Backend.AccessToken)
| error_message (text : string).

Definition checkAccess (contract : Backend.Contract) (now_ms : Z)
    (address_ : option address) : Message :=
  match address_ with
  | None => alert "Connect wallet first"
  | Some a =>
      match Backend.auth contract now_ms (Some a) "demo-app" with
      | Backend.status_200 token _ => access_granted token
      | Backend.status_400 e | Backend.status_403 e | Backend.status_500 e =>
          error_message e
      end
  end.
End Scripts.
End Scripts.

(** * AppBoundLicense as the white paper designs it

    Section 3 of the white paper that comes with bootstrap-mvp.js: the
    contract of the MVP with a royalty at the mint, [revoke] by the contract
    owner, the default royalty and [adminSetTokenURI].  It derives from
    ERC721URIStorage and ERC2981 and does not override [_burn]. *)

Module DesignLicense.

Inductive DesignEvent : Type :=
| Inherited (e : Event)
| LicenseRevoked (tokenId : uint256).

Record State : Type := {
  erc721 : ERC721Storage;
  licenses : gmap N AppBoundLicense.License;
  userAppToken : gmap (N * N) N;
  nextTokenId : uint256;
  _owner : address;
  _defaultRoyaltyInfo : address * uint96;
  _tokenRoyaltyInfo : gmap N (address * uint96);
  log : list DesignEvent
}.

Definition set_erc721 (e : ERC721Storage) (s : State) : State :=
  {| erc721 := e; licenses := licenses s; userAppToken := userAppToken s;
     nextTokenId := nextTokenId s; _owner := _owner s;
     _defaultRoyaltyInfo := _defaultRoyaltyInfo s;
     _tokenRoyaltyInfo := _tokenRoyaltyInfo s; log := log s |}.

Definition set_licenses
    (f : gmap N AppBoundLicense.License -> gmap N AppBoundLicense.License) (s : State)
  : State :=
  {| erc721 := erc721 s; licenses := f (licenses s); userAppToken := userAppToken s;
     nextTokenId := nextTokenId s; _owner := _owner s;
     _defaultRoyaltyInfo := _defaultRoyaltyInfo s;
     _tokenRoyaltyInfo := _tokenRoyaltyInfo s; log := log s |}.

Definition set_userAppToken (f : gmap (N * N) N -> gmap (N * N) N) (s : State) : State :=
  {| erc721 := erc721 s; licenses := licenses s; userAppToken := f (userAppToken s);
     nextTokenId := nextTokenId s; _owner := _owner s;
     _defaultRoyaltyInfo := _defaultRoyaltyInfo s;
     _tokenRoyaltyInfo := _tokenRoyaltyInfo s; log := log s |}.

Definition set_nextTokenId (n : uint256) (s : State) : State :=
  {| erc721 := erc721 s; licenses := licenses s; userAppToken := userAppToken s;
     nextTokenId := n; _owner := _owner s;
     _defaultRoyaltyInfo := _defaultRoyaltyInfo s;
     _tokenRoyaltyInfo := _tokenRoyaltyInfo s; log := log s |}.

Definition set_owner_account (a : address) (s : State) : State :=
  {| erc721 := erc721 s; licenses := licenses s; userAppToken := userAppToken s;
     nextTokenId := nextTokenId s; _owner := a;
     _defaultRoyaltyInfo := _defaultRoyaltyInfo s;
     _tokenRoyaltyInfo := _tokenRoyaltyInfo s; log := log s |}.

Definition set_defaultRoyaltyInfo (r : address * uint96) (s : State) : State :=
  {| erc721 := erc721 s; licenses := licenses s; userAppToken := userAppToken s;
     nextTokenId := nextTokenId s; _owner := _owner s;
     _defaultRoyaltyInfo := r;
     _tokenRoyaltyInfo := _tokenRoyaltyInfo s; log := log s |}.

Definition set_tokenRoyaltyInfo
    (f : gmap N (address * uint96) -> gmap N (address * uint96)) (s : State) : State :=
  {| erc721 := erc721 s; licenses := licenses s; userAppToken := userAppToken s;
     nextTokenId := nextTokenId s; _owner := _owner s;
     _defaultRoyaltyInfo := _defaultRoyaltyInfo s;
     _tokenRoyaltyInfo := f (_tokenRoyaltyInfo s); log := log s |}.

Definition push_event (e : DesignEvent) (s : State) : State :=
  {| erc721 := erc721 s; licenses := licenses s; userAppToken := userAppToken s;
     nextTokenId := nextTokenId s; _owner := _owner s;
     _defaultRoyaltyInfo := _defaultRoyaltyInfo s;
     _tokenRoyaltyInfo := _tokenRoyaltyInfo s; log := log s ++ [e] |}.

Definition license_of (s : State) (tokenId : uint256) : AppBoundLicense.License :=
  default AppBoundLicense.License_zero (licenses s !! tokenId).

Definition lookup (s : State) (user : address) (aHash : bytes32) : uint256 :=
  slot (userAppToken s) (user, aHash).

Definition owner_of (s : State) (tokenId : uint256) : address :=
  slot (_owners (erc721 s)) tokenId.

Section Contract.
Context `{Host}.

Definition onlyOwner (msg_sender : address) : Tx State unit :=
  let* owner := gets _owner in
  require (owner =? msg_sender) "Ownable: caller is not the owner".

Definition beforeTokenTransfer (from to : address) (tokenId : uint256) : Tx State unit :=
  when (negb (from =? 0) && negb (to =? 0)) (
    let* lic := gets (fun s => license_of s tokenId) in
    let aHash := keccak256 (AppBoundLicense.appId lic) in
    let* cur := gets (fun s => lookup s from aHash) in
    when (cur =? tokenId) (modify (set_userAppToken (delete (from, aHash)))) ;;;
    modify (set_userAppToken <[(to, aHash) := tokenId]>)).

#[export] Instance Design_ERC721 : ERC721Contract State :=
  {| erc := erc721;
     with_erc := set_erc721;
     emit := fun e => push_event (Inherited e);
     _beforeTokenTransfer := beforeTokenTransfer |}.

(** ERC2981 *)
Definition _setDefaultRoyalty (receiver : address) (feeNumerator : uint96) : Tx State unit :=
  require (feeNumerator <=? _feeDenominator) "ERC2981: royalty fee will exceed salePrice" ;;;
  require (negb (receiver =? 0)) "ERC2981: invalid receiver" ;;;
  modify (set_defaultRoyaltyInfo (receiver, feeNumerator)).

Definition _deleteDefaultRoyalty : Tx State unit :=
  modify (set_defaultRoyaltyInfo (0, 0)).

Definition _setTokenRoyalty (tokenId : uint256) (receiver : address) (feeNumerator : uint96)
  : Tx State unit :=
  require (feeNumerator <=? _feeDenominator) "ERC2981: royalty fee will exceed salePrice" ;;;
  require (negb (receiver =? 0)) "ERC2981: Invalid parameters" ;;;
  modify (set_tokenRoyaltyInfo <[tokenId := (receiver, feeNumerator)]>).

(** constructor(name_, symbol_): the name and the symbol go to ERC721 and
    are read by nothing here. *)
Definition constructor (msg_sender : address) (name_ symbol_ : string) : State :=
  {| erc721 := ERC721_empty; licenses := ∅; userAppToken := ∅;
     nextTokenId := 0; _owner := msg_sender;
     _defaultRoyaltyInfo := (0, 0); _tokenRoyaltyInfo := ∅; log := [] |}.

Definition mintTo (msg_sender to : address) (appId_ tokenURI_ : string) (expiry_ : uint64)
    (royaltyReceiver : address) (royaltyBps : uint96) : Tx State uint256 :=
  onlyOwner msg_sender ;;;
  let aHash := keccak256 appId_ in
  let* cur := gets (fun s => lookup s to aHash) in
  require (cur =? 0) "ALREADY_OWN_THIS_APP" ;;;
  let* next := gets nextTokenId in
  let* tokenId := checked_incr next in
  modify (set_nextTokenId tokenId) ;;;
  _safeMint msg_sender to tokenId ;;;
  _setTokenURI tokenId tokenURI_ ;;;
  modify (set_licenses <[tokenId :=
    {| AppBoundLicense.appId := appId_; AppBoundLicense.expiry := expiry_ |}]>) ;;;
  modify (set_userAppToken <[(to, aHash) := tokenId]>) ;;;
  when (negb (royaltyReceiver =? 0))
    (_setTokenRoyalty tokenId royaltyReceiver royaltyBps) ;;;
  modify (push_event (Inherited (LicenseMinted to tokenId appId_ expiry_))) ;;;
  ret tokenId.

Definition burn (msg_sender : address) (tokenId : uint256) : Tx State unit :=
  let* owner := ownerOf tokenId in
  require (owner =? msg_sender) "NOT_OWNER" ;;;
  let* lic := gets (fun s => license_of s tokenId) in
  let aHash := keccak256 (AppBoundLicense.appId lic) in
  modify (set_licenses (delete tokenId)) ;;;
  modify (set_userAppToken (delete (msg_sender, aHash))) ;;;
  ERC721URIStorage_burn tokenId ;;;
  modify (push_event (Inherited (LicenseBurned msg_sender tokenId))).

Definition revoke (msg_sender : address) (tokenId : uint256) : Tx State unit :=
  onlyOwner msg_sender ;;;
  let* owner := ownerOf tokenId in
  let* lic := gets (fun s => license_of s tokenId) in
  let aHash := keccak256 (AppBoundLicense.appId lic) in
  modify (set_licenses (delete tokenId)) ;;;
  let* cur := gets (fun s => lookup s owner aHash) in
  when (cur =? tokenId) (modify (set_userAppToken (delete (owner, aHash)))) ;;;
  ERC721URIStorage_burn tokenId ;;;
  modify (push_event (LicenseRevoked tokenId)).

Definition checkLicense (user : address) (appId_ : string)
  : Tx State (uint256 * string * uint64) :=
  let aHash := keccak256 appId_ in
  let* tokenId := gets (fun s => lookup s user aHash) in
  if negb (tokenId =? 0) then
    let* metadataURI := tokenURI tokenId in
    let* lic := gets (fun s => license_of s tokenId) in
    ret (tokenId, metadataURI, AppBoundLicense.expiry lic)
  else ret (tokenId, "", 0).

Definition setDefaultRoyalty (msg_sender receiver : address) (feeNumerator : uint96)
  : Tx State unit :=
  onlyOwner msg_sender ;;;
  _setDefaultRoyalty receiver feeNumerator.

Definition deleteDefaultRoyalty (msg_sender : address) : Tx State unit :=
  onlyOwner msg_sender ;;;
  _deleteDefaultRoyalty.

Definition adminSetTokenURI (msg_sender : address) (tokenId : uint256) (uri : string)
  : Tx State unit :=
  onlyOwner msg_sender ;;;
  _setTokenURI tokenId uri.

(** Ownable *)
Definition transferOwnership (msg_sender newOwner : address) : Tx State unit :=
  onlyOwner msg_sender ;;;
  require (negb (newOwner =? 0)) "Ownable: new owner is the zero address" ;;;
  modify (set_owner_account newOwner).

Definition renounceOwnership (msg_sender : address) : Tx State unit :=
  onlyOwner msg_sender ;;;
  modify (set_owner_account 0).

Inductive Call : Type :=
| call_mintTo (to : address) (appId_ tokenURI_ : string) (expiry_ : uint64)
    (royaltyReceiver : address) (royaltyBps : uint96)
| call_burn (tokenId : uint256)
| call_revoke (tokenId : uint256)
| call_transferFrom (from to : address) (tokenId : uint256)
| call_safeTransferFrom (from to : address) (tokenId : uint256)
| call_approve (to : address) (tokenId : uint256)
| call_setApprovalForAll (operator : address) (approved : bool)
| call_setDefaultRoyalty (receiver : address) (feeNumerator : uint96)
| call_deleteDefaultRoyalty
| call_adminSetTokenURI (tokenId : uint256) (uri : string)
| call_transferOwnership (newOwner : address)
| call_renounceOwnership.

Record Txn : Type := { msg_sender : address; msg_call : Call }.

Definition dispatch (tx : Txn) : Tx State unit :=
  let sender := msg_sender tx in
  match msg_call tx with
  | call_mintTo to app uri exp rr bps => mintTo sender to app uri exp rr bps ;;; ret tt
  | call_burn tokenId => burn sender tokenId
  | call_revoke tokenId => revoke sender tokenId
  | call_transferFrom from to tokenId => transferFrom sender from to tokenId
  | call_safeTransferFrom from to tokenId => safeTransferFrom sender from to tokenId
  | call_approve to tokenId => approve sender to tokenId
  | call_setApprovalForAll operator approved => setApprovalForAll sender operator approved
  | call_setDefaultRoyalty receiver fee => setDefaultRoyalty sender receiver fee
  | call_deleteDefaultRoyalty => deleteDefaultRoyalty sender
  | call_adminSetTokenURI tokenId uri => adminSetTokenURI sender tokenId uri
  | call_transferOwnership newOwner => transferOwnership sender newOwner
  | call_renounceOwnership => renounceOwnership sender
  end.

Definition step (s : State) (tx : Txn) : State := commit (dispatch tx) s.

Definition run (txs : list Txn) (s : State) : State := fold_left step txs s.

(** Every index entry names a token that exists, is held by the entry's
    owner and carries the entry's application. *)
Definition no_dangling (s : State) : Prop :=
  forall user aHash tokenId,
    lookup s user aHash = tokenId -> tokenId <> 0 ->
    owner_of s tokenId = user /\ user <> 0 /\
    aHash = keccak256 (AppBoundLicense.appId (license_of s tokenId)).

Record Inv (s : State) : Prop := {
  inv_ids : forall tokenId, owner_of s tokenId <> 0 -> 1 <= tokenId <= nextTokenId s;
  inv_index : no_dangling s
}.
End Contract.
End DesignLicense.

(** ** The white paper's contract with recipients that call back

    mintTo and safeTransferFrom call a recipient; burn is [nonReentrant]
    and calls nobody. *)

Module DesignLicenseR.
Import DesignLicense.

Section Contract.
Context `{Host} `{R : Callbacks.Receivers State Txn}.

Definition mintTo (reenter : Txn -> Tx State unit) (msg_sender to : address)
    (appId_ tokenURI_ : string) (expiry_ : uint64)
    (royaltyReceiver : address) (royaltyBps : uint96) : Tx State uint256 :=
  onlyOwner msg_sender ;;;
  let aHash := keccak256 appId_ in
  let* cur := gets (fun s => lookup s to aHash) in
  require (cur =? 0) "ALREADY_OWN_THIS_APP" ;;;
  let* next := gets nextTokenId in
  let* tokenId := checked_incr next in
  modify (set_nextTokenId tokenId) ;;;
  Callbacks._safeMint reenter msg_sender to tokenId ;;;
  _setTokenURI tokenId tokenURI_ ;;;
  modify (set_licenses <[tokenId :=
    {| AppBoundLicense.appId := appId_; AppBoundLicense.expiry := expiry_ |}]>) ;;;
  modify (set_userAppToken <[(to, aHash) := tokenId]>) ;;;
  when (negb (royaltyReceiver =? 0))
    (_setTokenRoyalty tokenId royaltyReceiver royaltyBps) ;;;
  modify (push_event (Inherited (LicenseMinted to tokenId appId_ expiry_))) ;;;
  ret tokenId.

Fixpoint dispatch (depth : nat) (tx : Txn) : Tx State unit :=
  let reenter : Txn -> Tx State unit :=
    match depth with
    | O => fun _ => revert Callbacks.call_failed
    | S d => dispatch d
    end in
  let sender := msg_sender tx in
  match msg_call tx with
  | call_mintTo to app uri exp rr bps =>
      mintTo reenter sender to app uri exp rr bps ;;; ret tt
  | call_burn tokenId => burn sender tokenId
  | call_revoke tokenId => revoke sender tokenId
  | call_transferFrom from to tokenId => transferFrom sender from to tokenId
  | call_safeTransferFrom from to tokenId =>
      Callbacks.safeTransferFrom reenter sender from to tokenId
  | call_approve to tokenId => approve sender to tokenId
  | call_setApprovalForAll operator approved => setApprovalForAll sender operator approved
  | call_setDefaultRoyalty receiver fee => setDefaultRoyalty sender receiver fee
  | call_deleteDefaultRoyalty => deleteDefaultRoyalty sender
  | call_adminSetTokenURI tokenId uri => adminSetTokenURI sender tokenId uri
  | call_transferOwnership newOwner => transferOwnership sender newOwner
  | call_renounceOwnership => renounceOwnership sender
  end.

Definition step (depth : nat) (s : State) (tx : Txn) : State := commit (dispatch depth tx) s.

Definition run (depth : nat) (txs : list Txn) (s : State) : State :=
  fold_left (step depth) txs s.
End Contract.
End DesignLicenseR.

(** * What a CollectibleLicenseNFT mint leaves alone *)

Module CollectibleFrames.
Import CollectibleLicenseNFT.

(** [s'] extends [s] by mints only: the flags, the roles and the redeemed
    marks are those of [s], the counter did not go back, every token of [s]
    has its holder and licence record, and every occupied index slot still
    holds the same token. *)
Definition grows (s s' : State) : Prop :=
  redeemed s' = redeemed s /\
  openMinting s' = openMinting s /\
  merkleRoot s' = merkleRoot s /\
  _roles s' = _roles s /\
  MAX_SUPPLY s' = MAX_SUPPLY s /\
  nextTokenId s <= nextTokenId s' /\
  (forall tokenId, owner_of s tokenId <> 0 ->
     owner_of s' tokenId = owner_of s tokenId /\
     licenses s' !! tokenId = licenses s !! tokenId) /\
  (forall user aHash, lookup s user aHash <> 0 ->
     lookup s' user aHash = lookup s user aHash).
(** Nobody but [d] holds a role and open minting is off. *)
Definition closed_to (d : address) (s : State) : Prop :=
  openMinting s = false /\ forall r a, (r, a) ∈ _roles s -> a = d.
End CollectibleFrames.

(** * A concrete host and cast for the scenarios

    [digest] stands in for keccak-256: the bytes of the string read as a
    base-256 numeral behind a leading one, so distinct strings get distinct
    digests.  Every recipient accepts tokens. *)

Module Demo.
Fixpoint digest_from (acc : N) (s : string) : N :=
  match s with
  | EmptyString => acc
  | String c rest => digest_from (acc * 256 + N_of_ascii c) rest
  end.

Definition digest (s : string) : N := digest_from 1 s.

Definition host : Host :=
  {| keccak256 := digest;
     keccak256_address := fun a => a + 1;
     keccak256_pair := fun a b => a * 65536 + b;
     onERC721Received := fun _ _ _ _ => true |}.

Definition admin : address := 100.
Definition U1 : address := 1.
Definition U2 : address := 2.
Definition U3 : address := 3.

(** A CollectibleLicenseNFT deployed by [admin] with room for ten tokens. *)
Definition collectible : CollectibleLicenseNFT.State :=
  CollectibleLicenseNFT.constructor (H := host) admin 10.

Definition mint_tx (to : address) (app : string) (soulbound_ ephemeral_ : bool)
  : CollectibleLicenseNFT.Txn :=
  {| CollectibleLicenseNFT.msg_sender := admin;
     CollectibleLicenseNFT.msg_call :=
       CollectibleLicenseNFT.call_mintCollectible to "ipfs://license" app 0
         soulbound_ ephemeral_ 0 0 |}.

Definition transfer_tx (from to : address) (tokenId : uint256) : CollectibleLicenseNFT.Txn :=
  {| CollectibleLicenseNFT.msg_sender := from;
     CollectibleLicenseNFT.msg_call := CollectibleLicenseNFT.call_transferFrom from to tokenId |}.

Definition burn_tx (holder : address) (tokenId : uint256) : CollectibleLicenseNFT.Txn :=
  {| CollectibleLicenseNFT.msg_sender := holder;
     CollectibleLicenseNFT.msg_call := CollectibleLicenseNFT.call_burn tokenId |}.

(** U1 and U2 each get a licence for "demo"; U1 hands token 1 to U2, who
    then burns it.  U2 is left with token 2. *)
Definition displacement : list CollectibleLicenseNFT.Txn :=
  [ mint_tx U1 "demo" false false; mint_tx U2 "demo" false false;
    transfer_tx U1 U2 1; burn_tx U2 1 ].

Definition displaced : CollectibleLicenseNFT.State :=
  CollectibleLicenseNFT.run (H := host) displacement collectible.

(** One licence for "demo", held by U1. *)
Definition licensed : CollectibleLicenseNFT.State :=
  CollectibleLicenseNFT.run (H := host) [mint_tx U1 "demo" false false] collectible.

(** Licences for "demo" held by U1 and by U2. *)
Definition both_licensed : CollectibleLicenseNFT.State :=
  CollectibleLicenseNFT.run (H := host)
    [mint_tx U1 "demo" false false; mint_tx U2 "demo" false false] collectible.

(** U2 holds tokens 1 and 2 for "demo"; the slot of U2 holds token 1. *)
Definition crowded : CollectibleLicenseNFT.State :=
  CollectibleLicenseNFT.run (H := host)
    [ mint_tx U1 "demo" false false; mint_tx U2 "demo" false false; transfer_tx U1 U2 1 ]
    collectible.

(** A soulbound licence, and an ephemeral one, held by U1. *)
Definition bound : CollectibleLicenseNFT.State :=
  CollectibleLicenseNFT.run (H := host) [mint_tx U1 "demo" true false] collectible.

Definition ephemeral_licensed : CollectibleLicenseNFT.State :=
  CollectibleLicenseNFT.run (H := host) [mint_tx U1 "demo" false true] collectible.

(** A deployment with room for a single token, once that token is minted. *)
Definition sold_out : CollectibleLicenseNFT.State :=
  CollectibleLicenseNFT.run (H := host) [mint_tx U1 "demo" false false]
    (CollectibleLicenseNFT.constructor (H := host) admin 1).

(** The same cast on AppBoundLicense. *)
Definition appbound : AppBoundLicense.State := AppBoundLicense.constructor admin.

Definition mintTo_tx (to : address) (app : string) (expiry_ : uint64) : AppBoundLicense.Txn :=
  {| AppBoundLicense.msg_sender := admin;
     AppBoundLicense.msg_call := AppBoundLicense.call_mintTo to app "ipfs://license" expiry_ |}.

Definition ab_transfer_tx (from to : address) (tokenId : uint256) : AppBoundLicense.Txn :=
  {| AppBoundLicense.msg_sender := from;
     AppBoundLicense.msg_call := AppBoundLicense.call_transferFrom from to tokenId |}.

Definition ab_burn_tx (holder : address) (tokenId : uint256) : AppBoundLicense.Txn :=
  {| AppBoundLicense.msg_sender := holder;
     AppBoundLicense.msg_call := AppBoundLicense.call_burn tokenId |}.

Definition ab_displaced : AppBoundLicense.State :=
  AppBoundLicense.run (H := host)
    [ mintTo_tx U1 "demo" 0; mintTo_tx U2 "demo" 0; ab_transfer_tx U1 U2 1; ab_burn_tx U2 1 ]
    appbound.

Definition ab_licensed : AppBoundLicense.State :=
  AppBoundLicense.run (H := host) [mintTo_tx U1 "demo" 0] appbound.

(** The licence for "demo" minted to U1 and handed to U2. *)
Definition ab_transferred : AppBoundLicense.State :=
  AppBoundLicense.run (H := host) [mintTo_tx U1 "demo" 0; ab_transfer_tx U1 U2 1] appbound.

(** A licence whose application id is the empty string. *)
Definition ab_unnamed : AppBoundLicense.State :=
  AppBoundLicense.run (H := host) [mintTo_tx U1 "" 0] appbound.

(** A licence that lapsed at second 1000. *)
Definition ab_lapsed : AppBoundLicense.State :=
  AppBoundLicense.run (H := host) [mintTo_tx U1 "demo" 1000] appbound.
End Demo.

(** * Further scenarios, on the same host and cast *)

Module Scenes.
Import Demo.

Definition redeem_tx (holder : address) (tokenId : uint256) : CollectibleLicenseNFT.Txn :=
  {| CollectibleLicenseNFT.msg_sender := holder;
     CollectibleLicenseNFT.msg_call := CollectibleLicenseNFT.call_redeem tokenId |}.

(** The ephemeral licence of U1, redeemed. *)
Definition redeemed_once : CollectibleLicenseNFT.State :=
  CollectibleLicenseNFT.run (H := host) [redeem_tx U1 1] ephemeral_licensed.

(** The token is handed to U2, who burns it. *)
Definition passed_on : list CollectibleLicenseNFT.Txn :=
  [transfer_tx U1 U2 1; burn_tx U2 1].

(** Token 1 minted to U1 and burned by U1. *)
Definition spent : CollectibleLicenseNFT.State :=
  CollectibleLicenseNFT.run (H := host)
    [mint_tx U1 "demo" false false; burn_tx U1 1] collectible.

(** U1, who holds no role, tries the settings and the mints. *)
Definition intrusion : list CollectibleLicenseNFT.Txn :=
  [ {| CollectibleLicenseNFT.msg_sender := U1;
       CollectibleLicenseNFT.msg_call := CollectibleLicenseNFT.call_setOpenMinting true |};
    {| CollectibleLicenseNFT.msg_sender := U1;
       CollectibleLicenseNFT.msg_call :=
         CollectibleLicenseNFT.call_grantRole (CollectibleLicenseNFT.MINTER_ROLE (H := host)) U1 |};
    {| CollectibleLicenseNFT.msg_sender := U1;
       CollectibleLicenseNFT.msg_call :=
         CollectibleLicenseNFT.call_openMint "ipfs://license" "demo" 0 false false [] |};
    {| CollectibleLicenseNFT.msg_sender := U1;
       CollectibleLicenseNFT.msg_call :=
         CollectibleLicenseNFT.call_mintCollectible U1 "ipfs://license" "demo" 0
           false false 0 0 |} ].

(** A soulbound token: U1 tries to hand it on, then U2 gets a licence. *)
Definition bound_history : list CollectibleLicenseNFT.Txn :=
  [transfer_tx U1 U2 1; mint_tx U2 "demo" false false].

(** On AppBoundLicense: U2 holds tokens 1 and 2 for "demo" and the slot of
    U2 holds token 1. *)
Definition ab_crowded : AppBoundLicense.State :=
  AppBoundLicense.run (H := host)
    [mintTo_tx U1 "demo" 0; mintTo_tx U2 "demo" 0; ab_transfer_tx U1 U2 1] appbound.

(** Token 1 minted to U1 and burned by U1. *)
Definition ab_spent : AppBoundLicense.State :=
  AppBoundLicense.run (H := host) [mintTo_tx U1 "demo" 0; ab_burn_tx U1 1] appbound.

(** The contract of the white paper, deployed by [admin], and the same
    crowding on it: U2 holds tokens 1 and 2 for "demo", its slot names
    token 1. *)
Definition design : DesignLicense.State :=
  DesignLicense.constructor admin "AppBoundLicense" "ABND".

Definition d_mintTo_tx (to : address) (app : string) : DesignLicense.Txn :=
  {| DesignLicense.msg_sender := admin;
     DesignLicense.msg_call :=
       DesignLicense.call_mintTo to app "ipfs://license" 0 U3 500 |}.

Definition d_transfer_tx (from to : address) (tokenId : uint256) : DesignLicense.Txn :=
  {| DesignLicense.msg_sender := from;
     DesignLicense.msg_call := DesignLicense.call_transferFrom from to tokenId |}.

Definition d_licensed : DesignLicense.State :=
  DesignLicense.run (H := host) [d_mintTo_tx U1 "demo"] design.

Definition d_crowded : DesignLicense.State :=
  DesignLicense.run (H := host)
    [d_mintTo_tx U1 "demo"; d_mintTo_tx U2 "demo"; d_transfer_tx U1 U2 1] design.
End Scenes.

(** * Recipients that call back, on the same host and cast

    U1 is now a contract, and what its onERC721Received does differs from
    scene to scene; every other account accepts tokens and calls nothing.
    The calls of U1 run one level below the transaction. *)

Module Intruders.
Import Demo.

(** U1 hands every token it receives on to U2. *)
Definition ab_forwarder : Callbacks.Receivers AppBoundLicense.State AppBoundLicense.Txn :=
  {| Callbacks.receiver := fun to _ _ tokenId =>
       if to =? U1 then Callbacks.then_accept (ab_transfer_tx U1 U2 tokenId)
       else Callbacks.Answer true |}.

Definition forwarder
  : Callbacks.Receivers CollectibleLicenseNFT.State CollectibleLicenseNFT.Txn :=
  {| Callbacks.receiver := fun to _ _ tokenId =>
       if to =? U1 then Callbacks.then_accept (transfer_tx U1 U2 tokenId)
       else Callbacks.Answer true |}.

(** U1 burns token 1 when it receives another token. *)
Definition emptier
  : Callbacks.Receivers CollectibleLicenseNFT.State CollectibleLicenseNFT.Txn :=
  {| Callbacks.receiver := fun to _ _ tokenId =>
       if (to =? U1) && negb (tokenId =? 1) then Callbacks.then_accept (burn_tx U1 1)
       else Callbacks.Answer true |}.

(** U1 burns the token it receives. *)
Definition shredder
  : Callbacks.Receivers CollectibleLicenseNFT.State CollectibleLicenseNFT.Txn :=
  {| Callbacks.receiver := fun to _ _ tokenId =>
       if to =? U1 then Callbacks.then_accept (burn_tx U1 tokenId)
       else Callbacks.Answer true |}.

(** The licence for "demo" minted to the forwarding U1, and the same once
    U2 has burned the token. *)
Definition ab_forwarded : AppBoundLicense.State :=
  AppBoundLicenseR.run (H := host) (R := ab_forwarder) 1 [mintTo_tx U1 "demo" 0] appbound.

Definition ab_orphaned : AppBoundLicense.State :=
  AppBoundLicenseR.run (H := host) (R := ab_forwarder) 1 [ab_burn_tx U2 1] ab_forwarded.

(** A soulbound licence for "demo" minted to the forwarding U1. *)
Definition forwarded : CollectibleLicenseNFT.State :=
  CollectibleLicenseNFTR.run (H := host) (R := forwarder) 1
    [mint_tx U1 "demo" true false] collectible.

(** U1 holds token 1 for "demo" and MINTER_ROLE, and open minting is on. *)
Definition open_house : CollectibleLicenseNFT.State :=
  CollectibleLicenseNFT.run (H := host)
    [ {| CollectibleLicenseNFT.msg_sender := admin;
         CollectibleLicenseNFT.msg_call := CollectibleLicenseNFT.call_setOpenMinting true |};
      {| CollectibleLicenseNFT.msg_sender := admin;
         CollectibleLicenseNFT.msg_call :=
           CollectibleLicenseNFT.call_grantRole
             (CollectibleLicenseNFT.MINTER_ROLE (H := host)) U1 |} ]
    licensed.

(** One licence for "demo", held by U3, who hands it to U1 with
    safeTransferFrom. *)
Definition licensed_U3 : CollectibleLicenseNFT.State :=
  CollectibleLicenseNFT.run (H := host) [mint_tx U3 "demo" false false] collectible.

Definition safe_transfer_tx (from to : address) (tokenId : uint256)
  : CollectibleLicenseNFT.Txn :=
  {| CollectibleLicenseNFT.msg_sender := from;
     CollectibleLicenseNFT.msg_call :=
       CollectibleLicenseNFT.call_safeTransferFrom from to tokenId |}.

(** The cast as accounts that do not call back. *)
Definition quiet
  : Callbacks.Receivers CollectibleLicenseNFT.State CollectibleLicenseNFT.Txn :=
  Callbacks.passive (H := host).

Definition ab_quiet : Callbacks.Receivers AppBoundLicense.State AppBoundLicense.Txn :=
  Callbacks.passive (H := host).

Definition d_quiet : Callbacks.Receivers DesignLicense.State DesignLicense.Txn :=
  Callbacks.passive (H := host).
End Intruders.

(** * Proofs *)

(** ** The transaction monad *)

Section Monad.
Context {St : Type}.

Lemma bind_Ok_inv {A B} (m : Tx St A) (k : A -> Tx St B) s b s' :
  bind m k s = Ok (b, s') -> exists a s1, m s = Ok (a, s1) /\ k a s1 = Ok (b, s').
Proof.
  unfold bind. destruct (m s) as [[a s1]|r]; [|discriminate]. eauto.
Qed.

Lemma bind_Ok {A B} (m : Tx St A) (k : A -> Tx St B) s a s1 :
  m s = Ok (a, s1) -> bind m k s = k a s1.
Proof. unfold bind. now intros ->. Qed.

Lemma require_Ok_inv c msg (s : St) u s' :
  require c msg s = Ok (u, s') -> c = true /\ s' = s.
Proof. destruct c; cbn; [|discriminate]. now intros [= _ ->]. Qed.

Lemma gets_Ok_inv {A} (f : St -> A) s a s' :
  gets f s = Ok (a, s') -> a = f s /\ s' = s.
Proof. now intros [= <- <-]. Qed.

Lemma modify_Ok_inv (f : St -> St) s u s' :
  modify f s = Ok (u, s') -> s' = f s.
Proof. now intros [= <-]. Qed.

Lemma ret_Ok_inv {A} (a : A) (s : St) b s' :
  ret a s = Ok (b, s') -> b = a /\ s' = s.
Proof. now intros [= <- <-]. Qed.
End Monad.


(** Unfold one layer of a known operation in [H]. *)
Ltac tx_unfold_base H :=
  lazymatch type of H with
  | checked_incr _ _ = _ => unfold checked_incr in H
  | update_erc _ _ = _ => unfold update_erc in H
  | _ownerOf _ _ = _ => unfold _ownerOf in H
  | _exists _ _ = _ => unfold _exists in H
  | ownerOf _ _ = _ => unfold ownerOf in H
  | isApprovedForAll _ _ _ = _ => unfold isApprovedForAll in H
  | getApproved _ _ = _ => unfold getApproved in H
  | _isApprovedOrOwner _ _ _ = _ => unfold _isApprovedOrOwner in H
  | _checkOnERC721Received _ _ _ _ _ = _ => unfold _checkOnERC721Received in H
  | _mint _ _ _ = _ => unfold _mint in H
  | _safeMint _ _ _ _ = _ => unfold _safeMint in H
  | ERC721_burn _ _ = _ => unfold ERC721_burn in H
  | ERC721URIStorage_burn _ _ = _ => unfold ERC721URIStorage_burn in H
  | _setTokenURI _ _ _ = _ => unfold _setTokenURI in H
  | tokenURI _ _ = _ => unfold tokenURI in H
  | _transfer _ _ _ _ = _ => unfold _transfer in H
  | transferFrom _ _ _ _ _ = _ => unfold transferFrom in H
  | safeTransferFrom _ _ _ _ _ = _ => unfold safeTransferFrom in H
  | approve _ _ _ _ = _ => unfold approve in H
  | setApprovalForAll _ _ _ _ = _ => unfold setApprovalForAll in H
  end.

(** Invert [m s = Ok (a, s')] along the binds of [m]; [unf] unfolds the
    operations of the contract at hand. *)
Ltac tx_inv_with unf H :=
  cbv beta zeta in H;
  lazymatch type of H with
  | bind _ _ _ = Ok _ =>
      let a := fresh "a" in
      let s1 := fresh "s" in
      let H1 := fresh "H" in
      apply bind_Ok_inv in H; destruct H as (a & s1 & H1 & H);
      tx_inv_with unf H1; tx_inv_with unf H
  | require _ _ _ = Ok _ =>
      let E := fresh "E" in
      apply require_Ok_inv in H; destruct H as [H E]; subst
  | gets _ _ = Ok _ =>
      let E := fresh "E" in
      apply gets_Ok_inv in H; destruct H as [H E]; subst
  | modify _ _ = Ok _ => apply modify_Ok_inv in H; subst
  | ret _ _ = Ok _ =>
      let E := fresh "E" in
      apply ret_Ok_inv in H; destruct H as [H E]; subst
  | revert _ _ = Ok _ => discriminate H
  | when ?c _ _ = Ok _ =>
      let C := fresh "C" in
      destruct c eqn:C; unfold when in H; [tx_inv_with unf H | tx_inv_with unf H]
  | (if ?c then _ else _) _ = Ok _ =>
      let C := fresh "C" in
      destruct c eqn:C; [tx_inv_with unf H | tx_inv_with unf H]
  | _ => try (first [tx_unfold_base H | unf H]; tx_inv_with unf H)
  end.

Ltac bool_clean :=
  repeat match goal with
         | H : negb _ = true |- _ => apply negb_true_iff in H
         | H : negb _ = false |- _ => apply negb_false_iff in H
         | H : (_ =? _) = true |- _ => apply N.eqb_eq in H
         | H : (_ =? _) = false |- _ => apply N.eqb_neq in H
         | H : (_ <? _) = true |- _ => apply N.ltb_lt in H
         | H : (_ <? _) = false |- _ => apply N.ltb_ge in H
         | H : (_ <=? _) = true |- _ => apply N.leb_le in H
         | H : (_ <=? _) = false |- _ => apply N.leb_gt in H
         | H : (_ && _) = true |- _ => apply andb_true_iff in H; destruct H
         | H : (_ && _) = false |- _ => apply andb_false_iff in H; destruct H
         | H : (_ || _) = false |- _ => apply orb_false_iff in H; destruct H
         end.

(** ** Running a call forward *)

Section MonadFwd.
Context {St : Type}.

Lemma bind_assoc {A B C} (m : Tx St A) (k1 : A -> Tx St B) (k2 : B -> Tx St C) s :
  bind (bind m k1) k2 s = bind m (fun a => bind (k1 a) k2) s.
Proof. unfold bind. now destruct (m s) as [[a s1]|r]. Qed.

Lemma bind_gets {A B} (f : St -> A) (k : A -> Tx St B) s :
  bind (gets f) k s = k (f s) s.
Proof. reflexivity. Qed.

Lemma bind_modify {B} (f : St -> St) (k : unit -> Tx St B) s :
  bind (modify f) k s = k tt (f s).
Proof. reflexivity. Qed.

Lemma bind_ret {A B} (a : A) (k : A -> Tx St B) s :
  bind (ret a) k s = k a s.
Proof. reflexivity. Qed.

Lemma bind_revert {A B} r (k : A -> Tx St B) s :
  bind (revert r) k s = Revert r.
Proof. reflexivity. Qed.

Lemma bind_require_true {B} msg (k : unit -> Tx St B) s :
  bind (require true msg) k s = k tt s.
Proof. reflexivity. Qed.

Lemma bind_require_false {B} msg (k : unit -> Tx St B) s :
  bind (require false msg) k s = Revert (Error msg).
Proof. reflexivity. Qed.

Lemma bind_when_true {B} (m : Tx St unit) (k : unit -> Tx St B) s :
  bind (when true m) k s = bind m k s.
Proof. reflexivity. Qed.

Lemma bind_when_false {B} (m : Tx St unit) (k : unit -> Tx St B) s :
  bind (when false m) k s = k tt s.
Proof. reflexivity. Qed.

Lemma bind_ret_r {A} (m : Tx St A) s : bind m ret s = m s.
Proof. unfold bind, ret. now destruct (m s) as [[a s1]|r]. Qed.
Lemma bind_ext {A B} (m : Tx St A) (k1 k2 : A -> Tx St B) s :
  (forall a s1, k1 a s1 = k2 a s1) -> bind m k1 s = bind m k2 s.
Proof. intros Hk. unfold bind. destruct (m s) as [[a s1]|r]; [apply Hk|reflexivity]. Qed.

Lemma bind_ext_l {A B} (m1 m2 : Tx St A) (k : A -> Tx St B) s :
  (forall s1, m1 s1 = m2 s1) -> bind m1 k s = bind m2 k s.
Proof. intros Hm. unfold bind. now rewrite Hm. Qed.

Lemma bind_ext_both {A B} (m1 m2 : Tx St A) (k1 k2 : A -> Tx St B) s :
  (forall s1, m1 s1 = m2 s1) -> (forall a s1, k1 a s1 = k2 a s1) ->
  bind m1 k1 s = bind m2 k2 s.
Proof. intros Hm Hk. rewrite (bind_ext_l m1 m2 k1 s Hm). now apply bind_ext. Qed.

(** A call that returned still returns, with the same result, when a step
    of it is replaced by one that returns the same whenever the first
    returns. *)
Lemma bind_Ok_mono {A B} (m : Tx St A) (k1 k2 : A -> Tx St B) s r :
  (forall a s1, k1 a s1 = Ok r -> k2 a s1 = Ok r) ->
  bind m k1 s = Ok r -> bind m k2 s = Ok r.
Proof. intros Hk. unfold bind. destruct (m s) as [[a s1]|e]; [apply Hk|done]. Qed.

Lemma bind_Ok_mono_l {A B} (m1 m2 : Tx St A) (k : A -> Tx St B) s r :
  (forall a s1, m1 s = Ok (a, s1) -> m2 s = Ok (a, s1)) ->
  bind m1 k s = Ok r -> bind m2 k s = Ok r.
Proof.
  intros Hm. unfold bind. destruct (m1 s) as [[a s1]|e] eqn:E; [|done].
  rewrite (Hm a s1 eq_refl). done.
Qed.
End MonadFwd.

Ltac tx_unfold_goal_base _ :=
  lazymatch goal with
  | |- bind (checked_incr _) _ _ = _ => unfold checked_incr at 1
  | |- bind (update_erc _) _ _ = _ => unfold update_erc at 1
  | |- bind (_ownerOf _) _ _ = _ => unfold _ownerOf at 1
  | |- bind (_exists _) _ _ = _ => unfold _exists at 1
  | |- bind (ownerOf _) _ _ = _ => unfold ownerOf at 1
  | |- bind (isApprovedForAll _ _) _ _ = _ => unfold isApprovedForAll at 1
  | |- bind (getApproved _) _ _ = _ => unfold getApproved at 1
  | |- bind (_isApprovedOrOwner _ _) _ _ = _ => unfold _isApprovedOrOwner at 1
  | |- bind (_checkOnERC721Received _ _ _ _) _ _ = _ => unfold _checkOnERC721Received at 1
  | |- bind (_mint _ _) _ _ = _ => unfold _mint at 1
  | |- bind (_safeMint _ _ _) _ _ = _ => unfold _safeMint at 1
  | |- bind (ERC721_burn _) _ _ = _ => unfold ERC721_burn at 1
  | |- bind (ERC721URIStorage_burn _) _ _ = _ => unfold ERC721URIStorage_burn at 1
  | |- bind (_setTokenURI _ _) _ _ = _ => unfold _setTokenURI at 1
  | |- bind (tokenURI _) _ _ = _ => unfold tokenURI at 1
  | |- bind (_transfer _ _ _) _ _ = _ => unfold _transfer at 1
  | |- bind (transferFrom _ _ _ _) _ _ = _ => unfold transferFrom at 1
  | |- bind (safeTransferFrom _ _ _ _) _ _ = _ => unfold safeTransferFrom at 1
  | |- bind (approve _ _ _) _ _ = _ => unfold approve at 1
  | |- bind (setApprovalForAll _ _ _) _ _ = _ => unfold setApprovalForAll at 1
  end.

(** Run [m s] forward.  [unf] unfolds the head operation, [norm] normalises
    the storage reads, [kill] closes a branch the hypotheses exclude. *)
Ltac tx_fwd_with unf norm kill :=
  repeat
    (cbv beta zeta;
     lazymatch goal with
     | |- bind (bind _ _) _ _ = _ => rewrite bind_assoc
     | |- bind (gets _) _ _ = _ => rewrite bind_gets
     | |- bind (modify _) _ _ = _ => rewrite bind_modify
     | |- bind (ret _) _ _ = _ => rewrite bind_ret
     | |- bind (revert _) _ _ = _ => rewrite bind_revert
     | |- bind (require ?c _) _ _ = _ =>
         let E := fresh "E" in
         destruct c eqn:E;
         [ rewrite bind_require_true | rewrite bind_require_false ];
         norm (); try solve [reflexivity | exfalso; kill ()]
     | |- bind (when ?c _) _ _ = _ =>
         let E := fresh "E" in
         destruct c eqn:E;
         [ rewrite bind_when_true | rewrite bind_when_false ];
         norm (); try solve [exfalso; kill ()]
     | |- bind (if ?c then _ else _) _ _ = _ =>
         let E := fresh "E" in
         destruct c eqn:E; norm (); try solve [reflexivity | exfalso; kill ()]
     | |- bind _ _ _ = _ => first [tx_unfold_goal_base () | unf ()]
     end).

(** ** Storage reads *)

Section Slot.
Context {K : Type} `{Countable K}.
Implicit Types (m : gmap K N) (k : K) (v : N).

Lemma slot_insert_eq m k v : slot (<[k := v]> m) k = v.
Proof. unfold slot. now rewrite lookup_insert_eq. Qed.

Lemma slot_insert_ne m k k' v : k <> k' -> slot (<[k := v]> m) k' = slot m k'.
Proof. intros. unfold slot. now rewrite lookup_insert_ne. Qed.

Lemma slot_delete_eq m k : slot (delete k m) k = 0.
Proof. unfold slot. now rewrite lookup_delete_eq. Qed.

Lemma slot_delete_ne m k k' : k <> k' -> slot (delete k m) k' = slot m k'.
Proof. intros. unfold slot. now rewrite lookup_delete_ne. Qed.

Lemma slot_empty k : slot (∅ : gmap K N) k = 0.
Proof. unfold slot. now rewrite lookup_empty. Qed.
End Slot.

Ltac slot_norm :=
  repeat first
    [ rewrite slot_insert_eq
    | rewrite slot_delete_eq
    | rewrite lookup_insert_eq
    | rewrite lookup_delete_eq
    | rewrite slot_insert_ne by congruence
    | rewrite slot_delete_ne by congruence
    | rewrite lookup_insert_ne by congruence
    | rewrite lookup_delete_ne by congruence ].

Ltac by_cases x y :=
  destruct (decide (x = y)) as [?|?]; [simplify_eq|]; slot_norm.

(** ** The event log *)

Lemma minted_ids_app l1 l2 : (minted_ids (l1 ++ l2) = minted_ids l1 ++ minted_ids l2)%list.
Proof. unfold minted_ids. apply omap_app. Qed.

Lemma minted_ids_transfer l from to t :
  from <> 0 -> minted_ids (l ++ [Transfer from to t]) = minted_ids l.
Proof.
  intros Hf. rewrite minted_ids_app. cbn. destruct from; [done|]. apply app_nil_r.
Qed.

Lemma minted_ids_mint l to t :
  (minted_ids (l ++ [Transfer 0 to t]) = minted_ids l ++ [t])%list.
Proof. now rewrite minted_ids_app. Qed.

Lemma minted_ids_other l e :
  match e with Transfer _ _ _ => False | _ => True end ->
  minted_ids (l ++ [e]) = minted_ids l.
Proof. intros He. rewrite minted_ids_app. destruct e; try done; apply app_nil_r. Qed.

Lemma ids_upto_succ n : (ids_upto (n + 1) = ids_upto n ++ [n + 1])%list.
Proof.
  unfold ids_upto. replace (N.to_nat (n + 1)) with (S (N.to_nat n)) by lia.
  rewrite seq_S, map_app. cbn [map]. f_equal. f_equal. lia.
Qed.

(** * Recipients that call back: the calls *)

Module CallbackProofs.

Section ERC721.
Context `{Host} {St Txn : Type} `{ERC721Contract St} `{Callbacks.Receivers St Txn}.
Variable reenter : Txn -> Tx St unit.

Lemma _checkOnERC721Received_answers operator from to tokenId s :
  Callbacks.answers_only to ->
  Callbacks._checkOnERC721Received reenter operator from to tokenId s
  = _checkOnERC721Received operator from to tokenId s.
Proof.
  intros Hans. unfold Callbacks._checkOnERC721Received, _checkOnERC721Received.
  now rewrite Hans.
Qed.

Lemma _checkOnERC721Received_called_back operator from to tokenId s ok s' :
  Callbacks._checkOnERC721Received reenter operator from to tokenId s = Ok (ok, s') ->
  Callbacks.run_script reenter (Callbacks.receiver to operator from tokenId) s = Ok (ok, s').
Proof.
  unfold Callbacks._checkOnERC721Received.
  destruct (Callbacks.run_script reenter (Callbacks.receiver to operator from tokenId) s)
    as [answer|reason]; [done|].
  destruct (Callbacks.without_data reason); discriminate.
Qed.

Lemma _safeMint_answers msg_sender to tokenId s :
  Callbacks.answers_only to ->
  Callbacks._safeMint reenter msg_sender to tokenId s = _safeMint msg_sender to tokenId s.
Proof.
  intros Hans. unfold Callbacks._safeMint, _safeMint.
  apply bind_ext; intros ? s1. apply bind_ext_l. intros s2.
  now apply _checkOnERC721Received_answers.
Qed.

Lemma safeTransferFrom_answers msg_sender from to tokenId s :
  Callbacks.answers_only to ->
  Callbacks.safeTransferFrom reenter msg_sender from to tokenId s
  = safeTransferFrom msg_sender from to tokenId s.
Proof.
  intros Hans. unfold Callbacks.safeTransferFrom, safeTransferFrom.
  apply bind_ext; intros ? s1. apply bind_ext; intros ? s2. apply bind_ext; intros ? s3.
  apply bind_ext_l. intros s4. now apply _checkOnERC721Received_answers.
Qed.

(** What a safe mint that returned went through, whatever the recipient
    did. *)
Lemma _safeMint_inv msg_sender to tokenId s u s' :
  Callbacks._safeMint reenter msg_sender to tokenId s = Ok (u, s') ->
  exists s1,
    _mint to tokenId s = Ok (tt, s1) /\
    Callbacks.run_script reenter (Callbacks.receiver to msg_sender 0 tokenId) s1
    = Ok (true, s').
Proof.
  intros Hm. unfold Callbacks._safeMint in Hm.
  apply bind_Ok_inv in Hm as ([] & s1 & Hmint & Hm).
  apply bind_Ok_inv in Hm as (ok & s2 & Hcb & Hreq).
  apply require_Ok_inv in Hreq as [-> ->].
  exists s1. split; [exact Hmint|]. by apply _checkOnERC721Received_called_back.
Qed.

(** A safe transfer to a recipient that only answers is the transfer and
    the recipient's consent. *)
Lemma safeTransferFrom_as_transferFrom msg_sender from to tokenId s u s' :
  safeTransferFrom msg_sender from to tokenId s = Ok (u, s') <->
  transferFrom msg_sender from to tokenId s = Ok (tt, s') /\
  onERC721Received to msg_sender from tokenId = true.
Proof.
  unfold safeTransferFrom, transferFrom, _checkOnERC721Received. split.
  - intros Hm.
    apply bind_Ok_inv in Hm as (ok & s1 & Hauth & Hm).
    apply bind_Ok_inv in Hm as ([] & s2 & Hreq & Hm).
    apply bind_Ok_inv in Hm as ([] & s3 & Htr & Hm).
    apply bind_Ok_inv in Hm as (ok' & s4 & Hcb & Hm).
    apply ret_Ok_inv in Hcb as [-> ->].
    apply require_Ok_inv in Hm as [Hacc ->].
    split; [|exact Hacc].
    rewrite (bind_Ok _ _ _ _ _ Hauth), (bind_Ok _ _ _ _ _ Hreq). exact Htr.
  - intros [Hm Hacc].
    apply bind_Ok_inv in Hm as (ok & s1 & Hauth & Hm).
    apply bind_Ok_inv in Hm as ([] & s2 & Hreq & Htr).
    rewrite (bind_Ok _ _ _ _ _ Hauth), (bind_Ok _ _ _ _ _ Hreq), (bind_Ok _ _ _ _ _ Htr).
    rewrite bind_ret, Hacc. destruct u. reflexivity.
Qed.

(** What a safe transfer that returned went through, whatever the
    recipient did: the transfer, then the recipient's code, which
    accepted. *)
Lemma safeTransferFrom_called_back msg_sender from to tokenId s u s' :
  Callbacks.safeTransferFrom reenter msg_sender from to tokenId s = Ok (u, s') ->
  exists s1,
    transferFrom msg_sender from to tokenId s = Ok (tt, s1) /\
    Callbacks.run_script reenter (Callbacks.receiver to msg_sender from tokenId) s1
    = Ok (true, s').
Proof.
  intros Hm. unfold Callbacks.safeTransferFrom in Hm.
  apply bind_Ok_inv in Hm as (ok & s1 & Hauth & Hm).
  apply bind_Ok_inv in Hm as ([] & s2 & Hreq & Hm).
  apply bind_Ok_inv in Hm as ([] & s3 & Htr & Hm).
  apply bind_Ok_inv in Hm as (ok' & s4 & Hcb & Hm).
  apply require_Ok_inv in Hm as [-> ->].
  exists s3. split; [|by apply _checkOnERC721Received_called_back]. unfold transferFrom.
  rewrite (bind_Ok _ _ _ _ _ Hauth), (bind_Ok _ _ _ _ _ Hreq). exact Htr.
Qed.

Lemma safeTransferFrom_answers_iff msg_sender from to tokenId s u s' :
  Callbacks.answers_only to ->
  Callbacks.safeTransferFrom reenter msg_sender from to tokenId s = Ok (u, s') <->
  transferFrom msg_sender from to tokenId s = Ok (tt, s') /\
  onERC721Received to msg_sender from tokenId = true.
Proof.
  intros Hans. rewrite safeTransferFrom_answers by done.
  apply safeTransferFrom_as_transferFrom.
Qed.

(** *** Recipients that call nothing *)

Lemma answers_only_quiet to : Callbacks.answers_only to -> Callbacks.quiet to.
Proof. intros Hans operator from tokenId. now rewrite Hans. Qed.

Lemma run_script_quiet (sc : Callbacks.Script St Txn) s b s' :
  Callbacks.calls_nothing sc -> Callbacks.run_script reenter sc s = Ok (b, s') -> s' = s.
Proof.
  induction sc as [accept|reason|tx k IH|k IH]; cbn; intros Hq Hr.
  - injection Hr as _ <-. done.
  - discriminate.
  - done.
  - eapply IH; [apply Hq|exact Hr].
Qed.

(** Code that calls nothing runs the same whatever it could call. *)
Lemma run_script_quiet_any (reenter' : Txn -> Tx St unit) (sc : Callbacks.Script St Txn) s :
  Callbacks.calls_nothing sc ->
  Callbacks.run_script reenter sc s = Callbacks.run_script reenter' sc s.
Proof.
  induction sc as [accept|reason|tx k IH|k IH]; cbn; intros Hq; try done.
  apply IH, Hq.
Qed.

(** A safe mint to a recipient that calls nothing, once it has returned,
    is the safe mint to a recipient that accepts. *)
Lemma _safeMint_quiet msg_sender to tokenId s u s' :
  Callbacks.quiet to ->
  Callbacks._safeMint reenter msg_sender to tokenId s = Ok (u, s') ->
  _safeMint (H := Callbacks.accepting _) msg_sender to tokenId s = Ok (u, s').
Proof.
  intros Hq Hm. apply _safeMint_inv in Hm as (s1 & Hmint & Hcb).
  apply run_script_quiet in Hcb as Hs; [|apply Hq]. subst s'.
  unfold _safeMint. rewrite (bind_Ok _ _ _ _ _ Hmint). destruct u. reflexivity.
Qed.

(** A safe transfer to a recipient that calls nothing, once it has
    returned, has done what the transfer does. *)
Lemma safeTransferFrom_quiet msg_sender from to tokenId s u s' :
  Callbacks.quiet to ->
  Callbacks.safeTransferFrom reenter msg_sender from to tokenId s = Ok (u, s') ->
  transferFrom msg_sender from to tokenId s = Ok (tt, s').
Proof.
  intros Hq Hm. apply safeTransferFrom_called_back in Hm as (s1 & Htr & Hcb).
  apply run_script_quiet in Hcb as Hs; [|apply Hq]. now subst s'.
Qed.
End ERC721.

Lemma _safeMint_quiet_any {St Txn : Type} `{ERC721Contract St}
    `{Callbacks.Receivers St Txn} (reenter reenter' : Txn -> Tx St unit)
    msg_sender to tokenId s :
  Callbacks.quiet to ->
  Callbacks._safeMint reenter msg_sender to tokenId s
  = Callbacks._safeMint reenter' msg_sender to tokenId s.
Proof.
  intros Hq. unfold Callbacks._safeMint.
  apply bind_ext; intros ? s1. apply bind_ext_l. intros s2.
  unfold Callbacks._checkOnERC721Received.
  now rewrite (run_script_quiet_any reenter reenter') by apply Hq.
Qed.
End CallbackProofs.

(** * CollectibleLicenseNFT: invariants of the ledger *)

Module CollectibleProofs.
Import CollectibleLicenseNFT.

Section Proofs.
Context `{Host}.

Lemma hook_mint to t : beforeTokenTransfer 0 to t = ret tt.
Proof. reflexivity. Qed.

Lemma hook_burn from t : beforeTokenTransfer from 0 t = ret tt.
Proof. unfold beforeTokenTransfer. now destruct (from =? 0). Qed.

Ltac unf H :=
  lazymatch type of H with
  | _beforeTokenTransfer _ _ _ _ = _ =>
      cbn [_beforeTokenTransfer Collectible_ERC721] in H
  | beforeTokenTransfer 0 _ _ _ = _ => rewrite hook_mint in H
  | beforeTokenTransfer _ 0 _ _ = _ => rewrite hook_burn in H
  | beforeTokenTransfer _ _ _ _ = _ => unfold beforeTokenTransfer in H
  | onlyRole _ _ _ = _ => unfold onlyRole in H
  | _setTokenRoyalty _ _ _ _ = _ => unfold _setTokenRoyalty in H
  | _resetTokenRoyalty _ _ = _ => unfold _resetTokenRoyalty in H
  | _burn _ _ = _ => unfold _burn in H
  | write_license _ _ _ _ _ _ _ = _ => unfold write_license in H
  | mintCollectible _ _ _ _ _ _ _ _ _ _ = _ => unfold mintCollectible in H
  | openMint _ _ _ _ _ _ _ _ = _ => unfold openMint in H
  | redeem _ _ _ = _ => unfold redeem in H
  | burn _ _ _ = _ => unfold burn in H
  | setOpenMinting _ _ _ = _ => unfold setOpenMinting in H
  | setMerkleRoot _ _ _ = _ => unfold setMerkleRoot in H
  | grantRole _ _ _ _ = _ => unfold grantRole in H
  | revokeRole _ _ _ _ = _ => unfold revokeRole in H
  | renounceRole _ _ _ _ = _ => unfold renounceRole in H
  | forget _ _ = _ => unfold forget in H
  end.

Ltac tx_inv H := tx_inv_with unf H.

Ltac st_simpl :=
  unfold no_dangling in *;
  unfold lookup, owner_of, license_of, is_redeemed, hasRole in *;
  cbn [erc with_erc emit Collectible_ERC721
       erc721 licenses userAppToken redeemed nextTokenId MAX_SUPPLY openMinting merkleRoot
       _roles _tokenRoyaltyInfo log
       set_erc721 set_licenses set_userAppToken set_redeemed set_nextTokenId
       set_openMinting set_merkleRoot set_roles set_tokenRoyaltyInfo push_event
       _owners _tokenApprovals _operatorApprovals _tokenURIs
       set_owner clear_owner set_approval clear_approval set_operator set_uri
       clear_uri] in *.

Ltac inv_start Hm :=
  tx_inv Hm; st_simpl; bool_clean; try congruence; (split; st_simpl).

Lemma mintCollectible_Inv M sender to uri app exp sb eph rr rf s t s' :
  Inv M s -> mintCollectible sender to uri app exp sb eph rr rf s = Ok (t, s') -> Inv M s'.
Proof.
  intros [Hids Hidx Hlog Hsup Hmax] Hm. inv_start Hm.
  all: try lia.
  all: try (rewrite ?minted_ids_other by done;
            rewrite minted_ids_mint, Hlog, ids_upto_succ; done).
  all: try (intros t'; by_cases (nextTokenId s + 1) t'; [lia|];
            intros Ht'; apply Hids in Ht'; lia).
  all: intros o h t' Hl Hne.
  1,2: revert Hl; by_cases (to, keccak256 app) (o, h); [intros <-; slot_norm; done|]; intros Hl.
  all: destruct (Hidx o h t' Hl Hne) as (Ho & Ho0 & Hne' & Hh).
  all: assert (nextTokenId s + 1 <> t') by (intros <-; congruence).
  all: slot_norm; done.
Qed.

Lemma openMint_Inv M sender uri app exp sb eph proof s t s' :
  Inv M s -> openMint sender uri app exp sb eph proof s = Ok (t, s') -> Inv M s'.
Proof.
  intros [Hids Hidx Hlog Hsup Hmax] Hm. inv_start Hm.
  all: try lia.
  all: try (rewrite ?minted_ids_other by done;
            rewrite minted_ids_mint, Hlog, ids_upto_succ; done).
  all: try (intros t'; by_cases (nextTokenId s + 1) t'; [lia|];
            intros Ht'; apply Hids in Ht'; lia).
  all: intros o h t' Hl Hne.
  all: try (revert Hl; by_cases (sender, keccak256 app) (o, h); [intros <-; slot_norm; done|]; intros Hl).
  all: destruct (Hidx o h t' Hl Hne) as (Ho & Ho0 & Hne' & Hh).
  all: assert (nextTokenId s + 1 <> t') by (intros <-; congruence).
  all: slot_norm; done.
Qed.

(** The index after a transfer or a burn still points at live tokens. *)
Ltac index_after Hidx t :=
  let o := fresh "o" in
  let h := fresh "h" in
  let t' := fresh "t'" in
  let Hl := fresh "Hl" in
  let Hne := fresh "Hne" in
  intros o h t' Hl Hne;
  repeat match type of Hl with
         | slot (<[?k := _]> _) _ = _ =>
             revert Hl; by_cases k (o, h); [intros <-; slot_norm; done|]; intros Hl
         | slot (delete ?k _) _ = _ =>
             revert Hl; by_cases k (o, h); [intros <-; done|]; intros Hl
         end;
  let Ho := fresh "Ho" in
  let Ho0 := fresh "Ho0" in
  let Hne' := fresh "Hne'" in
  let Hh := fresh "Hh" in
  destruct (Hidx o h t' Hl Hne) as (Ho & Ho0 & Hne' & Hh);
  assert (t <> t') by (intros <-; congruence);
  slot_norm; done.

Lemma transferFrom_Inv M sender from to t s u s' :
  Inv M s -> transferFrom sender from to t s = Ok (u, s') -> Inv M s'.
Proof.
  intros [Hids Hidx Hlog Hsup Hmax] Hm. inv_start Hm.
  all: try lia.
  all: try (rewrite minted_ids_transfer by congruence; done).
  all: try (intros t'; by_cases t t'; [intros _; apply Hids; congruence | apply Hids]).
  all: index_after Hidx t.
Qed.

Lemma safeTransferFrom_Inv M sender from to t s u s' :
  Inv M s -> safeTransferFrom sender from to t s = Ok (u, s') -> Inv M s'.
Proof.
  intros [Hids Hidx Hlog Hsup Hmax] Hm. inv_start Hm.
  all: try lia.
  all: try (rewrite minted_ids_transfer by congruence; done).
  all: try (intros t'; by_cases t t'; [intros _; apply Hids; congruence | apply Hids]).
  all: index_after Hidx t.
Qed.

Lemma burn_Inv M sender t s u s' :
  Inv M s -> burn sender t s = Ok (u, s') -> Inv M s'.
Proof.
  intros [Hids Hidx Hlog Hsup Hmax] Hm. inv_start Hm.
  all: try lia.
  all: try (rewrite minted_ids_transfer by congruence; done).
  all: try (intros t'; by_cases t t'; [done | apply Hids]).
  all: index_after Hidx t.
Qed.

(** Operations that leave the registry, the index and the counter alone. *)
Ltac inv_same Hm := inv_start Hm; solve [done | rewrite minted_ids_other by done; done].

Lemma redeem_Inv M sender t s u s' :
  Inv M s -> redeem sender t s = Ok (u, s') -> Inv M s'.
Proof. intros [Hids Hidx Hlog Hsup Hmax] Hm. inv_same Hm. Qed.

Lemma approve_Inv M sender to t s u s' :
  Inv M s -> approve sender to t s = Ok (u, s') -> Inv M s'.
Proof. intros [Hids Hidx Hlog Hsup Hmax] Hm. inv_same Hm. Qed.

Lemma setApprovalForAll_Inv M sender operator approved s u s' :
  Inv M s -> setApprovalForAll sender operator approved s = Ok (u, s') -> Inv M s'.
Proof. intros [Hids Hidx Hlog Hsup Hmax] Hm. inv_same Hm. Qed.

Lemma setOpenMinting_Inv M sender enabled s u s' :
  Inv M s -> setOpenMinting sender enabled s = Ok (u, s') -> Inv M s'.
Proof. intros [Hids Hidx Hlog Hsup Hmax] Hm. inv_same Hm. Qed.

Lemma setMerkleRoot_Inv M sender root s u s' :
  Inv M s -> setMerkleRoot sender root s = Ok (u, s') -> Inv M s'.
Proof. intros [Hids Hidx Hlog Hsup Hmax] Hm. inv_same Hm. Qed.

Lemma grantRole_Inv M sender role account s u s' :
  Inv M s -> grantRole sender role account s = Ok (u, s') -> Inv M s'.
Proof. intros [Hids Hidx Hlog Hsup Hmax] Hm. inv_same Hm. Qed.

Lemma revokeRole_Inv M sender role account s u s' :
  Inv M s -> revokeRole sender role account s = Ok (u, s') -> Inv M s'.
Proof. intros [Hids Hidx Hlog Hsup Hmax] Hm. inv_same Hm. Qed.

Lemma renounceRole_Inv M sender role account s u s' :
  Inv M s -> renounceRole sender role account s = Ok (u, s') -> Inv M s'.
Proof. intros [Hids Hidx Hlog Hsup Hmax] Hm. inv_same Hm. Qed.

Lemma batchMint_from_Inv M sender n : forall i rs us aps es sbs ephs rrs rfs s u s',
  Inv M s ->
  batchMint_from sender n i rs us aps es sbs ephs rrs rfs s = Ok (u, s') -> Inv M s'.
Proof.
  induction n as [|n IH]; intros i rs us aps es sbs ephs rrs rfs s u s' HI Hm.
  - cbn in Hm. tx_inv Hm. done.
  - cbn [batchMint_from] in Hm.
    repeat (apply bind_Ok_inv in Hm as (? & ? & Hat & Hm);
            unfold at_index in Hat;
            match type of Hat with
            | match ?x with _ => _ end _ = _ => destruct x; tx_inv Hat
            end).
    apply bind_Ok_inv in Hm as (t & sm & Hmint & Hm).
    eapply IH; [|exact Hm]. eapply mintCollectible_Inv; eauto.
Qed.

Lemma batchMint_Inv M sender rs us aps es sbs ephs rrs rfs s u s' :
  Inv M s -> batchMint sender rs us aps es sbs ephs rrs rfs s = Ok (u, s') -> Inv M s'.
Proof.
  intros HI Hm. unfold batchMint in Hm.
  apply bind_Ok_inv in Hm as (? & s1 & Hrole & Hm). tx_inv Hrole.
  apply bind_Ok_inv in Hm as (? & s2 & Hlen & Hm). tx_inv Hlen.
  eapply batchMint_from_Inv; eauto.
Qed.

Lemma dispatch_Inv M tx s u s' : Inv M s -> dispatch tx s = Ok (u, s') -> Inv M s'.
Proof.
  intros HI Hm. destruct tx as [sender []]; cbn [dispatch msg_sender msg_call] in Hm.
  - unfold forget in Hm. apply bind_Ok_inv in Hm as (t & s1 & Hm & Hr). tx_inv Hr.
    eauto using mintCollectible_Inv.
  - unfold forget in Hm. apply bind_Ok_inv in Hm as (t & s1 & Hm & Hr). tx_inv Hr.
    eauto using openMint_Inv.
  - eauto using batchMint_Inv.
  - eauto using redeem_Inv.
  - eauto using burn_Inv.
  - eauto using transferFrom_Inv.
  - eauto using safeTransferFrom_Inv.
  - eauto using approve_Inv.
  - eauto using setApprovalForAll_Inv.
  - eauto using setOpenMinting_Inv.
  - eauto using setMerkleRoot_Inv.
  - eauto using grantRole_Inv.
  - eauto using revokeRole_Inv.
  - eauto using renounceRole_Inv.
Qed.

Lemma step_Inv M tx s : Inv M s -> Inv M (step s tx).
Proof.
  intros HI. unfold step, commit.
  destruct (dispatch tx s) as [[u s']|r] eqn:Hd; [|done].
  eauto using dispatch_Inv.
Qed.

Lemma run_Inv M txs : forall s, Inv M s -> Inv M (run txs s).
Proof.
  induction txs as [|tx txs IH]; intros s HI; [done|].
  cbn. apply IH, step_Inv, HI.
Qed.

Lemma constructor_Inv deployer maxSupply :
  Inv maxSupply (constructor deployer maxSupply).
Proof.
  split; unfold no_dangling, lookup, owner_of; cbn.
  - intros t. now rewrite slot_empty.
  - intros o h t Hl Hne. rewrite slot_empty in Hl. congruence.
  - done.
  - lia.
  - done.
Qed.

Lemma reachable_Inv deployer maxSupply txs :
  Inv maxSupply (run txs (constructor deployer maxSupply)).
Proof. apply run_Inv, constructor_Inv. Qed.

(** *** Running the calls forward *)

Ltac unf_goal _ :=
  lazymatch goal with
  | |- bind (_beforeTokenTransfer _ _ _) _ _ = _ =>
      cbn [_beforeTokenTransfer Collectible_ERC721]
  | |- bind (beforeTokenTransfer _ _ _) _ _ = _ => unfold beforeTokenTransfer at 1
  | |- bind (onlyRole _ _) _ _ = _ => unfold onlyRole at 1
  | |- bind (_setTokenRoyalty _ _ _) _ _ = _ => unfold _setTokenRoyalty at 1
  | |- bind (_resetTokenRoyalty _) _ _ = _ => unfold _resetTokenRoyalty at 1
  | |- bind (_burn _) _ _ = _ => unfold _burn at 1
  | |- bind (write_license _ _ _ _ _ _) _ _ = _ => unfold write_license at 1
  | |- bind (mintCollectible _ _ _ _ _ _ _ _ _) _ _ = _ => unfold mintCollectible at 1
  end.

Ltac st_norm _ := st_simpl.

Ltac kill _ :=
  bool_clean;
  repeat first
    [ rewrite slot_insert_eq in *
    | rewrite slot_delete_eq in *
    | rewrite slot_insert_ne in * by congruence
    | rewrite slot_delete_ne in * by congruence ];
  first [congruence | lia | done].

Ltac tx_fwd := rewrite <- bind_ret_r; tx_fwd_with unf_goal st_norm kill.

(** *** Duplicate licences *)

Lemma mintCollectible_occupied_fails sender to uri app exp sb eph rr rf s :
  nonempty app = true -> lookup s to (keccak256 app) <> 0 ->
  reverted (mintCollectible sender to uri app exp sb eph rr rf) s.
Proof.
  intros Happ Hdup.
  destruct (mintCollectible sender to uri app exp sb eph rr rf s) as [[t s']|r] eqn:Hm;
    [|by exists r].
  exfalso. tx_inv Hm; st_simpl; bool_clean; congruence.
Qed.

Lemma mintCollectible_duplicate sender to uri app exp sb eph rr rf s :
  hasRole s MINTER_ROLE sender = true ->
  nextTokenId s < MAX_SUPPLY s ->
  MAX_SUPPLY s < uint256_limit ->
  to <> 0 -> owner_of s (nextTokenId s + 1) = 0 ->
  onERC721Received to sender 0 (nextTokenId s + 1) = true ->
  nonempty app = true ->
  lookup s to (keccak256 app) <> 0 ->
  mintCollectible sender to uri app exp sb eph rr rf s =
    Revert (Error "User already owns this app").
Proof.
  intros Hrole Hcap Hmax Hto Hfresh Hacc Happ Hdup.
  unfold mintCollectible. tx_fwd.
Qed.

Lemma openMint_duplicate sender uri app exp sb eph proof s :
  openMinting s = true ->
  nextTokenId s < MAX_SUPPLY s ->
  MAX_SUPPLY s < uint256_limit ->
  (merkleRoot s = 0 \/ verify proof (merkleRoot s) (keccak256_address sender) = true) ->
  sender <> 0 -> owner_of s (nextTokenId s + 1) = 0 ->
  onERC721Received sender sender 0 (nextTokenId s + 1) = true ->
  nonempty app = true ->
  lookup s sender (keccak256 app) <> 0 ->
  openMint sender uri app exp sb eph proof s =
    Revert (Error "User already owns this app").
Proof.
  intros Hopen Hcap Hmax Hroot Hto Hfresh Hacc Happ Hdup.
  unfold openMint. tx_fwd.
Qed.

(** In a state reached from deployment the id about to be allocated is
    free and an occupied slot belongs to a real account. *)
Lemma Inv_fresh M s : Inv M s -> owner_of s (nextTokenId s + 1) = 0.
Proof.
  intros HI. destruct (decide (owner_of s (nextTokenId s + 1) = 0)) as [|Hne]; [done|].
  apply (inv_ids _ _ HI) in Hne. lia.
Qed.

Lemma Inv_holder M s user aHash :
  Inv M s -> lookup s user aHash <> 0 -> user <> 0.
Proof. intros HI Hl. now destruct (inv_index _ _ HI user aHash _ eq_refl Hl) as (_ & ? & _). Qed.

(** *** Soulbound tokens *)

Lemma hook_soulbound from to t s :
  from <> 0 -> to <> 0 -> soulbound (license_of s t) = true ->
  beforeTokenTransfer from to t s = Revert (Error "Token is soulbound").
Proof.
  intros Hf Ht Hs. unfold beforeTokenTransfer. tx_fwd.
Qed.

Lemma transferFrom_soulbound_fails sender from to t s :
  from <> 0 -> to <> 0 -> soulbound (license_of s t) = true ->
  reverted (transferFrom sender from to t) s.
Proof.
  intros Hf Ht Hs.
  destruct (transferFrom sender from to t s) as [[u s']|r] eqn:Hm; [|by exists r].
  exfalso. tx_inv Hm; st_simpl; bool_clean; congruence.
Qed.

Lemma safeTransferFrom_soulbound_fails sender from to t s :
  from <> 0 -> to <> 0 -> soulbound (license_of s t) = true ->
  reverted (safeTransferFrom sender from to t) s.
Proof.
  intros Hf Ht Hs.
  destruct (safeTransferFrom sender from to t s) as [[u s']|r] eqn:Hm; [|by exists r].
  exfalso. tx_inv Hm; st_simpl; bool_clean; congruence.
Qed.

Lemma transferFrom_soulbound sender from to t s :
  _isApprovedOrOwner sender t s = Ok (true, s) ->
  owner_of s t = from -> to <> 0 ->
  soulbound (license_of s t) = true ->
  transferFrom sender from to t s = Revert (Error "Token is soulbound").
Proof.
  intros Hauth Hown Ht Hs.
  assert (from <> 0) by (tx_inv Hauth; st_simpl; bool_clean; congruence).
  unfold transferFrom. rewrite (bind_Ok _ _ _ _ _ Hauth). tx_fwd.
Qed.

Lemma safeTransferFrom_soulbound sender from to t s :
  _isApprovedOrOwner sender t s = Ok (true, s) ->
  owner_of s t = from -> to <> 0 ->
  soulbound (license_of s t) = true ->
  safeTransferFrom sender from to t s = Revert (Error "Token is soulbound").
Proof.
  intros Hauth Hown Ht Hs.
  assert (from <> 0) by (tx_inv Hauth; st_simpl; bool_clean; congruence).
  unfold safeTransferFrom. rewrite (bind_Ok _ _ _ _ _ Hauth). tx_fwd.
Qed.

(** The holder of a token passes the ERC721 approval check. *)
Lemma holder_isApprovedOrOwner holder t s :
  owner_of s t = holder -> holder <> 0 ->
  _isApprovedOrOwner holder t s = Ok (true, s).
Proof.
  intros Hown Hne. unfold _isApprovedOrOwner. tx_fwd.
  st_simpl. rewrite Hown, N.eqb_refl. reflexivity.
Qed.

(** *** Redeeming *)

Lemma redeem_ok holder t s :
  owner_of s t = holder -> holder <> 0 ->
  ephemeral (license_of s t) = true -> is_redeemed s t = false ->
  redeem holder t s = Ok (tt, redeemed_state holder t s).
Proof.
  intros Hown Hne He Hr. unfold redeem. tx_fwd.
Qed.

Lemma redeem_again holder t s :
  owner_of s t = holder -> holder <> 0 ->
  ephemeral (license_of s t) = true ->
  redeem holder t (redeemed_state holder t s) = Revert (Error "Already redeemed").
Proof.
  intros Hown Hne He. unfold redeem, redeemed_state. tx_fwd.
  all: exfalso; rewrite lookup_insert_eq in *; cbn in *; congruence.
Qed.

Lemma redeem_not_owner caller t s :
  owner_of s t <> 0 -> caller <> owner_of s t ->
  redeem caller t s = Revert (Error "Not owner").
Proof.
  intros Hex Hne. unfold redeem. tx_fwd.
Qed.

Lemma redeem_not_ephemeral holder t s :
  owner_of s t = holder -> holder <> 0 ->
  ephemeral (license_of s t) = false ->
  redeem holder t s = Revert (Error "Not ephemeral").
Proof.
  intros Hown Hne He. unfold redeem. tx_fwd.
Qed.

(** *** Capacity *)

Lemma mintCollectible_capacity sender to uri app exp sb eph rr rf s :
  hasRole s MINTER_ROLE sender = true ->
  MAX_SUPPLY s <= nextTokenId s ->
  mintCollectible sender to uri app exp sb eph rr rf s =
    Revert (Error "Max supply reached").
Proof.
  intros Hrole Hfull. unfold mintCollectible. tx_fwd.
Qed.

Lemma openMint_capacity sender uri app exp sb eph proof s :
  openMinting s = true ->
  MAX_SUPPLY s <= nextTokenId s ->
  openMint sender uri app exp sb eph proof s = Revert (Error "Max supply reached").
Proof.
  intros Hopen Hfull. unfold openMint. tx_fwd.
Qed.

Lemma mintCollectible_full_fails sender to uri app exp sb eph rr rf s :
  MAX_SUPPLY s <= nextTokenId s ->
  reverted (mintCollectible sender to uri app exp sb eph rr rf) s.
Proof.
  intros Hfull.
  destruct (mintCollectible sender to uri app exp sb eph rr rf s) as [[t s']|r] eqn:Hm;
    [|by exists r].
  exfalso. tx_inv Hm; st_simpl; bool_clean; lia.
Qed.

Lemma openMint_full_fails sender uri app exp sb eph proof s :
  MAX_SUPPLY s <= nextTokenId s ->
  reverted (openMint sender uri app exp sb eph proof) s.
Proof.
  intros Hfull.
  destruct (openMint sender uri app exp sb eph proof s) as [[t s']|r] eqn:Hm;
    [|by exists r].
  exfalso. tx_inv Hm; st_simpl; bool_clean; lia.
Qed.

Lemma length_ids_upto n : length (ids_upto n) = N.to_nat n.
Proof. unfold ids_upto. now rewrite length_map, length_seq. Qed.

(** *** Batches *)

Lemma same_lengths_check {A B C D E F G I} (a : list A) (b : list B) (c : list C)
    (d : list D) (e : list E) (f : list F) (g : list G) (i : list I) :
  ~ same_lengths a b c d e f g i ->
  same_length a b && same_length b c && same_length c d && same_length d e &&
  same_length e f && same_length f g && same_length g i = false.
Proof.
  intros Hn. apply not_true_is_false. intros Ht. apply Hn.
  unfold same_length in Ht. rewrite !andb_true_iff, !Nat.eqb_eq in Ht.
  unfold same_lengths. tauto.
Qed.

Lemma batchMint_mismatch sender rs us aps es sbs ephs rrs rfs s :
  hasRole s MINTER_ROLE sender = true ->
  ~ same_lengths rs us aps es sbs ephs rrs rfs ->
  batchMint sender rs us aps es sbs ephs rrs rfs s =
    Revert (Error "Array length mismatch").
Proof.
  intros Hrole Hlen. apply same_lengths_check in Hlen.
  unfold batchMint. tx_fwd.
Qed.

Lemma batchMint_mismatch_fails sender rs us aps es sbs ephs rrs rfs s :
  ~ same_lengths rs us aps es sbs ephs rrs rfs ->
  reverted (batchMint sender rs us aps es sbs ephs rrs rfs) s.
Proof.
  intros Hlen. apply same_lengths_check in Hlen.
  destruct (batchMint sender rs us aps es sbs ephs rrs rfs s) as [[u s']|r] eqn:Hm;
    [|by exists r].
  exfalso. unfold batchMint in Hm.
  apply bind_Ok_inv in Hm as (? & s1 & Hrole & Hm). tx_inv Hrole.
  apply bind_Ok_inv in Hm as (? & s2 & Hreq & Hm). tx_inv Hreq.
  congruence.
Qed.

(** *** Mints without an application id *)

Lemma license_events_app l1 l2 :
  (license_events (l1 ++ l2) = license_events l1 ++ license_events l2)%list.
Proof. apply List.filter_app. Qed.

Lemma mintCollectible_blank sender to uri exp sb eph rr rf s :
  hasRole s MINTER_ROLE sender = true ->
  nextTokenId s < MAX_SUPPLY s ->
  MAX_SUPPLY s < uint256_limit ->
  to <> 0 -> owner_of s (nextTokenId s + 1) = 0 ->
  onERC721Received to sender 0 (nextTokenId s + 1) = true ->
  (rr = 0 \/ rf <= _feeDenominator) ->
  exists s',
    mintCollectible sender to uri "" exp sb eph rr rf s = Ok (nextTokenId s + 1, s') /\
    licenses s' = licenses s /\ userAppToken s' = userAppToken s /\
    license_events (log s') = license_events (log s) /\
    owner_of s' (nextTokenId s + 1) = to /\
    nextTokenId s' = nextTokenId s + 1 /\
    MAX_SUPPLY s' = MAX_SUPPLY s /\ _roles s' = _roles s /\
    (forall t, t <> nextTokenId s + 1 -> owner_of s' t = owner_of s t).
Proof.
  intros Hrole Hcap Hmax Hto Hfresh Hacc Hroy.
  destruct (rr =? 0) eqn:Hrr.
  all: eexists; split; [unfold mintCollectible; tx_fwd; reflexivity|].
  all: st_simpl; rewrite license_events_app, app_nil_r, slot_insert_eq.
  all: repeat split; try done.
  all: intros t Ht; slot_norm; done.
Qed.

Lemma openMint_blank sender uri exp sb eph proof s :
  openMinting s = true ->
  nextTokenId s < MAX_SUPPLY s ->
  MAX_SUPPLY s < uint256_limit ->
  (merkleRoot s = 0 \/ verify proof (merkleRoot s) (keccak256_address sender) = true) ->
  sender <> 0 -> owner_of s (nextTokenId s + 1) = 0 ->
  onERC721Received sender sender 0 (nextTokenId s + 1) = true ->
  exists s',
    openMint sender uri "" exp sb eph proof s = Ok (nextTokenId s + 1, s') /\
    licenses s' = licenses s /\ userAppToken s' = userAppToken s /\
    license_events (log s') = license_events (log s) /\
    owner_of s' (nextTokenId s + 1) = sender /\
    nextTokenId s' = nextTokenId s + 1.
Proof.
  intros Hopen Hcap Hmax Hroot Hto Hfresh Hacc.
  destruct (merkleRoot s =? 0) eqn:Hr.
  all: eexists; split; [unfold openMint; tx_fwd; reflexivity|].
  all: st_simpl; rewrite license_events_app, app_nil_r, slot_insert_eq; done.
Qed.

(** *** Transfers and the index *)

Lemma transferFrom_index sender from to t s u s' :
  transferFrom sender from to t s = Ok (u, s') ->
  nonempty (appId (license_of s t)) = true ->
  let h := keccak256 (appId (license_of s t)) in
  owner_of s t = from /\ owner_of s' t = to /\
  lookup s' to h = t /\
  (from <> to -> lookup s from h = t -> lookup s' from h = 0) /\
  (from <> to -> lookup s from h <> t -> lookup s' from h = lookup s from h) /\
  (forall o h', (o, h') <> (to, h) -> (o, h') <> (from, h) ->
                lookup s' o h' = lookup s o h').
Proof.
  intros Hm Happ h. subst h. tx_inv Hm; st_simpl; bool_clean; try congruence.
  all: repeat split; slot_norm; try done.
  all: try (intros Hft Hcur; slot_norm; congruence).
  all: intros o h' Hn1 Hn2; slot_norm; done.
Qed.

Lemma transferFrom_succeeds sender from to t s :
  _isApprovedOrOwner sender t s = Ok (true, s) ->
  owner_of s t = from -> to <> 0 ->
  soulbound (license_of s t) = false ->
  exists s', transferFrom sender from to t s = Ok (tt, s').
Proof.
  intros Hauth Hown Ht Hs.
  assert (from <> 0) by (tx_inv Hauth; st_simpl; bool_clean; congruence).
  unfold transferFrom. rewrite (bind_Ok _ _ _ _ _ Hauth).
  destruct (nonempty (appId (license_of s t))) eqn:Happ;
    [destruct (lookup s from (keccak256 (appId (license_of s t))) =? t) eqn:Hcur|].
  all: eexists; tx_fwd; reflexivity.
Qed.

(** *** Token ids *)




Lemma Inv_no_duplicate M s : Inv M s -> no_duplicate s.
Proof.
  intros HI o h o' h' t Hl Hl' Hne.
  destruct (inv_index _ _ HI o h t Hl Hne) as (Ho & _ & _ & Hh).
  destruct (inv_index _ _ HI o' h' t Hl' Hne) as (Ho' & _ & _ & Hh').
  split; congruence.
Qed.

(** ** Further properties of the calls *)


(** *** Burning *)

Lemma burn_inv holder t s u s' :
  burn holder t s = Ok (u, s') ->
  owner_of s t = holder /\ holder <> 0 /\
  owner_of s' t = 0 /\
  (forall t', t' <> t -> owner_of s' t' = owner_of s t') /\
  nextTokenId s' = nextTokenId s /\
  redeemed s' = redeemed s /\
  _tokenRoyaltyInfo s' !! t = None /\
  default "" (_tokenURIs (erc721 s') !! t) = "" /\
  (nonempty (appId (license_of s t)) = true ->
   licenses s' = delete t (licenses s) /\
   userAppToken s'
   = delete (holder, keccak256 (appId (license_of s t))) (userAppToken s)) /\
  (nonempty (appId (license_of s t)) = false ->
   licenses s' = licenses s /\ userAppToken s' = userAppToken s).
Proof.
  intros Hm. tx_inv Hm; st_simpl; bool_clean; try congruence.
  all: repeat split; slot_norm; try done; try congruence.
  all: try (intros t' Ht'; slot_norm; done).
  all: by apply String.eqb_eq.
Qed.

Lemma burn_succeeds holder t s :
  owner_of s t = holder -> holder <> 0 ->
  exists s', burn holder t s = Ok (tt, s').
Proof.
  intros Hown Hne. unfold burn.
  destruct (nonempty (appId (license_of s t))) eqn:Happ;
    destruct (negb (String.eqb (default "" (_tokenURIs (erc721 s) !! t)) "")) eqn:Huri.
  all: eexists; tx_fwd; reflexivity.
Qed.

Lemma burn_missing sender t s :
  owner_of s t = 0 -> burn sender t s = Revert (Error "ERC721: invalid token ID").
Proof. intros Hno. unfold burn. tx_fwd. Qed.

Lemma burn_not_owner sender t s :
  owner_of s t <> 0 -> sender <> owner_of s t ->
  burn sender t s = Revert (Error "Not owner").
Proof. intros Hex Hne. unfold burn. tx_fwd. Qed.

(** *** Minting a licence *)

Lemma mintCollectible_licensed sender to uri app exp sb eph rr rf s :
  hasRole s MINTER_ROLE sender = true ->
  nextTokenId s < MAX_SUPPLY s ->
  MAX_SUPPLY s < uint256_limit ->
  to <> 0 -> owner_of s (nextTokenId s + 1) = 0 ->
  onERC721Received to sender 0 (nextTokenId s + 1) = true ->
  nonempty app = true ->
  lookup s to (keccak256 app) = 0 ->
  (rr = 0 \/ rf <= _feeDenominator) ->
  exists s',
    mintCollectible sender to uri app exp sb eph rr rf s = Ok (nextTokenId s + 1, s') /\
    owner_of s' (nextTokenId s + 1) = to /\
    lookup s' to (keccak256 app) = nextTokenId s + 1 /\
    license_of s' (nextTokenId s + 1)
    = {| appId := app; expiry := exp; soulbound := sb; ephemeral := eph |} /\
    is_redeemed s' (nextTokenId s + 1) = is_redeemed s (nextTokenId s + 1) /\
    license_events (log s')
    = (license_events (log s) ++ [LicenseMinted to (nextTokenId s + 1) app exp])%list.
Proof.
  intros Hrole Hcap Hmax Hto Hfresh Hacc Happ Hfree Hroy.
  destruct (rr =? 0) eqn:Hrr.
  all: eexists; split; [unfold mintCollectible; tx_fwd; reflexivity|].
  all: st_simpl; slot_norm.
  all: rewrite !license_events_app, app_nil_r; cbn.
  all: repeat split; done.
Qed.


(** *** What mints leave alone *)

Import CollectibleFrames.

Lemma grows_refl s : grows s s.
Proof. unfold grows. repeat split; try done; lia. Qed.

Lemma grows_trans s1 s2 s3 : grows s1 s2 -> grows s2 s3 -> grows s1 s3.
Proof.
  intros (Hr & Ho & Hm & Hro & Hx & Hn & Ht & Hl) (Hr' & Ho' & Hm' & Hro' & Hx' & Hn' & Ht' & Hl').
  unfold grows. split; [congruence|]. split; [congruence|]. split; [congruence|].
  split; [congruence|]. split; [congruence|]. split; [lia|]. split.
  - intros t Hlive. destruct (Ht t Hlive) as [E1 E2].
    destruct (Ht' t) as [E3 E4]; [congruence|]. split; congruence.
  - intros o h Hne. rewrite Hl', Hl; try done. rewrite Hl; done.
Qed.

Lemma mintCollectible_grows sender to uri app exp sb eph rr rf s t s' :
  mintCollectible sender to uri app exp sb eph rr rf s = Ok (t, s') -> grows s s'.
Proof.
  intros Hm. tx_inv Hm; unfold grows; st_simpl; bool_clean.
  all: do 5 (split; [done|]); split; [lia|]; split.
  all: try (intros t' Hlive; assert (nextTokenId s + 1 <> t') by congruence;
            slot_norm; done).
  all: intros o h Hne; try done.
  all: assert ((to, keccak256 app) <> (o, h)) by congruence; slot_norm; done.
Qed.

Lemma openMint_grows sender uri app exp sb eph proof s t s' :
  openMint sender uri app exp sb eph proof s = Ok (t, s') -> grows s s'.
Proof.
  intros Hm. tx_inv Hm; unfold grows; st_simpl; bool_clean.
  all: do 5 (split; [done|]); split; [lia|]; split.
  all: try (intros t' Hlive; assert (nextTokenId s + 1 <> t') by congruence;
            slot_norm; done).
  all: intros o h Hne; try done.
  all: assert ((sender, keccak256 app) <> (o, h)) by congruence; slot_norm; done.
Qed.

Lemma batchMint_from_grows sender n : forall i rs us aps es sbs ephs rrs rfs s u s',
  batchMint_from sender n i rs us aps es sbs ephs rrs rfs s = Ok (u, s') -> grows s s'.
Proof.
  induction n as [|n IH]; intros i rs us aps es sbs ephs rrs rfs s u s' Hm.
  - cbn in Hm. tx_inv Hm. apply grows_refl.
  - cbn [batchMint_from] in Hm.
    repeat (apply bind_Ok_inv in Hm as (? & ? & Hat & Hm);
            unfold at_index in Hat;
            match type of Hat with
            | match ?x with _ => _ end _ = _ => destruct x; tx_inv Hat
            end).
    apply bind_Ok_inv in Hm as (t & sm & Hmint & Hm).
    eapply grows_trans; [eapply mintCollectible_grows; eauto|eapply IH; eauto].
Qed.

Lemma batchMint_grows sender rs us aps es sbs ephs rrs rfs s u s' :
  batchMint sender rs us aps es sbs ephs rrs rfs s = Ok (u, s') -> grows s s'.
Proof.
  intros Hm. unfold batchMint in Hm.
  apply bind_Ok_inv in Hm as (? & s1 & Hrole & Hm). tx_inv Hrole.
  apply bind_Ok_inv in Hm as (? & s2 & Hlen & Hm). tx_inv Hlen.
  eapply batchMint_from_grows; eauto.
Qed.

(** Split a call that returned into its kind: a mint, or one of the others
    already inverted. *)
Ltac by_call Hm tx :=
  destruct tx as [sender []]; cbn [dispatch msg_sender msg_call] in Hm;
  [ let Hr := fresh "Hr" in
    unfold forget in Hm; apply bind_Ok_inv in Hm as (? & ? & Hm & Hr);
    tx_inv Hr; apply mintCollectible_grows in Hm
  | let Hr := fresh "Hr" in
    unfold forget in Hm; apply bind_Ok_inv in Hm as (? & ? & Hm & Hr);
    tx_inv Hr; apply openMint_grows in Hm
  | apply batchMint_grows in Hm
  | tx_inv Hm | tx_inv Hm | tx_inv Hm | tx_inv Hm | tx_inv Hm | tx_inv Hm
  | tx_inv Hm | tx_inv Hm | tx_inv Hm | tx_inv Hm | tx_inv Hm ].

Lemma dispatch_redeemed tx s u s' t :
  dispatch tx s = Ok (u, s') -> is_redeemed s t = true -> is_redeemed s' t = true.
Proof.
  intros Hm Hr. by_call Hm tx.
  1-3: destruct Hm as (Hred & _); unfold is_redeemed in *; congruence.
  all: st_simpl; try done.
  all: destruct (decide (tokenId = t)) as [->|Hne];
         [now rewrite lookup_insert_eq|now rewrite lookup_insert_ne].
Qed.

Lemma dispatch_live tx s u s' t :
  dispatch tx s = Ok (u, s') ->
  owner_of s t <> 0 -> owner_of s' t <> 0 ->
  licenses s' !! t = licenses s !! t /\
  (soulbound (license_of s t) = true -> owner_of s' t = owner_of s t).
Proof.
  intros Hm Hlive Hlive'. by_call Hm tx.
  1-3: destruct Hm as (_ & _ & _ & _ & _ & _ & Ht & _); destruct (Ht t Hlive); done.
  all: st_simpl; bool_clean; try done; try congruence.
  all: destruct (decide (tokenId = t)) as [->|Hne].
  all: repeat (rewrite ?slot_insert_eq, ?slot_delete_eq, ?lookup_delete_eq in *).
  all: try congruence.
  all: repeat (rewrite ?slot_insert_ne, ?slot_delete_ne, ?lookup_delete_ne in * by done).
  all: try done.
  all: split; [done|intros Hsb; unfold license_of in *; congruence].
Qed.

Lemma mintCollectible_dead sender to uri app exp sb eph rr rf s t0 s' t :
  mintCollectible sender to uri app exp sb eph rr rf s = Ok (t0, s') ->
  owner_of s t = 0 -> t <= nextTokenId s ->
  owner_of s' t = 0 /\ nextTokenId s <= nextTokenId s'.
Proof.
  intros Hm Hd Ho. tx_inv Hm; st_simpl; bool_clean.
  all: split; [|lia].
  all: rewrite slot_insert_ne by lia; done.
Qed.

Lemma batchMint_from_dead sender t n : forall i rs us aps es sbs ephs rrs rfs s u s',
  batchMint_from sender n i rs us aps es sbs ephs rrs rfs s = Ok (u, s') ->
  owner_of s t = 0 -> t <= nextTokenId s ->
  owner_of s' t = 0 /\ nextTokenId s <= nextTokenId s'.
Proof.
  induction n as [|n IH]; intros i rs us aps es sbs ephs rrs rfs s u s' Hm Hdead Hold.
  - cbn in Hm. tx_inv Hm. split; [done|lia].
  - cbn [batchMint_from] in Hm.
    repeat (apply bind_Ok_inv in Hm as (? & ? & Hat & Hm);
            unfold at_index in Hat;
            match type of Hat with
            | match ?x with _ => _ end _ = _ => destruct x; tx_inv Hat
            end).
    apply bind_Ok_inv in Hm as (t0 & sm & Hmint0 & Hm).
    destruct (mintCollectible_dead _ _ _ _ _ _ _ _ _ _ _ _ _ Hmint0 Hdead Hold) as [Hd1 Hn1].
    destruct (IH _ _ _ _ _ _ _ _ _ _ _ _ Hm Hd1) as [Hd2 Hn2]; [lia|]. split; [done|lia].
Qed.

Lemma dispatch_dead tx s u s' t :
  dispatch tx s = Ok (u, s') ->
  owner_of s t = 0 -> t <= nextTokenId s ->
  owner_of s' t = 0 /\ nextTokenId s <= nextTokenId s'.
Proof.
  intros Hm Hdead Hold.
  destruct tx as [sender []]; cbn [dispatch msg_sender msg_call] in Hm.
  - unfold forget in Hm. apply bind_Ok_inv in Hm as (? & ? & Hm & Hr). tx_inv Hr.
    eapply mintCollectible_dead; eauto.
  - tx_inv Hm; st_simpl; bool_clean.
    all: split; [|lia].
    all: rewrite slot_insert_ne by lia; done.
  - unfold batchMint in Hm.
    apply bind_Ok_inv in Hm as (? & s1 & Hrole & Hm). tx_inv Hrole.
    apply bind_Ok_inv in Hm as (? & s2 & Hlen & Hm). tx_inv Hlen.
    eapply batchMint_from_dead; eauto.
  - tx_inv Hm; st_simpl; bool_clean. split; [done|lia].
  - tx_inv Hm; st_simpl; bool_clean.
    all: split; [|lia].
    all: destruct (decide (tokenId = t)) as [->|Hne]; slot_norm; done.
  - tx_inv Hm; st_simpl; bool_clean; try congruence.
    all: split; [|lia].
    all: destruct (decide (tokenId = t)) as [->|Hne]; slot_norm; congruence.
  - tx_inv Hm; st_simpl; bool_clean; try congruence.
    all: split; [|lia].
    all: destruct (decide (tokenId = t)) as [->|Hne]; slot_norm; congruence.
  - tx_inv Hm; st_simpl; bool_clean. split; [done|lia].
  - tx_inv Hm; st_simpl; bool_clean. split; [done|lia].
  - tx_inv Hm; st_simpl; bool_clean. split; [done|lia].
  - tx_inv Hm; st_simpl; bool_clean. split; [done|lia].
  - tx_inv Hm; st_simpl; bool_clean. split; [done|lia].
  - tx_inv Hm; st_simpl; bool_clean. split; [done|lia].
  - tx_inv Hm; st_simpl; bool_clean. split; [done|lia].
Qed.

(** *** Histories *)

Lemma step_cases tx s : step s tx = s \/ exists u, dispatch tx s = Ok (u, step s tx).
Proof.
  unfold step, commit. destruct (dispatch tx s) as [[u s']|r]; [right; eauto|left; done].
Qed.

Lemma run_cons tx txs s : run (tx :: txs) s = run txs (step s tx).
Proof. reflexivity. Qed.

Lemma dispatch_counter tx s u s' :
  dispatch tx s = Ok (u, s') -> nextTokenId s <= nextTokenId s'.
Proof.
  intros Hm. by_call Hm tx.
  1-3: destruct Hm as (_ & _ & _ & _ & _ & Hn & _); exact Hn.
  all: st_simpl; lia.
Qed.

Lemma run_counter txs : forall s, nextTokenId s <= nextTokenId (run txs s).
Proof.
  induction txs as [|tx txs IH]; intros s; [cbn; lia|].
  rewrite run_cons. specialize (IH (step s tx)).
  destruct (step_cases tx s) as [E|[u Hd]]; [rewrite E in *; exact IH|].
  apply dispatch_counter in Hd. lia.
Qed.

Lemma run_dead txs : forall s t,
  owner_of s t = 0 -> t <= nextTokenId s -> owner_of (run txs s) t = 0.
Proof.
  induction txs as [|tx txs IH]; intros s t Hd Ho; [done|].
  rewrite run_cons.
  destruct (step_cases tx s) as [E|[u Hs]]; [rewrite E in *; now apply IH|].
  destruct (dispatch_dead _ _ _ _ _ Hs Hd Ho) as [Hd' Hn]. apply IH; [done|lia].
Qed.

Lemma run_live M txs : forall s t,
  Inv M s -> owner_of s t <> 0 -> owner_of (run txs s) t <> 0 ->
  licenses (run txs s) !! t = licenses s !! t /\
  (soulbound (license_of s t) = true -> owner_of (run txs s) t = owner_of s t).
Proof.
  induction txs as [|tx txs IH]; intros s t HI Hl Hl'; [done|].
  rewrite run_cons in *.
  destruct (step_cases tx s) as [E|[u Hs]]; [rewrite E in *; now apply IH|].
  assert (Hmid : owner_of (step s tx) t <> 0).
  { intros Hz. apply Hl'. apply run_dead; [done|].
    pose proof (inv_ids _ _ HI t Hl). apply dispatch_counter in Hs. lia. }
  destruct (dispatch_live _ _ _ _ t Hs Hl Hmid) as [E1 E2].
  destruct (IH (step s tx) t (step_Inv M tx s HI) Hmid Hl') as [E3 E4].
  split; [congruence|].
  intros Hsb. rewrite E4, E2; try done.
  unfold license_of in *. rewrite E1. done.
Qed.

(** *** Who can change what *)

Lemma dispatch_outsider tx s u s' :
  dispatch tx s = Ok (u, s') ->
  hasRole s DEFAULT_ADMIN_ROLE (msg_sender tx) = false ->
  openMinting s' = openMinting s /\ merkleRoot s' = merkleRoot s /\
  _roles s' ⊆ _roles s /\ MAX_SUPPLY s' = MAX_SUPPLY s.
Proof.
  intros Hm Hno. by_call Hm tx; cbn [msg_sender] in Hno.
  1-3: destruct Hm as (_ & Ho & Hr & Hro & Hx & _); rewrite Ho, Hr, Hro, Hx; done.
  all: st_simpl; try congruence.
  all: repeat split; try done.
  all: by apply subseteq_difference_l.
Qed.

Lemma mintCollectible_not_minter sender to uri app exp sb eph rr rf s :
  hasRole s MINTER_ROLE sender = false ->
  mintCollectible sender to uri app exp sb eph rr rf s
  = Revert (Error (AccessControl_missing_role sender MINTER_ROLE)).
Proof. intros Hno. unfold mintCollectible, onlyRole, bind, gets. now rewrite Hno. Qed.

Lemma batchMint_not_minter sender rs us aps es sbs ephs rrs rfs s :
  hasRole s MINTER_ROLE sender = false ->
  batchMint sender rs us aps es sbs ephs rrs rfs s
  = Revert (Error (AccessControl_missing_role sender MINTER_ROLE)).
Proof. intros Hno. unfold batchMint, onlyRole, bind, gets. now rewrite Hno. Qed.

Lemma openMint_disabled sender uri app exp sb eph proof s :
  openMinting s = false ->
  openMint sender uri app exp sb eph proof s = Revert (Error "Open minting disabled").
Proof. intros Hno. unfold openMint, bind, gets. now rewrite Hno. Qed.

Lemma dispatch_no_mint tx s u s' :
  dispatch tx s = Ok (u, s') ->
  openMinting s = false -> hasRole s MINTER_ROLE (msg_sender tx) = false ->
  nextTokenId s' = nextTokenId s /\ (forall t, owner_of s t = 0 -> owner_of s' t = 0).
Proof.
  intros Hm Hclosed Hno.
  destruct tx as [sender []]; cbn [dispatch msg_sender msg_call] in *.
  - unfold forget, bind in Hm. rewrite mintCollectible_not_minter in Hm; done.
  - unfold forget, bind in Hm. rewrite openMint_disabled in Hm; done.
  - rewrite batchMint_not_minter in Hm; done.
  - tx_inv Hm; st_simpl; done.
  - tx_inv Hm; st_simpl.
    all: split; [done|]; intros t Ht.
    all: destruct (decide (tokenId = t)) as [->|Hne]; slot_norm; done.
  - tx_inv Hm; st_simpl; bool_clean; try congruence.
    all: split; [done|]; intros t Ht.
    all: destruct (decide (tokenId = t)) as [->|Hne]; slot_norm; congruence.
  - tx_inv Hm; st_simpl; bool_clean; try congruence.
    all: split; [done|]; intros t Ht.
    all: destruct (decide (tokenId = t)) as [->|Hne]; slot_norm; congruence.
  - tx_inv Hm; st_simpl; done.
  - tx_inv Hm; st_simpl; done.
  - tx_inv Hm; st_simpl; done.
  - tx_inv Hm; st_simpl; done.
  - tx_inv Hm; st_simpl; done.
  - tx_inv Hm; st_simpl; done.
  - tx_inv Hm; st_simpl; done.
Qed.

Lemma closed_to_hasRole d s r a : closed_to d s -> a <> d -> hasRole s r a = false.
Proof.
  intros [_ Hr] Hne. unfold hasRole. apply bool_decide_eq_false. intros Hin.
  apply Hr in Hin. done.
Qed.

Lemma constructor_closed d M : closed_to d (constructor d M).
Proof.
  split; [done|]. intros r a Hin. cbn in Hin.
  apply elem_of_union in Hin as [Hin|Hin]; apply elem_of_singleton in Hin; congruence.
Qed.

Lemma run_closed d txs : forall s,
  closed_to d s -> Forall (fun tx => msg_sender tx <> d) txs ->
  closed_to d (run txs s) /\ nextTokenId (run txs s) = nextTokenId s /\
  (forall t, owner_of s t = 0 -> owner_of (run txs s) t = 0).
Proof.
  induction txs as [|tx txs IH]; intros s Hc Hall; [done|].
  rewrite run_cons.
  apply Forall_cons in Hall as [Hne Hall].
  destruct (step_cases tx s) as [E|[u Hs]]; [rewrite E in *; now apply IH|].
  pose proof (dispatch_outsider _ _ _ _ Hs (closed_to_hasRole _ _ _ _ Hc Hne))
    as (Ho & _ & Hsub & _).
  destruct (dispatch_no_mint _ _ _ _ Hs (proj1 Hc) (closed_to_hasRole _ _ _ _ Hc Hne))
    as [Hn Hown].
  assert (Hc' : closed_to d (step s tx)).
  { split; [rewrite Ho; apply Hc|]. intros r a Hin. apply (proj2 Hc r a), Hsub, Hin. }
  destruct (IH _ Hc' Hall) as (Hc2 & Hn2 & Hown2).
  split; [done|]. split; [congruence|]. intros t Ht. apply Hown2, Hown, Ht.
Qed.

(** *** What a mint that returned went through *)

Lemma mintCollectible_inv sender to uri app exp sb eph rr rf s t s' :
  mintCollectible sender to uri app exp sb eph rr rf s = Ok (t, s') ->
  hasRole s MINTER_ROLE sender = true /\
  nextTokenId s < MAX_SUPPLY s /\
  t = nextTokenId s + 1 /\ nextTokenId s' = t /\
  to <> 0 /\ owner_of s t = 0 /\ owner_of s' t = to /\
  onERC721Received to sender 0 t = true /\
  default "" (_tokenURIs (erc721 s') !! t) = uri /\
  (nonempty app = true ->
   lookup s to (keccak256 app) = 0 /\ lookup s' to (keccak256 app) = t /\
   licenses s' !! t
   = Some {| appId := app; expiry := exp; soulbound := sb; ephemeral := eph |}) /\
  (nonempty app = false ->
   licenses s' = licenses s /\ userAppToken s' = userAppToken s) /\
  (rr <> 0 -> rf <= _feeDenominator /\ _tokenRoyaltyInfo s' !! t = Some (rr, rf)) /\
  (rr = 0 -> _tokenRoyaltyInfo s' = _tokenRoyaltyInfo s).
Proof.
  intros Hm. tx_inv Hm; st_simpl; bool_clean.
  all: unfold _checkOnERC721Received, ret in *; simplify_eq.
  all: repeat match goal with |- _ /\ _ => split end; try done; try lia.
  all: try (slot_norm; done).
  all: try (rewrite lookup_insert_eq; done).
  all: try (intros; split; [lia|rewrite lookup_insert_eq; done]).
  all: try (intros; repeat split; slot_norm; try done; rewrite lookup_insert_eq; done).
Qed.

(** *** Open minting *)

Lemma openMint_not_allowlisted sender uri app exp sb eph proof s :
  openMinting s = true -> nextTokenId s < MAX_SUPPLY s ->
  merkleRoot s <> 0 ->
  verify proof (merkleRoot s) (keccak256_address sender) = false ->
  openMint sender uri app exp sb eph proof s = Revert (Error "Not allowlisted").
Proof.
  intros Hopen Hcap Hroot Hver. unfold openMint, bind, gets.
  rewrite Hopen. cbn. apply N.ltb_lt in Hcap. rewrite Hcap. cbn.
  apply N.eqb_neq in Hroot. rewrite Hroot. cbn. rewrite Hver. reflexivity.
Qed.

Lemma openMint_no_root sender uri app exp sb eph proof proof' s :
  merkleRoot s = 0 ->
  openMint sender uri app exp sb eph proof s = openMint sender uri app exp sb eph proof' s.
Proof.
  intros Hroot. unfold openMint, bind, gets.
  destruct (openMinting s); cbn; [|reflexivity].
  destruct (nextTokenId s <? MAX_SUPPLY s); cbn; [|reflexivity].
  rewrite Hroot. reflexivity.
Qed.

(** With open minting on and no allowlist, what openMint does for a minter
    is what mintCollectible does for them with themselves as recipient and
    no royalty. *)
Lemma openMint_as_mintCollectible sender uri app exp sb eph proof s :
  openMinting s = true -> merkleRoot s = 0 ->
  hasRole s MINTER_ROLE sender = true ->
  openMint sender uri app exp sb eph proof s
  = mintCollectible sender sender uri app exp sb eph 0 0 s.
Proof.
  intros Hopen Hroot Hrole. unfold openMint, mintCollectible, onlyRole.
  rewrite bind_assoc, !bind_gets. cbv beta. rewrite Hopen, Hrole.
  rewrite bind_require_true, bind_ret, !bind_gets.
  destruct (nextTokenId s <? MAX_SUPPLY s);
    [rewrite !bind_require_true|rewrite !bind_require_false; reflexivity].
  rewrite bind_gets, Hroot. cbn [N.eqb negb]. rewrite bind_when_false.
  apply bind_ext; intros t s1. rewrite !bind_modify.
  apply bind_ext; intros ? s2. apply bind_ext; intros ? s3.
  apply bind_ext; intros ? s4. reflexivity.
Qed.

(** *** Batches *)

(** One turn of the loop of batchMint that went through. *)
Lemma batchMint_from_S_inv sender n i rs us aps es sbs ephs rrs rfs s u s' :
  batchMint_from sender (S n) i rs us aps es sbs ephs rrs rfs s = Ok (u, s') ->
  exists to uri app exp sb eph rr rf t sm,
    rs !! i = Some to /\ aps !! i = Some app /\
    mintCollectible sender to uri app exp sb eph rr rf s = Ok (t, sm) /\
    batchMint_from sender n (S i) rs us aps es sbs ephs rrs rfs sm = Ok (u, s').
Proof.
  intros Hm. cbn [batchMint_from] in Hm.
  apply bind_Ok_inv in Hm as (to & ? & Hat1 & Hm).
  apply bind_Ok_inv in Hm as (uri & ? & Hat2 & Hm).
  apply bind_Ok_inv in Hm as (app & ? & Hat3 & Hm).
  apply bind_Ok_inv in Hm as (exp & ? & Hat4 & Hm).
  apply bind_Ok_inv in Hm as (sb & ? & Hat5 & Hm).
  apply bind_Ok_inv in Hm as (eph & ? & Hat6 & Hm).
  apply bind_Ok_inv in Hm as (rr & ? & Hat7 & Hm).
  apply bind_Ok_inv in Hm as (rf & ? & Hat8 & Hm).
  apply bind_Ok_inv in Hm as (t & sm & Hmint & Hm).
  unfold at_index in *.
  destruct (rs !! i) eqn:E1; tx_inv Hat1.
  destruct (us !! i) eqn:E2; tx_inv Hat2.
  destruct (aps !! i) eqn:E3; tx_inv Hat3.
  destruct (es !! i) eqn:E4; tx_inv Hat4.
  destruct (sbs !! i) eqn:E5; tx_inv Hat5.
  destruct (ephs !! i) eqn:E6; tx_inv Hat6.
  destruct (rrs !! i) eqn:E7; tx_inv Hat7.
  destruct (rfs !! i) eqn:E8; tx_inv Hat8.
  do 10 eexists. eauto.
Qed.

Lemma batchMint_from_owners sender n : forall i rs us aps es sbs ephs rrs rfs s u s',
  batchMint_from sender n i rs us aps es sbs ephs rrs rfs s = Ok (u, s') ->
  nextTokenId s' = nextTokenId s + N.of_nat n /\
  forall k, (k < n)%nat ->
    exists to, rs !! (i + k)%nat = Some to /\ to <> 0 /\
               owner_of s' (nextTokenId s + N.of_nat k + 1) = to.
Proof.
  induction n as [|n IH]; intros i rs us aps es sbs ephs rrs rfs s u s' Hm.
  - cbn in Hm. tx_inv Hm. split; [lia|]. intros k Hk. lia.
  - apply batchMint_from_S_inv in Hm
      as (to & uri & app & exp & sb & eph & rr & rf & t & sm & Hto & _ & Hmint & Hm).
    pose proof (batchMint_from_grows _ _ _ _ _ _ _ _ _ _ _ _ _ _ Hm)
      as (_ & _ & _ & _ & _ & _ & Hlive & _).
    destruct (IH _ _ _ _ _ _ _ _ _ _ _ _ Hm) as [Hn Hown].
    apply mintCollectible_inv in Hmint
      as (_ & _ & Ht & Hnext & Hne & _ & Hto' & _).
    split; [lia|]. intros [|k] Hk.
    + exists to. rewrite Nat.add_0_r. split; [done|]. split; [done|].
      replace (nextTokenId s + N.of_nat 0 + 1) with t by lia.
      destruct (Hlive t) as [E _]; [congruence|]. congruence.
    + destruct (Hown k) as (to' & Hk1 & Hk2 & Hk3); [lia|].
      exists to'. replace (i + S k)%nat with (S i + k)%nat by lia.
      split; [done|]. split; [done|].
      replace (nextTokenId s + N.of_nat (S k) + 1)
        with (nextTokenId sm + N.of_nat k + 1) by lia.
      done.
Qed.

(** Every licensed entry of a batch that went through found its slot
    empty in the storage the batch started from. *)
Lemma batchMint_from_free sender n : forall i rs us aps es sbs ephs rrs rfs s u s',
  batchMint_from sender n i rs us aps es sbs ephs rrs rfs s = Ok (u, s') ->
  forall k to app, (k < n)%nat ->
    rs !! (i + k)%nat = Some to -> aps !! (i + k)%nat = Some app ->
    nonempty app = true -> lookup s to (keccak256 app) = 0.
Proof.
  induction n as [|n IH]; intros i rs us aps es sbs ephs rrs rfs s u s' Hm k to app Hk Hr Ha Hne;
    [lia|].
  apply batchMint_from_S_inv in Hm
    as (to0 & uri & app0 & exp & sb & eph & rr & rf & t & sm & Hto & Happ & Hmint & Hm).
  destruct k as [|k].
  - rewrite Nat.add_0_r in *.
    assert (to0 = to) by congruence. assert (app0 = app) by congruence. subst to0 app0.
    apply mintCollectible_inv in Hmint as (_ & _ & _ & _ & _ & _ & _ & _ & _ & Hl & _).
    apply Hl; done.
  - replace (i + S k)%nat with (S i + k)%nat in * by lia.
    pose proof (IH _ _ _ _ _ _ _ _ _ _ _ _ Hm k to app ltac:(lia) Hr Ha Hne) as Hfree.
    apply mintCollectible_grows in Hmint as (_ & _ & _ & _ & _ & _ & _ & Hidx).
    destruct (decide (lookup s to (keccak256 app) = 0)) as [|Hocc]; [done|].
    rewrite (Hidx _ _ Hocc) in Hfree. done.
Qed.

Lemma batchMint_from_distinct sender n : forall i rs us aps es sbs ephs rrs rfs s u s',
  batchMint_from sender n i rs us aps es sbs ephs rrs rfs s = Ok (u, s') ->
  forall k1 k2 to app, (k1 < k2 < n)%nat ->
    rs !! (i + k1)%nat = Some to -> aps !! (i + k1)%nat = Some app ->
    rs !! (i + k2)%nat = Some to -> aps !! (i + k2)%nat = Some app ->
    nonempty app = true -> False.
Proof.
  induction n as [|n IH];
    intros i rs us aps es sbs ephs rrs rfs s u s' Hm k1 k2 to app Hk Hr1 Ha1 Hr2 Ha2 Hne;
    [lia|].
  apply batchMint_from_S_inv in Hm
    as (to0 & uri & app0 & exp & sb & eph & rr & rf & t & sm & Hto & Happ & Hmint & Hm).
  destruct k2 as [|k2]; [lia|].
  replace (i + S k2)%nat with (S i + k2)%nat in * by lia.
  destruct k1 as [|k1].
  - rewrite Nat.add_0_r in *.
    assert (to0 = to) by congruence. assert (app0 = app) by congruence. subst to0 app0.
    pose proof (batchMint_from_free _ _ _ _ _ _ _ _ _ _ _ _ _ _ Hm k2 to app
                  ltac:(lia) Hr2 Ha2 Hne) as Hfree.
    apply mintCollectible_inv in Hmint as (_ & _ & Ht & _ & _ & _ & _ & _ & _ & Hl & _).
    destruct (Hl Hne) as (_ & Hset & _). rewrite Hset in Hfree. lia.
  - replace (i + S k1)%nat with (S i + k1)%nat in * by lia.
    eapply (IH _ _ _ _ _ _ _ _ _ _ _ _ Hm k1 k2); eauto. lia.
Qed.

Lemma batchMint_inv sender rs us aps es sbs ephs rrs rfs s u s' :
  batchMint sender rs us aps es sbs ephs rrs rfs s = Ok (u, s') ->
  hasRole s MINTER_ROLE sender = true /\
  same_lengths rs us aps es sbs ephs rrs rfs /\
  batchMint_from sender (length rs) 0 rs us aps es sbs ephs rrs rfs s = Ok (u, s').
Proof.
  intros Hm. unfold batchMint in Hm.
  apply bind_Ok_inv in Hm as (? & s1 & Hrole & Hm). tx_inv Hrole.
  apply bind_Ok_inv in Hm as (? & s2 & Hlen & Hm). tx_inv Hlen.
  split; [done|]. split; [|done].
  unfold same_length in *. bool_clean.
  repeat match goal with H : (_ =? _)%nat = true |- _ => apply Nat.eqb_eq in H end.
  unfold same_lengths. repeat split; done.
Qed.

(** *** What a mint leaves alone *)

Lemma mintCollectible_frame sender to uri app exp sb eph rr rf s t s' :
  mintCollectible sender to uri app exp sb eph rr rf s = Ok (t, s') ->
  (forall t', t' <> t -> owner_of s' t' = owner_of s t') /\
  (forall t', t' <> t -> licenses s' !! t' = licenses s !! t') /\
  (forall user aHash, (user, aHash) <> (to, keccak256 app) ->
     lookup s' user aHash = lookup s user aHash) /\
  redeemed s' = redeemed s.
Proof.
  intros Hm. tx_inv Hm; st_simpl; bool_clean.
  all: repeat match goal with |- _ /\ _ => split end; try done.
  all: intros; slot_norm; done.
Qed.


(** *** Licence records *)


Ltac records_after Hrec :=
  let t' := fresh "t'" in
  let lic := fresh "lic" in
  let Hl := fresh "Hl" in
  intros t' lic Hl;
  repeat match type of Hl with
         | <[?k := _]> _ !! _ = _ =>
             revert Hl; by_cases k t'; [intros [= <-]; cbn; split; [congruence|done]|];
             intros Hl
         | delete ?k _ !! _ = _ =>
             revert Hl; by_cases k t'; [done|]; intros Hl
         end;
  let Ho := fresh "Ho" in
  let Hn := fresh "Hn" in
  destruct (Hrec t' lic Hl) as [Ho Hn];
  split; [|exact Hn];
  repeat match goal with
         | |- slot (<[?k := _]> _) ?x <> 0 =>
             destruct (decide (k = x)); [subst; slot_norm; congruence|slot_norm]
         | |- slot (delete ?k _) ?x <> 0 =>
             destruct (decide (k = x)); [subst; slot_norm|slot_norm]
         end; try done.

Lemma constructor_records deployer maxSupply :
  CollectibleLicenseNFTR.records_live (constructor deployer maxSupply).
Proof. intros t lic Hl. cbn in Hl. done. Qed.

Lemma mintCollectible_records sender to uri app exp sb eph rr rf s t s' :
  CollectibleLicenseNFTR.records_live s ->
  mintCollectible sender to uri app exp sb eph rr rf s = Ok (t, s') -> CollectibleLicenseNFTR.records_live s'.
Proof.
  intros Hrec Hm. unfold CollectibleLicenseNFTR.records_live in *. tx_inv Hm; st_simpl; bool_clean.
  all: records_after Hrec.
Qed.

Lemma openMint_records sender uri app exp sb eph proof s t s' :
  CollectibleLicenseNFTR.records_live s ->
  openMint sender uri app exp sb eph proof s = Ok (t, s') -> CollectibleLicenseNFTR.records_live s'.
Proof.
  intros Hrec Hm. unfold CollectibleLicenseNFTR.records_live in *. tx_inv Hm; st_simpl; bool_clean.
  all: records_after Hrec.
Qed.

Lemma transferFrom_records sender from to t s u s' :
  CollectibleLicenseNFTR.records_live s ->
  transferFrom sender from to t s = Ok (u, s') -> CollectibleLicenseNFTR.records_live s'.
Proof.
  intros Hrec Hm. unfold CollectibleLicenseNFTR.records_live in *. tx_inv Hm; st_simpl; bool_clean; try congruence.
  all: records_after Hrec.
Qed.

Lemma burn_records sender t s u s' :
  CollectibleLicenseNFTR.records_live s ->
  burn sender t s = Ok (u, s') -> CollectibleLicenseNFTR.records_live s'.
Proof.
  intros Hrec Hm. unfold CollectibleLicenseNFTR.records_live in *. tx_inv Hm; st_simpl; bool_clean; try congruence.
  all: records_after Hrec.
  all: rewrite Hl in *; cbn in *; congruence.
Qed.

Ltac records_same Hrec Hm :=
  unfold CollectibleLicenseNFTR.records_live in *; tx_inv Hm; st_simpl; bool_clean;
  try congruence; exact Hrec.

Lemma safeTransferFrom_records sender from to t s u s' :
  CollectibleLicenseNFTR.records_live s ->
  safeTransferFrom sender from to t s = Ok (u, s') -> CollectibleLicenseNFTR.records_live s'.
Proof.
  intros Hrec Hm. apply CallbackProofs.safeTransferFrom_as_transferFrom in Hm as [Hm _].
  eauto using transferFrom_records.
Qed.

Lemma batchMint_from_records sender n : forall i rs us aps es sbs ephs rrs rfs s u s',
  CollectibleLicenseNFTR.records_live s ->
  batchMint_from sender n i rs us aps es sbs ephs rrs rfs s = Ok (u, s') ->
  CollectibleLicenseNFTR.records_live s'.
Proof.
  induction n as [|n IH]; intros i rs us aps es sbs ephs rrs rfs s u s' HI Hm.
  - cbn in Hm. tx_inv Hm. done.
  - cbn [batchMint_from] in Hm.
    repeat (apply bind_Ok_inv in Hm as (? & ? & Hat & Hm);
            unfold at_index in Hat;
            match type of Hat with
            | match ?x with _ => _ end _ = _ => destruct x; tx_inv Hat
            end).
    apply bind_Ok_inv in Hm as (t & sm & Hmint & Hm).
    eapply IH; [|exact Hm]. eapply mintCollectible_records; eauto.
Qed.

Lemma dispatch_records tx s u s' :
  CollectibleLicenseNFTR.records_live s -> dispatch tx s = Ok (u, s') ->
  CollectibleLicenseNFTR.records_live s'.
Proof.
  intros Hrec Hm. destruct tx as [sender []]; cbn [dispatch msg_sender msg_call] in Hm.
  - unfold forget in Hm. apply bind_Ok_inv in Hm as (t & s1 & Hm & Hr). tx_inv Hr.
    eauto using mintCollectible_records.
  - unfold forget in Hm. apply bind_Ok_inv in Hm as (t & s1 & Hm & Hr). tx_inv Hr.
    eauto using openMint_records.
  - unfold batchMint in Hm.
    apply bind_Ok_inv in Hm as (? & s1 & Hrole & Hm). tx_inv Hrole.
    apply bind_Ok_inv in Hm as (? & s2 & Hlen & Hm). tx_inv Hlen.
    eapply batchMint_from_records; eauto.
  - records_same Hrec Hm.
  - eauto using burn_records.
  - eauto using transferFrom_records.
  - eauto using safeTransferFrom_records.
  - records_same Hrec Hm.
  - records_same Hrec Hm.
  - records_same Hrec Hm.
  - records_same Hrec Hm.
  - records_same Hrec Hm.
  - records_same Hrec Hm.
  - records_same Hrec Hm.
Qed.


(** *** When the index is complete *)

Lemma live_token_nonzero M s t : Inv M s -> owner_of s t <> 0 -> t <> 0.
Proof. intros HI Hl ->. apply (inv_ids _ _ HI) in Hl. lia. Qed.

Lemma unowned_unnamed s t :
  CollectibleLicenseNFTR.records_live s -> owner_of s t = 0 ->
  nonempty (appId (license_of s t)) = false.
Proof.
  intros Hrec Ho. unfold license_of.
  destruct (licenses s !! t) as [lic|] eqn:El; [|done].
  destruct (Hrec t lic El) as [Hne _]. done.
Qed.

Ltac complete_mint Hc Hnz Hrec to app :=
  let t' := fresh "t'" in
  let Hl' := fresh "Hl'" in
  let Happ' := fresh "Happ'" in
  intros t' Hl' Happ';
  match goal with
  | s : State |- _ =>
      destruct (decide (nextTokenId s + 1 = t')) as [<-|?];
      [ first
          [ rewrite slot_insert_eq, lookup_insert_eq; cbn; apply slot_insert_eq
          | exfalso;
            match goal with
            | Hf : slot (_owners (erc721 s)) (nextTokenId s + 1) = 0 |- _ =>
                pose proof (unowned_unnamed s _ Hrec Hf) as Hun;
                unfold license_of in Hun; congruence
            end ]
      | rewrite (slot_insert_ne (_owners (erc721 s))) in * by done;
        rewrite ?lookup_insert_ne in * by done;
        pose proof (Hc t' Hl' Happ') as Hc';
        pose proof (Hnz t' Hl') as Hnz';
        first [ exact Hc'
              | rewrite slot_insert_ne; [exact Hc'|];
                let E := fresh "E" in intros E; rewrite <- E in Hc'; congruence ] ]
  end.

Lemma mintCollectible_complete M sender to uri app exp sb eph rr rf s t s' :
  Inv M s -> CollectibleLicenseNFTR.records_live s -> index_complete s ->
  mintCollectible sender to uri app exp sb eph rr rf s = Ok (t, s') -> index_complete s'.
Proof.
  intros HI Hrec Hc Hm. pose proof (fun t => live_token_nonzero M s t HI) as Hnz.
  unfold index_complete in *. tx_inv Hm; st_simpl; bool_clean.
  all: complete_mint Hc Hnz Hrec to app.
Qed.

Lemma openMint_complete M sender uri app exp sb eph proof s t s' :
  Inv M s -> CollectibleLicenseNFTR.records_live s -> index_complete s ->
  openMint sender uri app exp sb eph proof s = Ok (t, s') -> index_complete s'.
Proof.
  intros HI Hrec Hc Hm. pose proof (fun t => live_token_nonzero M s t HI) as Hnz.
  unfold index_complete in *. tx_inv Hm; st_simpl; bool_clean.
  all: complete_mint Hc Hnz Hrec sender app.
Qed.

Lemma burn_complete M sender t s u s' :
  Inv M s -> index_complete s ->
  burn sender t s = Ok (u, s') -> index_complete s'.
Proof.
  intros HI Hc Hm. unfold index_complete in *. tx_inv Hm; st_simpl; bool_clean.
  all: intros t' Hl' Happ'; destruct (decide (t = t')) as [<-|Hd];
    [rewrite slot_delete_eq in Hl'; done|].
  all: rewrite (slot_delete_ne (_owners (erc721 s))) in * by done;
    rewrite ?lookup_delete_ne in * by done.
  all: pose proof (Hc t' Hl' Happ') as Hc'.
  all: try exact Hc'.
  all: pose proof (Hc t H1 C) as Hct.
  all: rewrite slot_delete_ne; [exact Hc'|]; intros E; rewrite <- E in Hc'; congruence.
Qed.

Lemma transferFrom_complete M sender from to t s u s' :
  Inv M s -> index_complete s ->
  CollectibleLicenseNFTR.displaces s
    {| msg_sender := sender; msg_call := call_transferFrom from to t |} = false ->
  transferFrom sender from to t s = Ok (u, s') -> index_complete s'.
Proof.
  intros HI Hc Hnd Hm.
  assert (Hne : from <> 0 /\ owner_of s t = from).
  { clear - Hm. tx_inv Hm; st_simpl; bool_clean; try congruence; done. }
  destruct Hne as [Hne Hfrom].
  assert (Hlic : licenses s' = licenses s /\
                 forall t', t' <> t -> owner_of s' t' = owner_of s t').
  { clear - Hm. tx_inv Hm; st_simpl; bool_clean; try congruence.
    all: split; [done|]; intros t' Hd; rewrite slot_insert_ne; done. }
  destruct Hlic as [Hlic Hown].
  destruct (nonempty (appId (license_of s t))) eqn:Happ.
  - assert (Hfree : lookup s to (keccak256 (appId (license_of s t))) = 0 \/
                    lookup s to (keccak256 (appId (license_of s t))) = t).
    { unfold CollectibleLicenseNFTR.displaces in Hnd. cbn [msg_call] in Hnd.
      cbv zeta in Hnd. rewrite Happ in Hnd. cbn [andb] in Hnd.
      apply andb_false_iff in Hnd as [Hz|Hz]; apply negb_false_iff, N.eqb_eq in Hz; auto. }
    pose proof (transferFrom_index _ _ _ _ _ _ _ Hm Happ) as Hx. cbv zeta in Hx.
    destruct Hx as (_ & Hto & Hset & Hclr & Hkeep & Hrest).
    intros t' Hl'. unfold license_of. rewrite Hlic. fold (license_of s t'). intros Happ'.
    destruct (decide (t' = t)) as [->|Hd]; [rewrite Hto; exact Hset|].
    rewrite Hown in * by done.
    pose proof (live_token_nonzero M s t' HI Hl') as Hnz.
    pose proof (Hc t' Hl' Happ') as Hc'.
    assert (Hlt : owner_of s t <> 0) by congruence.
    pose proof (Hc t Hlt Happ) as Hct. rewrite Hfrom in Hct.
    unfold lookup in *.
    rewrite Hrest; [exact Hc'| |].
    + intros E. rewrite E in Hc'. destruct Hfree; congruence.
    + intros E. rewrite E in Hc'. congruence.
  - assert (Hidx : userAppToken s' = userAppToken s).
    { clear - Hm Happ. tx_inv Hm; st_simpl; bool_clean; congruence. }
    intros t' Hl'. unfold license_of, lookup. rewrite Hlic, Hidx.
    fold (license_of s t'). intros Happ'.
    destruct (decide (t' = t)) as [->|Hd]; [congruence|].
    rewrite Hown in * by done. apply Hc; done.
Qed.

Lemma unindexed_complete s s' :
  (forall t, owner_of s' t = owner_of s t) ->
  licenses s' = licenses s -> userAppToken s' = userAppToken s ->
  index_complete s -> index_complete s'.
Proof.
  intros Ho Hl Hi Hc t. unfold index_complete, lookup, license_of in *.
  rewrite Ho, Hl, Hi. apply Hc.
Qed.

Lemma batchMint_from_complete M sender n : forall i rs us aps es sbs ephs rrs rfs s u s',
  Inv M s -> CollectibleLicenseNFTR.records_live s -> index_complete s ->
  batchMint_from sender n i rs us aps es sbs ephs rrs rfs s = Ok (u, s') ->
  index_complete s'.
Proof.
  induction n as [|n IH]; intros i rs us aps es sbs ephs rrs rfs s u s' HI Hrec Hc Hm.
  - cbn in Hm. tx_inv Hm. done.
  - cbn [batchMint_from] in Hm.
    repeat (apply bind_Ok_inv in Hm as (? & ? & Hat & Hm);
            unfold at_index in Hat;
            match type of Hat with
            | match ?x with _ => _ end _ = _ => destruct x; tx_inv Hat
            end).
    apply bind_Ok_inv in Hm as (t & sm & Hmint & Hm).
    eapply IH; [| | |exact Hm].
    + eapply mintCollectible_Inv; eauto.
    + eapply mintCollectible_records; eauto.
    + eapply mintCollectible_complete; eauto.
Qed.

Lemma dispatch_complete M tx s u s' :
  Inv M s -> CollectibleLicenseNFTR.records_live s -> index_complete s ->
  CollectibleLicenseNFTR.displaces s tx = false ->
  dispatch tx s = Ok (u, s') -> index_complete s'.
Proof.
  intros HI Hrec Hc Hnd Hm.
  destruct tx as [sender []]; cbn [dispatch msg_sender msg_call] in Hm.
  - unfold forget in Hm. apply bind_Ok_inv in Hm as (t & s1 & Hm & Hr). tx_inv Hr.
    eauto using mintCollectible_complete.
  - unfold forget in Hm. apply bind_Ok_inv in Hm as (t & s1 & Hm & Hr). tx_inv Hr.
    eauto using openMint_complete.
  - unfold batchMint in Hm.
    apply bind_Ok_inv in Hm as (? & s1 & Hrole & Hm). tx_inv Hrole.
    apply bind_Ok_inv in Hm as (? & s2 & Hlen & Hm). tx_inv Hlen.
    eapply batchMint_from_complete; eauto.
  - revert Hc. apply unindexed_complete; tx_inv Hm; st_simpl; done.
  - eauto using burn_complete.
  - eauto using transferFrom_complete.
  - apply CallbackProofs.safeTransferFrom_as_transferFrom in Hm as [Hm _].
    eapply transferFrom_complete; [exact HI|exact Hc| |exact Hm]. exact Hnd.
  - revert Hc. apply unindexed_complete; tx_inv Hm; st_simpl; done.
  - revert Hc. apply unindexed_complete; tx_inv Hm; st_simpl; done.
  - revert Hc. apply unindexed_complete; tx_inv Hm; st_simpl; done.
  - revert Hc. apply unindexed_complete; tx_inv Hm; st_simpl; done.
  - revert Hc. apply unindexed_complete; tx_inv Hm; st_simpl; done.
  - revert Hc. apply unindexed_complete; tx_inv Hm; st_simpl; done.
  - revert Hc. apply unindexed_complete; tx_inv Hm; st_simpl; done.
Qed.

Lemma constructor_complete deployer maxSupply :
  index_complete (constructor deployer maxSupply).
Proof. intros t Hl. exfalso. apply Hl. unfold owner_of. cbn. apply slot_empty. Qed.

(** *** Recipients that call back *)

Section Callbacks.
Context `{Callbacks.Receivers State Txn}.

Lemma mintCollectible_answers reenter sender to uri app exp sb eph rr rf s :
  Callbacks.answers_only to ->
  CollectibleLicenseNFTR.mintCollectible reenter sender to uri app exp sb eph rr rf s
  = mintCollectible sender to uri app exp sb eph rr rf s.
Proof.
  intros Hans. unfold CollectibleLicenseNFTR.mintCollectible, mintCollectible. cbv zeta.
  repeat (apply bind_ext; intros ? ?).
  apply bind_ext_l. intros ?. now apply CallbackProofs._safeMint_answers.
Qed.

Lemma nonReentrant_free {A} (body : Tx State A) s :
  CollectibleLicenseNFTR.nonReentrant false body s = body s.
Proof. reflexivity. Qed.

(** With open minting on and no allowlist, for a minter that does not call
    back, the body of openMint is mintCollectible to oneself without
    royalty. *)
Lemma openMint_as_mintCollectible_quiet reenter reenter' sender uri app exp sb eph proof s :
  Callbacks.quiet sender ->
  openMinting s = true -> merkleRoot s = 0 ->
  hasRole s MINTER_ROLE sender = true ->
  CollectibleLicenseNFTR.openMint reenter sender uri app exp sb eph proof s
  = CollectibleLicenseNFTR.mintCollectible reenter' sender sender uri app exp sb eph 0 0 s.
Proof.
  intros Hq Hopen Hroot Hrole.
  unfold CollectibleLicenseNFTR.openMint, CollectibleLicenseNFTR.mintCollectible, onlyRole.
  rewrite bind_assoc, !bind_gets. cbv beta. rewrite Hopen, Hrole.
  rewrite bind_require_true, bind_ret, !bind_gets.
  destruct (nextTokenId s <? MAX_SUPPLY s);
    [rewrite !bind_require_true|rewrite !bind_require_false; reflexivity].
  rewrite bind_gets, Hroot. cbn [N.eqb negb]. rewrite bind_when_false.
  apply bind_ext; intros t s1. rewrite !bind_modify.
  apply bind_ext_both; [intros ?; apply CallbackProofs._safeMint_quiet_any, Hq|].
  intros ? s2. apply bind_ext; intros ? s3. apply bind_ext; intros ? s4. reflexivity.
Qed.

(** What a mintCollectible that returned went through, whatever the
    recipient did when it was called: [s1] is the storage the recipient
    found, [s2] the storage it left. *)
Lemma mintCollectible_called_back reenter sender to uri app exp sb eph rr rf s t s' :
  CollectibleLicenseNFTR.mintCollectible reenter sender to uri app exp sb eph rr rf s
  = Ok (t, s') ->
  hasRole s MINTER_ROLE sender = true /\ nextTokenId s < MAX_SUPPLY s /\
  t = nextTokenId s + 1 /\ to <> 0 /\ owner_of s t = 0 /\
  exists s1 s2,
    _mint to t (set_nextTokenId t s) = Ok (tt, s1) /\
    Callbacks.run_script reenter (Callbacks.receiver to sender 0 t) s1 = Ok (true, s2) /\
    owner_of s2 t <> 0 /\
    (nonempty app = true -> lookup s2 to (keccak256 app) = 0) /\
    (rr <> 0 -> rf <= _feeDenominator) /\
    (forall t', owner_of s' t' = owner_of s2 t') /\
    default "" (_tokenURIs (erc721 s') !! t) = uri /\
    (nonempty app = true ->
     lookup s' to (keccak256 app) = t /\
     licenses s' !! t
     = Some {| appId := app; expiry := exp; soulbound := sb; ephemeral := eph |}) /\
    (nonempty app = false ->
     licenses s' = licenses s2 /\ userAppToken s' = userAppToken s2) /\
    (rr <> 0 -> _tokenRoyaltyInfo s' !! t = Some (rr, rf)) /\
    (rr = 0 -> _tokenRoyaltyInfo s' = _tokenRoyaltyInfo s2) /\
    (forall t', t' <> t -> licenses s' !! t' = licenses s2 !! t') /\
    (forall user aHash, (user, aHash) <> (to, keccak256 app) ->
       lookup s' user aHash = lookup s2 user aHash) /\
    redeemed s' = redeemed s2 /\ nextTokenId s' = nextTokenId s2.
Proof.
  intros Hm. unfold CollectibleLicenseNFTR.mintCollectible in Hm. tx_inv Hm.
  all: match goal with
       | Hs : Callbacks._safeMint _ _ _ _ _ = _ |- _ =>
           apply CallbackProofs._safeMint_inv in Hs as (s1 & Hmint & Hcb)
       end.
  all: st_simpl; bool_clean.
  all: assert (Hfresh : to <> 0 /\ owner_of s (nextTokenId s + 1) = 0)
         by (clear - Hmint; tx_inv Hmint; st_simpl; bool_clean; done).
  all: destruct Hfresh as [Hto Hfresh].
  all: repeat match goal with |- _ /\ _ => split end; try done; try lia.
  all: eexists _, _; split; [exact Hmint|]; split; [exact Hcb|].
  all: st_simpl.
  all: repeat match goal with |- _ /\ _ => split end; try done; try lia; try congruence.
  all: try (slot_norm; done).
  all: try (intros; slot_norm; done).
  all: try (intros; split; slot_norm; done).
Qed.

End Callbacks.
End Proofs.

(** *** Histories in which no recipient calls back *)

Section Quiet.
Context `{Host} `{R : Callbacks.Receivers State Txn}.

Lemma Inv_accepting M s : Inv (H := Callbacks.accepting _) M s <-> Inv M s.
Proof. split; intros [Hids Hidx Hlog Hsup Hmax]; split; done. Qed.

Lemma mintCollectible_quiet reenter sender to uri app exp sb eph rr rf s t s' :
  Callbacks.quiet to ->
  CollectibleLicenseNFTR.mintCollectible reenter sender to uri app exp sb eph rr rf s
  = Ok (t, s') ->
  mintCollectible (H := Callbacks.accepting _) sender to uri app exp sb eph rr rf s
  = Ok (t, s').
Proof.
  intros Hq. unfold CollectibleLicenseNFTR.mintCollectible, mintCollectible. cbv zeta.
  repeat (apply bind_Ok_mono; intros ? ?).
  apply bind_Ok_mono_l. intros ? ?. now apply CallbackProofs._safeMint_quiet.
Qed.

Lemma openMint_quiet reenter sender uri app exp sb eph proof s t s' :
  Callbacks.quiet sender ->
  CollectibleLicenseNFTR.openMint reenter sender uri app exp sb eph proof s = Ok (t, s') ->
  openMint (H := Callbacks.accepting _) sender uri app exp sb eph proof s = Ok (t, s').
Proof.
  intros Hq. unfold CollectibleLicenseNFTR.openMint, openMint. cbv zeta.
  repeat (apply bind_Ok_mono; intros ? ?).
  apply bind_Ok_mono_l. intros ? ?. now apply CallbackProofs._safeMint_quiet.
Qed.

Lemma batchMint_from_quiet reenter sender rs n :
  Forall Callbacks.quiet rs ->
  forall i us aps es sbs ephs rrs rfs s u s',
  CollectibleLicenseNFTR.batchMint_from reenter sender n i rs us aps es sbs ephs rrs rfs s
  = Ok (u, s') ->
  batchMint_from (H := Callbacks.accepting _) sender n i rs us aps es sbs ephs rrs rfs s
  = Ok (u, s').
Proof.
  intros Hq. induction n as [|n IH]; intros i us aps es sbs ephs rrs rfs s u s'; [done|].
  cbn [CollectibleLicenseNFTR.batchMint_from batchMint_from].
  unfold at_index at 1 9. destruct (rs !! i) as [to|] eqn:Hto; [|done].
  rewrite !bind_ret.
  repeat (apply bind_Ok_mono; intros ? ?).
  intros Hm. apply bind_Ok_inv in Hm as (tk & sm & Hmint & Hm).
  apply mintCollectible_quiet in Hmint; [|eapply Forall_lookup_1 in Hq; eauto].
  rewrite (bind_Ok _ _ _ _ _ Hmint). apply IH, Hm.
Qed.

Lemma batchMint_quiet reenter sender rs us aps es sbs ephs rrs rfs s u s' :
  Forall Callbacks.quiet rs ->
  CollectibleLicenseNFTR.batchMint reenter sender rs us aps es sbs ephs rrs rfs s
  = Ok (u, s') ->
  batchMint (H := Callbacks.accepting _) sender rs us aps es sbs ephs rrs rfs s
  = Ok (u, s').
Proof.
  intros Hq. unfold CollectibleLicenseNFTR.batchMint, batchMint.
  repeat (apply bind_Ok_mono; intros ? ?). now apply batchMint_from_quiet.
Qed.

Lemma dispatch_quiet depth tx s u s' :
  Callbacks.no_callbacks ->
  CollectibleLicenseNFTR.dispatch depth false tx s = Ok (u, s') ->
  dispatch (H := Callbacks.accepting _) tx s = Ok (u, s').
Proof.
  intros Hq Hm. destruct tx as [sender []], depth;
    cbn [CollectibleLicenseNFTR.dispatch dispatch msg_sender msg_call] in *;
    try exact Hm.
  all: first [ revert Hm; apply bind_Ok_mono_l; intros ? ?;
               first [apply mintCollectible_quiet, Hq | apply openMint_quiet, Hq]
             | revert Hm; apply batchMint_quiet, Forall_forall; intros; apply Hq
             | apply CallbackProofs.safeTransferFrom_quiet in Hm; [|apply Hq];
               apply CallbackProofs.safeTransferFrom_as_transferFrom;
               destruct u; split; [exact Hm|reflexivity] ].
Qed.

(** A transaction either leaves the storage as it was or does what the
    call does when every recipient accepts. *)
Lemma step_quiet depth tx s :
  Callbacks.no_callbacks ->
  CollectibleLicenseNFTR.step depth s tx = s \/
  exists u, dispatch (H := Callbacks.accepting _) tx s
            = Ok (u, CollectibleLicenseNFTR.step depth s tx).
Proof.
  intros Hq. unfold CollectibleLicenseNFTR.step, commit.
  destruct (CollectibleLicenseNFTR.dispatch depth false tx s) as [[u s']|r] eqn:Hd;
    [|by left].
  right. exists u. by apply (dispatch_quiet depth).
Qed.

Lemma run_quiet_Inv M depth txs : forall s,
  Callbacks.no_callbacks -> Inv M s -> Inv M (CollectibleLicenseNFTR.run depth txs s).
Proof.
  induction txs as [|tx txs IH]; intros s Hq HI; [done|].
  cbn [CollectibleLicenseNFTR.run fold_left]. apply IH; [done|].
  destruct (step_quiet depth tx s Hq) as [->|[u Hd]]; [done|].
  apply Inv_accepting. apply Inv_accepting in HI.
  exact (dispatch_Inv _ _ _ _ _ HI Hd).
Qed.

Lemma run_quiet_complete M depth txs : forall s,
  Callbacks.no_callbacks -> Inv M s -> CollectibleLicenseNFTR.records_live s ->
  index_complete s ->
  CollectibleLicenseNFTR.undisplaced depth txs s = true ->
  index_complete (CollectibleLicenseNFTR.run depth txs s).
Proof.
  induction txs as [|tx txs IH]; intros s Hq HI Hrec Hc Hu; [done|].
  cbn [CollectibleLicenseNFTR.undisplaced] in Hu. apply andb_true_iff in Hu as [Hnd Hu].
  apply negb_true_iff in Hnd. cbn [CollectibleLicenseNFTR.run fold_left].
  apply IH; [done| | | |done].
  - exact (run_quiet_Inv M depth [tx] s Hq HI).
  - destruct (step_quiet depth tx s Hq) as [->|[u Hd]]; [done|].
    exact (dispatch_records (H := Callbacks.accepting _) _ _ _ _ Hrec Hd).
  - destruct (step_quiet depth tx s Hq) as [->|[u Hd]]; [done|].
    apply Inv_accepting in HI.
    exact (dispatch_complete (H := Callbacks.accepting _) _ _ _ _ _ HI Hrec Hc Hnd Hd).
Qed.

(** The duplicate check of mintCollectible stands when the recipient does
    not call back. *)
Lemma mintCollectible_occupied_quiet reenter sender to uri app exp sb eph rr rf s :
  Callbacks.quiet to ->
  nonempty app = true -> lookup s to (keccak256 app) <> 0 ->
  reverted
    (CollectibleLicenseNFTR.mintCollectible reenter sender to uri app exp sb eph rr rf) s.
Proof.
  intros Hq Happ Hocc.
  destruct (CollectibleLicenseNFTR.mintCollectible reenter sender to uri app exp sb eph
              rr rf s) as [[t s']|r] eqn:Hm; [|by exists r].
  exfalso. apply mintCollectible_quiet in Hm; [|done].
  destruct (mintCollectible_occupied_fails (H := Callbacks.accepting _)
              sender to uri app exp sb eph rr rf s Happ Hocc) as [r Hr].
  congruence.
Qed.
End Quiet.
End CollectibleProofs.

(** * AppBoundLicense: invariants of the ledger *)

Module AppBoundProofs.
Import AppBoundLicense.

Section Proofs.
Context `{Host}.

Lemma ab_hook_mint to t : beforeTokenTransfer 0 to t = ret tt.
Proof. reflexivity. Qed.

Lemma ab_hook_burn from t : beforeTokenTransfer from 0 t = ret tt.
Proof. unfold beforeTokenTransfer. now destruct (from =? 0). Qed.

Ltac unf H :=
  lazymatch type of H with
  | _beforeTokenTransfer _ _ _ _ = _ =>
      cbn [_beforeTokenTransfer AppBound_ERC721] in H
  | beforeTokenTransfer 0 _ _ _ = _ => rewrite ab_hook_mint in H
  | beforeTokenTransfer _ 0 _ _ = _ => rewrite ab_hook_burn in H
  | beforeTokenTransfer _ _ _ _ = _ => unfold beforeTokenTransfer in H
  | onlyOwner _ _ = _ => unfold onlyOwner in H
  | mintTo _ _ _ _ _ _ = _ => unfold mintTo in H
  | burn _ _ _ = _ => unfold burn in H
  | checkLicense _ _ _ = _ => unfold checkLicense in H
  | transferOwnership _ _ _ = _ => unfold transferOwnership in H
  | renounceOwnership _ _ = _ => unfold renounceOwnership in H
  end.

Ltac tx_inv H := tx_inv_with unf H.

Ltac st_simpl :=
  unfold no_dangling in *;
  unfold lookup, owner_of, license_of in *;
  cbn [erc with_erc emit AppBound_ERC721
       erc721 licenses userAppToken nextTokenId _owner log
       set_erc721 set_licenses set_userAppToken set_nextTokenId set_owner_account
       push_event
       _owners _tokenApprovals _operatorApprovals _tokenURIs
       set_owner clear_owner set_approval clear_approval set_operator set_uri
       clear_uri] in *.

Ltac inv_start Hm :=
  tx_inv Hm; st_simpl; bool_clean; try congruence; (split; st_simpl).

Ltac index_after Hidx t :=
  let o := fresh "o" in
  let h := fresh "h" in
  let t' := fresh "t'" in
  let Hl := fresh "Hl" in
  let Hne := fresh "Hne" in
  intros o h t' Hl Hne;
  repeat match type of Hl with
         | slot (<[?k := _]> _) _ = _ =>
             revert Hl; by_cases k (o, h); [intros <-; slot_norm; done|]; intros Hl
         | slot (delete ?k _) _ = _ =>
             revert Hl; by_cases k (o, h); [intros <-; done|]; intros Hl
         end;
  let Ho := fresh "Ho" in
  let Ho0 := fresh "Ho0" in
  let Hh := fresh "Hh" in
  destruct (Hidx o h t' Hl Hne) as (Ho & Ho0 & Hh);
  assert (t <> t') by (intros <-; congruence);
  slot_norm; done.

Lemma mintTo_Inv sender to app uri exp s t s' :
  Inv s -> mintTo sender to app uri exp s = Ok (t, s') -> Inv s'.
Proof.
  intros [Hids Hidx Hlog] Hm. inv_start Hm.
  - intros t'; by_cases (nextTokenId s + 1) t'; [lia|].
    intros Ht'; apply Hids in Ht'; lia.
  - index_after Hidx (nextTokenId s + 1).
  - rewrite minted_ids_other by done.
    now rewrite minted_ids_mint, Hlog, ids_upto_succ.
Qed.

Lemma ab_transferFrom_Inv sender from to t s u s' :
  Inv s -> transferFrom sender from to t s = Ok (u, s') -> Inv s'.
Proof.
  intros [Hids Hidx Hlog] Hm. inv_start Hm.
  all: try (rewrite minted_ids_transfer by congruence; done).
  all: try (intros t'; by_cases t t'; [intros _; apply Hids; congruence | apply Hids]).
  all: index_after Hidx t.
Qed.

Lemma ab_safeTransferFrom_Inv sender from to t s u s' :
  Inv s -> safeTransferFrom sender from to t s = Ok (u, s') -> Inv s'.
Proof.
  intros [Hids Hidx Hlog] Hm. inv_start Hm.
  all: try (rewrite minted_ids_transfer by congruence; done).
  all: try (intros t'; by_cases t t'; [intros _; apply Hids; congruence | apply Hids]).
  all: index_after Hidx t.
Qed.

Lemma ab_burn_Inv sender t s u s' :
  Inv s -> burn sender t s = Ok (u, s') -> Inv s'.
Proof.
  intros [Hids Hidx Hlog] Hm. inv_start Hm.
  all: try (rewrite minted_ids_other by done; rewrite minted_ids_transfer by congruence; done).
  all: try (intros t'; by_cases t t'; [done | apply Hids]).
  all: index_after Hidx t.
Qed.

Ltac inv_same Hm := inv_start Hm; solve [done | rewrite minted_ids_other by done; done].

Lemma ab_approve_Inv sender to t s u s' :
  Inv s -> approve sender to t s = Ok (u, s') -> Inv s'.
Proof. intros [Hids Hidx Hlog] Hm. inv_same Hm. Qed.

Lemma ab_setApprovalForAll_Inv sender operator approved s u s' :
  Inv s -> setApprovalForAll sender operator approved s = Ok (u, s') -> Inv s'.
Proof. intros [Hids Hidx Hlog] Hm. inv_same Hm. Qed.

Lemma transferOwnership_Inv sender newOwner s u s' :
  Inv s -> transferOwnership sender newOwner s = Ok (u, s') -> Inv s'.
Proof. intros [Hids Hidx Hlog] Hm. inv_same Hm. Qed.

Lemma renounceOwnership_Inv sender s u s' :
  Inv s -> renounceOwnership sender s = Ok (u, s') -> Inv s'.
Proof. intros [Hids Hidx Hlog] Hm. inv_same Hm. Qed.

Lemma ab_dispatch_Inv tx s u s' : Inv s -> dispatch tx s = Ok (u, s') -> Inv s'.
Proof.
  intros HI Hm. destruct tx as [sender []]; cbn [dispatch msg_sender msg_call] in Hm.
  - apply bind_Ok_inv in Hm as (t & s1 & Hm & Hr). tx_inv Hr.
    eauto using mintTo_Inv.
  - eauto using ab_burn_Inv.
  - eauto using ab_transferFrom_Inv.
  - eauto using ab_safeTransferFrom_Inv.
  - eauto using ab_approve_Inv.
  - eauto using ab_setApprovalForAll_Inv.
  - eauto using transferOwnership_Inv.
  - eauto using renounceOwnership_Inv.
Qed.

Lemma ab_step_Inv tx s : Inv s -> Inv (step s tx).
Proof.
  intros HI. unfold step, commit.
  destruct (dispatch tx s) as [[u s']|r] eqn:Hd; [|done].
  eauto using ab_dispatch_Inv.
Qed.

Lemma ab_run_Inv txs : forall s, Inv s -> Inv (run txs s).
Proof.
  induction txs as [|tx txs IH]; intros s HI; [done|].
  cbn. apply IH, ab_step_Inv, HI.
Qed.

Lemma ab_constructor_Inv deployer : Inv (constructor deployer).
Proof.
  split; unfold no_dangling, lookup, owner_of; cbn.
  - intros t. now rewrite slot_empty.
  - intros o h t Hl Hne. rewrite slot_empty in Hl. congruence.
  - done.
Qed.

Lemma ab_reachable_Inv deployer txs : Inv (run txs (constructor deployer)).
Proof. apply ab_run_Inv, ab_constructor_Inv. Qed.

(** *** Running the calls forward *)

Ltac unf_goal _ :=
  lazymatch goal with
  | |- bind (_beforeTokenTransfer _ _ _) _ _ = _ =>
      cbn [_beforeTokenTransfer AppBound_ERC721]
  | |- bind (beforeTokenTransfer _ _ _) _ _ = _ => unfold beforeTokenTransfer at 1
  | |- bind (onlyOwner _) _ _ = _ => unfold onlyOwner at 1
  end.

Ltac st_norm _ := st_simpl.

Ltac kill _ :=
  bool_clean;
  repeat first
    [ rewrite slot_insert_eq in *
    | rewrite slot_delete_eq in *
    | rewrite slot_insert_ne in * by congruence
    | rewrite slot_delete_ne in * by congruence ];
  first [congruence | lia | done].

Ltac tx_fwd := rewrite <- bind_ret_r; tx_fwd_with unf_goal st_norm kill.

(** *** Duplicate licences *)

Lemma mintTo_occupied_fails sender to app uri exp s :
  lookup s to (keccak256 app) <> 0 ->
  reverted (mintTo sender to app uri exp) s.
Proof.
  intros Hdup.
  destruct (mintTo sender to app uri exp s) as [[t s']|r] eqn:Hm; [|by exists r].
  exfalso. tx_inv Hm; st_simpl; bool_clean; congruence.
Qed.

Lemma mintTo_duplicate sender to app uri exp s :
  _owner s = sender ->
  lookup s to (keccak256 app) <> 0 ->
  mintTo sender to app uri exp s = Revert (Error "ALREADY_OWN_THIS_APP").
Proof.
  intros Hown Hdup. unfold mintTo. tx_fwd.
Qed.

(** *** Transfers and the index *)

Lemma ab_holder_isApprovedOrOwner holder t s :
  owner_of s t = holder -> holder <> 0 ->
  _isApprovedOrOwner holder t s = Ok (true, s).
Proof.
  intros Hown Hne. unfold _isApprovedOrOwner. tx_fwd.
  st_simpl. rewrite Hown, N.eqb_refl. reflexivity.
Qed.

Lemma ab_transferFrom_index sender from to t s u s' :
  transferFrom sender from to t s = Ok (u, s') ->
  let h := keccak256 (appId (license_of s t)) in
  owner_of s t = from /\ owner_of s' t = to /\
  lookup s' to h = t /\
  (from <> to -> lookup s from h = t -> lookup s' from h = 0) /\
  (from <> to -> lookup s from h <> t -> lookup s' from h = lookup s from h) /\
  (forall o h', (o, h') <> (to, h) -> (o, h') <> (from, h) ->
                lookup s' o h' = lookup s o h').
Proof.
  intros Hm h. subst h. tx_inv Hm; st_simpl; bool_clean; try congruence.
  all: repeat split; slot_norm; try done.
  all: try (intros Hft Hcur; slot_norm; congruence).
  all: intros o h' Hn1 Hn2; slot_norm; done.
Qed.

Lemma ab_transferFrom_succeeds sender from to t s :
  _isApprovedOrOwner sender t s = Ok (true, s) ->
  owner_of s t = from -> to <> 0 ->
  exists s', transferFrom sender from to t s = Ok (tt, s').
Proof.
  intros Hauth Hown Ht.
  assert (from <> 0) by (tx_inv Hauth; st_simpl; bool_clean; congruence).
  unfold transferFrom. rewrite (bind_Ok _ _ _ _ _ Hauth).
  destruct (lookup s from (keccak256 (appId (license_of s t))) =? t) eqn:Hcur.
  all: eexists; tx_fwd; reflexivity.
Qed.

(** *** Token ids *)


Lemma ab_Inv_zero_unassigned s : Inv s -> owner_of s 0 = 0.
Proof.
  intros HI. destruct (decide (owner_of s 0 = 0)) as [|Hne]; [done|].
  apply (inv_ids _ HI) in Hne. lia.
Qed.

Lemma ab_Inv_no_duplicate s : Inv s -> no_duplicate s.
Proof.
  intros HI o h o' h' t Hl Hl' Hne.
  destruct (inv_index _ HI o h t Hl Hne) as (Ho & _ & Hh).
  destruct (inv_index _ HI o' h' t Hl' Hne) as (Ho' & _ & Hh').
  split; congruence.
Qed.

(** *** The licence view *)

Lemma checkLicense_live user app s :
  Inv s -> lookup s user (keccak256 app) <> 0 ->
  exists uri,
    checkLicense user app s =
      Ok ((lookup s user (keccak256 app), uri,
           expiry (license_of s (lookup s user (keccak256 app)))), s).
Proof.
  intros HI Hl.
  destruct (inv_index _ HI _ _ _ eq_refl Hl) as (Ho & Hne & _).
  unfold checkLicense. cbv zeta. rewrite bind_gets.
  apply N.eqb_neq in Hl as Hl'. rewrite Hl'. cbn [negb].
  eexists. tx_fwd.
Qed.

(** ** Further properties of the calls *)

(** *** Burning a licence *)

Lemma ab_burn_inv holder t s u s' :
  burn holder t s = Ok (u, s') ->
  owner_of s t = holder /\ holder <> 0 /\
  owner_of s' t = 0 /\
  (forall t', t' <> t -> owner_of s' t' = owner_of s t') /\
  licenses s' = delete t (licenses s) /\
  userAppToken s'
  = delete (holder, keccak256 (appId (license_of s t))) (userAppToken s) /\
  nextTokenId s' = nextTokenId s /\ _owner s' = _owner s /\
  log s' = (log s ++ [Transfer holder 0 t; LicenseBurned holder t])%list.
Proof.
  intros Hm. tx_inv Hm; st_simpl; bool_clean.
  all: repeat match goal with |- _ /\ _ => split end; try done; try congruence.
  all: try (slot_norm; done).
  all: try (intros; slot_norm; done).
  all: rewrite <- app_assoc; cbn [app]; congruence.
Qed.

Lemma ab_burn_succeeds holder t s :
  owner_of s t = holder -> holder <> 0 ->
  exists s', burn holder t s = Ok (tt, s').
Proof.
  intros Hown Hne. unfold burn.
  destruct (negb (String.eqb (default "" (_tokenURIs (erc721 s) !! t)) "")) eqn:Huri.
  all: eexists; tx_fwd; reflexivity.
Qed.

Lemma ab_burn_missing sender t s :
  owner_of s t = 0 -> burn sender t s = Revert (Error "ERC721: invalid token ID").
Proof. intros Hno. unfold burn. tx_fwd. Qed.

Lemma ab_burn_not_owner sender t s :
  owner_of s t <> 0 -> sender <> owner_of s t ->
  burn sender t s = Revert (Error "NOT_OWNER").
Proof. intros Hex Hne. unfold burn. tx_fwd. Qed.

(** *** Minting and reading back *)

Lemma mintTo_inv sender to app uri exp s t s' :
  mintTo sender to app uri exp s = Ok (t, s') ->
  _owner s = sender /\ lookup s to (keccak256 app) = 0 /\
  t = nextTokenId s + 1 /\ nextTokenId s' = t /\
  to <> 0 /\ owner_of s t = 0 /\ owner_of s' t = to /\
  onERC721Received to sender 0 t = true /\
  lookup s' to (keccak256 app) = t /\
  licenses s' !! t = Some {| appId := app; expiry := exp |} /\
  default "" (_tokenURIs (erc721 s') !! t) = uri /\
  _owner s' = _owner s /\
  (forall t', t' <> t -> owner_of s' t' = owner_of s t') /\
  (forall t', t' <> t -> licenses s' !! t' = licenses s !! t') /\
  (forall user aHash, (user, aHash) <> (to, keccak256 app) ->
     lookup s' user aHash = lookup s user aHash) /\
  log s' = (log s ++ [Transfer 0 to t; LicenseMinted to t app exp])%list.
Proof.
  intros Hm. tx_inv Hm; st_simpl; bool_clean.
  all: unfold _checkOnERC721Received, ret in *; simplify_eq.
  all: repeat match goal with |- _ /\ _ => split end; try done; try lia.
  all: try (slot_norm; done).
  all: try (intros; slot_norm; done).
  all: try (rewrite <- app_assoc; done).
Qed.

Lemma mintTo_succeeds sender to app uri exp s :
  _owner s = sender -> lookup s to (keccak256 app) = 0 ->
  nextTokenId s + 1 < uint256_limit ->
  to <> 0 -> owner_of s (nextTokenId s + 1) = 0 ->
  onERC721Received to sender 0 (nextTokenId s + 1) = true ->
  exists s', mintTo sender to app uri exp s = Ok (nextTokenId s + 1, s').
Proof.
  intros Hown Hfree Hlim Hto Hfresh Hacc.
  eexists. unfold mintTo. tx_fwd.
Qed.

Lemma mintTo_not_owner sender to app uri exp s :
  _owner s <> sender ->
  mintTo sender to app uri exp s = Revert (Error "Ownable: caller is not the owner").
Proof. intros Hno. unfold mintTo. tx_fwd. Qed.

Lemma mintTo_checkLicense sender to app uri exp s t s' :
  mintTo sender to app uri exp s = Ok (t, s') ->
  checkLicense to app s' = Ok ((t, uri, exp), s').
Proof.
  intros Hm.
  apply mintTo_inv in Hm
    as (_ & _ & Ht & _ & Hto & _ & Hown & _ & Hidx & Hlic & Huri & _).
  unfold checkLicense. cbv zeta. rewrite bind_gets, Hidx.
  assert (Hne : (t =? 0) = false) by (apply N.eqb_neq; lia).
  rewrite Hne. cbn [negb]. tx_fwd.
  st_simpl. rewrite Huri, Hlic. reflexivity.
Qed.

Lemma checkLicense_none user app s :
  lookup s user (keccak256 app) = 0 -> checkLicense user app s = Ok ((0, "", 0), s).
Proof.
  intros Hl. unfold checkLicense. cbv zeta. rewrite bind_gets, Hl. reflexivity.
Qed.


(** *** Histories *)

Lemma ab_step_cases tx s : step s tx = s \/ exists u, dispatch tx s = Ok (u, step s tx).
Proof.
  unfold step, commit. destruct (dispatch tx s) as [[u s']|r]; [right; eauto|left; done].
Qed.

Lemma ab_run_cons tx txs s : run (tx :: txs) s = run txs (step s tx).
Proof. reflexivity. Qed.

(** Split a call that returned into its kinds, each inverted. *)
Ltac ab_by_call Hm tx :=
  destruct tx as [sender []]; cbn [dispatch msg_sender msg_call] in Hm;
  tx_inv Hm; st_simpl; bool_clean; try congruence.



Lemma ab_dispatch_dead tx s u s' t :
  dispatch tx s = Ok (u, s') ->
  owner_of s t = 0 -> t <= nextTokenId s ->
  owner_of s' t = 0 /\ nextTokenId s <= nextTokenId s'.
Proof.
  intros Hm Hdead Hold. ab_by_call Hm tx.
  all: split; [|lia].
  all: try done.
  all: try (rewrite slot_insert_ne by lia; done).
  all: destruct (decide (tokenId = t)) as [->|Hne]; slot_norm; congruence.
Qed.

Lemma ab_run_dead txs : forall s t,
  owner_of s t = 0 -> t <= nextTokenId s -> owner_of (run txs s) t = 0.
Proof.
  induction txs as [|tx txs IH]; intros s t Hd Ho; [done|].
  rewrite ab_run_cons.
  destruct (ab_step_cases tx s) as [E|[u Hs]]; [rewrite E; now apply IH|].
  destruct (ab_dispatch_dead _ _ _ _ _ Hs Hd Ho) as [Hd' Hn]. apply IH; [done|lia].
Qed.

Lemma ab_dispatch_counter tx s u s' :
  dispatch tx s = Ok (u, s') -> nextTokenId s <= nextTokenId s'.
Proof. intros Hm. ab_by_call Hm tx; lia. Qed.

Lemma ab_dispatch_live tx s u s' t :
  dispatch tx s = Ok (u, s') ->
  owner_of s t <> 0 -> owner_of s' t <> 0 ->
  licenses s' !! t = licenses s !! t.
Proof.
  intros Hm Hlive Hlive'. ab_by_call Hm tx; try done.
  - assert (nextTokenId s + 1 <> t) by congruence. slot_norm. done.
  - destruct (decide (tokenId = t)) as [->|Hne];
      [rewrite slot_delete_eq in Hlive'; done|slot_norm; done].
  - destruct (decide (tokenId = t)) as [->|Hne];
      [rewrite slot_delete_eq in Hlive'; done|slot_norm; done].
Qed.

Lemma ab_run_live txs : forall s t,
  Inv s -> owner_of s t <> 0 -> owner_of (run txs s) t <> 0 ->
  licenses (run txs s) !! t = licenses s !! t.
Proof.
  induction txs as [|tx txs IH]; intros s t HI Hl Hl'; [done|].
  rewrite ab_run_cons in *.
  destruct (ab_step_cases tx s) as [E|[u Hs]]; [rewrite E in *; now apply IH|].
  assert (Hmid : owner_of (step s tx) t <> 0).
  { intros Hz. apply Hl'. apply ab_run_dead; [done|].
    pose proof (inv_ids _ HI t Hl). apply ab_dispatch_counter in Hs. lia. }
  rewrite (IH (step s tx) t (ab_step_Inv tx s HI) Hmid Hl').
  eapply ab_dispatch_live; eauto.
Qed.

(** *** When the index is complete *)

Lemma Inv_live_nonzero s t : Inv s -> owner_of s t <> 0 -> t <> 0.
Proof. intros HI Hl ->. apply (inv_ids _ HI) in Hl. lia. Qed.

Lemma mintTo_complete sender to app uri exp s t s' :
  Inv s -> index_complete s ->
  mintTo sender to app uri exp s = Ok (t, s') -> index_complete s'.
Proof.
  intros HI Hc Hm. pose proof (Inv_live_nonzero s) as Hnz.
  unfold index_complete in *. tx_inv Hm; st_simpl; bool_clean.
  intros t' Hl'. destruct (decide (nextTokenId s + 1 = t')) as [<-|Hd].
  - rewrite slot_insert_eq, lookup_insert_eq. cbn. apply slot_insert_eq.
  - rewrite (slot_insert_ne (_owners (erc721 s))) in * by done.
    rewrite lookup_insert_ne by done.
    specialize (Hc t' Hl'). specialize (Hnz t' HI Hl').
    rewrite slot_insert_ne; [exact Hc|]. intros E. rewrite <- E in Hc. congruence.
Qed.

Lemma ab_burn_complete sender t s u s' :
  Inv s -> index_complete s ->
  burn sender t s = Ok (u, s') -> index_complete s'.
Proof.
  intros HI Hc Hm. unfold index_complete in *. tx_inv Hm; st_simpl; bool_clean.
  all: intros t' Hl'; destruct (decide (t = t')) as [<-|Hd];
    [rewrite slot_delete_eq in Hl'; done|].
  all: rewrite (slot_delete_ne (_owners (erc721 s))) in * by done;
    rewrite lookup_delete_ne by done.
  all: pose proof (Hc t' Hl') as Hc'; pose proof (Hc t H1) as Hct.
  all: rewrite slot_delete_ne; [exact Hc'|]; intros E; rewrite <- E in Hc'; congruence.
Qed.

Lemma ab_transfer_complete from to t s :
  Inv s -> index_complete s -> owner_of s t = from -> from <> 0 ->
  let h := keccak256 (appId (license_of s t)) in
  (lookup s to h = 0 \/ lookup s to h = t) ->
  forall t', t' <> t -> owner_of s t' <> 0 ->
    (owner_of s t', keccak256 (appId (license_of s t'))) <> (to, h) /\
    (owner_of s t', keccak256 (appId (license_of s t'))) <> (from, h).
Proof.
  intros HI Hc Hown Hne h Hfree t' Hd Hl'.
  pose proof (Inv_live_nonzero s t' HI Hl') as Hnz.
  unfold index_complete, lookup in *.
  pose proof (Hc t' Hl') as Hc'.
  assert (Hlt : owner_of s t <> 0) by congruence.
  pose proof (Hc t Hlt) as Hct. fold h in Hct. rewrite Hown in Hct.
  split; intros E; rewrite E in Hc'.
  - destruct Hfree as [Hz|Hz]; congruence.
  - congruence.
Qed.

Lemma ab_transferFrom_complete sender from to t s u s' :
  Inv s -> index_complete s ->
  AppBoundLicenseR.displaces s {| msg_sender := sender; msg_call := call_transferFrom from to t |} = false ->
  transferFrom sender from to t s = Ok (u, s') -> index_complete s'.
Proof.
  intros HI Hc Hnd Hm.
  assert (Hfree : lookup s to (keccak256 (appId (license_of s t))) = 0 \/
                  lookup s to (keccak256 (appId (license_of s t))) = t).
  { unfold AppBoundLicenseR.displaces in Hnd. cbn in Hnd.
    apply andb_false_iff in Hnd as [Hz|Hz]; apply negb_false_iff, N.eqb_eq in Hz; auto. }
  pose proof (ab_transferFrom_index _ _ _ _ _ _ _ Hm) as Hx. cbv zeta in Hx.
  destruct Hx as (Hfrom & Hto & Hset & Hclr & Hkeep & Hrest).
  assert (Hne : from <> 0).
  { clear - Hm. tx_inv Hm; st_simpl; bool_clean; congruence. }
  assert (Hlic : licenses s' = licenses s /\
                 forall t', t' <> t -> owner_of s' t' = owner_of s t').
  { clear - Hm. tx_inv Hm; st_simpl; bool_clean; try congruence.
    all: split; [done|]; intros t' Hd; rewrite slot_insert_ne; done. }
  destruct Hlic as [Hlic Hown].
  intros t' Hl'. unfold license_of. rewrite Hlic. fold (license_of s t').
  destruct (decide (t' = t)) as [->|Hd]; [rewrite Hto; exact Hset|].
  rewrite Hown in * by done.
  destruct (ab_transfer_complete from to t s HI Hc Hfrom Hne Hfree t' Hd Hl') as [N1 N2].
  rewrite Hrest by done. apply Hc, Hl'.
Qed.

Lemma ab_unindexed_complete s s' :
  (forall t, owner_of s' t = owner_of s t) ->
  licenses s' = licenses s -> userAppToken s' = userAppToken s ->
  index_complete s -> index_complete s'.
Proof.
  intros Ho Hl Hi Hc t. unfold index_complete, lookup, license_of in *.
  rewrite Ho, Hl, Hi. apply Hc.
Qed.

Lemma ab_dispatch_complete tx s u s' :
  Inv s -> index_complete s -> AppBoundLicenseR.displaces s tx = false ->
  dispatch tx s = Ok (u, s') -> index_complete s'.
Proof.
  intros HI Hc Hnd Hm. destruct tx as [sender []]; cbn [dispatch msg_sender msg_call] in Hm.
  - apply bind_Ok_inv in Hm as (t & s1 & Hm & Hr). tx_inv Hr.
    eauto using mintTo_complete.
  - eauto using ab_burn_complete.
  - eauto using ab_transferFrom_complete.
  - apply CallbackProofs.safeTransferFrom_as_transferFrom in Hm as [Hm _].
    eapply ab_transferFrom_complete; [exact HI|exact Hc| |exact Hm]. exact Hnd.
  - revert Hc. apply ab_unindexed_complete; tx_inv Hm; st_simpl; done.
  - revert Hc. apply ab_unindexed_complete; tx_inv Hm; st_simpl; done.
  - revert Hc. apply ab_unindexed_complete; tx_inv Hm; st_simpl; done.
  - revert Hc. apply ab_unindexed_complete; tx_inv Hm; st_simpl; done.
Qed.

Lemma ab_constructor_complete deployer : index_complete (constructor deployer).
Proof. intros t Hl. exfalso. apply Hl. unfold owner_of. cbn. apply slot_empty. Qed.

(** *** Recipients that call back *)

Section Callbacks.
Context `{Callbacks.Receivers State Txn}.

(** What a mintTo that returned went through, whatever the recipient
    did when it was called. *)
Lemma mintTo_called_back reenter sender to app uri exp s t s' :
  AppBoundLicenseR.mintTo reenter sender to app uri exp s = Ok (t, s') ->
  _owner s = sender /\ lookup s to (keccak256 app) = 0 /\
  t = nextTokenId s + 1 /\ to <> 0 /\ owner_of s t = 0 /\
  (exists s1 s2,
     _mint to t (set_nextTokenId t s) = Ok (tt, s1) /\
     Callbacks.run_script reenter (Callbacks.receiver to sender 0 t) s1 = Ok (true, s2) /\
     owner_of s2 t <> 0 /\
     s' = push_event (LicenseMinted to t app exp)
            (set_userAppToken <[(to, keccak256 app) := t]>
               (set_licenses <[t := {| appId := app; expiry := exp |}]>
                  (set_erc721 (set_uri t uri (erc721 s2)) s2)))).
Proof.
  intros Hm. unfold AppBoundLicenseR.mintTo in Hm. tx_inv Hm.
  match goal with
  | Hs : Callbacks._safeMint _ _ _ _ _ = _ |- _ =>
      apply CallbackProofs._safeMint_inv in Hs as (s1 & Hmint & Hcb)
  end.
  st_simpl; bool_clean.
  assert (Hfresh : to <> 0 /\ owner_of s (nextTokenId s + 1) = 0).
  { clear - Hmint. tx_inv Hmint; st_simpl; bool_clean. done. }
  repeat match goal with |- _ /\ _ => split end; try done; try tauto.
  eexists _, _. split; [exact Hmint|]. split; [exact Hcb|]. split; [done|]. reflexivity.
Qed.

Lemma mintTo_checkLicense_called_back reenter sender to app uri exp s t s' :
  AppBoundLicenseR.mintTo reenter sender to app uri exp s = Ok (t, s') ->
  owner_of s' t <> 0 /\
  lookup s' to (keccak256 app) = t /\
  licenses s' !! t = Some {| appId := app; expiry := exp |} /\
  checkLicense to app s' = Ok ((t, uri, exp), s').
Proof.
  intros Hm. apply mintTo_called_back in Hm
    as (_ & _ & Ht & _ & _ & s1 & s2 & _ & _ & Hlive & ->).
  assert (Hne : (t =? 0) = false) by (apply N.eqb_neq; lia).
  st_simpl. rewrite slot_insert_eq, lookup_insert_eq.
  repeat split; try done.
  unfold checkLicense. cbv zeta. rewrite bind_gets. st_simpl.
  rewrite slot_insert_eq, Hne. cbn [negb]. tx_fwd.
  st_simpl. rewrite !lookup_insert_eq. reflexivity.
Qed.

Lemma mintTo_occupied_called_back reenter sender to app uri exp s :
  lookup s to (keccak256 app) <> 0 ->
  reverted (AppBoundLicenseR.mintTo reenter sender to app uri exp) s /\
  (_owner s = sender ->
   AppBoundLicenseR.mintTo reenter sender to app uri exp s
   = Revert (Error "ALREADY_OWN_THIS_APP")).
Proof.
  intros Hdup. split.
  - destruct (AppBoundLicenseR.mintTo reenter sender to app uri exp s) as [[t s']|r] eqn:Hm;
      [|by exists r].
    exfalso. apply mintTo_called_back in Hm as (_ & Hfree & _). done.
  - intros Hown. unfold AppBoundLicenseR.mintTo. tx_fwd.
Qed.
End Callbacks.

(** *** The licence view in any storage *)

Lemma checkLicense_dead user app s :
  lookup s user (keccak256 app) <> 0 ->
  owner_of s (lookup s user (keccak256 app)) = 0 ->
  checkLicense user app s = Revert (Error "ERC721: invalid token ID").
Proof.
  intros Hl Hdead. unfold checkLicense. cbv zeta. rewrite bind_gets.
  apply N.eqb_neq in Hl as Hl'. rewrite Hl'. cbn [negb]. tx_fwd.
Qed.

Lemma checkLicense_held user app s :
  lookup s user (keccak256 app) <> 0 ->
  owner_of s (lookup s user (keccak256 app)) <> 0 ->
  checkLicense user app s =
    Ok ((lookup s user (keccak256 app),
         default "" (_tokenURIs (erc721 s) !! lookup s user (keccak256 app)),
         expiry (license_of s (lookup s user (keccak256 app)))), s).
Proof.
  intros Hl Hlive. unfold checkLicense. cbv zeta. rewrite bind_gets.
  apply N.eqb_neq in Hl as Hl'. rewrite Hl'. cbn [negb]. tx_fwd.
Qed.
End Proofs.

(** *** Histories in which no recipient calls back *)

Section Quiet.
Context `{Host} `{R : Callbacks.Receivers State Txn}.

Lemma ab_Inv_accepting s : Inv (H := Callbacks.accepting _) s <-> Inv s.
Proof. split; intros [Hids Hidx Hlog]; split; done. Qed.

Lemma mintTo_quiet reenter sender to app uri exp s t s' :
  Callbacks.quiet to ->
  AppBoundLicenseR.mintTo reenter sender to app uri exp s = Ok (t, s') ->
  mintTo (H := Callbacks.accepting _) sender to app uri exp s = Ok (t, s').
Proof.
  intros Hq. unfold AppBoundLicenseR.mintTo, mintTo. cbv zeta.
  repeat (apply bind_Ok_mono; intros ? ?).
  apply bind_Ok_mono_l. intros ? ?. now apply CallbackProofs._safeMint_quiet.
Qed.

Lemma ab_dispatch_quiet depth tx s u s' :
  Callbacks.no_callbacks ->
  AppBoundLicenseR.dispatch depth tx s = Ok (u, s') ->
  dispatch (H := Callbacks.accepting _) tx s = Ok (u, s').
Proof.
  intros Hq Hm. destruct tx as [sender []], depth;
    cbn [AppBoundLicenseR.dispatch dispatch msg_sender msg_call] in *; try exact Hm.
  all: first [ revert Hm; apply bind_Ok_mono_l; intros ? ?; apply mintTo_quiet, Hq
             | apply CallbackProofs.safeTransferFrom_quiet in Hm; [|apply Hq];
               apply CallbackProofs.safeTransferFrom_as_transferFrom;
               destruct u; split; [exact Hm|reflexivity] ].
Qed.

(** A transaction either leaves the storage as it was or does what the
    call does when every recipient accepts. *)
Lemma ab_step_quiet depth tx s :
  Callbacks.no_callbacks ->
  AppBoundLicenseR.step depth s tx = s \/
  exists u, dispatch (H := Callbacks.accepting _) tx s
            = Ok (u, AppBoundLicenseR.step depth s tx).
Proof.
  intros Hq. unfold AppBoundLicenseR.step, commit.
  destruct (AppBoundLicenseR.dispatch depth tx s) as [[u s']|r] eqn:Hd; [|by left].
  right. exists u. by apply (ab_dispatch_quiet depth).
Qed.

Lemma ab_run_quiet_Inv depth txs : forall s,
  Callbacks.no_callbacks -> Inv s -> Inv (AppBoundLicenseR.run depth txs s).
Proof.
  induction txs as [|tx txs IH]; intros s Hq HI; [done|].
  cbn [AppBoundLicenseR.run fold_left]. apply IH; [done|].
  destruct (ab_step_quiet depth tx s Hq) as [->|[u Hd]]; [done|].
  apply ab_Inv_accepting. apply ab_Inv_accepting in HI.
  exact (ab_dispatch_Inv _ _ _ _ HI Hd).
Qed.

Lemma ab_run_quiet_complete depth txs : forall s,
  Callbacks.no_callbacks -> Inv s -> index_complete s ->
  AppBoundLicenseR.undisplaced depth txs s = true ->
  index_complete (AppBoundLicenseR.run depth txs s).
Proof.
  induction txs as [|tx txs IH]; intros s Hq HI Hc Hu; [done|].
  cbn [AppBoundLicenseR.undisplaced] in Hu. apply andb_true_iff in Hu as [Hnd Hu].
  apply negb_true_iff in Hnd. cbn [AppBoundLicenseR.run fold_left].
  apply IH; [done| | |done].
  - exact (ab_run_quiet_Inv depth [tx] s Hq HI).
  - destruct (ab_step_quiet depth tx s Hq) as [->|[u Hd]]; [done|].
    apply ab_Inv_accepting in HI.
    exact (ab_dispatch_complete (H := Callbacks.accepting _) _ _ _ _ HI Hc Hnd Hd).
Qed.
End Quiet.
End AppBoundProofs.

(** * The white paper's AppBoundLicense: the ledger and revocation *)

Module DesignProofs.
Import DesignLicense.

Section Proofs.
Context `{Host}.

Lemma d_hook_mint to t : beforeTokenTransfer 0 to t = ret tt.
Proof. reflexivity. Qed.

Lemma d_hook_burn from t : beforeTokenTransfer from 0 t = ret tt.
Proof. unfold beforeTokenTransfer. now destruct (from =? 0). Qed.

Ltac unf H :=
  lazymatch type of H with
  | _beforeTokenTransfer _ _ _ _ = _ =>
      cbn [_beforeTokenTransfer Design_ERC721] in H
  | beforeTokenTransfer 0 _ _ _ = _ => rewrite d_hook_mint in H
  | beforeTokenTransfer _ 0 _ _ = _ => rewrite d_hook_burn in H
  | beforeTokenTransfer _ _ _ _ = _ => unfold beforeTokenTransfer in H
  | onlyOwner _ _ = _ => unfold onlyOwner in H
  | _setDefaultRoyalty _ _ _ = _ => unfold _setDefaultRoyalty in H
  | _deleteDefaultRoyalty _ = _ => unfold _deleteDefaultRoyalty in H
  | _setTokenRoyalty _ _ _ _ = _ => unfold _setTokenRoyalty in H
  | mintTo _ _ _ _ _ _ _ _ = _ => unfold mintTo in H
  | burn _ _ _ = _ => unfold burn in H
  | revoke _ _ _ = _ => unfold revoke in H
  | checkLicense _ _ _ = _ => unfold checkLicense in H
  | setDefaultRoyalty _ _ _ _ = _ => unfold setDefaultRoyalty in H
  | deleteDefaultRoyalty _ _ = _ => unfold deleteDefaultRoyalty in H
  | adminSetTokenURI _ _ _ _ = _ => unfold adminSetTokenURI in H
  | transferOwnership _ _ _ = _ => unfold transferOwnership in H
  | renounceOwnership _ _ = _ => unfold renounceOwnership in H
  end.

Ltac tx_inv H := tx_inv_with unf H.

Ltac st_simpl :=
  unfold no_dangling in *;
  unfold lookup, owner_of, license_of in *;
  cbn [erc with_erc emit Design_ERC721
       erc721 licenses userAppToken nextTokenId _owner _defaultRoyaltyInfo
       _tokenRoyaltyInfo log
       set_erc721 set_licenses set_userAppToken set_nextTokenId set_owner_account
       set_defaultRoyaltyInfo set_tokenRoyaltyInfo push_event
       _owners _tokenApprovals _operatorApprovals _tokenURIs
       set_owner clear_owner set_approval clear_approval set_operator set_uri
       clear_uri] in *.

Ltac inv_start Hm :=
  tx_inv Hm; st_simpl; bool_clean; try congruence; (split; st_simpl).

Ltac index_after Hidx t :=
  let o := fresh "o" in
  let h := fresh "h" in
  let t' := fresh "t'" in
  let Hl := fresh "Hl" in
  let Hne := fresh "Hne" in
  intros o h t' Hl Hne;
  repeat match type of Hl with
         | slot (<[?k := _]> _) _ = _ =>
             revert Hl; by_cases k (o, h); [intros <-; slot_norm; done|]; intros Hl
         | slot (delete ?k _) _ = _ =>
             revert Hl; by_cases k (o, h); [intros <-; done|]; intros Hl
         end;
  let Ho := fresh "Ho" in
  let Ho0 := fresh "Ho0" in
  let Hh := fresh "Hh" in
  destruct (Hidx o h t' Hl Hne) as (Ho & Ho0 & Hh);
  assert (t <> t') by (intros <-; congruence);
  slot_norm; done.

Lemma d_mintTo_Inv sender to app uri exp rr bps s t s' :
  Inv s -> mintTo sender to app uri exp rr bps s = Ok (t, s') -> Inv s'.
Proof.
  intros [Hids Hidx] Hm. inv_start Hm.
  all: try (intros t'; by_cases (nextTokenId s + 1) t'; [lia|];
            intros Ht'; apply Hids in Ht'; lia).
  all: index_after Hidx (nextTokenId s + 1).
Qed.

Lemma d_transferFrom_Inv sender from to t s u s' :
  Inv s -> transferFrom sender from to t s = Ok (u, s') -> Inv s'.
Proof.
  intros [Hids Hidx] Hm. inv_start Hm.
  all: try (intros t'; by_cases t t'; [intros _; apply Hids; congruence | apply Hids]).
  all: index_after Hidx t.
Qed.

Lemma d_safeTransferFrom_Inv sender from to t s u s' :
  Inv s -> safeTransferFrom sender from to t s = Ok (u, s') -> Inv s'.
Proof.
  intros [Hids Hidx] Hm. inv_start Hm.
  all: try (intros t'; by_cases t t'; [intros _; apply Hids; congruence | apply Hids]).
  all: index_after Hidx t.
Qed.

Lemma d_burn_Inv sender t s u s' :
  Inv s -> burn sender t s = Ok (u, s') -> Inv s'.
Proof.
  intros [Hids Hidx] Hm. inv_start Hm.
  all: try (intros t'; by_cases t t'; [done | apply Hids]).
  all: index_after Hidx t.
Qed.

Lemma d_revoke_Inv sender t s u s' :
  Inv s -> revoke sender t s = Ok (u, s') -> Inv s'.
Proof.
  intros [Hids Hidx] Hm. inv_start Hm.
  all: try (intros t'; by_cases t t'; [done | apply Hids]).
  all: intros o h t' Hl Hne.
  all: repeat match type of Hl with
         | slot (delete ?k _) _ = _ =>
             revert Hl; by_cases k (o, h); [intros <-; done|]; intros Hl
         end.
  all: destruct (Hidx o h t' Hl Hne) as (Ho & Ho0 & Hh).
  all: destruct (decide (t = t')) as [<-|Hd]; [|slot_norm; done].
  all: exfalso; congruence.
Qed.

Lemma d_approve_Inv sender to t s u s' :
  Inv s -> approve sender to t s = Ok (u, s') -> Inv s'.
Proof. intros [Hids Hidx] Hm. inv_start Hm; done. Qed.

Lemma d_setApprovalForAll_Inv sender operator approved s u s' :
  Inv s -> setApprovalForAll sender operator approved s = Ok (u, s') -> Inv s'.
Proof. intros [Hids Hidx] Hm. inv_start Hm; done. Qed.

Lemma d_settings_Inv sender s u s' receiver fee t uri newOwner :
  Inv s ->
  setDefaultRoyalty sender receiver fee s = Ok (u, s') \/
  deleteDefaultRoyalty sender s = Ok (u, s') \/
  adminSetTokenURI sender t uri s = Ok (u, s') \/
  transferOwnership sender newOwner s = Ok (u, s') \/
  renounceOwnership sender s = Ok (u, s') ->
  Inv s'.
Proof.
  intros [Hids Hidx] [Hm|[Hm|[Hm|[Hm|Hm]]]]; inv_start Hm; done.
Qed.

Lemma d_dispatch_Inv tx s u s' : Inv s -> dispatch tx s = Ok (u, s') -> Inv s'.
Proof.
  intros HI Hm. destruct tx as [sender []]; cbn [dispatch msg_sender msg_call] in Hm.
  - apply bind_Ok_inv in Hm as (t & s1 & Hm & Hr). tx_inv Hr. eapply d_mintTo_Inv; eauto.
  - eapply d_burn_Inv; eauto.
  - eapply d_revoke_Inv; eauto.
  - eapply d_transferFrom_Inv; eauto.
  - eapply d_safeTransferFrom_Inv; eauto.
  - eapply d_approve_Inv; eauto.
  - eapply d_setApprovalForAll_Inv; eauto.
  - eapply (d_settings_Inv _ _ _ _ _ _ 0 "" 0); eauto.
  - eapply (d_settings_Inv _ _ _ _ 0 0 0 "" 0); eauto.
  - eapply (d_settings_Inv _ _ _ _ 0 0 _ _ 0); eauto.
  - eapply (d_settings_Inv _ _ _ _ 0 0 0 "" _); eauto 6.
  - eapply (d_settings_Inv _ _ _ _ 0 0 0 "" 0); eauto 6.
Qed.

Lemma d_step_Inv tx s : Inv s -> Inv (step s tx).
Proof.
  intros HI. unfold step, commit.
  destruct (dispatch tx s) as [[u s']|r] eqn:Hm; [|done].
  eapply d_dispatch_Inv; eauto.
Qed.

Lemma d_run_Inv txs : forall s, Inv s -> Inv (run txs s).
Proof.
  induction txs as [|tx txs IH]; intros s HI; [done|].
  cbn. apply IH, d_step_Inv, HI.
Qed.

Lemma d_constructor_Inv deployer name_ symbol_ : Inv (constructor deployer name_ symbol_).
Proof.
  split.
  - intros t Ht. exfalso. apply Ht. apply slot_empty.
  - intros o h t Hl Hne. exfalso. apply Hne. rewrite <- Hl. apply slot_empty.
Qed.

(** *** Running the calls forward *)

Ltac unf_goal _ :=
  lazymatch goal with
  | |- bind (_beforeTokenTransfer _ _ _) _ _ = _ =>
      cbn [_beforeTokenTransfer Design_ERC721]
  | |- bind (beforeTokenTransfer _ _ _) _ _ = _ => unfold beforeTokenTransfer at 1
  | |- bind (onlyOwner _) _ _ = _ => unfold onlyOwner at 1
  | |- bind (_setTokenRoyalty _ _ _) _ _ = _ => unfold _setTokenRoyalty at 1
  end.

Ltac st_norm _ := st_simpl.

Ltac kill _ :=
  bool_clean;
  repeat first
    [ rewrite slot_insert_eq in *
    | rewrite slot_delete_eq in *
    | rewrite slot_insert_ne in * by congruence
    | rewrite slot_delete_ne in * by congruence ];
  first [congruence | lia | done].

Ltac tx_fwd := rewrite <- bind_ret_r; tx_fwd_with unf_goal st_norm kill.

(** *** Revocation *)

Lemma revoke_inv sender t s u s' :
  revoke sender t s = Ok (u, s') ->
  let holder := owner_of s t in
  let h := keccak256 (AppBoundLicense.appId (license_of s t)) in
  _owner s = sender /\ holder <> 0 /\
  owner_of s' t = 0 /\
  (forall t', t' <> t -> owner_of s' t' = owner_of s t') /\
  licenses s' = delete t (licenses s) /\
  (lookup s holder h = t -> userAppToken s' = delete (holder, h) (userAppToken s)) /\
  (lookup s holder h <> t -> userAppToken s' = userAppToken s) /\
  _tokenRoyaltyInfo s' = _tokenRoyaltyInfo s /\
  nextTokenId s' = nextTokenId s /\ _owner s' = _owner s /\
  log s' = (log s ++ [Inherited (Transfer holder 0 t); LicenseRevoked t])%list.
Proof.
  intros Hm holder h. subst holder h. tx_inv Hm; st_simpl; bool_clean.
  all: repeat match goal with |- _ /\ _ => split end; try done; try congruence.
  all: try (slot_norm; done).
  all: try (intros; slot_norm; done).
  all: rewrite <- app_assoc; cbn [app]; congruence.
Qed.

Lemma revoke_succeeds sender t s :
  _owner s = sender -> owner_of s t <> 0 ->
  exists s', revoke sender t s = Ok (tt, s').
Proof.
  intros Hown Hlive. unfold revoke.
  destruct (lookup s (owner_of s t)
              (keccak256 (AppBoundLicense.appId (license_of s t))) =? t) eqn:Hcur;
    destruct (negb (String.eqb (default "" (_tokenURIs (erc721 s) !! t)) "")) eqn:Huri.
  all: eexists; tx_fwd; reflexivity.
Qed.

Lemma revoke_not_owner sender t s :
  _owner s <> sender ->
  revoke sender t s = Revert (Error "Ownable: caller is not the owner").
Proof. intros Hno. unfold revoke. tx_fwd. Qed.

Lemma revoke_missing sender t s :
  _owner s = sender -> owner_of s t = 0 ->
  revoke sender t s = Revert (Error "ERC721: invalid token ID").
Proof. intros Hown Hno. unfold revoke. tx_fwd. Qed.

(** *** The token URI *)

Lemma adminSetTokenURI_succeeds sender t uri s :
  _owner s = sender -> owner_of s t <> 0 ->
  adminSetTokenURI sender t uri s = Ok (tt, set_erc721 (set_uri t uri (erc721 s)) s).
Proof.
  intros Hown Hlive. unfold adminSetTokenURI. tx_fwd.
Qed.

Lemma adminSetTokenURI_fails sender t uri s :
  (_owner s <> sender ->
   adminSetTokenURI sender t uri s = Revert (Error "Ownable: caller is not the owner")) /\
  (_owner s = sender -> owner_of s t = 0 ->
   adminSetTokenURI sender t uri s
   = Revert (Error "ERC721URIStorage: URI set of nonexistent token")).
Proof.
  split; [intros Hno|intros Hown Hno]; unfold adminSetTokenURI; tx_fwd.
Qed.

Lemma d_checkLicense_live user app s :
  Inv s -> lookup s user (keccak256 app) <> 0 ->
  checkLicense user app s =
    Ok ((lookup s user (keccak256 app),
         default "" (_tokenURIs (erc721 s) !! lookup s user (keccak256 app)),
         AppBoundLicense.expiry (license_of s (lookup s user (keccak256 app)))), s).
Proof.
  intros HI Hl.
  destruct (inv_index _ HI _ _ _ eq_refl Hl) as (Ho & Hne & _).
  unfold checkLicense. cbv zeta. rewrite bind_gets.
  apply N.eqb_neq in Hl as Hl'. rewrite Hl'. cbn [negb].
  tx_fwd.
Qed.

(** *** Minting with a royalty *)

Lemma d_mintTo_inv sender to app uri exp rr bps s t s' :
  mintTo sender to app uri exp rr bps s = Ok (t, s') ->
  _owner s = sender /\ lookup s to (keccak256 app) = 0 /\
  t = nextTokenId s + 1 /\ nextTokenId s' = t /\
  to <> 0 /\ owner_of s' t = to /\
  lookup s' to (keccak256 app) = t /\
  licenses s' !! t = Some {| AppBoundLicense.appId := app; AppBoundLicense.expiry := exp |} /\
  (rr <> 0 -> bps <= _feeDenominator /\ _tokenRoyaltyInfo s' !! t = Some (rr, bps)) /\
  (rr = 0 -> _tokenRoyaltyInfo s' = _tokenRoyaltyInfo s).
Proof.
  intros Hm. tx_inv Hm; st_simpl; bool_clean.
  all: repeat match goal with |- _ /\ _ => split end; try done; try lia.
  all: try (slot_norm; done).
  all: try (intros; split; [lia|rewrite lookup_insert_eq; done]).
Qed.

Lemma d_burn_royalty holder t s u s' :
  burn holder t s = Ok (u, s') ->
  owner_of s t = holder /\ owner_of s' t = 0 /\
  _tokenRoyaltyInfo s' = _tokenRoyaltyInfo s.
Proof.
  intros Hm. tx_inv Hm; st_simpl; bool_clean.
  all: repeat split; slot_norm; done.
Qed.
End Proofs.

(** *** Histories in which no recipient calls back *)

Section Quiet.
Context `{Host} `{R : Callbacks.Receivers State Txn}.

Lemma d_Inv_accepting s : Inv (H := Callbacks.accepting _) s <-> Inv s.
Proof. split; intros [Hids Hidx]; split; done. Qed.

Lemma d_mintTo_quiet reenter sender to app uri exp rr bps s t s' :
  Callbacks.quiet to ->
  DesignLicenseR.mintTo reenter sender to app uri exp rr bps s = Ok (t, s') ->
  mintTo (H := Callbacks.accepting _) sender to app uri exp rr bps s = Ok (t, s').
Proof.
  intros Hq. unfold DesignLicenseR.mintTo, mintTo. cbv zeta.
  repeat (apply bind_Ok_mono; intros ? ?).
  apply bind_Ok_mono_l. intros ? ?. now apply CallbackProofs._safeMint_quiet.
Qed.

Lemma d_dispatch_quiet depth tx s u s' :
  Callbacks.no_callbacks ->
  DesignLicenseR.dispatch depth tx s = Ok (u, s') ->
  dispatch (H := Callbacks.accepting _) tx s = Ok (u, s').
Proof.
  intros Hq Hm. destruct tx as [sender []], depth;
    cbn [DesignLicenseR.dispatch dispatch msg_sender msg_call] in *; try exact Hm.
  all: first [ revert Hm; apply bind_Ok_mono_l; intros ? ?; apply d_mintTo_quiet, Hq
             | apply CallbackProofs.safeTransferFrom_quiet in Hm; [|apply Hq];
               apply CallbackProofs.safeTransferFrom_as_transferFrom;
               destruct u; split; [exact Hm|reflexivity] ].
Qed.

Lemma d_run_quiet_Inv depth txs : forall s,
  Callbacks.no_callbacks -> Inv s -> Inv (DesignLicenseR.run depth txs s).
Proof.
  induction txs as [|tx txs IH]; intros s Hq HI; [done|].
  cbn [DesignLicenseR.run fold_left]. apply IH; [done|].
  unfold DesignLicenseR.step, commit.
  destruct (DesignLicenseR.dispatch depth tx s) as [[u s']|r] eqn:Hd; [|done].
  apply d_dispatch_quiet in Hd; [|done].
  apply d_Inv_accepting. apply d_Inv_accepting in HI.
  exact (d_dispatch_Inv _ _ _ _ HI Hd).
Qed.
End Quiet.
End DesignProofs.

(** * The access issuance handler *)

Module BackendProofs.
Import Backend.

Lemma Number_small b : (Z.of_N b < 2 ^ 53)%Z -> Number b = Z.of_N b.
Proof.
  intros Hb. unfold Number. cbv zeta.
  destruct (Z.ltb_spec (Z.of_N b) (2 ^ 53)); [done|lia].
Qed.

Lemma Number_large b : (2 ^ 53 <= Z.of_N b)%Z -> (2 ^ 53 <= Number b)%Z.
Proof.
  intros Hb. unfold Number. cbv zeta.
  destruct (Z.ltb_spec (Z.of_N b) (2 ^ 53)); [lia|].
  set (n := Z.of_N b) in *.
  assert (Hlog : (53 <= Z.log2 n)%Z).
  { change 53%Z with (Z.log2 (2 ^ 53)). now apply Z.log2_le_mono. }
  destruct (Z.log2_spec n) as [Hlo Hhi]; [lia|].
  set (e := (Z.log2 n - 52)%Z) in *.
  assert (He : (1 <= e)%Z) by lia.
  assert (Hq : (2 ^ 52 <= Z.shiftr n e)%Z).
  { rewrite Z.shiftr_div_pow2 by lia.
    apply Z.div_le_lower_bound; [lia|].
    rewrite <- Z.pow_add_r by lia.
    replace (e + 52)%Z with (Z.log2 n) by lia. exact Hlo. }
  assert (Hpow : (2 ^ 53 <= 2 ^ 52 * 2 ^ e)%Z).
  { rewrite <- Z.pow_add_r by lia. apply Z.pow_le_mono_r; lia. }
  assert (Hpos : (0 < 2 ^ e)%Z) by (apply Z.pow_pos_nonneg; lia).
  repeat match goal with
         | |- context [if ?c then _ else _] => destruct c
         end; nia.
Qed.

Lemma Number_zero b : Number b = 0%Z <-> b = 0.
Proof.
  destruct (Z.lt_ge_cases (Z.of_N b) (2 ^ 53)) as [Hs|Hl].
  - rewrite Number_small by done. lia.
  - apply Number_large in Hl as Hn. split; [lia|]. intros ->. cbn in Hl. lia.
Qed.

Lemma Number_before b (now : Z) :
  (now < 2 ^ 53)%Z -> (Number b <? now)%Z = (Z.of_N b <? now)%Z.
Proof.
  intros Hnow.
  destruct (Z.lt_ge_cases (Z.of_N b) (2 ^ 53)) as [Hs|Hl].
  - now rewrite Number_small.
  - apply Number_large in Hl as Hn.
    destruct (Z.ltb_spec (Number b) now), (Z.ltb_spec (Z.of_N b) now); lia.
Qed.

Section Proofs.
Context `{Host}.

Lemma auth_AppBound s w app now_ms :
  AppBoundLicense.Inv s ->
  nonempty app = true ->
  (seconds now_ms < 2 ^ 53)%Z ->
  let t := AppBoundLicense.lookup s w (keccak256 app) in
  let e := AppBoundLicense.expiry (AppBoundLicense.license_of s t) in
  auth (AppBound_view s) now_ms (Some w) app =
    if t =? 0 then status_403 "No license for this wallet & appId"
    else if negb (e =? 0) && (Z.of_N e <? seconds now_ms)%Z
         then status_403 "License expired"
         else status_200 (token_for now_ms w app t) t.
Proof.
  intros HI Happ Hnow t e. unfold auth. rewrite Happ.
  cbn [negb call_userAppToken call_checkLicense AppBound_view].
  fold t. destruct (N.eqb_spec t 0) as [Ht|Ht]; [done|].
  destruct (AppBoundProofs.checkLicense_live w app s HI Ht) as [uri Hc].
  unfold value_of. rewrite Hc. fold t. fold e.
  destruct (N.eqb_spec e 0) as [He|He].
  - reflexivity.
  - cbn [negb]. rewrite Number_before by done.
    assert (Hz : (Number e =? 0)%Z = false).
    { apply Z.eqb_neq. rewrite Number_zero. done. }
    rewrite Hz. reflexivity.
Qed.

Lemma auth_AppBound_reads s1 s2 w app now_ms :
  nonempty app = true ->
  (seconds now_ms < 2 ^ 53)%Z ->
  let t1 := AppBoundLicense.lookup s1 w (keccak256 app) in
  let t2 := AppBoundLicense.lookup s2 w (keccak256 app) in
  let e := if t2 =? 0 then 0
           else AppBoundLicense.expiry (AppBoundLicense.license_of s2 t2) in
  auth (AppBound_reads s1 s2) now_ms (Some w) app =
    if t1 =? 0 then status_403 "No license for this wallet & appId"
    else if negb (t2 =? 0) && (AppBoundLicense.owner_of s2 t2 =? 0)
         then status_500 "server error"
         else if negb (e =? 0) && (Z.of_N e <? seconds now_ms)%Z
              then status_403 "License expired"
              else status_200 (token_for now_ms w app t1) t1.
Proof.
  intros Happ Hnow t1 t2 e. unfold auth. rewrite Happ.
  cbn [negb call_userAppToken call_checkLicense AppBound_reads].
  fold t1. destruct (N.eqb_spec t1 0) as [Ht|Ht]; [done|].
  unfold value_of. subst e.
  destruct (N.eqb_spec t2 0) as [Ht2|Ht2].
  - rewrite AppBoundProofs.checkLicense_none by done. reflexivity.
  - cbn [negb andb].
    destruct (N.eqb_spec (AppBoundLicense.owner_of s2 t2) 0) as [Hd|Hl].
    + rewrite AppBoundProofs.checkLicense_dead by done. reflexivity.
    + rewrite AppBoundProofs.checkLicense_held by done. fold t2.
      set (e := AppBoundLicense.expiry (AppBoundLicense.license_of s2 t2)).
      destruct (N.eqb_spec e 0) as [He|He].
      * reflexivity.
      * cbn [negb]. rewrite Number_before by done.
        assert (Hz : (Number e =? 0)%Z = false).
        { apply Z.eqb_neq. rewrite Number_zero. done. }
        rewrite Hz. reflexivity.
Qed.
End Proofs.
End BackendProofs.

(** * The claims *)

#[local] Existing Instance CollectibleLicenseNFT.Collectible_ERC721.
#[local] Existing Instance AppBoundLicense.AppBound_ERC721.

(** A call that reverts leaves the storage of the transaction as it was. *)
Lemma reverted_commit {St A} (m : Tx St A) (s : St) :
  reverted m s -> reverted m s /\ commit m s = s.
Proof. intros Hr. split; [done|]. destruct Hr as [r Hr]. unfold commit. now rewrite Hr. Qed.

(** C5. A token whose licence record is flagged soulbound cannot be
    transferred between two non-zero addresses: the transfer hook reverts
    with "Token is soulbound"; transferFrom and safeTransferFrom revert for
    every caller and leave the whole storage (registry and index included)
    as it was; and when the caller passes ERC721's own approval and
    ownership checks, which run before the hook, the revert they report is
    "Token is soulbound"; so it is for the holder's own attempt. *)
Theorem C5_soulbound_transfer_is_rejected `{Host}
    (s : CollectibleLicenseNFT.State) (tokenId : N) (from to : N) :
  CollectibleLicenseNFT.soulbound (CollectibleLicenseNFT.license_of s tokenId) = true ->
  from <> 0 -> to <> 0 ->
  CollectibleLicenseNFT.beforeTokenTransfer from to tokenId s
    = Revert (Error "Token is soulbound") /\
  (forall sender,
     reverted (transferFrom sender from to tokenId) s /\
     commit (transferFrom sender from to tokenId) s = s /\
     reverted (safeTransferFrom sender from to tokenId) s /\
     commit (safeTransferFrom sender from to tokenId) s = s) /\
  (forall sender,
     _isApprovedOrOwner sender tokenId s = Ok (true, s) ->
     CollectibleLicenseNFT.owner_of s tokenId = from ->
     transferFrom sender from to tokenId s = Revert (Error "Token is soulbound") /\
     safeTransferFrom sender from to tokenId s = Revert (Error "Token is soulbound")) /\
  (CollectibleLicenseNFT.owner_of s tokenId = from ->
   transferFrom from from to tokenId s = Revert (Error "Token is soulbound") /\
   safeTransferFrom from from to tokenId s = Revert (Error "Token is soulbound")).
Proof.
  intros Hsb Hfrom Hto. split; [|split; [|split]].
  - by apply CollectibleProofs.hook_soulbound.
  - intros sender.
    destruct (reverted_commit (transferFrom sender from to tokenId) s) as [? ?];
      [by apply CollectibleProofs.transferFrom_soulbound_fails|].
    destruct (reverted_commit (safeTransferFrom sender from to tokenId) s) as [? ?];
      [by apply CollectibleProofs.safeTransferFrom_soulbound_fails|].
    done.
  - intros sender Hauth Hown. split.
    + by apply CollectibleProofs.transferFrom_soulbound.
    + by apply CollectibleProofs.safeTransferFrom_soulbound.
  - intros Hown.
    pose proof (CollectibleProofs.holder_isApprovedOrOwner from tokenId s Hown Hfrom) as Hauth.
    split.
    + by apply CollectibleProofs.transferFrom_soulbound.
    + by apply CollectibleProofs.safeTransferFrom_soulbound.
Qed.

(** C6. For a token held by [holder]: if it is ephemeral and not yet
    redeemed, redeem by the holder succeeds and sets the redeemed flag, and
    a second redeem right after it reverts with "Already redeemed"; redeem
    by anyone else reverts with "Not owner"; redeem of a token that is not
    ephemeral reverts with "Not ephemeral"; the failed calls leave the flag
    as it was. *)
Theorem C6_redeem_once `{Host} (s : CollectibleLicenseNFT.State) (tokenId : N) (holder : N) :
  CollectibleLicenseNFT.owner_of s tokenId = holder -> holder <> 0 ->
  (CollectibleLicenseNFT.ephemeral (CollectibleLicenseNFT.license_of s tokenId) = true ->
   CollectibleLicenseNFT.is_redeemed s tokenId = false ->
   exists s',
     CollectibleLicenseNFT.redeem holder tokenId s = Ok (tt, s') /\
     CollectibleLicenseNFT.is_redeemed s' tokenId = true /\
     CollectibleLicenseNFT.redeem holder tokenId s' = Revert (Error "Already redeemed") /\
     CollectibleLicenseNFT.is_redeemed
       (commit (CollectibleLicenseNFT.redeem holder tokenId) s') tokenId = true) /\
  (forall caller, caller <> holder ->
     CollectibleLicenseNFT.redeem caller tokenId s = Revert (Error "Not owner") /\
     CollectibleLicenseNFT.is_redeemed
       (commit (CollectibleLicenseNFT.redeem caller tokenId) s) tokenId
       = CollectibleLicenseNFT.is_redeemed s tokenId) /\
  (CollectibleLicenseNFT.ephemeral (CollectibleLicenseNFT.license_of s tokenId) = false ->
   CollectibleLicenseNFT.redeem holder tokenId s = Revert (Error "Not ephemeral") /\
   CollectibleLicenseNFT.is_redeemed
     (commit (CollectibleLicenseNFT.redeem holder tokenId) s) tokenId
     = CollectibleLicenseNFT.is_redeemed s tokenId).
Proof.
  intros Hown Hne. split; [|split].
  - intros Heph Hfresh.
    pose proof (CollectibleProofs.redeem_ok holder tokenId s Hown Hne Heph Hfresh) as Hok.
    pose proof (CollectibleProofs.redeem_again holder tokenId s Hown Hne Heph) as Hagain.
    exists (CollectibleLicenseNFT.redeemed_state holder tokenId s).
    assert (Hflag : CollectibleLicenseNFT.is_redeemed
                      (CollectibleLicenseNFT.redeemed_state holder tokenId s) tokenId = true).
    { unfold CollectibleLicenseNFT.is_redeemed, CollectibleLicenseNFT.redeemed_state.
      cbn. now rewrite lookup_insert_eq. }
    repeat split; try done.
    unfold commit. now rewrite Hagain.
  - intros caller Hc.
    assert (Hr : CollectibleLicenseNFT.redeem caller tokenId s = Revert (Error "Not owner")).
    { apply CollectibleProofs.redeem_not_owner; congruence. }
    split; [done|]. unfold commit. now rewrite Hr.
  - intros Heph.
    pose proof (CollectibleProofs.redeem_not_ephemeral holder tokenId s Hown Hne Heph) as Hr.
    split; [done|]. unfold commit. now rewrite Hr.
Qed.

(** C8. Once nextTokenId has reached MAX_SUPPLY, mintCollectible and openMint
    revert for every caller and argument and leave the storage as it was,
    so no token is allocated; the revert is "Max supply reached" when the
    call gets as far as the capacity check (the caller holds MINTER_ROLE,
    respectively open minting is enabled).  In every state reached from a
    deployment the counter, and with it the number of tokens ever minted,
    is at most the configured maximum supply. *)
Theorem C8_capacity_is_never_exceeded `{Host} :
  (forall (s : CollectibleLicenseNFT.State),
     CollectibleLicenseNFT.MAX_SUPPLY s <= CollectibleLicenseNFT.nextTokenId s ->
     (forall sender to uri app exp sb eph rr rf,
        let call := CollectibleLicenseNFT.mintCollectible sender to uri app exp sb eph rr rf in
        reverted call s /\ commit call s = s /\
        (CollectibleLicenseNFT.hasRole s CollectibleLicenseNFT.MINTER_ROLE sender = true ->
         call s = Revert (Error "Max supply reached"))) /\
     (forall sender uri app exp sb eph proof,
        let call := CollectibleLicenseNFT.openMint sender uri app exp sb eph proof in
        reverted call s /\ commit call s = s /\
        (CollectibleLicenseNFT.openMinting s = true ->
         call s = Revert (Error "Max supply reached")))) /\
  (forall deployer maxSupply txs,
     let s := CollectibleLicenseNFT.run txs
                (CollectibleLicenseNFT.constructor deployer maxSupply) in
     CollectibleLicenseNFT.nextTokenId s <= maxSupply /\
     N.of_nat (length (minted_ids (CollectibleLicenseNFT.log s))) <= maxSupply).
Proof.
  split.
  - intros s Hfull. split.
    + intros sender to uri app exp sb eph rr rf call.
      destruct (reverted_commit call s) as [? ?];
        [by apply CollectibleProofs.mintCollectible_full_fails|].
      repeat split; try done. intros Hrole.
      by apply CollectibleProofs.mintCollectible_capacity.
    + intros sender uri app exp sb eph proof call.
      destruct (reverted_commit call s) as [? ?];
        [by apply CollectibleProofs.openMint_full_fails|].
      repeat split; try done. intros Hopen.
      by apply CollectibleProofs.openMint_capacity.
  - intros deployer maxSupply txs s.
    pose proof (CollectibleProofs.reachable_Inv deployer maxSupply txs) as HI. fold s in HI.
    pose proof (CollectibleLicenseNFT.inv_supply _ _ HI) as Hs.
    pose proof (CollectibleLicenseNFT.inv_max _ _ HI) as Hm.
    split; [lia|].
    rewrite (CollectibleLicenseNFT.inv_minted _ _ HI), CollectibleProofs.length_ids_upto. lia.
Qed.

(** C9. A batchMint call whose eight arrays do not all have one length
    reverts and leaves the storage as it was, whoever calls it: nothing is
    minted.  For a caller holding MINTER_ROLE the revert is "Array length
    mismatch", raised before the loop is entered. *)
Theorem C9_batchMint_checks_the_lengths_first `{Host}
    (s : CollectibleLicenseNFT.State) (sender : N)
    (recipients : list N) (uris appIds : list string) (expiries : list N)
    (soulbounds ephemerals : list bool) (royaltyReceivers royaltyFractions : list N) :
  ~ CollectibleLicenseNFT.same_lengths recipients uris appIds expiries
      soulbounds ephemerals royaltyReceivers royaltyFractions ->
  let call := CollectibleLicenseNFT.batchMint sender recipients uris appIds expiries
                soulbounds ephemerals royaltyReceivers royaltyFractions in
  reverted call s /\ commit call s = s /\
  (CollectibleLicenseNFT.hasRole s CollectibleLicenseNFT.MINTER_ROLE sender = true ->
   call s = Revert (Error "Array length mismatch")).
Proof.
  intros Hlen call.
  destruct (reverted_commit call s) as [? ?];
    [by apply CollectibleProofs.batchMint_mismatch_fails|].
  repeat split; try done. intros Hrole.
  by apply CollectibleProofs.batchMint_mismatch.
Qed.

(** ** Token ids *)




(** ** The index *)

(** C1, as amended.  As long as no recipient calls back into the contract
    from onERC721Received, in every state reached from a deployment, of
    either contract: every non-zero entry of userAppToken names a token that
    exists, is held by the account of the entry and carries the application
    whose digest keys the entry (no dangling entry); no token is named by
    two entries (no duplicate entry); and, as long as no transfer has moved
    a token to an account whose slot for the token's application held
    another token, every live token is the entry of its holder and
    application (in CollectibleLicenseNFT: every live token with an
    application id).  The examples [forwarding_recipient_breaks_the_index]
    and [forwarding_recipient_of_a_soulbound_token] show what a recipient
    that calls back can do to the first two. *)
Theorem C1_index_entries_are_sound `{Host} :
  (forall (R : Callbacks.Receivers CollectibleLicenseNFT.State CollectibleLicenseNFT.Txn)
          depth deployer maxSupply txs,
     Callbacks.no_callbacks ->
     let init := CollectibleLicenseNFT.constructor deployer maxSupply in
     let s := CollectibleLicenseNFTR.run depth txs init in
     CollectibleLicenseNFT.no_dangling s /\ CollectibleLicenseNFT.no_duplicate s /\
     (CollectibleLicenseNFTR.undisplaced depth txs init = true ->
      CollectibleLicenseNFT.index_complete s)) /\
  (forall (R : Callbacks.Receivers AppBoundLicense.State AppBoundLicense.Txn)
          depth deployer txs,
     Callbacks.no_callbacks ->
     let init := AppBoundLicense.constructor deployer in
     let s := AppBoundLicenseR.run depth txs init in
     AppBoundLicense.no_dangling s /\ AppBoundLicense.no_duplicate s /\
     (AppBoundLicenseR.undisplaced depth txs init = true ->
      AppBoundLicense.index_complete s)).
Proof.
  split.
  - intros R depth deployer maxSupply txs Hquiet init s. subst s init.
    pose proof (CollectibleProofs.run_quiet_Inv maxSupply depth txs _ Hquiet
                  (CollectibleProofs.constructor_Inv deployer maxSupply)) as HI.
    split; [apply (CollectibleLicenseNFT.inv_index _ _ HI)|].
    split; [eapply CollectibleProofs.Inv_no_duplicate, HI|].
    intros Hu. eapply CollectibleProofs.run_quiet_complete; eauto.
    + apply CollectibleProofs.constructor_Inv.
    + apply CollectibleProofs.constructor_records.
    + apply CollectibleProofs.constructor_complete.
  - intros R depth deployer txs Hquiet init s. subst s init.
    pose proof (AppBoundProofs.ab_run_quiet_Inv depth txs _ Hquiet
                  (AppBoundProofs.ab_constructor_Inv deployer)) as HI.
    split; [apply (AppBoundLicense.inv_index _ HI)|].
    split; [eapply AppBoundProofs.ab_Inv_no_duplicate, HI|].
    intros Hu. eapply AppBoundProofs.ab_run_quiet_complete; eauto.
    + apply AppBoundProofs.ab_constructor_Inv.
    + apply AppBoundProofs.ab_constructor_complete.
Qed.

(** C3, as amended.  A mint naming an owner whose index slot for the
    application is occupied is rejected and leaves the whole storage as it
    was.  mintTo checks the slot before it calls the recipient: it reverts
    for every caller and whatever the recipient would do, with
    "ALREADY_OWN_THIS_APP" when the caller is the contract owner.
    mintCollectible with a non-empty application id checks the slot after
    it has called the recipient: it reverts for every caller when the
    recipient does not call back, with "User already owns this app" when
    the call gets as far as the licence block (the caller holds
    MINTER_ROLE, capacity is left, the recipient is not the zero address and
    answers that it accepts the token, the next id is unminted).  A
    recipient that empties its slot while it is called gets the second
    licence, as the example [emptying_recipient_gets_a_second_licence]
    shows. *)
Theorem C3_mint_into_an_occupied_slot_is_rejected `{Host} :
  (forall (R : Callbacks.Receivers AppBoundLicense.State AppBoundLicense.Txn) reenter
          (s : AppBoundLicense.State) sender to app uri exp,
     AppBoundLicense.lookup s to (keccak256 app) <> 0 ->
     let call := AppBoundLicenseR.mintTo reenter sender to app uri exp in
     reverted call s /\ commit call s = s /\
     (AppBoundLicense._owner s = sender ->
      call s = Revert (Error "ALREADY_OWN_THIS_APP"))) /\
  (forall (R : Callbacks.Receivers CollectibleLicenseNFT.State CollectibleLicenseNFT.Txn)
          reenter (s : CollectibleLicenseNFT.State) sender to uri app exp sb eph rr rf,
     Callbacks.quiet to ->
     nonempty app = true ->
     CollectibleLicenseNFT.lookup s to (keccak256 app) <> 0 ->
     let call := CollectibleLicenseNFTR.mintCollectible reenter sender to uri app exp
                   sb eph rr rf in
     reverted call s /\ commit call s = s /\
     (Callbacks.answers_only to ->
      CollectibleLicenseNFT.hasRole s CollectibleLicenseNFT.MINTER_ROLE sender = true ->
      CollectibleLicenseNFT.nextTokenId s < CollectibleLicenseNFT.MAX_SUPPLY s ->
      CollectibleLicenseNFT.MAX_SUPPLY s < uint256_limit ->
      to <> 0 ->
      CollectibleLicenseNFT.owner_of s (CollectibleLicenseNFT.nextTokenId s + 1) = 0 ->
      onERC721Received to sender 0 (CollectibleLicenseNFT.nextTokenId s + 1) = true ->
      call s = Revert (Error "User already owns this app"))).
Proof.
  split.
  - intros R reenter s sender to app uri exp Hocc call.
    destruct (AppBoundProofs.mintTo_occupied_called_back reenter sender to app uri exp s Hocc)
      as [Hrev Hmsg].
    destruct (reverted_commit call s) as [? ?]; [exact Hrev|].
    repeat split; done.
  - intros R reenter s sender to uri app exp sb eph rr rf Hq Happ Hocc call.
    destruct (reverted_commit call s) as [? ?];
      [by apply CollectibleProofs.mintCollectible_occupied_quiet|].
    repeat split; try done.
    intros Hans Hrole Hcap Hmax Hto Hfresh Hacc. subst call.
    rewrite CollectibleProofs.mintCollectible_answers by done.
    by apply CollectibleProofs.mintCollectible_duplicate.
Qed.

(** C4, as amended.  A transfer is never rejected because the destination
    slot is occupied: transferFrom returns whenever ERC721's approval and
    ownership checks pass, the recipient is not the zero address and (in
    CollectibleLicenseNFT) the token is not soulbound.  After a transferFrom
    that returned, of a token with application digest h (in
    CollectibleLicenseNFT: with a non-empty application id), the slot
    (to, h) holds the token whatever it held before; for from <> to the
    slot (from, h) is zero if it held the token and is left as it was if it
    held anything else; every other slot is unchanged.  A safeTransferFrom
    makes the same transfer and then calls the recipient: when the
    recipient does not call back, a safeTransferFrom that returned leaves
    the storage of the transferFrom, and it returns exactly when the
    transferFrom does and the recipient answers that it accepts; with any
    recipient, a safeTransferFrom that returned has made the transfer
    before the recipient ran, and the storage afterwards is what the
    recipient left.
    The example [forwarding_recipient_of_a_safe_transfer] shows a
    destination slot that is empty after the call. *)
Theorem C4_transfer_rewrites_the_index `{Host} :
  (forall (s : CollectibleLicenseNFT.State) sender from to tokenId,
     _isApprovedOrOwner sender tokenId s = Ok (true, s) ->
     CollectibleLicenseNFT.owner_of s tokenId = from -> to <> 0 ->
     CollectibleLicenseNFT.soulbound (CollectibleLicenseNFT.license_of s tokenId) = false ->
     exists s', transferFrom sender from to tokenId s = Ok (tt, s')) /\
  (forall (s : CollectibleLicenseNFT.State) sender from to tokenId u s',
     transferFrom sender from to tokenId s = Ok (u, s') ->
     nonempty (CollectibleLicenseNFT.appId (CollectibleLicenseNFT.license_of s tokenId)) = true ->
     let h := keccak256 (CollectibleLicenseNFT.appId
                           (CollectibleLicenseNFT.license_of s tokenId)) in
     CollectibleLicenseNFT.lookup s' to h = tokenId /\
     (from <> to -> CollectibleLicenseNFT.lookup s from h = tokenId ->
      CollectibleLicenseNFT.lookup s' from h = 0) /\
     (from <> to -> CollectibleLicenseNFT.lookup s from h <> tokenId ->
      CollectibleLicenseNFT.lookup s' from h = CollectibleLicenseNFT.lookup s from h) /\
     (forall o h', (o, h') <> (to, h) -> (o, h') <> (from, h) ->
        CollectibleLicenseNFT.lookup s' o h' = CollectibleLicenseNFT.lookup s o h')) /\
  (forall (s : AppBoundLicense.State) sender from to tokenId,
     _isApprovedOrOwner sender tokenId s = Ok (true, s) ->
     AppBoundLicense.owner_of s tokenId = from -> to <> 0 ->
     exists s', transferFrom sender from to tokenId s = Ok (tt, s')) /\
  (forall (s : AppBoundLicense.State) sender from to tokenId u s',
     transferFrom sender from to tokenId s = Ok (u, s') ->
     let h := keccak256 (AppBoundLicense.appId (AppBoundLicense.license_of s tokenId)) in
     AppBoundLicense.lookup s' to h = tokenId /\
     (from <> to -> AppBoundLicense.lookup s from h = tokenId ->
      AppBoundLicense.lookup s' from h = 0) /\
     (from <> to -> AppBoundLicense.lookup s from h <> tokenId ->
      AppBoundLicense.lookup s' from h = AppBoundLicense.lookup s from h) /\
     (forall o h', (o, h') <> (to, h) -> (o, h') <> (from, h) ->
        AppBoundLicense.lookup s' o h' = AppBoundLicense.lookup s o h')) /\
  (forall (R : Callbacks.Receivers CollectibleLicenseNFT.State CollectibleLicenseNFT.Txn)
          reenter (s : CollectibleLicenseNFT.State) sender from to tokenId u s',
     (Callbacks.quiet to ->
      Callbacks.safeTransferFrom reenter sender from to tokenId s = Ok (u, s') ->
      transferFrom sender from to tokenId s = Ok (tt, s')) /\
     (Callbacks.answers_only to ->
      Callbacks.safeTransferFrom reenter sender from to tokenId s = Ok (u, s') <->
      transferFrom sender from to tokenId s = Ok (tt, s') /\
      onERC721Received to sender from tokenId = true) /\
     (Callbacks.safeTransferFrom reenter sender from to tokenId s = Ok (u, s') ->
      exists s1,
        transferFrom sender from to tokenId s = Ok (tt, s1) /\
        Callbacks.run_script reenter (Callbacks.receiver to sender from tokenId) s1
        = Ok (true, s'))) /\
  (forall (R : Callbacks.Receivers AppBoundLicense.State AppBoundLicense.Txn)
          reenter (s : AppBoundLicense.State) sender from to tokenId u s',
     (Callbacks.quiet to ->
      Callbacks.safeTransferFrom reenter sender from to tokenId s = Ok (u, s') ->
      transferFrom sender from to tokenId s = Ok (tt, s')) /\
     (Callbacks.answers_only to ->
      Callbacks.safeTransferFrom reenter sender from to tokenId s = Ok (u, s') <->
      transferFrom sender from to tokenId s = Ok (tt, s') /\
      onERC721Received to sender from tokenId = true) /\
     (Callbacks.safeTransferFrom reenter sender from to tokenId s = Ok (u, s') ->
      exists s1,
        transferFrom sender from to tokenId s = Ok (tt, s1) /\
        Callbacks.run_script reenter (Callbacks.receiver to sender from tokenId) s1
        = Ok (true, s'))).
Proof.
  split; [|split; [|split; [|split; [|split]]]].
  - intros s sender from to tokenId Hauth Hown Hto Hsb.
    by apply CollectibleProofs.transferFrom_succeeds.
  - intros s sender from to tokenId u s' Hm Happ h.
    destruct (CollectibleProofs.transferFrom_index _ _ _ _ _ _ _ Hm Happ)
      as (_ & _ & Hto & Hclr & Hkeep & Hrest).
    done.
  - intros s sender from to tokenId Hauth Hown Hto.
    by apply AppBoundProofs.ab_transferFrom_succeeds.
  - intros s sender from to tokenId u s' Hm h.
    destruct (AppBoundProofs.ab_transferFrom_index _ _ _ _ _ _ _ Hm)
      as (_ & _ & Hto & Hclr & Hkeep & Hrest).
    done.
  - intros R reenter s sender from to tokenId u s'. split; [|split].
    + intros Hq. by apply CallbackProofs.safeTransferFrom_quiet.
    + intros Hans. by apply CallbackProofs.safeTransferFrom_answers_iff.
    + apply CallbackProofs.safeTransferFrom_called_back.
  - intros R reenter s sender from to tokenId u s'. split; [|split].
    + intros Hq. by apply CallbackProofs.safeTransferFrom_quiet.
    + intros Hans. by apply CallbackProofs.safeTransferFrom_answers_iff.
    + apply CallbackProofs.safeTransferFrom_called_back.
Qed.

(** ** Access issuance *)

Lemma seconds_in_range now_ms :
  (now_ms <= Backend.max_time_value)%Z -> (Backend.seconds now_ms < 2 ^ 53)%Z.
Proof.
  unfold Backend.seconds, Backend.max_time_value. intros Hn.
  apply Z.div_lt_upper_bound; lia.
Qed.

(** C2, as amended.  For a clock within the range of a JavaScript Date and
    an AppBoundLicense whose storage is [s1] when the handler reads
    userAppToken and [s2] when it reads checkLicense: the handler answers
    400 "wallet and appId required" when the wallet is missing or the
    application id is empty, before any read; otherwise 403 "No license
    for this wallet & appId" when the index lookup is zero; otherwise it
    calls checkLicense, which looks the slot up again, and answers 500
    "server error" when that slot names a token that no longer exists, 403
    "License expired" when the expiry checkLicense returns is non-zero and
    below the current second, and otherwise 200 with a token and a tokenId
    that are the result of the first lookup.  When both reads see one
    storage, reached from a deployment without any recipient calling back,
    the second lookup is the first, the token exists and the wallet holds
    it: the 500 does not arise and the expiry is that of the token looked
    up.  The example [forwarding_recipient_breaks_the_index] reaches a
    storage where the handler answers 500. *)
Theorem C2_issueAccess_follows_the_index `{Host}
    (s1 s2 : AppBoundLicense.State) (wallet : N) (appId : string) (now_ms : Z) :
  (now_ms <= Backend.max_time_value)%Z ->
  let contract := Backend.AppBound_reads s1 s2 in
  let tokenId := AppBoundLicense.lookup s1 wallet (keccak256 appId) in
  let again := AppBoundLicense.lookup s2 wallet (keccak256 appId) in
  let expiry := if again =? 0 then 0
                else AppBoundLicense.expiry (AppBoundLicense.license_of s2 again) in
  let response := Backend.auth contract now_ms (Some wallet) appId in
  Backend.auth contract now_ms None appId
  = Backend.status_400 "wallet and appId required" /\
  (nonempty appId = false -> response = Backend.status_400 "wallet and appId required") /\
  (nonempty appId = true ->
   (tokenId = 0 -> response = Backend.status_403 "No license for this wallet & appId") /\
   (tokenId <> 0 -> again <> 0 -> AppBoundLicense.owner_of s2 again = 0 ->
    response = Backend.status_500 "server error") /\
   (tokenId <> 0 -> again = 0 \/ AppBoundLicense.owner_of s2 again <> 0 ->
    expiry <> 0 -> (Z.of_N expiry < Backend.seconds now_ms)%Z ->
    response = Backend.status_403 "License expired") /\
   (tokenId <> 0 -> again = 0 \/ AppBoundLicense.owner_of s2 again <> 0 ->
    expiry = 0 \/ (Backend.seconds now_ms <= Z.of_N expiry)%Z ->
    exists token,
      response = Backend.status_200 token tokenId /\
      Backend.jwt_tokenId token = tokenId)) /\
  (forall (R : Callbacks.Receivers AppBoundLicense.State AppBoundLicense.Txn)
          depth deployer txs,
     Callbacks.no_callbacks ->
     s1 = AppBoundLicenseR.run depth txs (AppBoundLicense.constructor deployer) ->
     s2 = s1 ->
     again = tokenId /\
     (tokenId <> 0 ->
      AppBoundLicense.owner_of s2 tokenId = wallet /\ wallet <> 0 /\
      expiry = AppBoundLicense.expiry (AppBoundLicense.license_of s1 tokenId))).
Proof.
  intros Hnow contract tokenId again expiry response.
  split; [reflexivity|]. split; [|split].
  - intros Happ. subst response. unfold Backend.auth. now rewrite Happ.
  - intros Happ.
    pose proof (BackendProofs.auth_AppBound_reads s1 s2 wallet appId now_ms Happ
                  (seconds_in_range _ Hnow)) as Hauth.
    cbv zeta in Hauth. fold tokenId in Hauth. fold again in Hauth. fold expiry in Hauth.
    fold contract in Hauth. fold response in Hauth.
    split; [|split; [|split]].
    + intros Ht. rewrite Hauth. apply N.eqb_eq in Ht. now rewrite Ht.
    + intros Ht Ha Hdead. rewrite Hauth.
      apply N.eqb_neq in Ht, Ha. apply N.eqb_eq in Hdead.
      now rewrite Ht, Ha, Hdead.
    + intros Ht Hlive He Hpast. rewrite Hauth.
      apply N.eqb_neq in Ht, He. apply Z.ltb_lt in Hpast.
      rewrite Ht, He, Hpast.
      destruct Hlive as [Ha|Ho]; [apply N.eqb_eq in Ha|apply N.eqb_neq in Ho].
      * now rewrite Ha.
      * rewrite Ho. now rewrite andb_false_r.
    + intros Ht Hlive Hfresh. rewrite Hauth. apply N.eqb_neq in Ht. rewrite Ht.
      exists (Backend.token_for now_ms wallet appId tokenId).
      assert (Hc : negb (expiry =? 0) && (Z.of_N expiry <? Backend.seconds now_ms)%Z = false).
      { destruct Hfresh as [->|Hle]; [done|].
        apply andb_false_iff. right. apply Z.ltb_ge. exact Hle. }
      rewrite Hc.
      destruct Hlive as [Ha|Ho]; [apply N.eqb_eq in Ha|apply N.eqb_neq in Ho].
      * now rewrite Ha.
      * rewrite Ho. now rewrite andb_false_r.
  - intros R depth deployer txs Hquiet Hs1 Hs2.
    assert (Ha : again = tokenId) by (subst again tokenId; now rewrite Hs2).
    split; [exact Ha|]. intros Ht.
    pose proof (AppBoundProofs.ab_run_quiet_Inv depth txs _ Hquiet
                  (AppBoundProofs.ab_constructor_Inv deployer)) as HI.
    rewrite <- Hs1 in HI.
    destruct (AppBoundLicense.inv_index _ HI wallet (keccak256 appId) tokenId eq_refl Ht)
      as (Ho & Hw & _).
    subst expiry. rewrite Ha. apply N.eqb_neq in Ht as Ht'. rewrite Ht'.
    rewrite Hs2. done.
Qed.

(** ** Mints without an application id *)

Lemma run_app `{Host} txs1 txs2 (s : CollectibleLicenseNFT.State) :
  CollectibleLicenseNFT.run (txs1 ++ txs2) s
  = CollectibleLicenseNFT.run txs2 (CollectibleLicenseNFT.run txs1 s).
Proof. apply fold_left_app. Qed.

Lemma constructor_minter `{Host} deployer maxSupply :
  CollectibleLicenseNFT.hasRole (CollectibleLicenseNFT.constructor deployer maxSupply)
    CollectibleLicenseNFT.MINTER_ROLE deployer = true.
Proof.
  unfold CollectibleLicenseNFT.hasRole. apply bool_decide_eq_true. cbn. set_solver.
Qed.

Lemma blank_mints `{Host} deployer maxSupply to n :
  maxSupply < uint256_limit -> N.of_nat n <= maxSupply -> to <> 0 ->
  (forall tokenId, onERC721Received to deployer 0 tokenId = true) ->
  let s := CollectibleLicenseNFT.run
             (replicate n (CollectibleLicenseNFT.blank_mint deployer to))
             (CollectibleLicenseNFT.constructor deployer maxSupply) in
  CollectibleLicenseNFT.nextTokenId s = N.of_nat n /\
  CollectibleLicenseNFT._roles s
    = CollectibleLicenseNFT._roles (CollectibleLicenseNFT.constructor deployer maxSupply) /\
  CollectibleLicenseNFT.licenses s = ∅ /\
  CollectibleLicenseNFT.userAppToken s = ∅ /\
  license_events (CollectibleLicenseNFT.log s) = [] /\
  (forall tokenId, 1 <= tokenId <= N.of_nat n -> CollectibleLicenseNFT.owner_of s tokenId = to).
Proof.
  intros Hmax Hn Hto Hacc. induction n as [|n IH].
  - cbn. repeat split; try done. intros t Ht. lia.
  - cbv zeta in *. rewrite replicate_S_end, run_app.
    set (s := CollectibleLicenseNFT.run
                (replicate n (CollectibleLicenseNFT.blank_mint deployer to))
                (CollectibleLicenseNFT.constructor deployer maxSupply)) in *.
    destruct IH as (Hnext & Hroles & Hlic & Hidx & Hev & Hown); [lia|].
    pose proof (CollectibleProofs.reachable_Inv deployer maxSupply
                  (replicate n (CollectibleLicenseNFT.blank_mint deployer to))) as HI.
    fold s in HI.
    pose proof (CollectibleLicenseNFT.inv_max _ _ HI) as HM.
    destruct (CollectibleProofs.mintCollectible_blank deployer to "" 0 false false 0 0 s)
      as (s' & Hm & Hlic' & Hidx' & Hev' & Hnew & Hnext' & _ & Hroles' & Hold).
    + unfold CollectibleLicenseNFT.hasRole. rewrite Hroles. apply constructor_minter.
    + lia.
    + lia.
    + done.
    + eapply CollectibleProofs.Inv_fresh, HI.
    + apply Hacc.
    + by left.
    + assert (Hstep : CollectibleLicenseNFT.run [CollectibleLicenseNFT.blank_mint deployer to] s
                      = s').
      { cbn. unfold CollectibleLicenseNFT.step, commit. cbn.
        unfold CollectibleLicenseNFT.forget, bind. now rewrite Hm. }
      rewrite Hstep. repeat split; try congruence.
      * lia.
      * intros t Ht. destruct (decide (t = CollectibleLicenseNFT.nextTokenId s + 1)) as [->|Hne].
        -- done.
        -- rewrite Hold by done. apply Hown. lia.
Qed.

(** C10. A mintCollectible or openMint call with an empty application id
    that passes the checks every mint passes (role or open minting and
    allowlist, capacity, a recipient that is not the zero address and
    accepts the token, a royalty fraction within bounds) returns whatever
    the index holds: it returns nextTokenId + 1, gives that token to the
    recipient, and leaves licenses and userAppToken as they were and the
    log without a new LicenseMinted event.  Hence one owner can be minted n
    such tokens for every n within the maximum supply; after that every
    index lookup is still zero and the handler answers "No license for this
    wallet & appId" for every wallet and application id. *)
Theorem C10_mints_without_an_application_id `{Host} :
  (forall (s : CollectibleLicenseNFT.State) sender to uri exp sb eph rr rf,
     CollectibleLicenseNFT.hasRole s CollectibleLicenseNFT.MINTER_ROLE sender = true ->
     CollectibleLicenseNFT.nextTokenId s < CollectibleLicenseNFT.MAX_SUPPLY s ->
     CollectibleLicenseNFT.MAX_SUPPLY s < uint256_limit ->
     to <> 0 ->
     CollectibleLicenseNFT.owner_of s (CollectibleLicenseNFT.nextTokenId s + 1) = 0 ->
     onERC721Received to sender 0 (CollectibleLicenseNFT.nextTokenId s + 1) = true ->
     rr = 0 \/ rf <= _feeDenominator ->
     exists s',
       CollectibleLicenseNFT.mintCollectible sender to uri "" exp sb eph rr rf s
         = Ok (CollectibleLicenseNFT.nextTokenId s + 1, s') /\
       CollectibleLicenseNFT.licenses s' = CollectibleLicenseNFT.licenses s /\
       CollectibleLicenseNFT.userAppToken s' = CollectibleLicenseNFT.userAppToken s /\
       license_events (CollectibleLicenseNFT.log s')
         = license_events (CollectibleLicenseNFT.log s) /\
       CollectibleLicenseNFT.owner_of s' (CollectibleLicenseNFT.nextTokenId s + 1) = to) /\
  (forall (s : CollectibleLicenseNFT.State) sender uri exp sb eph proof,
     CollectibleLicenseNFT.openMinting s = true ->
     CollectibleLicenseNFT.nextTokenId s < CollectibleLicenseNFT.MAX_SUPPLY s ->
     CollectibleLicenseNFT.MAX_SUPPLY s < uint256_limit ->
     CollectibleLicenseNFT.merkleRoot s = 0 \/
       verify proof (CollectibleLicenseNFT.merkleRoot s) (keccak256_address sender) = true ->
     sender <> 0 ->
     CollectibleLicenseNFT.owner_of s (CollectibleLicenseNFT.nextTokenId s + 1) = 0 ->
     onERC721Received sender sender 0 (CollectibleLicenseNFT.nextTokenId s + 1) = true ->
     exists s',
       CollectibleLicenseNFT.openMint sender uri "" exp sb eph proof s
         = Ok (CollectibleLicenseNFT.nextTokenId s + 1, s') /\
       CollectibleLicenseNFT.licenses s' = CollectibleLicenseNFT.licenses s /\
       CollectibleLicenseNFT.userAppToken s' = CollectibleLicenseNFT.userAppToken s /\
       license_events (CollectibleLicenseNFT.log s')
         = license_events (CollectibleLicenseNFT.log s) /\
       CollectibleLicenseNFT.owner_of s' (CollectibleLicenseNFT.nextTokenId s + 1) = sender) /\
  (forall deployer maxSupply to (n : nat),
     maxSupply < uint256_limit -> N.of_nat n <= maxSupply -> to <> 0 ->
     (forall tokenId, onERC721Received to deployer 0 tokenId = true) ->
     let s := CollectibleLicenseNFT.run
                (replicate n (CollectibleLicenseNFT.blank_mint deployer to))
                (CollectibleLicenseNFT.constructor deployer maxSupply) in
     (forall tokenId, 1 <= tokenId <= N.of_nat n ->
        CollectibleLicenseNFT.owner_of s tokenId = to) /\
     (forall user aHash, CollectibleLicenseNFT.lookup s user aHash = 0) /\
     (forall now_ms wallet appId, nonempty appId = true ->
        Backend.auth (Backend.Collectible_view s) now_ms (Some wallet) appId
          = Backend.status_403 "No license for this wallet & appId")).
Proof.
  split; [|split].
  - intros s sender to uri exp sb eph rr rf Hrole Hcap Hmax Hto Hfresh Hacc Hroy.
    destruct (CollectibleProofs.mintCollectible_blank sender to uri exp sb eph rr rf s)
      as (s' & Hm & Hlic & Hidx & Hev & Hnew & _); try done.
    by exists s'.
  - intros s sender uri exp sb eph proof Hopen Hcap Hmax Hroot Hto Hfresh Hacc.
    destruct (CollectibleProofs.openMint_blank sender uri exp sb eph proof s)
      as (s' & Hm & Hlic & Hidx & Hev & Hnew & _); try done.
    by exists s'.
  - intros deployer maxSupply to n Hmax Hn Hto Hacc s.
    destruct (blank_mints deployer maxSupply to n Hmax Hn Hto Hacc)
      as (_ & _ & _ & Hidx & _ & Hown).
    fold s in Hidx, Hown.
    assert (Hzero : forall user aHash, CollectibleLicenseNFT.lookup s user aHash = 0).
    { intros user aHash. unfold CollectibleLicenseNFT.lookup. rewrite Hidx. apply slot_empty. }
    repeat split; try done.
    intros now_ms wallet appId Happ. unfold Backend.auth. rewrite Happ.
    cbn [negb Backend.call_userAppToken Backend.Collectible_view].
    now rewrite Hzero.
Qed.

(** * Further properties of the code *)

(** ** CollectibleLicenseNFT *)

Section FurtherCollectible.
Import CollectibleLicenseNFT CollectibleProofs CollectibleFrames.
Context `{Host}.

(** X1.  The holder of a token can always burn it, soulbound or not.  The
    burn leaves the token without owner, clears its royalty and, when the
    token carries a licence, deletes the licence record and the index slot of
    the holder for its application, whatever that slot held; the other
    tokens, the counter and the redeemed marks stay as they were. *)
Theorem X1_collectible_burn_releases_the_token (s : State) (holder tokenId : N) :
  owner_of s tokenId = holder -> holder <> 0 ->
  exists s',
    burn holder tokenId s = Ok (tt, s') /\
    owner_of s' tokenId = 0 /\
    (forall t', t' <> tokenId -> owner_of s' t' = owner_of s t') /\
    nextTokenId s' = nextTokenId s /\
    redeemed s' = redeemed s /\
    _tokenRoyaltyInfo s' !! tokenId = None /\
    (nonempty (appId (license_of s tokenId)) = true ->
     licenses s' = delete tokenId (licenses s) /\
     userAppToken s'
     = delete (holder, keccak256 (appId (license_of s tokenId))) (userAppToken s)) /\
    (nonempty (appId (license_of s tokenId)) = false ->
     licenses s' = licenses s /\ userAppToken s' = userAppToken s).
Proof.
  intros Hown Hne. destruct (burn_succeeds holder tokenId s Hown Hne) as [s' Hb].
  exists s'. split; [exact Hb|].
  destruct (burn_inv _ _ _ _ _ Hb) as (_ & _ & Hgone & Hoth & Hn & Hr & Hroy & _ & Hl & Hnl).
  repeat split; try done; try (apply Hl; done); apply Hnl; done.
Qed.

(** X2.  burn is for the holder alone: on a token that does not exist it
    reverts with ERC721's "invalid token ID", for any other caller with
    "Not owner", and a burn that returned was called by the holder. *)
Theorem X2_collectible_burn_is_for_the_holder (s : State) (sender tokenId : N) :
  (owner_of s tokenId = 0 ->
   burn sender tokenId s = Revert (Error "ERC721: invalid token ID")) /\
  (owner_of s tokenId <> 0 -> sender <> owner_of s tokenId ->
   burn sender tokenId s = Revert (Error "Not owner")) /\
  (forall u s', burn sender tokenId s = Ok (u, s') ->
                owner_of s tokenId = sender /\ sender <> 0).
Proof.
  split; [apply burn_missing|]. split; [apply burn_not_owner|].
  intros u s' Hb. destruct (burn_inv _ _ _ _ _ Hb) as (Ho & Hne & _). done.
Qed.

(** X3.  A redeemed mark is permanent: no sequence of transactions,
    transfers and the burn of the token included, clears it. *)
Theorem X3_redeemed_is_permanent (txs : list Txn) (s : State) (tokenId : N) :
  is_redeemed s tokenId = true -> is_redeemed (run txs s) tokenId = true.
Proof.
  revert s. induction txs as [|tx txs IH]; intros s Hr; [exact Hr|].
  rewrite run_cons. apply IH.
  destruct (step_cases tx s) as [E|[u Hd]]; [rewrite E; exact Hr|].
  exact (dispatch_redeemed _ _ _ _ _ Hd Hr).
Qed.

(** X4.  Token ids are not reused: an id at or below the counter that has
    no owner (it was burned) has no owner after any further transactions,
    and the counter never goes back. *)
Theorem X4_a_burned_id_is_never_reissued (txs : list Txn) (s : State) (tokenId : N) :
  owner_of s tokenId = 0 -> tokenId <= nextTokenId s ->
  owner_of (run txs s) tokenId = 0 /\ nextTokenId s <= nextTokenId (run txs s).
Proof.
  intros Hd Hold. split; [now apply run_dead|apply run_counter].
Qed.

(** X5.  The terms of a licence are fixed at the mint: in a ledger reached
    from deployment, a token that is still held after any further
    transactions has the licence record it had (application, expiry,
    soulbound, ephemeral), and a soulbound one is still with the same
    holder. *)
Theorem X5_licence_terms_are_fixed (maxSupply : N) (txs : list Txn) (s : State)
    (tokenId : N) :
  Inv maxSupply s -> owner_of s tokenId <> 0 ->
  owner_of (run txs s) tokenId = 0 \/
  (license_of (run txs s) tokenId = license_of s tokenId /\
   (soulbound (license_of s tokenId) = true ->
    owner_of (run txs s) tokenId = owner_of s tokenId)).
Proof.
  intros HI Hl. destruct (decide (owner_of (run txs s) tokenId = 0)) as [|Hl']; [by left|].
  right. destruct (run_live maxSupply txs s tokenId HI Hl Hl') as [E1 E2].
  split; [|exact E2]. unfold license_of. now rewrite E1.
Qed.

(** X6.  After deployment nothing is minted until the deployer acts: as
    long as the deployer sends no transaction, the counter is 0, no token
    has an owner, open minting is off and nobody else holds a role. *)
Theorem X6_nothing_is_minted_without_the_deployer (deployer maxSupply : N)
    (txs : list Txn) :
  Forall (fun tx => msg_sender tx <> deployer) txs ->
  let s := run txs (constructor deployer maxSupply) in
  nextTokenId s = 0 /\ (forall t, owner_of s t = 0) /\ openMinting s = false /\
  (forall role account, hasRole s role account = true -> account = deployer).
Proof.
  intros Hall s.
  destruct (run_closed deployer txs _ (constructor_closed deployer maxSupply) Hall)
    as ([Hopen Hroles] & Hn & Hown).
  split; [exact Hn|]. split; [|split; [exact Hopen|]].
  - intros t. apply Hown. apply slot_empty.
  - intros role account Hr. apply bool_decide_eq_true in Hr. eapply Hroles, Hr.
Qed.


(** X8.  What a mintCollectible that returned went through and did,
    whatever the recipient did when it was called.  Before the call of the
    recipient: the caller holds MINTER_ROLE, supply was left, the id is the
    counter plus one and was unowned, the recipient is not the zero
    address, and the token was assigned to it.  The recipient accepted and
    left a storage [s2] in which the token still exists.  On [s2] the mint
    set the URI; with an application id the slot of the recipient was empty
    in [s2] and now holds the id and the licence record is written; without
    one neither licences nor index change; a royalty is set exactly for a
    non-zero receiver, within the fee denominator; holders, redeemed marks
    and every other licence record and slot are as the recipient left
    them.  When the recipient does not call back it owns the token
    afterwards, the counter is the id, the slot was empty when the mint was
    called, and every other token, licence record, index slot and the
    redeemed marks are as before the call. *)
Theorem X8_what_a_mint_went_through
    (R : Callbacks.Receivers State Txn) (reenter : Txn -> Tx State unit)
    (sender to : N) (uri app : string) (exp : N)
    (sb eph : bool) (rr rf : N) (s : State) (t : N) (s' : State) :
  CollectibleLicenseNFTR.mintCollectible reenter sender to uri app exp sb eph rr rf s
  = Ok (t, s') ->
  (hasRole s MINTER_ROLE sender = true /\ nextTokenId s < MAX_SUPPLY s /\
   t = nextTokenId s + 1 /\ to <> 0 /\ owner_of s t = 0) /\
  (exists s1 s2,
     _mint to t (set_nextTokenId t s) = Ok (tt, s1) /\
     Callbacks.run_script reenter (Callbacks.receiver to sender 0 t) s1 = Ok (true, s2) /\
     owner_of s2 t <> 0 /\
     (nonempty app = true -> lookup s2 to (keccak256 app) = 0) /\
     (rr <> 0 -> rf <= _feeDenominator) /\
     (forall t', owner_of s' t' = owner_of s2 t') /\
     default "" (_tokenURIs (erc721 s') !! t) = uri /\
     (nonempty app = true ->
      lookup s' to (keccak256 app) = t /\
      licenses s' !! t
      = Some {| appId := app; expiry := exp; soulbound := sb; ephemeral := eph |}) /\
     (nonempty app = false ->
      licenses s' = licenses s2 /\ userAppToken s' = userAppToken s2) /\
     (rr <> 0 -> _tokenRoyaltyInfo s' !! t = Some (rr, rf)) /\
     (rr = 0 -> _tokenRoyaltyInfo s' = _tokenRoyaltyInfo s2) /\
     (forall t', t' <> t -> licenses s' !! t' = licenses s2 !! t') /\
     (forall user aHash, (user, aHash) <> (to, keccak256 app) ->
        lookup s' user aHash = lookup s2 user aHash) /\
     redeemed s' = redeemed s2 /\ nextTokenId s' = nextTokenId s2) /\
  (Callbacks.quiet to ->
   nextTokenId s' = t /\ owner_of s' t = to /\
   (nonempty app = true -> lookup s to (keccak256 app) = 0) /\
   (nonempty app = false ->
    licenses s' = licenses s /\ userAppToken s' = userAppToken s) /\
   (rr = 0 -> _tokenRoyaltyInfo s' = _tokenRoyaltyInfo s) /\
   (forall t', t' <> t -> owner_of s' t' = owner_of s t' /\
                          licenses s' !! t' = licenses s !! t') /\
   (forall user aHash, (user, aHash) <> (to, keccak256 app) ->
      lookup s' user aHash = lookup s user aHash) /\
   redeemed s' = redeemed s).
Proof.
  intros Hm.
  destruct (mintCollectible_called_back _ _ _ _ _ _ _ _ _ _ _ _ _ Hm)
    as (H1 & H2 & H3 & H4 & H5 & Hcb).
  split; [done|]. split; [exact Hcb|].
  intros Hq. apply mintCollectible_quiet in Hm; [|done].
  destruct (mintCollectible_inv (H := Callbacks.accepting _) _ _ _ _ _ _ _ _ _ _ _ _ Hm)
    as (_ & _ & _ & P4 & _ & _ & P7 & _ & _ & P10 & P11 & _ & P13).
  destruct (mintCollectible_frame (H := Callbacks.accepting _) _ _ _ _ _ _ _ _ _ _ _ _ Hm)
    as (F1 & F2 & F3 & F4).
  split; [exact P4|]. split; [exact P7|].
  split; [intros Happ; apply (P10 Happ)|]. split; [exact P11|]. split; [exact P13|].
  split; [|split; [exact F3|exact F4]].
  intros t' Hd. split; [apply F1|apply F2]; exact Hd.
Qed.

(** X9.  The gates of openMint, in the order the contract has them.  Called
    while the reentrancy guard is set (from the onERC721Received of an
    openMint in progress) it reverts with "ReentrancyGuard: reentrant
    call".  Otherwise: with open minting off it reverts with "Open minting
    disabled" for everyone; with a Merkle root set, a caller whose proof
    does not verify gets "Not allowlisted"; with no root set the proof is
    not looked at; and for a caller who holds MINTER_ROLE and does not call
    back, with open minting on and no root, openMint is mintCollectible to
    oneself without royalty.  The example [openMint_is_guarded] has a caller
    that calls back, for whom the two differ. *)
Theorem X9_the_gates_of_openMint
    (R : Callbacks.Receivers State Txn) (reenter reenter' : Txn -> Tx State unit)
    (entered : bool) (sender : N) (uri app : string) (exp : N)
    (sb eph : bool) (proof : list N) (s : State) :
  let openMint_ proof :=
    CollectibleLicenseNFTR.nonReentrant entered
      (CollectibleLicenseNFTR.openMint reenter sender uri app exp sb eph proof) in
  (entered = true ->
   openMint_ proof s = Revert (Error "ReentrancyGuard: reentrant call")) /\
  (entered = false -> openMinting s = false ->
   openMint_ proof s = Revert (Error "Open minting disabled")) /\
  (entered = false -> openMinting s = true -> nextTokenId s < MAX_SUPPLY s ->
   merkleRoot s <> 0 ->
   verify proof (merkleRoot s) (keccak256_address sender) = false ->
   openMint_ proof s = Revert (Error "Not allowlisted")) /\
  (merkleRoot s = 0 -> forall proof', openMint_ proof s = openMint_ proof' s) /\
  (entered = false -> openMinting s = true -> merkleRoot s = 0 ->
   hasRole s MINTER_ROLE sender = true -> Callbacks.quiet sender ->
   openMint_ proof s
   = CollectibleLicenseNFTR.mintCollectible reenter' sender sender uri app exp sb eph 0 0 s).
Proof.
  intros openMint_. subst openMint_. cbv beta.
  split; [intros ->; reflexivity|].
  split.
  { intros -> Hoff. rewrite nonReentrant_free.
    unfold CollectibleLicenseNFTR.openMint, bind, gets. now rewrite Hoff. }
  split.
  { intros -> Hopen Hcap Hroot Hver. rewrite nonReentrant_free.
    unfold CollectibleLicenseNFTR.openMint, bind, gets.
    rewrite Hopen. cbn. apply N.ltb_lt in Hcap. rewrite Hcap. cbn.
    apply N.eqb_neq in Hroot. rewrite Hroot. cbn. rewrite Hver. reflexivity. }
  split.
  { intros Hroot proof'. destruct entered; [reflexivity|]. rewrite !nonReentrant_free.
    unfold CollectibleLicenseNFTR.openMint, bind, gets.
    destruct (openMinting s); cbn; [|reflexivity].
    destruct (nextTokenId s <? MAX_SUPPLY s); cbn; [|reflexivity].
    rewrite Hroot. reflexivity. }
  intros -> Hopen Hroot Hrole Hq. rewrite nonReentrant_free.
  by apply openMint_as_mintCollectible_quiet.
Qed.

(** X10.  A batchMint whose recipients do not call back and that returned
    was called by a minter with eight arrays of one length, moved the
    counter up by that length, and gave the k-th recipient the k-th new id:
    recipient k owns id counter + k + 1 afterwards. *)
Theorem X10_batchMint_mints_in_order
    (R : Callbacks.Receivers State Txn) (reenter : Txn -> Tx State unit)
    (sender : N) (rs : list N) (us aps : list string)
    (es : list N) (sbs ephs : list bool) (rrs rfs : list N) (s : State) (u : unit)
    (s' : State) :
  Forall Callbacks.quiet rs ->
  CollectibleLicenseNFTR.batchMint reenter sender rs us aps es sbs ephs rrs rfs s
  = Ok (u, s') ->
  hasRole s MINTER_ROLE sender = true /\
  same_lengths rs us aps es sbs ephs rrs rfs /\
  nextTokenId s' = nextTokenId s + N.of_nat (length rs) /\
  (forall k to, rs !! k = Some to ->
     to <> 0 /\ owner_of s' (nextTokenId s + N.of_nat k + 1) = to).
Proof.
  intros Hq Hm. apply batchMint_quiet in Hm; [|done].
  destruct (batchMint_inv (H := Callbacks.accepting _) _ _ _ _ _ _ _ _ _ _ _ _ Hm)
    as (Hrole & Hlen & Hfrom).
  destruct (batchMint_from_owners (H := Callbacks.accepting _)
              _ _ _ _ _ _ _ _ _ _ _ _ _ _ Hfrom) as [Hn Hown].
  split; [done|]. split; [done|]. split; [done|].
  intros k to Hk. destruct (Hown k) as (to' & Hk' & Hne & Ho).
  - apply lookup_lt_Some in Hk. exact Hk.
  - cbn in Hk'. rewrite Hk in Hk'. injection Hk' as <-. done.
Qed.

(** X11.  A batch whose recipients do not call back never gives one
    recipient two licences for one application: if two entries of the
    arrays name the same recipient and the same non-empty application id,
    batchMint reverts and the storage is as before the call. *)
Theorem X11_batchMint_rejects_repeated_entries
    (R : Callbacks.Receivers State Txn) (reenter : Txn -> Tx State unit)
    (sender : N) (rs : list N)
    (us aps : list string) (es : list N) (sbs ephs : list bool) (rrs rfs : list N)
    (s : State) (i j : nat) (to : N) (app : string) :
  Forall Callbacks.quiet rs ->
  i <> j ->
  rs !! i = Some to -> rs !! j = Some to ->
  aps !! i = Some app -> aps !! j = Some app ->
  nonempty app = true ->
  reverted (CollectibleLicenseNFTR.batchMint reenter sender rs us aps es sbs ephs rrs rfs) s /\
  commit (CollectibleLicenseNFTR.batchMint reenter sender rs us aps es sbs ephs rrs rfs) s
  = s.
Proof.
  intros Hq Hij Hri Hrj Hai Haj Happ.
  destruct (CollectibleLicenseNFTR.batchMint reenter sender rs us aps es sbs ephs rrs rfs s)
    as [[u s']|r] eqn:Hm.
  - exfalso. apply batchMint_quiet in Hm; [|done].
    destruct (batchMint_inv (H := Callbacks.accepting _) _ _ _ _ _ _ _ _ _ _ _ _ Hm)
      as (_ & _ & Hfrom).
    apply lookup_lt_Some in Hri as Hi. apply lookup_lt_Some in Hrj as Hj.
    destruct (Nat.lt_total i j) as [Hlt|[Heq|Hlt]]; [|done|].
    + apply (batchMint_from_distinct (H := Callbacks.accepting _)
               _ _ _ _ _ _ _ _ _ _ _ _ _ _ Hfrom i j to app); done.
    + apply (batchMint_from_distinct (H := Callbacks.accepting _)
               _ _ _ _ _ _ _ _ _ _ _ _ _ _ Hfrom j i to app); done.
  - split; [by exists r|]. unfold commit. now rewrite Hm.
Qed.

(** X12.  A licence minted to a recipient that does not call back and then
    burned by that recipient leaves the ledger as before the mint, the
    counter apart: every token has the owner it had, every index slot the
    token it held, the new id carries no licence record and no royalty; the
    id is spent. *)
Theorem X12_mint_then_burn
    (R : Callbacks.Receivers State Txn) (reenter : Txn -> Tx State unit)
    (sender to : N) (uri app : string) (exp : N)
    (sb eph : bool) (rr rf : N) (s : State) (t : N) (s1 : State) :
  Callbacks.quiet to ->
  CollectibleLicenseNFTR.mintCollectible reenter sender to uri app exp sb eph rr rf s
  = Ok (t, s1) ->
  nonempty app = true ->
  exists s2,
    burn to t s1 = Ok (tt, s2) /\
    nextTokenId s2 = nextTokenId s + 1 /\
    (forall t', owner_of s2 t' = owner_of s t') /\
    (forall user aHash, lookup s2 user aHash = lookup s user aHash) /\
    licenses s2 !! t = None /\
    (forall t', t' <> t -> licenses s2 !! t' = licenses s !! t') /\
    _tokenRoyaltyInfo s2 !! t = None.
Proof.
  intros Hq Hm Happ. apply mintCollectible_quiet in Hm; [|done].
  pose proof (mintCollectible_inv (H := Callbacks.accepting _) _ _ _ _ _ _ _ _ _ _ _ _ Hm)
    as (_ & _ & Ht & Hn & Hne & Hfresh & Hown & _ & _ & Hlic & _).
  pose proof (mintCollectible_frame (H := Callbacks.accepting _) _ _ _ _ _ _ _ _ _ _ _ _ Hm)
    as (Fo & Fl & Fi & _).
  cbn [Callbacks.accepting keccak256] in Hlic, Fi.
  destruct (Hlic Happ) as (Hfree & Hset & Hrec).
  destruct (burn_succeeds to t s1 Hown Hne) as [s2 Hb]. exists s2. split; [done|].
  pose proof (burn_inv _ _ _ _ _ Hb)
    as (_ & _ & Hgone & Hothers & Hn2 & _ & Hroy & _ & Hlic2 & _).
  assert (Hlo : license_of s1 t
                = {| appId := app; expiry := exp; soulbound := sb; ephemeral := eph |}).
  { unfold license_of. rewrite Hrec. done. }
  rewrite Hlo in Hlic2. cbn [appId] in Hlic2. destruct (Hlic2 Happ) as [Hl2 Hi2].
  split; [lia|]. split; [|split; [|split; [|split; [|done]]]].
  - intros t'. destruct (decide (t' = t)) as [->|Hd]; [congruence|].
    rewrite Hothers by done. apply Fo. done.
  - intros user aHash. unfold lookup at 1. rewrite Hi2.
    destruct (decide ((to, keccak256 app) = (user, aHash))) as [E|Hd].
    + injection E as <- <-. rewrite slot_delete_eq. done.
    + rewrite slot_delete_ne by done. apply Fi. congruence.
  - rewrite Hl2. apply lookup_delete_eq.
  - intros t' Hd. rewrite Hl2, lookup_delete_ne by done. apply Fl. done.
Qed.

(** X13.  The role check comes first: for a caller without MINTER_ROLE
    mintCollectible and batchMint revert with the AccessControl error
    whatever the arguments and the storage (supply exhausted, arrays of
    different lengths), and the storage is unchanged. *)
Theorem X13_minting_is_for_minters (sender to : N) (uri app : string) (exp : N)
    (sb eph : bool) (rr rf : N) (rs : list N) (us aps : list string)
    (es : list N) (sbs ephs : list bool) (rrs rfs : list N) (s : State) :
  hasRole s MINTER_ROLE sender = false ->
  mintCollectible sender to uri app exp sb eph rr rf s
  = Revert (Error (AccessControl_missing_role sender MINTER_ROLE)) /\
  batchMint sender rs us aps es sbs ephs rrs rfs s
  = Revert (Error (AccessControl_missing_role sender MINTER_ROLE)) /\
  step s {| msg_sender := sender;
            msg_call := call_mintCollectible to uri app exp sb eph rr rf |} = s /\
  step s {| msg_sender := sender;
            msg_call := call_batchMint rs us aps es sbs ephs rrs rfs |} = s.
Proof.
  intros Hno.
  pose proof (mintCollectible_not_minter sender to uri app exp sb eph rr rf s Hno) as Hm.
  pose proof (batchMint_not_minter sender rs us aps es sbs ephs rrs rfs s Hno) as Hb.
  split; [exact Hm|]. split; [exact Hb|].
  unfold step, commit, dispatch, forget, bind. cbn [msg_sender msg_call].
  rewrite Hm, Hb. done.
Qed.

(** X30.  A mintCollectible to a recipient that answers and calls nothing
    returns exactly when its checks pass.  On a ledger whose next id is unminted
    and whose maximum supply fits a uint256, the call returns, with the
    counter plus one as id, if and only if the caller holds MINTER_ROLE,
    supply is left, the recipient is not the zero address and accepts the
    token, the slot of the recipient is empty when an application id is
    given, and the royalty fraction is within the fee denominator when a
    receiver is given.  The examples [shredding_recipient_fails_the_mint]
    and [emptying_recipient_gets_a_second_licence] show a recipient that
    calls back turning the outcome either way. *)
Theorem X30_a_mint_returns_when_its_checks_pass
    (R : Callbacks.Receivers State Txn) (reenter : Txn -> Tx State unit) (s : State)
    (sender to : N) (uri app : string) (exp : N) (sb eph : bool) (rr rf : N) :
  Callbacks.answers_only to ->
  MAX_SUPPLY s < uint256_limit ->
  owner_of s (nextTokenId s + 1) = 0 ->
  (exists s',
     CollectibleLicenseNFTR.mintCollectible reenter sender to uri app exp sb eph rr rf s
     = Ok (nextTokenId s + 1, s'))
  <->
  (hasRole s MINTER_ROLE sender = true /\ nextTokenId s < MAX_SUPPLY s /\
   to <> 0 /\ onERC721Received to sender 0 (nextTokenId s + 1) = true /\
   (nonempty app = true -> lookup s to (keccak256 app) = 0) /\
   (rr <> 0 -> rf <= _feeDenominator)).
Proof.
  intros Hans Hlim Hfresh.
  assert (Heq : forall s',
            CollectibleLicenseNFTR.mintCollectible reenter sender to uri app exp sb eph rr rf s
            = Ok (nextTokenId s + 1, s') <->
            mintCollectible sender to uri app exp sb eph rr rf s
            = Ok (nextTokenId s + 1, s')).
  { intros s'. now rewrite mintCollectible_answers. }
  split.
  - intros [s' Hm]. apply Heq in Hm.
    destruct (mintCollectible_inv _ _ _ _ _ _ _ _ _ _ _ _ Hm)
      as (H1 & H2 & _ & _ & H5 & _ & _ & H8 & _ & H10 & _ & H12 & _).
    split; [exact H1|]. split; [exact H2|]. split; [exact H5|]. split; [exact H8|].
    split; [intros Happ; apply (H10 Happ)|intros Hrr; apply (H12 Hrr)].
  - intros (Hrole & Hcap & Hto & Hacc & Hfree & Hroy).
    assert (Hroy' : rr = 0 \/ rf <= _feeDenominator).
    { destruct (decide (rr = 0)) as [|Hrr]; [by left|right; exact (Hroy Hrr)]. }
    destruct (nonempty app) eqn:Happ.
    + destruct (mintCollectible_licensed sender to uri app exp sb eph rr rf s)
        as (s' & Hm & _); try done. { exact (Hfree eq_refl). }
      exists s'. apply Heq. exact Hm.
    + assert (app = "") as ->.
      { destruct app; [done|]. cbn in Happ. discriminate. }
      destruct (mintCollectible_blank sender to uri exp sb eph rr rf s)
        as (s' & Hm & _); try done.
      exists s'. apply Heq. exact Hm.
Qed.
End FurtherCollectible.

(** ** AppBoundLicense *)

Section FurtherAppBound.
Import AppBoundLicense AppBoundProofs.
Context `{Host}.

(** X14.  The holder of an AppBoundLicense token can always burn it.  The
    burn leaves the token without owner, deletes its licence record and
    deletes the index slot of the holder for the token's application
    without looking at what the slot holds; the other tokens, the counter
    and the contract owner stay, and the log gains the Transfer to the zero
    address and LicenseBurned. *)
Theorem X14_appbound_burn_clears_the_slot (s : State) (holder tokenId : N) :
  owner_of s tokenId = holder -> holder <> 0 ->
  exists s',
    burn holder tokenId s = Ok (tt, s') /\
    owner_of s' tokenId = 0 /\
    (forall t', t' <> tokenId -> owner_of s' t' = owner_of s t') /\
    licenses s' = delete tokenId (licenses s) /\
    userAppToken s'
    = delete (holder, keccak256 (appId (license_of s tokenId))) (userAppToken s) /\
    nextTokenId s' = nextTokenId s /\ _owner s' = _owner s /\
    log s' = (log s ++ [Transfer holder 0 tokenId; LicenseBurned holder tokenId])%list.
Proof.
  intros Hown Hne. destruct (ab_burn_succeeds holder tokenId s Hown Hne) as [s' Hb].
  exists s'. split; [exact Hb|].
  destruct (ab_burn_inv _ _ _ _ _ Hb) as (_ & _ & H1 & H2 & H3 & H4 & H5 & H6 & H7).
  done.
Qed.

(** X15.  AppBoundLicense.burn is for the holder alone: on a token that
    does not exist it reverts with ERC721's "invalid token ID", for any
    other caller, the contract owner included, with "NOT_OWNER", and a burn
    that returned was called by the holder. *)
Theorem X15_appbound_burn_is_for_the_holder (s : State) (sender tokenId : N) :
  (owner_of s tokenId = 0 ->
   burn sender tokenId s = Revert (Error "ERC721: invalid token ID")) /\
  (owner_of s tokenId <> 0 -> sender <> owner_of s tokenId ->
   burn sender tokenId s = Revert (Error "NOT_OWNER")) /\
  (forall u s', burn sender tokenId s = Ok (u, s') ->
                owner_of s tokenId = sender /\ sender <> 0).
Proof.
  split; [apply ab_burn_missing|]. split; [apply ab_burn_not_owner|].
  intros u s' Hb. destruct (ab_burn_inv _ _ _ _ _ Hb) as (Ho & Hne & _). done.
Qed.

(** X16.  What a mintTo that returned went through and did, whatever the
    recipient did when it was called, and the round trip with
    checkLicense: the caller is the contract owner, the slot of the
    recipient was empty, the id is the counter plus one and was unowned,
    the recipient is not the zero address; afterwards the token exists, the
    slot of the recipient holds it, its licence record is the one of the
    mint, and checkLicense for the recipient and the application returns
    exactly the id, the URI and the expiry of the mint.  When the recipient
    does not call back it owns the token afterwards, the counter is the id,
    every other token, licence record and index slot is untouched, and the
    log gains the Transfer from the zero address and LicenseMinted. *)
Theorem X16_mintTo_then_checkLicense
    (R : Callbacks.Receivers State Txn) (reenter : Txn -> Tx State unit)
    (sender to : N) (app uri : string) (exp : N)
    (s : State) (t : N) (s' : State) :
  AppBoundLicenseR.mintTo reenter sender to app uri exp s = Ok (t, s') ->
  (_owner s = sender /\ lookup s to (keccak256 app) = 0 /\
   t = nextTokenId s + 1 /\ to <> 0 /\ owner_of s t = 0) /\
  (owner_of s' t <> 0 /\ lookup s' to (keccak256 app) = t /\
   licenses s' !! t = Some {| appId := app; expiry := exp |} /\
   checkLicense to app s' = Ok ((t, uri, exp), s')) /\
  (Callbacks.quiet to ->
   nextTokenId s' = t /\ owner_of s' t = to /\
   (forall t', t' <> t -> owner_of s' t' = owner_of s t' /\
                          licenses s' !! t' = licenses s !! t') /\
   (forall user aHash, (user, aHash) <> (to, keccak256 app) ->
      lookup s' user aHash = lookup s user aHash) /\
   log s' = (log s ++ [Transfer 0 to t; LicenseMinted to t app exp])%list).
Proof.
  intros Hm.
  destruct (mintTo_called_back _ _ _ _ _ _ _ _ _ Hm) as (H1 & H2 & H3 & H4 & H5 & _).
  split; [done|]. split; [exact (mintTo_checkLicense_called_back _ _ _ _ _ _ _ _ _ Hm)|].
  intros Hq. apply mintTo_quiet in Hm; [|done].
  destruct (mintTo_inv (H := Callbacks.accepting _) _ _ _ _ _ _ _ _ Hm)
    as (_ & _ & _ & P4 & _ & _ & P7 & _ & _ & _ & _ & _ & F1 & F2 & F3 & F4).
  split; [exact P4|]. split; [exact P7|].
  split; [|split; [exact F3|exact F4]].
  intros t' Hd. split; [apply F1|apply F2]; exact Hd.
Qed.

(** X17.  The answers of checkLicense, in any storage: for an empty slot
    it returns (0, "", 0); for a slot that names a token that exists it
    returns the id, the URI of the token and the expiry of its licence
    record; for a slot that names a token that does not exist it reverts
    with ERC721's "invalid token ID"; it never changes the storage.  After
    a history in which no recipient called back an occupied slot names a
    token that its user holds, so checkLicense returns.  The example
    [forwarding_recipient_breaks_the_index] reaches a storage where it
    reverts. *)
Theorem X17_the_answers_of_checkLicense (s : State) (user : N) (app : string) :
  let t := lookup s user (keccak256 app) in
  (t = 0 -> checkLicense user app s = Ok ((0, "", 0), s)) /\
  (t <> 0 -> owner_of s t <> 0 ->
   checkLicense user app s
   = Ok ((t, default "" (_tokenURIs (erc721 s) !! t), expiry (license_of s t)), s)) /\
  (t <> 0 -> owner_of s t = 0 ->
   checkLicense user app s = Revert (Error "ERC721: invalid token ID")) /\
  (forall u s', checkLicense user app s = Ok (u, s') -> s' = s) /\
  (forall (R : Callbacks.Receivers State Txn) depth deployer txs,
     Callbacks.no_callbacks ->
     s = AppBoundLicenseR.run depth txs (constructor deployer) ->
     t <> 0 -> owner_of s t = user /\ user <> 0).
Proof.
  intros t. split; [apply checkLicense_none|].
  split; [apply checkLicense_held|]. split; [apply checkLicense_dead|]. split.
  - intros u s' Hc. destruct (decide (t = 0)) as [E|Hne].
    + rewrite checkLicense_none in Hc by done. congruence.
    + destruct (decide (owner_of s t = 0)) as [Hd|Hl].
      * rewrite checkLicense_dead in Hc by done. discriminate.
      * rewrite checkLicense_held in Hc by done. congruence.
  - intros R depth deployer txs Hquiet Hs Hne.
    pose proof (ab_run_quiet_Inv depth txs _ Hquiet (ab_constructor_Inv deployer)) as HI.
    rewrite <- Hs in HI.
    destruct (inv_index _ HI user (keccak256 app) t eq_refl Hne) as (Ho & Hu & _).
    done.
Qed.


(** X19.  Ids are not reused and the terms of a licence are fixed: an id
    at or below the counter without owner stays without owner after any
    transactions, and in a ledger reached from deployment a token that is
    still held has the licence record (application and expiry) it had. *)
Theorem X19_appbound_ids_and_terms (txs : list Txn) (s : State) (tokenId : N) :
  (owner_of s tokenId = 0 -> tokenId <= nextTokenId s ->
   owner_of (run txs s) tokenId = 0) /\
  (Inv s -> owner_of s tokenId <> 0 ->
   owner_of (run txs s) tokenId = 0 \/
   license_of (run txs s) tokenId = license_of s tokenId).
Proof.
  split; [apply ab_run_dead|].
  intros HI Hl. destruct (decide (owner_of (run txs s) tokenId = 0)) as [|Hl']; [by left|].
  right. unfold license_of. now rewrite (ab_run_live txs s tokenId HI Hl Hl').
Qed.
End FurtherAppBound.

(** ** The access issuance handler *)

Section FurtherBackend.
Import Backend BackendProofs.
Context `{Host}.

(** X20.  No credential without an index entry, whatever contract the
    handler talks to: a 200 means that wallet and appId were present, that
    userAppToken returned the non-zero token id of the response, that
    checkLicense returned, that the expiry it reported is 0 or not before
    the current second, and the token signed is the one for this wallet,
    application and id, valid for 900 seconds.  Against CollectibleLicenseNFT,
    which has no checkLicense, the handler never answers 200. *)
Theorem X20_a_credential_needs_an_index_entry (contract : Contract) (now_ms : Z)
    (wallet : option N) (app : string) (tok : AccessToken) (id : N) :
  auth contract now_ms wallet app = status_200 tok id ->
  (exists w e,
     wallet = Some w /\ nonempty app = true /\
     call_userAppToken contract w (keccak256 app) = Ok id /\ id <> 0 /\
     (exists t uri, call_checkLicense contract w app = Ok (t, uri, e)) /\
     (e = 0 \/ (seconds now_ms <= Number e)%Z) /\
     tok = token_for now_ms w app id /\
     jwt_exp tok = (jwt_iat tok + 900)%Z) /\
  (forall s : CollectibleLicenseNFT.State, contract <> Collectible_view s).
Proof.
  intros Ha. split.
  - unfold auth in Ha.
    destruct wallet as [w|]; [|discriminate].
    destruct (nonempty app) eqn:Happ; cbn [negb] in Ha; [|discriminate].
    destruct (call_userAppToken contract w (keccak256 app)) as [t|r] eqn:Hidx;
      [|discriminate].
    destruct (N.eqb_spec t 0) as [Ht|Ht]; [discriminate|].
    destruct (call_checkLicense contract w app) as [[[t' uri] e]|r] eqn:Hc; [|discriminate].
    destruct (N.eqb_spec e 0) as [He|He].
    + cbn in Ha. injection Ha as <- <-. exists w, e. repeat split; eauto.
    + destruct (negb (Number e =? 0)%Z && (Number e <? seconds now_ms)%Z) eqn:Hexp;
        [discriminate|].
      injection Ha as <- <-. exists w, e. repeat split; eauto.
      right. apply andb_false_iff in Hexp as [Hz|Hlt].
      * apply negb_false_iff, Z.eqb_eq, Number_zero in Hz. done.
      * apply Z.ltb_ge in Hlt. done.
  - intros s ->. unfold auth in Ha.
    destruct wallet as [w|]; [|discriminate].
    destruct (nonempty app); cbn [negb] in Ha; [|discriminate].
    cbn [call_userAppToken call_checkLicense Collectible_view] in Ha.
    destruct (CollectibleLicenseNFT.lookup s w (keccak256 app) =? 0); discriminate.
Qed.

(** X21.  The error answers of the handler, whatever the contract: 400
    when the wallet is missing or the appId is empty, before any read; 500
    when the userAppToken read fails, or when it returns a non-zero id and
    the checkLicense read fails; 403 when userAppToken returns 0, without
    checkLicense being consulted. *)
Theorem X21_the_error_answers (contract : Contract) (now_ms : Z) (w : N) (app : string) :
  auth contract now_ms None app = status_400 "wallet and appId required" /\
  auth contract now_ms (Some w) "" = status_400 "wallet and appId required" /\
  (nonempty app = true ->
   (forall r, call_userAppToken contract w (keccak256 app) = Revert r ->
      auth contract now_ms (Some w) app = status_500 "server error") /\
   (forall t r, call_userAppToken contract w (keccak256 app) = Ok t -> t <> 0 ->
      call_checkLicense contract w app = Revert r ->
      auth contract now_ms (Some w) app = status_500 "server error") /\
   (call_userAppToken contract w (keccak256 app) = Ok 0 ->
      auth contract now_ms (Some w) app
      = status_403 "No license for this wallet & appId")).
Proof.
  split; [reflexivity|]. split; [reflexivity|].
  intros Happ. unfold auth. rewrite Happ. cbn [negb].
  split; [|split].
  - intros r ->. reflexivity.
  - intros t r -> Hne ->. apply N.eqb_neq in Hne. rewrite Hne. reflexivity.
  - intros ->. reflexivity.
Qed.

(** X22.  Access follows the token.  After a transfer of an AppBoundLicense
    token with a non-empty application id, in a ledger reached from
    deployment, the handler answers the recipient for that application with
    a credential for the token (or "License expired" when its expiry is
    past), and answers the former holder, whose slot named the token, with
    "No license". *)
Theorem X22_access_follows_the_token (deployer : N) (txs : list AppBoundLicense.Txn)
    (sender from to t : N) (u : unit) (s' : AppBoundLicense.State) (now_ms : Z) :
  let s := AppBoundLicense.run txs (AppBoundLicense.constructor deployer) in
  let lic := AppBoundLicense.license_of s t in
  transferFrom sender from to t s = Ok (u, s') ->
  nonempty (AppBoundLicense.appId lic) = true ->
  (0 <= now_ms <= max_time_value)%Z ->
  auth (AppBound_view s') now_ms (Some to) (AppBoundLicense.appId lic)
  = (if negb (AppBoundLicense.expiry lic =? 0)
        && (Z.of_N (AppBoundLicense.expiry lic) <? seconds now_ms)%Z
     then status_403 "License expired"
     else status_200 (token_for now_ms to (AppBoundLicense.appId lic) t) t) /\
  (from <> to ->
   AppBoundLicense.lookup s from (keccak256 (AppBoundLicense.appId lic)) = t ->
   auth (AppBound_view s') now_ms (Some from) (AppBoundLicense.appId lic)
   = status_403 "No license for this wallet & appId").
Proof.
  intros s lic Ht Happ Hclock.
  pose proof (AppBoundProofs.ab_reachable_Inv deployer txs) as HI. fold s in HI.
  assert (Hnow : (seconds now_ms < 2 ^ 53)%Z).
  { unfold seconds, max_time_value in *.
    apply Z.div_lt_upper_bound; [lia|]. lia. }
  pose proof (AppBoundProofs.ab_transferFrom_Inv _ _ _ _ _ _ _ HI Ht) as HI'.
  pose proof (AppBoundProofs.ab_transferFrom_index _ _ _ _ _ _ _ Ht) as Hx.
  cbv zeta in Hx. fold lic in Hx. destruct Hx as (Hfrom & Hto & Hset & Hclr & _).
  assert (Hlive : AppBoundLicense.owner_of s t <> 0).
  { clear - Ht. intros Hz.
    unfold transferFrom, _isApprovedOrOwner, ownerOf, _ownerOf in Ht.
    rewrite bind_assoc, bind_assoc, bind_gets in Ht. cbv beta in Ht.
    unfold AppBoundLicense.owner_of in Hz. cbn [erc AppBoundLicense.AppBound_ERC721] in Ht.
    rewrite Hz in Ht. discriminate. }
  assert (Hlic : AppBoundLicense.license_of s' t = lic).
  { unfold lic, AppBoundLicense.license_of. f_equal.
    apply (AppBoundProofs.ab_dispatch_live
             {| AppBoundLicense.msg_sender := sender;
                AppBoundLicense.msg_call := AppBoundLicense.call_transferFrom from to t |}
             s u s' t Ht Hlive).
    rewrite Hto. clear - Ht Hlive. intros ->.
    unfold transferFrom in Ht. apply bind_Ok_inv in Ht as (? & ? & _ & Ht).
    apply bind_Ok_inv in Ht as (? & ? & _ & Ht).
    unfold _transfer in Ht. apply bind_Ok_inv in Ht as (? & ? & _ & Ht).
    apply bind_Ok_inv in Ht as (? & ? & _ & Ht).
    apply bind_Ok_inv in Ht as (? & ? & Hr & _). discriminate. }
  split.
  - rewrite auth_AppBound by done. cbv zeta. rewrite Hset.
    assert (Hne : (t =? 0) = false).
    { apply N.eqb_neq. intros ->.
      rewrite (AppBoundProofs.ab_Inv_zero_unassigned s HI) in Hlive. done. }
    rewrite Hne, Hlic. reflexivity.
  - intros Hd Hcur. rewrite auth_AppBound by done. cbv zeta.
    rewrite (Hclr Hd Hcur). reflexivity.
Qed.

(** X23.  A burn withdraws access: once the holder of an AppBoundLicense
    token with a non-empty application id has burned it, the handler
    answers them "No license" for that application, at any time and
    whatever else they hold. *)
Theorem X23_a_burn_withdraws_access (holder t : N) (s : AppBoundLicense.State) (u : unit)
    (s' : AppBoundLicense.State) (now_ms : Z) :
  AppBoundLicense.burn holder t s = Ok (u, s') ->
  nonempty (AppBoundLicense.appId (AppBoundLicense.license_of s t)) = true ->
  auth (AppBound_view s') now_ms (Some holder)
    (AppBoundLicense.appId (AppBoundLicense.license_of s t))
  = status_403 "No license for this wallet & appId".
Proof.
  intros Hb Happ.
  apply AppBoundProofs.ab_burn_inv in Hb as (_ & _ & _ & _ & _ & Hidx & _).
  unfold auth. rewrite Happ. cbn [negb call_userAppToken AppBound_view].
  unfold AppBoundLicense.lookup. rewrite Hidx, slot_delete_eq. reflexivity.
Qed.
End FurtherBackend.

(** ** The scripts and the page *)

Section FurtherScripts.
Import Backend Scripts.
Context `{Host}.

(** X24.  The demo flow: on a fresh deployment the seed script mints token
    1 to the user (a non-zero account that accepts tokens); the page then
    gets access for the user, with a token for "demo-app" and id 1 at any
    time since the demo licence never expires, and shows every other
    account the "No license" error of the handler; running the seed again
    reverts with "ALREADY_OWN_THIS_APP", and run by anyone but the deployer
    it reverts with Ownable's error. *)
Theorem X24_deploy_seed_checkAccess (deployer user : N) (now_ms : Z) :
  user <> 0 -> onERC721Received user deployer 0 1 = true ->
  exists s1,
    seed deployer user (deploy deployer) = Ok (1, s1) /\
    checkAccess (AppBound_view s1) now_ms (Some user)
    = access_granted (token_for now_ms user "demo-app" 1) /\
    (forall other, other <> user ->
       checkAccess (AppBound_view s1) now_ms (Some other)
       = error_message "No license for this wallet & appId") /\
    checkAccess (AppBound_view s1) now_ms None = alert "Connect wallet first" /\
    seed deployer user s1 = Revert (Error "ALREADY_OWN_THIS_APP") /\
    (forall stranger, stranger <> deployer ->
       seed stranger user (deploy deployer)
       = Revert (Error "Ownable: caller is not the owner")).
Proof.
  intros Hne Hacc.
  destruct (AppBoundProofs.mintTo_succeeds deployer user "demo-app" "ipfs://demo-metadata" 0
              (deploy deployer)) as [s1 Hm]; try done.
  change (AppBoundLicense.nextTokenId (deploy deployer) + 1) with 1 in Hm.
  exists s1. split; [exact Hm|].
  pose proof (AppBoundProofs.mintTo_checkLicense _ _ _ _ _ _ _ _ Hm) as Hc.
  destruct (AppBoundProofs.mintTo_inv _ _ _ _ _ _ _ _ Hm)
    as (_ & _ & _ & _ & _ & _ & _ & _ & Hidx & _ & _ & _ & _ & _ & Hoth & _).
  split; [|split; [|split; [reflexivity|split]]].
  - unfold checkAccess, auth.
    cbn [nonempty String.length Nat.ltb Nat.leb negb call_userAppToken call_checkLicense
         AppBound_view].
    rewrite Hidx. cbn [N.eqb]. unfold value_of. rewrite Hc. reflexivity.
  - intros other Hd. unfold checkAccess, auth.
    cbn [nonempty String.length Nat.ltb Nat.leb negb call_userAppToken call_checkLicense
         AppBound_view].
    rewrite Hoth by congruence. reflexivity.
  - apply AppBoundProofs.mintTo_duplicate.
    + destruct (AppBoundProofs.mintTo_inv _ _ _ _ _ _ _ _ Hm)
        as (_ & _ & _ & _ & _ & _ & _ & _ & _ & _ & _ & Ho & _). exact Ho.
    + rewrite Hidx. done.
  - intros stranger Hd. apply AppBoundProofs.mintTo_not_owner. cbn. congruence.
Qed.
End FurtherScripts.

(** ** The white paper's AppBoundLicense *)

Section FurtherDesign.
Import DesignLicense DesignProofs.
Context `{Host}.

(** X25.  revoke takes a token from whoever holds it: called by the
    contract owner on a token that exists it returns, leaves the token
    without owner and deletes its licence record; the index slot of the
    holder for the token's application is deleted only if it names the
    token, and the index is otherwise untouched (a slot that names another
    token survives, unlike with burn); the royalty entries, the counter and
    the contract owner stay, and the log gains the Transfer to the zero
    address and LicenseRevoked. *)
Theorem X25_revoke_takes_the_token (s : State) (sender tokenId : N) :
  _owner s = sender -> owner_of s tokenId <> 0 ->
  let holder := owner_of s tokenId in
  let h := keccak256 (AppBoundLicense.appId (license_of s tokenId)) in
  exists s',
    revoke sender tokenId s = Ok (tt, s') /\
    owner_of s' tokenId = 0 /\
    (forall t', t' <> tokenId -> owner_of s' t' = owner_of s t') /\
    licenses s' = delete tokenId (licenses s) /\
    (lookup s holder h = tokenId ->
     userAppToken s' = delete (holder, h) (userAppToken s)) /\
    (lookup s holder h <> tokenId -> userAppToken s' = userAppToken s) /\
    _tokenRoyaltyInfo s' = _tokenRoyaltyInfo s /\
    nextTokenId s' = nextTokenId s /\ _owner s' = _owner s /\
    log s' = (log s ++ [Inherited (Transfer holder 0 tokenId); LicenseRevoked tokenId])%list.
Proof.
  intros Hown Hlive holder h.
  destruct (revoke_succeeds sender tokenId s Hown Hlive) as [s' Hr].
  exists s'. split; [exact Hr|].
  pose proof (revoke_inv _ _ _ _ _ Hr) as Hx. cbv zeta in Hx.
  destruct Hx as (_ & _ & H1 & H2 & H3 & H4 & H5 & H6 & H7 & H8 & H9). done.
Qed.

(** X26.  revoke is for the contract owner alone: for any other caller,
    the holder of the token included, it reverts with Ownable's error; for
    the contract owner on a token that does not exist, with ERC721's
    "invalid token ID"; and a revoke that returned was called by the
    contract owner on a token that had a holder. *)
Theorem X26_revoke_is_for_the_contract_owner (s : State) (sender tokenId : N) :
  (_owner s <> sender ->
   revoke sender tokenId s = Revert (Error "Ownable: caller is not the owner")) /\
  (_owner s = sender -> owner_of s tokenId = 0 ->
   revoke sender tokenId s = Revert (Error "ERC721: invalid token ID")) /\
  (forall u s', revoke sender tokenId s = Ok (u, s') ->
                _owner s = sender /\ owner_of s tokenId <> 0).
Proof.
  split; [apply revoke_not_owner|]. split; [apply revoke_missing|].
  intros u s' Hr. pose proof (revoke_inv _ _ _ _ _ Hr) as Hx. cbv zeta in Hx.
  destruct Hx as (Ho & Hl & _). done.
Qed.

(** X27.  As long as no recipient calls back, the index of the white
    paper's contract is sound after any history, revocations, URI and
    royalty settings included: every non-zero entry names a token that
    exists, is held by the owner of the entry and carries the application
    whose hash keys the entry; only ids from 1 to the counter have a
    holder; and no token is named by two entries.  Its mintTo calls the
    recipient before it writes the index, as the mintTo of the MVP does. *)
Theorem X27_the_design_index_is_sound
    (R : Callbacks.Receivers State Txn) (depth : nat)
    (deployer : N) (name_ symbol_ : string) (txs : list Txn) :
  Callbacks.no_callbacks ->
  let s := DesignLicenseR.run depth txs (constructor deployer name_ symbol_) in
  no_dangling s /\
  (forall tokenId, owner_of s tokenId <> 0 -> 1 <= tokenId <= nextTokenId s) /\
  (forall user aHash user' aHash' tokenId,
     lookup s user aHash = tokenId -> lookup s user' aHash' = tokenId ->
     tokenId <> 0 -> user = user' /\ aHash = aHash').
Proof.
  intros Hquiet s. subst s.
  pose proof (d_run_quiet_Inv depth txs _ Hquiet (d_constructor_Inv deployer name_ symbol_))
    as HI.
  split; [apply (inv_index _ HI)|]. split; [apply (inv_ids _ HI)|].
  intros o h o' h' t Hl Hl' Hne.
  destruct (inv_index _ HI o h t Hl Hne) as (Ho & _ & Hh).
  destruct (inv_index _ HI o' h' t Hl' Hne) as (Ho' & _ & Hh').
  split; congruence.
Qed.

(** X28.  adminSetTokenURI is for the contract owner and for tokens that
    exist: another caller gets Ownable's error, a token without holder
    "URI set of nonexistent token"; otherwise only the URI of the token
    changes, and in a ledger reached from deployment checkLicense for a
    user whose slot names the token then reports the new URI with the same
    id and expiry. *)
Theorem X28_adminSetTokenURI_rewrites_the_metadata (deployer : N) (name_ symbol_ : string)
    (txs : list Txn) (sender tokenId : N) (uri : string) :
  let s := run txs (constructor deployer name_ symbol_) in
  (_owner s <> sender ->
   adminSetTokenURI sender tokenId uri s
   = Revert (Error "Ownable: caller is not the owner")) /\
  (_owner s = sender -> owner_of s tokenId = 0 ->
   adminSetTokenURI sender tokenId uri s
   = Revert (Error "ERC721URIStorage: URI set of nonexistent token")) /\
  (_owner s = sender -> owner_of s tokenId <> 0 ->
   exists s',
     adminSetTokenURI sender tokenId uri s = Ok (tt, s') /\
     licenses s' = licenses s /\ userAppToken s' = userAppToken s /\
     _owners (erc721 s') = _owners (erc721 s) /\
     (forall t', t' <> tokenId ->
        _tokenURIs (erc721 s') !! t' = _tokenURIs (erc721 s) !! t') /\
     (forall user app, lookup s user (keccak256 app) = tokenId ->
        checkLicense user app s'
        = Ok ((tokenId, uri, AppBoundLicense.expiry (license_of s tokenId)), s'))).
Proof.
  intros s.
  pose proof (d_run_Inv txs _ (d_constructor_Inv deployer name_ symbol_)) as HI.
  fold s in HI.
  destruct (adminSetTokenURI_fails sender tokenId uri s) as [Hno Hmiss].
  split; [exact Hno|]. split; [exact Hmiss|].
  intros Hown Hlive.
  pose proof (adminSetTokenURI_succeeds sender tokenId uri s Hown Hlive) as Hs.
  eexists. split; [exact Hs|].
  split; [reflexivity|]. split; [reflexivity|]. split; [reflexivity|]. split.
  - intros t' Hd. cbn. now rewrite lookup_insert_ne.
  - intros user app Hl.
    assert (HI' : Inv (set_erc721 (set_uri tokenId uri (erc721 s)) s)).
    { eapply (d_settings_Inv sender s tt _ 0 0 tokenId uri 0 HI). eauto. }
    assert (Hne : tokenId <> 0).
    { intros ->. apply Hlive.
      destruct (decide (owner_of s 0 = 0)) as [|Hz]; [done|].
      apply (inv_ids _ HI) in Hz. lia. }
    assert (Hl' : lookup (set_erc721 (set_uri tokenId uri (erc721 s)) s) user (keccak256 app)
                  = tokenId) by exact Hl.
    rewrite d_checkLicense_live; [|exact HI'|rewrite Hl'; exact Hne].
    rewrite Hl'. cbn [erc721 set_erc721 _tokenURIs set_uri].
    rewrite lookup_insert_eq. reflexivity.
Qed.

(** X29.  Royalties outlive the token: a mintTo with a non-zero royalty
    receiver records the royalty of the new token, within the fee
    denominator, and since the contract does not override _burn neither
    burn nor revoke resets it; the entry of a token that is gone stays. *)
Theorem X29_royalties_outlive_the_token (sender to : N) (app uri : string) (exp : N)
    (rr bps : N) (s : State) (t : N) (s1 : State) :
  mintTo sender to app uri exp rr bps s = Ok (t, s1) -> rr <> 0 ->
  bps <= _feeDenominator /\
  _tokenRoyaltyInfo s1 !! t = Some (rr, bps) /\
  (forall holder u s2, burn holder t s1 = Ok (u, s2) ->
     owner_of s2 t = 0 /\ _tokenRoyaltyInfo s2 !! t = Some (rr, bps)) /\
  (forall caller u s2, revoke caller t s1 = Ok (u, s2) ->
     owner_of s2 t = 0 /\ _tokenRoyaltyInfo s2 !! t = Some (rr, bps)).
Proof.
  intros Hm Hrr.
  destruct (d_mintTo_inv _ _ _ _ _ _ _ _ _ _ Hm) as (_ & _ & _ & _ & _ & _ & _ & _ & Hroy & _).
  destruct (Hroy Hrr) as [Hb Hset].
  split; [exact Hb|]. split; [exact Hset|]. split.
  - intros holder u s2 Hburn.
    destruct (d_burn_royalty _ _ _ _ _ Hburn) as (_ & Hgone & Hkeep).
    split; [exact Hgone|]. rewrite Hkeep. exact Hset.
  - intros caller u s2 Hrev. pose proof (revoke_inv _ _ _ _ _ Hrev) as Hx.
    cbv zeta in Hx. destruct Hx as (_ & _ & Hgone & _ & _ & _ & _ & Hkeep & _).
    split; [exact Hgone|]. rewrite Hkeep. exact Hset.
Qed.
End FurtherDesign.

(** * The claims on the scenarios *)

#[local] Existing Instance Demo.host.

(** C1 as stated fails: after the displacement U2 holds the live token 2 for
    "demo" and the slot of U2 for "demo" is empty. *)
Lemma C1_counterexample :
  CollectibleLicenseNFT.owner_of Demo.displaced 2 = Demo.U2 /\
  CollectibleLicenseNFT.appId (CollectibleLicenseNFT.license_of Demo.displaced 2) = "demo" /\
  CollectibleLicenseNFT.lookup Demo.displaced Demo.U2 (keccak256 "demo") = 0 /\
  ~ CollectibleLicenseNFT.index_complete Demo.displaced.
Proof.
  split; [vm_compute; reflexivity|].
  split; [vm_compute; reflexivity|].
  split; [vm_compute; reflexivity|].
  intros Hc.
  assert (Hlive : CollectibleLicenseNFT.owner_of Demo.displaced 2 <> 0)
    by (vm_compute; discriminate).
  assert (Happ : nonempty (CollectibleLicenseNFT.appId
                             (CollectibleLicenseNFT.license_of Demo.displaced 2)) = true)
    by (vm_compute; reflexivity).
  pose proof (Hc 2 Hlive Happ) as Hentry.
  vm_compute in Hentry. discriminate Hentry.
Qed.

(** C2 as stated fails: U1 holds a perpetual licence whose application id is
    the empty string, the index lookup yields token 1, and the handler
    answers 400 instead of a credential. *)
Lemma C2_counterexample :
  AppBoundLicense.lookup Demo.ab_unnamed Demo.U1 (keccak256 "") = 1 /\
  AppBoundLicense.expiry (AppBoundLicense.license_of Demo.ab_unnamed 1) = 0 /\
  Backend.auth (Backend.AppBound_view Demo.ab_unnamed) 1700000000000 (Some Demo.U1) ""
    = Backend.status_400 "wallet and appId required".
Proof. repeat split; vm_compute; reflexivity. Qed.

(** C3 as stated fails: after the displacement U2 holds the live token 2 for
    "demo", and a further mint of "demo" to U2 returns token 3, on either
    contract. *)
Lemma C3_counterexample :
  (CollectibleLicenseNFT.owner_of Demo.displaced 2 = Demo.U2 /\
   CollectibleLicenseNFT.appId (CollectibleLicenseNFT.license_of Demo.displaced 2) = "demo" /\
   exists s',
     CollectibleLicenseNFT.mintCollectible Demo.admin Demo.U2 "ipfs://again" "demo" 0
       false false 0 0 Demo.displaced = Ok (3, s') /\
     CollectibleLicenseNFT.owner_of s' 2 = Demo.U2 /\
     CollectibleLicenseNFT.owner_of s' 3 = Demo.U2) /\
  (AppBoundLicense.owner_of Demo.ab_displaced 2 = Demo.U2 /\
   AppBoundLicense.appId (AppBoundLicense.license_of Demo.ab_displaced 2) = "demo" /\
   exists s',
     AppBoundLicense.mintTo Demo.admin Demo.U2 "demo" "ipfs://again" 0 Demo.ab_displaced
       = Ok (3, s') /\
     AppBoundLicense.owner_of s' 2 = Demo.U2 /\
     AppBoundLicense.owner_of s' 3 = Demo.U2).
Proof.
  split; (split; [|split]); try (vm_compute; reflexivity).
  all: eexists; split; [vm_compute; reflexivity|split; vm_compute; reflexivity].
Qed.

(** C4 as stated fails: a transfer of token 1 from U1 to U1 returns and the
    slot of U1 still holds token 1; and when U2 holds tokens 1 and 2 for
    "demo" with token 1 in the slot, the transfer of token 2 to U3 returns
    and the slot of U2 still holds token 1. *)
Lemma C4_counterexample :
  (exists s',
     transferFrom Demo.U1 Demo.U1 Demo.U1 1 Demo.licensed = Ok (tt, s') /\
     CollectibleLicenseNFT.lookup s' Demo.U1 (keccak256 "demo") = 1) /\
  (exists s',
     transferFrom Demo.U2 Demo.U2 Demo.U3 2 Demo.crowded = Ok (tt, s') /\
     CollectibleLicenseNFT.lookup s' Demo.U2 (keccak256 "demo") = 1).
Proof.
  split; eexists; (split; [vm_compute; reflexivity|vm_compute; reflexivity]).
Qed.

(** C1 on the ledgers where U1 and U2 each hold a licence for "demo" and
    nobody calls back: the index is sound and complete.  The displacement
    goes on with a transfer into the occupied slot of U2. *)
Lemma C1_witness :
  let s := CollectibleLicenseNFTR.run (R := Intruders.quiet) 0
             [Demo.mint_tx Demo.U1 "demo" false false; Demo.mint_tx Demo.U2 "demo" false false]
             (CollectibleLicenseNFT.constructor Demo.admin 10) in
  let s' := AppBoundLicenseR.run (R := Intruders.ab_quiet) 0
              [Demo.mintTo_tx Demo.U1 "demo" 0; Demo.mintTo_tx Demo.U2 "demo" 0]
              (AppBoundLicense.constructor Demo.admin) in
  (CollectibleLicenseNFT.no_dangling s /\ CollectibleLicenseNFT.no_duplicate s /\
   CollectibleLicenseNFT.index_complete s) /\
  (AppBoundLicense.no_dangling s' /\ AppBoundLicense.no_duplicate s' /\
   AppBoundLicense.index_complete s') /\
  CollectibleLicenseNFTR.undisplaced (R := Intruders.quiet) 0 Demo.displacement
    (CollectibleLicenseNFT.constructor Demo.admin 10) = false.
Proof.
  intros s s'. subst s s'.
  destruct C1_index_entries_are_sound as [Hcl Hab].
  split; [|split; [|vm_compute; reflexivity]].
  - destruct (Hcl Intruders.quiet 0%nat Demo.admin 10
                [Demo.mint_tx Demo.U1 "demo" false false;
                 Demo.mint_tx Demo.U2 "demo" false false]) as (Hd & Hu & Hc).
    + intros to operator from tokenId. exact I.
    + split; [exact Hd|]. split; [exact Hu|]. apply Hc. vm_compute. reflexivity.
  - destruct (Hab Intruders.ab_quiet 0%nat Demo.admin
                [Demo.mintTo_tx Demo.U1 "demo" 0; Demo.mintTo_tx Demo.U2 "demo" 0])
      as (Hd & Hu & Hc).
    + intros to operator from tokenId. exact I.
    + split; [exact Hd|]. split; [exact Hu|]. apply Hc. vm_compute. reflexivity.
Defined.

(** C2 on a live, perpetual licence, and on the slot that names a burned
    token. *)
Lemma C2_witness :
  (1700000000000 <= Backend.max_time_value)%Z /\
  (exists token,
     Backend.auth (Backend.AppBound_reads Demo.ab_licensed Demo.ab_licensed)
       1700000000000 (Some Demo.U1) "demo"
     = Backend.status_200 token 1 /\
     Backend.jwt_tokenId token = 1) /\
  Backend.auth (Backend.AppBound_reads Intruders.ab_orphaned Intruders.ab_orphaned)
    1700000000000 (Some Demo.U1) "demo"
  = Backend.status_500 "server error".
Proof.
  assert (Hnow : (1700000000000 <= Backend.max_time_value)%Z) by (vm_compute; discriminate).
  split; [exact Hnow|]. split.
  - destruct (C2_issueAccess_follows_the_index Demo.ab_licensed Demo.ab_licensed
                Demo.U1 "demo" 1700000000000 Hnow) as (_ & _ & Hgo & _).
    destruct (Hgo eq_refl) as (_ & _ & _ & Hlive).
    apply Hlive.
    + vm_compute. discriminate.
    + right. vm_compute. discriminate.
    + left. vm_compute. reflexivity.
  - destruct (C2_issueAccess_follows_the_index Intruders.ab_orphaned Intruders.ab_orphaned
                Demo.U1 "demo" 1700000000000 Hnow) as (_ & _ & Hgo & _).
    destruct (Hgo eq_refl) as (_ & Hdead & _).
    apply Hdead.
    + vm_compute. discriminate.
    + vm_compute. discriminate.
    + vm_compute. reflexivity.
Defined.

(** C3 on a second mint of "demo" to U1: by mintTo, whatever U1 would do
    when called, and by mintCollectible when U1 does not call back. *)
Lemma C3_witness :
  AppBoundLicense.lookup Demo.ab_licensed Demo.U1 (keccak256 "demo") <> 0 /\
  AppBoundLicenseR.mintTo (R := Intruders.ab_forwarder)
    (AppBoundLicenseR.dispatch (R := Intruders.ab_forwarder) 0)
    Demo.admin Demo.U1 "demo" "ipfs://again" 0 Demo.ab_licensed
  = Revert (Error "ALREADY_OWN_THIS_APP") /\
  CollectibleLicenseNFTR.mintCollectible (R := Intruders.quiet)
    (CollectibleLicenseNFTR.dispatch (R := Intruders.quiet) 0 false)
    Demo.admin Demo.U1 "ipfs://again" "demo" 0 false false 0 0 Demo.licensed
  = Revert (Error "User already owns this app").
Proof.
  assert (Hocc : AppBoundLicense.lookup Demo.ab_licensed Demo.U1 (keccak256 "demo") <> 0)
    by (vm_compute; discriminate).
  destruct C3_mint_into_an_occupied_slot_is_rejected as (Hab & Hcl).
  split; [exact Hocc|]. split.
  - destruct (Hab Intruders.ab_forwarder
                (AppBoundLicenseR.dispatch (R := Intruders.ab_forwarder) 0)
                Demo.ab_licensed Demo.admin Demo.U1 "demo" "ipfs://again" 0 Hocc)
      as (_ & _ & Hmsg).
    apply Hmsg. vm_compute. reflexivity.
  - destruct (Hcl Intruders.quiet
                (CollectibleLicenseNFTR.dispatch (R := Intruders.quiet) 0 false)
                Demo.licensed Demo.admin Demo.U1 "ipfs://again" "demo" 0 false false 0 0)
      as (_ & _ & Hmsg).
    + intros operator from tokenId. exact I.
    + reflexivity.
    + vm_compute. discriminate.
    + apply Hmsg.
      * intros operator from tokenId. reflexivity.
      * vm_compute. reflexivity.
      * vm_compute. reflexivity.
      * vm_compute. reflexivity.
      * vm_compute. discriminate.
      * vm_compute. reflexivity.
      * reflexivity.
Defined.

(** C4 on the transfer of token 1 from U1 to U2, whose slot holds token 2,
    by transferFrom and by safeTransferFrom. *)
Lemma C4_witness :
  CollectibleLicenseNFT.lookup Demo.both_licensed Demo.U2 (keccak256 "demo") = 2 /\
  exists s',
    transferFrom Demo.U1 Demo.U1 Demo.U2 1 Demo.both_licensed = Ok (tt, s') /\
    CollectibleLicenseNFT.lookup s' Demo.U2 (keccak256 "demo") = 1 /\
    CollectibleLicenseNFT.lookup s' Demo.U1 (keccak256 "demo") = 0 /\
    Callbacks.safeTransferFrom (H1 := Intruders.quiet)
      (CollectibleLicenseNFTR.dispatch (R := Intruders.quiet) 0 false)
      Demo.U1 Demo.U1 Demo.U2 1 Demo.both_licensed = Ok (tt, s').
Proof.
  split; [vm_compute; reflexivity|].
  destruct C4_transfer_rewrites_the_index as (Hgo & Hidx & _ & _ & Hsafe & _).
  destruct (Hgo Demo.both_licensed Demo.U1 Demo.U1 Demo.U2 1) as [s' Hs'].
  - vm_compute. reflexivity.
  - vm_compute. reflexivity.
  - vm_compute. discriminate.
  - vm_compute. reflexivity.
  - exists s'. split; [exact Hs'|].
    destruct (Hidx _ _ _ _ _ _ _ Hs') as (Hto & Hclr & _).
    + vm_compute. reflexivity.
    + split; [exact Hto|]. split.
      * apply Hclr; [vm_compute; discriminate|vm_compute; reflexivity].
      * destruct (Hsafe Intruders.quiet
                    (CollectibleLicenseNFTR.dispatch (R := Intruders.quiet) 0 false)
                    Demo.both_licensed Demo.U1 Demo.U1 Demo.U2 1 tt s') as (_ & Hquiet & _).
        apply Hquiet; [intros operator from tokenId; reflexivity|].
        split; [exact Hs'|reflexivity].
Defined.

(** C5 on the soulbound token 1 of U1. *)
Lemma C5_witness :
  CollectibleLicenseNFT.soulbound (CollectibleLicenseNFT.license_of Demo.bound 1) = true /\
  transferFrom Demo.U1 Demo.U1 Demo.U2 1 Demo.bound = Revert (Error "Token is soulbound") /\
  commit (transferFrom Demo.U1 Demo.U1 Demo.U2 1) Demo.bound = Demo.bound.
Proof.
  assert (Hsb : CollectibleLicenseNFT.soulbound
                  (CollectibleLicenseNFT.license_of Demo.bound 1) = true)
    by (vm_compute; reflexivity).
  assert (H1 : Demo.U1 <> 0) by (vm_compute; discriminate).
  assert (H2 : Demo.U2 <> 0) by (vm_compute; discriminate).
  destruct (C5_soulbound_transfer_is_rejected Demo.bound 1 Demo.U1 Demo.U2 Hsb H1 H2)
    as (_ & Hany & _ & Hholder).
  split; [exact Hsb|]. split.
  - assert (Hown : CollectibleLicenseNFT.owner_of Demo.bound 1 = Demo.U1)
      by (vm_compute; reflexivity).
    destruct (Hholder Hown) as (Ht & _). exact Ht.
  - destruct (Hany Demo.U1) as (_ & Hsame & _). exact Hsame.
Defined.

(** C6 on the ephemeral token 1 of U1. *)
Lemma C6_witness :
  CollectibleLicenseNFT.owner_of Demo.ephemeral_licensed 1 = Demo.U1 /\
  exists s',
    CollectibleLicenseNFT.redeem Demo.U1 1 Demo.ephemeral_licensed = Ok (tt, s') /\
    CollectibleLicenseNFT.is_redeemed s' 1 = true /\
    CollectibleLicenseNFT.redeem Demo.U1 1 s' = Revert (Error "Already redeemed").
Proof.
  assert (Hown : CollectibleLicenseNFT.owner_of Demo.ephemeral_licensed 1 = Demo.U1)
    by (vm_compute; reflexivity).
  assert (H1 : Demo.U1 <> 0) by (vm_compute; discriminate).
  assert (Heph : CollectibleLicenseNFT.ephemeral
                   (CollectibleLicenseNFT.license_of Demo.ephemeral_licensed 1) = true)
    by (vm_compute; reflexivity).
  assert (Hnew : CollectibleLicenseNFT.is_redeemed Demo.ephemeral_licensed 1 = false)
    by (vm_compute; reflexivity).
  destruct (C6_redeem_once Demo.ephemeral_licensed 1 Demo.U1 Hown H1) as (Hfirst & _ & _).
  destruct (Hfirst Heph Hnew) as (s' & Hok & Hflag & Hagain & _).
  split; [exact Hown|].
  exists s'. split; [exact Hok|]. split; [exact Hflag|exact Hagain].
Defined.


(** C8 on a deployment of one token that is sold out. *)
Lemma C8_witness :
  CollectibleLicenseNFT.MAX_SUPPLY Demo.sold_out
    <= CollectibleLicenseNFT.nextTokenId Demo.sold_out /\
  CollectibleLicenseNFT.mintCollectible Demo.admin Demo.U2 "ipfs://license" "demo" 0
    false false 0 0 Demo.sold_out = Revert (Error "Max supply reached") /\
  commit (CollectibleLicenseNFT.mintCollectible Demo.admin Demo.U2 "ipfs://license" "demo" 0
            false false 0 0) Demo.sold_out = Demo.sold_out.
Proof.
  assert (Hfull : CollectibleLicenseNFT.MAX_SUPPLY Demo.sold_out
                  <= CollectibleLicenseNFT.nextTokenId Demo.sold_out)
    by (vm_compute; discriminate).
  destruct C8_capacity_is_never_exceeded as (Hcap & _).
  destruct (Hcap Demo.sold_out Hfull) as (Hmint & _).
  destruct (Hmint Demo.admin Demo.U2 "ipfs://license" "demo" 0 false false 0 0)
    as (_ & Hsame & Hmsg).
  split; [exact Hfull|]. split; [|exact Hsame].
  apply Hmsg. vm_compute. reflexivity.
Defined.

(** C9 on a batch of one recipient and no uri. *)
Lemma C9_witness :
  CollectibleLicenseNFT.batchMint Demo.admin [Demo.U1] [] ["demo"] [0] [false] [false] [0] [0]
    Demo.collectible = Revert (Error "Array length mismatch") /\
  commit (CollectibleLicenseNFT.batchMint Demo.admin [Demo.U1] [] ["demo"] [0] [false] [false]
            [0] [0]) Demo.collectible = Demo.collectible.
Proof.
  destruct (C9_batchMint_checks_the_lengths_first Demo.collectible Demo.admin
              [Demo.U1] [] ["demo"] [0] [false] [false] [0] [0])
    as (_ & Hsame & Hmsg).
  - unfold CollectibleLicenseNFT.same_lengths. cbn. intros (Hl & _). discriminate.
  - split; [|exact Hsame]. apply Hmsg. vm_compute. reflexivity.
Defined.

(** C10 on three mints without an application id to U1. *)
Lemma C10_witness :
  let s := CollectibleLicenseNFT.run
             (replicate 3 (CollectibleLicenseNFT.blank_mint Demo.admin Demo.U1))
             (CollectibleLicenseNFT.constructor Demo.admin 10) in
  CollectibleLicenseNFT.owner_of s 1 = Demo.U1 /\
  CollectibleLicenseNFT.owner_of s 2 = Demo.U1 /\
  CollectibleLicenseNFT.owner_of s 3 = Demo.U1 /\
  CollectibleLicenseNFT.lookup s Demo.U1 (keccak256 "") = 0 /\
  Backend.auth (Backend.Collectible_view s) 1700000000000 (Some Demo.U1) "demo"
    = Backend.status_403 "No license for this wallet & appId".
Proof.
  intros s.
  destruct C10_mints_without_an_application_id as (_ & _ & Hmany).
  assert (Hmax : 10 < uint256_limit) by (vm_compute; reflexivity).
  assert (Hn : N.of_nat 3 <= 10) by (vm_compute; discriminate).
  assert (Hto : Demo.U1 <> 0) by (vm_compute; discriminate).
  assert (Hacc : forall tokenId, onERC721Received Demo.U1 Demo.admin 0 tokenId = true)
    by (intros tokenId; reflexivity).
  pose proof (Hmany Demo.admin 10 Demo.U1 3%nat Hmax Hn Hto Hacc) as Hs.
  cbv zeta in Hs. fold s in Hs. destruct Hs as (Hown & Hzero & Hauth).
  split; [apply Hown; vm_compute; split; discriminate|].
  split; [apply Hown; vm_compute; split; discriminate|].
  split; [apply Hown; vm_compute; split; discriminate|].
  split; [apply Hzero|].
  apply Hauth. reflexivity.
Defined.

(** ** The scenarios of the specification *)

(** Scenario A: the first mint returns token 1, access is issued for it, and
    a second mint of the same application to U1 is refused. *)
Example scenario_A :
  AppBoundLicense.mintTo Demo.admin Demo.U1 "demo" "ipfs://license" 0 Demo.appbound
    = Ok (1, Demo.ab_licensed) /\
  Backend.auth (Backend.AppBound_view Demo.ab_licensed) 1700000000000 (Some Demo.U1) "demo"
    = Backend.status_200 (Backend.token_for 1700000000000 Demo.U1 "demo" 1) 1 /\
  AppBoundLicense.mintTo Demo.admin Demo.U1 "demo" "ipfs://license" 0 Demo.ab_licensed
    = Revert (Error "ALREADY_OWN_THIS_APP").
Proof.
  split; [vm_compute; reflexivity|]. split; vm_compute; reflexivity.
Qed.

(** Scenario B: after the transfer U1 has no licence and U2 is issued access
    for token 1. *)
Example scenario_B :
  Backend.auth (Backend.AppBound_view Demo.ab_transferred) 1700000000000 (Some Demo.U1) "demo"
    = Backend.status_403 "No license for this wallet & appId" /\
  Backend.auth (Backend.AppBound_view Demo.ab_transferred) 1700000000000 (Some Demo.U2) "demo"
    = Backend.status_200 (Backend.token_for 1700000000000 Demo.U2 "demo" 1) 1.
Proof. split; vm_compute; reflexivity. Qed.

(** Scenario C: the first redeem of an ephemeral token goes through, the
    second is refused. *)
Example scenario_C :
  CollectibleLicenseNFT.redeem Demo.U1 1 Demo.ephemeral_licensed
    = Ok (tt, CollectibleLicenseNFT.redeemed_state Demo.U1 1 Demo.ephemeral_licensed) /\
  CollectibleLicenseNFT.redeem Demo.U1 1
    (CollectibleLicenseNFT.redeemed_state Demo.U1 1 Demo.ephemeral_licensed)
    = Revert (Error "Already redeemed").
Proof. split; vm_compute; reflexivity. Qed.

(** Scenario D: a licence that lapsed is still in the registry and in the
    index, and access is refused. *)
Example scenario_D :
  AppBoundLicense.lookup Demo.ab_lapsed Demo.U1 (keccak256 "demo") = 1 /\
  AppBoundLicense.owner_of Demo.ab_lapsed 1 = Demo.U1 /\
  Backend.auth (Backend.AppBound_view Demo.ab_lapsed) 1700000000000 (Some Demo.U1) "demo"
    = Backend.status_403 "License expired".
Proof.
  split; [vm_compute; reflexivity|]. split; vm_compute; reflexivity.
Qed.

(** * Recipients that call back, on the scenarios *)

(** U1 forwards the AppBoundLicense token to U2 while mintTo calls it.  The
    transfer finds no licence record yet, so it writes the slot of U2 for
    the empty application; mintTo then writes the slot of U1.  Token 1 is
    held by U2 and named by two entries, one of them of U1, to whom the
    handler issues a credential.  Once U2 has burned the token the slot of
    U1 still names it, checkLicense reverts and the handler answers 500. *)
Example forwarding_recipient_breaks_the_index :
  AppBoundLicenseR.dispatch (R := Intruders.ab_forwarder) 1
    (Demo.mintTo_tx Demo.U1 "demo" 0) Demo.appbound = Ok (tt, Intruders.ab_forwarded) /\
  AppBoundLicense.owner_of Intruders.ab_forwarded 1 = Demo.U2 /\
  AppBoundLicense.lookup Intruders.ab_forwarded Demo.U1 (keccak256 "demo") = 1 /\
  AppBoundLicense.lookup Intruders.ab_forwarded Demo.U2 (keccak256 "") = 1 /\
  ~ AppBoundLicense.no_dangling Intruders.ab_forwarded /\
  ~ AppBoundLicense.no_duplicate Intruders.ab_forwarded /\
  Backend.auth (Backend.AppBound_view Intruders.ab_forwarded) 1700000000000
    (Some Demo.U1) "demo"
  = Backend.status_200 (Backend.token_for 1700000000000 Demo.U1 "demo" 1) 1 /\
  AppBoundLicense.owner_of Intruders.ab_orphaned 1 = 0 /\
  AppBoundLicense.lookup Intruders.ab_orphaned Demo.U1 (keccak256 "demo") = 1 /\
  AppBoundLicense.checkLicense Demo.U1 "demo" Intruders.ab_orphaned
  = Revert (Error "ERC721: invalid token ID") /\
  Backend.auth (Backend.AppBound_view Intruders.ab_orphaned) 1700000000000
    (Some Demo.U1) "demo"
  = Backend.status_500 "server error".
Proof.
  split; [vm_compute; reflexivity|]. split; [vm_compute; reflexivity|].
  split; [vm_compute; reflexivity|]. split; [vm_compute; reflexivity|].
  split.
  { intros Hd.
    destruct (Hd Demo.U1 (keccak256 "demo") 1) as (Ho & _).
    - vm_compute. reflexivity.
    - discriminate.
    - vm_compute in Ho. discriminate Ho. }
  split.
  { intros Hd.
    destruct (Hd Demo.U1 (keccak256 "demo") Demo.U2 (keccak256 "") 1) as (Ho & _).
    - vm_compute. reflexivity.
    - vm_compute. reflexivity.
    - discriminate.
    - vm_compute in Ho. discriminate Ho. }
  split; [vm_compute; reflexivity|]. split; [vm_compute; reflexivity|].
  split; [vm_compute; reflexivity|]. split; vm_compute; reflexivity.
Qed.

(** U1 forwards a soulbound CollectibleLicenseNFT token to U2 while
    mintCollectible calls it: the hook finds no licence record yet and lets
    the token go.  The token is soulbound, held by U2, and named by the
    slot of U1. *)
Example forwarding_recipient_of_a_soulbound_token :
  CollectibleLicenseNFTR.dispatch (R := Intruders.forwarder) 1 false
    (Demo.mint_tx Demo.U1 "demo" true false) Demo.collectible
  = Ok (tt, Intruders.forwarded) /\
  CollectibleLicenseNFT.soulbound (CollectibleLicenseNFT.license_of Intruders.forwarded 1)
  = true /\
  CollectibleLicenseNFT.owner_of Intruders.forwarded 1 = Demo.U2 /\
  CollectibleLicenseNFT.lookup Intruders.forwarded Demo.U1 (keccak256 "demo") = 1 /\
  CollectibleLicenseNFT.lookup Intruders.forwarded Demo.U2 (keccak256 "demo") = 0 /\
  ~ CollectibleLicenseNFT.no_dangling Intruders.forwarded.
Proof.
  split; [vm_compute; reflexivity|]. split; [vm_compute; reflexivity|].
  split; [vm_compute; reflexivity|]. split; [vm_compute; reflexivity|].
  split; [vm_compute; reflexivity|].
  intros Hd.
  destruct (Hd Demo.U1 (keccak256 "demo") 1) as (Ho & _).
  - vm_compute. reflexivity.
  - discriminate.
  - vm_compute in Ho. discriminate Ho.
Qed.

(** U1 holds token 1 for "demo" and burns it while a second mintCollectible
    of "demo" calls it: the slot is empty when the mint checks it, and the
    mint returns token 2. *)
Example emptying_recipient_gets_a_second_licence :
  CollectibleLicenseNFT.lookup Demo.licensed Demo.U1 (keccak256 "demo") = 1 /\
  exists s',
    CollectibleLicenseNFTR.mintCollectible (R := Intruders.emptier)
      (CollectibleLicenseNFTR.dispatch (R := Intruders.emptier) 0 false)
      Demo.admin Demo.U1 "ipfs://again" "demo" 0 false false 0 0 Demo.licensed
    = Ok (2, s') /\
    CollectibleLicenseNFT.owner_of s' 1 = 0 /\
    CollectibleLicenseNFT.owner_of s' 2 = Demo.U1 /\
    CollectibleLicenseNFT.lookup s' Demo.U1 (keccak256 "demo") = 2.
Proof.
  split; [vm_compute; reflexivity|].
  eexists. split; [vm_compute; reflexivity|].
  split; [vm_compute; reflexivity|]. split; vm_compute; reflexivity.
Qed.

(** U1 burns the token it is being given: every check of mintCollectible
    passes, the recipient accepts, and the mint reverts when it sets the
    URI. *)
Example shredding_recipient_fails_the_mint :
  CollectibleLicenseNFTR.mintCollectible (R := Intruders.shredder)
    (CollectibleLicenseNFTR.dispatch (R := Intruders.shredder) 0 false)
    Demo.admin Demo.U1 "ipfs://license" "demo" 0 false false 0 0 Demo.collectible
  = Revert (Error "ERC721URIStorage: URI set of nonexistent token").
Proof. vm_compute. reflexivity. Qed.

(** U1 holds MINTER_ROLE, open minting is on, and U1 burns token 1 when it
    is given another token.  Its openMint reverts, because burn finds the
    guard set; its mintCollectible to itself returns. *)
Example openMint_is_guarded :
  CollectibleLicenseNFTR.dispatch (R := Intruders.emptier) 1 false
    {| CollectibleLicenseNFT.msg_sender := Demo.U1;
       CollectibleLicenseNFT.msg_call :=
         CollectibleLicenseNFT.call_openMint "ipfs://license" "other" 0 false false [] |}
    Intruders.open_house
  = Revert (Error "ReentrancyGuard: reentrant call") /\
  exists s',
    CollectibleLicenseNFTR.dispatch (R := Intruders.emptier) 1 false
      {| CollectibleLicenseNFT.msg_sender := Demo.U1;
         CollectibleLicenseNFT.msg_call :=
           CollectibleLicenseNFT.call_mintCollectible Demo.U1 "ipfs://license" "other" 0
             false false 0 0 |}
      Intruders.open_house
    = Ok (tt, s') /\
    CollectibleLicenseNFT.owner_of s' 1 = 0 /\
    CollectibleLicenseNFT.owner_of s' 2 = Demo.U1.
Proof.
  split; [vm_compute; reflexivity|].
  eexists. split; [vm_compute; reflexivity|]. split; vm_compute; reflexivity.
Qed.

(** U3 hands token 1 to U1 with safeTransferFrom and U1 forwards it to U2
    while it is called: the call returns, U2 holds the token, and the slot
    of U1, the destination, is empty. *)
Example forwarding_recipient_of_a_safe_transfer :
  exists s',
    CollectibleLicenseNFTR.dispatch (R := Intruders.forwarder) 1 false
      (Intruders.safe_transfer_tx Demo.U3 Demo.U1 1) Intruders.licensed_U3
    = Ok (tt, s') /\
    CollectibleLicenseNFT.owner_of s' 1 = Demo.U2 /\
    CollectibleLicenseNFT.lookup s' Demo.U1 (keccak256 "demo") = 0 /\
    CollectibleLicenseNFT.lookup s' Demo.U2 (keccak256 "demo") = 1.
Proof.
  eexists. split; [vm_compute; reflexivity|].
  split; [vm_compute; reflexivity|]. split; vm_compute; reflexivity.
Qed.

(** * The further properties on the scenarios *)

(** X1 on the soulbound token of U1: burning it goes through. *)
Lemma X1_witness :
  CollectibleLicenseNFT.soulbound (CollectibleLicenseNFT.license_of Demo.bound 1) = true /\
  exists s',
    CollectibleLicenseNFT.burn Demo.U1 1 Demo.bound = Ok (tt, s') /\
    CollectibleLicenseNFT.owner_of s' 1 = 0 /\
    CollectibleLicenseNFT.licenses s' = delete 1 (CollectibleLicenseNFT.licenses Demo.bound).
Proof.
  split; [vm_compute; reflexivity|].
  assert (Hown : CollectibleLicenseNFT.owner_of Demo.bound 1 = Demo.U1)
    by (vm_compute; reflexivity).
  assert (Hne : Demo.U1 <> 0) by (vm_compute; discriminate).
  assert (Happ : nonempty (CollectibleLicenseNFT.appId
                             (CollectibleLicenseNFT.license_of Demo.bound 1)) = true)
    by (vm_compute; reflexivity).
  destruct (X1_collectible_burn_releases_the_token Demo.bound Demo.U1 1 Hown Hne)
    as (s' & Hb & Hgone & _ & _ & _ & _ & Hlic & _).
  exists s'. split; [exact Hb|]. split; [exact Hgone|].
  destruct (Hlic Happ) as [Hl _]. exact Hl.
Defined.

(** X2 on the licence of U1: U2 cannot burn it, and token 5 does not exist. *)
Lemma X2_witness :
  CollectibleLicenseNFT.burn Demo.U2 1 Demo.licensed = Revert (Error "Not owner") /\
  CollectibleLicenseNFT.burn Demo.U1 5 Demo.licensed
  = Revert (Error "ERC721: invalid token ID").
Proof.
  split.
  - destruct (X2_collectible_burn_is_for_the_holder Demo.licensed Demo.U2 1) as (_ & Hno & _).
    apply Hno; vm_compute; discriminate.
  - destruct (X2_collectible_burn_is_for_the_holder Demo.licensed Demo.U1 5) as (Hmiss & _).
    apply Hmiss. vm_compute. reflexivity.
Defined.

(** X3 on the redeemed token of U1, handed to U2 and burned. *)
Lemma X3_witness :
  CollectibleLicenseNFT.is_redeemed Scenes.redeemed_once 1 = true /\
  CollectibleLicenseNFT.owner_of
    (CollectibleLicenseNFT.run Scenes.passed_on Scenes.redeemed_once) 1 = 0 /\
  CollectibleLicenseNFT.is_redeemed
    (CollectibleLicenseNFT.run Scenes.passed_on Scenes.redeemed_once) 1 = true.
Proof.
  assert (Hr : CollectibleLicenseNFT.is_redeemed Scenes.redeemed_once 1 = true)
    by (vm_compute; reflexivity).
  split; [exact Hr|]. split; [vm_compute; reflexivity|].
  exact (X3_redeemed_is_permanent Scenes.passed_on Scenes.redeemed_once 1 Hr).
Defined.

(** X4 on the burned token 1: the next mint to U1 gets id 2. *)
Lemma X4_witness :
  let s' := CollectibleLicenseNFT.run [Demo.mint_tx Demo.U1 "demo" false false]
              Scenes.spent in
  CollectibleLicenseNFT.owner_of s' 1 = 0 /\
  CollectibleLicenseNFT.owner_of s' 2 = Demo.U1.
Proof.
  intros s'.
  assert (Hd : CollectibleLicenseNFT.owner_of Scenes.spent 1 = 0)
    by (vm_compute; reflexivity).
  assert (Hold : 1 <= CollectibleLicenseNFT.nextTokenId Scenes.spent)
    by (vm_compute; discriminate).
  destruct (X4_a_burned_id_is_never_reissued [Demo.mint_tx Demo.U1 "demo" false false]
              Scenes.spent 1 Hd Hold) as [Hdead _].
  split; [exact Hdead|]. vm_compute. reflexivity.
Defined.

(** X5 on the soulbound token of U1 after an attempt to hand it on. *)
Lemma X5_witness :
  let s' := CollectibleLicenseNFT.run Scenes.bound_history Demo.bound in
  CollectibleLicenseNFT.license_of s' 1 = CollectibleLicenseNFT.license_of Demo.bound 1 /\
  CollectibleLicenseNFT.owner_of s' 1 = Demo.U1.
Proof.
  intros s'.
  assert (HI : CollectibleLicenseNFT.Inv 10 Demo.bound).
  { unfold Demo.bound, Demo.collectible. apply CollectibleProofs.reachable_Inv. }
  assert (Hl : CollectibleLicenseNFT.owner_of Demo.bound 1 <> 0)
    by (vm_compute; discriminate).
  destruct (X5_licence_terms_are_fixed 10 Scenes.bound_history Demo.bound 1 HI Hl)
    as [Hdead|[Hlic Hsb]].
  - exfalso. vm_compute in Hdead. discriminate Hdead.
  - split; [exact Hlic|]. fold s' in Hsb. rewrite Hsb; vm_compute; reflexivity.
Defined.

(** X6 on the attempts of U1 against the fresh deployment. *)
Lemma X6_witness :
  CollectibleLicenseNFT.nextTokenId
    (CollectibleLicenseNFT.run Scenes.intrusion Demo.collectible) = 0 /\
  CollectibleLicenseNFT.openMinting
    (CollectibleLicenseNFT.run Scenes.intrusion Demo.collectible) = false.
Proof.
  assert (Hall : Forall (fun tx => CollectibleLicenseNFT.msg_sender tx <> Demo.admin)
                   Scenes.intrusion).
  { unfold Scenes.intrusion. repeat constructor; vm_compute; discriminate. }
  pose proof (X6_nothing_is_minted_without_the_deployer Demo.admin 10 Scenes.intrusion Hall)
    as Hx.
  cbv zeta in Hx. destruct Hx as (Hn & _ & Hopen & _).
  split; [exact Hn|exact Hopen].
Defined.


(** X8 on a mint to U2 with a royalty for U3. *)
Lemma X8_witness :
  exists s',
    CollectibleLicenseNFTR.mintCollectible (R := Intruders.quiet)
      (CollectibleLicenseNFTR.dispatch (R := Intruders.quiet) 0 false)
      Demo.admin Demo.U2 "ipfs://license" "demo" 0 false false Demo.U3 500 Demo.licensed
    = Ok (2, s') /\
    CollectibleLicenseNFT.owner_of s' 2 = Demo.U2 /\
    CollectibleLicenseNFT.owner_of s' 1 = CollectibleLicenseNFT.owner_of Demo.licensed 1.
Proof.
  assert (Hm : exists s',
             CollectibleLicenseNFTR.mintCollectible (R := Intruders.quiet)
               (CollectibleLicenseNFTR.dispatch (R := Intruders.quiet) 0 false)
               Demo.admin Demo.U2 "ipfs://license" "demo" 0 false false Demo.U3 500
               Demo.licensed = Ok (2, s'))
    by (eexists; vm_compute; reflexivity).
  destruct Hm as [s' Hm]. exists s'. split; [exact Hm|].
  destruct (X8_what_a_mint_went_through _ _ _ _ _ _ _ _ _ _ _ _ _ _ Hm) as (_ & _ & Hquiet).
  destruct Hquiet as (_ & Hown & _ & _ & _ & Hoth & _).
  - intros operator from tokenId. exact I.
  - split; [exact Hown|]. apply Hoth. discriminate.
Defined.

(** X9 on U1, a minter, with open minting on and no allowlist. *)
Lemma X9_witness :
  CollectibleLicenseNFTR.nonReentrant false
    (CollectibleLicenseNFTR.openMint (R := Intruders.quiet)
       (CollectibleLicenseNFTR.dispatch (R := Intruders.quiet) 0 true)
       Demo.U1 "ipfs://license" "other" 0 false false []) Intruders.open_house
  = CollectibleLicenseNFTR.mintCollectible (R := Intruders.quiet)
      (CollectibleLicenseNFTR.dispatch (R := Intruders.quiet) 0 false)
      Demo.U1 Demo.U1 "ipfs://license" "other" 0 false false 0 0 Intruders.open_house /\
  CollectibleLicenseNFTR.nonReentrant true
    (CollectibleLicenseNFTR.openMint (R := Intruders.quiet)
       (CollectibleLicenseNFTR.dispatch (R := Intruders.quiet) 0 true)
       Demo.U1 "ipfs://license" "other" 0 false false []) Intruders.open_house
  = Revert (Error "ReentrancyGuard: reentrant call").
Proof.
  split.
  - destruct (X9_the_gates_of_openMint Intruders.quiet
                (CollectibleLicenseNFTR.dispatch (R := Intruders.quiet) 0 true)
                (CollectibleLicenseNFTR.dispatch (R := Intruders.quiet) 0 false)
                false Demo.U1 "ipfs://license" "other" 0 false false []
                Intruders.open_house) as (_ & _ & _ & _ & Hsame).
    apply Hsame.
    + reflexivity.
    + vm_compute. reflexivity.
    + vm_compute. reflexivity.
    + vm_compute. reflexivity.
    + intros operator from tokenId. exact I.
  - destruct (X9_the_gates_of_openMint Intruders.quiet
                (CollectibleLicenseNFTR.dispatch (R := Intruders.quiet) 0 true)
                (CollectibleLicenseNFTR.dispatch (R := Intruders.quiet) 0 false)
                true Demo.U1 "ipfs://license" "other" 0 false false []
                Intruders.open_house) as (Hguard & _).
    apply Hguard. reflexivity.
Defined.

(** X10 on a batch for U1 and U2. *)
Lemma X10_witness :
  exists s',
    CollectibleLicenseNFTR.batchMint (R := Intruders.quiet)
      (CollectibleLicenseNFTR.dispatch (R := Intruders.quiet) 0 false)
      Demo.admin [Demo.U1; Demo.U2] ["ipfs://a"; "ipfs://b"]
      ["demo"; "demo"] [0; 0] [false; false] [false; false] [0; 0] [0; 0]
      Demo.collectible = Ok (tt, s') /\
    CollectibleLicenseNFT.nextTokenId s' = 2 /\
    CollectibleLicenseNFT.owner_of s' 1 = Demo.U1 /\
    CollectibleLicenseNFT.owner_of s' 2 = Demo.U2.
Proof.
  assert (Hm : exists s',
             CollectibleLicenseNFTR.batchMint (R := Intruders.quiet)
               (CollectibleLicenseNFTR.dispatch (R := Intruders.quiet) 0 false)
               Demo.admin [Demo.U1; Demo.U2]
               ["ipfs://a"; "ipfs://b"] ["demo"; "demo"] [0; 0] [false; false]
               [false; false] [0; 0] [0; 0] Demo.collectible = Ok (tt, s'))
    by (eexists; vm_compute; reflexivity).
  destruct Hm as [s' Hm]. exists s'. split; [exact Hm|].
  assert (Hquiet : Forall (@Callbacks.quiet _ _ Intruders.quiet) [Demo.U1; Demo.U2]).
  { apply Forall_forall. intros to _ operator from tokenId. exact I. }
  destruct (X10_batchMint_mints_in_order _ _ _ _ _ _ _ _ _ _ _ _ _ _ Hquiet Hm)
    as (_ & _ & Hn & Hown).
  split; [exact Hn|]. split.
  - exact (proj2 (Hown 0%nat Demo.U1 eq_refl)).
  - exact (proj2 (Hown 1%nat Demo.U2 eq_refl)).
Defined.

(** X11 on a batch that names U1 twice for "demo". *)
Lemma X11_witness :
  reverted (CollectibleLicenseNFTR.batchMint (R := Intruders.quiet)
              (CollectibleLicenseNFTR.dispatch (R := Intruders.quiet) 0 false)
              Demo.admin [Demo.U1; Demo.U1]
              ["ipfs://a"; "ipfs://b"] ["demo"; "demo"] [0; 0] [false; false]
              [false; false] [0; 0] [0; 0]) Demo.collectible.
Proof.
  assert (Hij : 0%nat <> 1%nat) by discriminate.
  assert (Hquiet : Forall (@Callbacks.quiet _ _ Intruders.quiet) [Demo.U1; Demo.U1]).
  { apply Forall_forall. intros to _ operator from tokenId. exact I. }
  destruct (X11_batchMint_rejects_repeated_entries Intruders.quiet
              (CollectibleLicenseNFTR.dispatch (R := Intruders.quiet) 0 false)
              Demo.admin [Demo.U1; Demo.U1]
              ["ipfs://a"; "ipfs://b"] ["demo"; "demo"] [0; 0] [false; false]
              [false; false] [0; 0] [0; 0] Demo.collectible 0 1 Demo.U1 "demo"
              Hquiet Hij eq_refl eq_refl eq_refl eq_refl eq_refl) as [Hrev _].
  exact Hrev.
Defined.

(** X12 on the first mint to U1, burned again. *)
Lemma X12_witness :
  exists s1 s2,
    CollectibleLicenseNFTR.mintCollectible (R := Intruders.quiet)
      (CollectibleLicenseNFTR.dispatch (R := Intruders.quiet) 0 false)
      Demo.admin Demo.U1 "ipfs://license" "demo" 0 false false 0 0 Demo.collectible
    = Ok (1, s1) /\
    CollectibleLicenseNFT.burn Demo.U1 1 s1 = Ok (tt, s2) /\
    CollectibleLicenseNFT.lookup s2 Demo.U1 (keccak256 "demo") = 0 /\
    CollectibleLicenseNFT.nextTokenId s2 = 1.
Proof.
  assert (Hm : exists s1,
             CollectibleLicenseNFTR.mintCollectible (R := Intruders.quiet)
               (CollectibleLicenseNFTR.dispatch (R := Intruders.quiet) 0 false)
               Demo.admin Demo.U1 "ipfs://license" "demo" 0 false false 0 0
               Demo.collectible = Ok (1, s1))
    by (eexists; vm_compute; reflexivity).
  destruct Hm as [s1 Hm].
  assert (Hquiet : @Callbacks.quiet _ _ Intruders.quiet Demo.U1).
  { intros operator from tokenId. exact I. }
  destruct (X12_mint_then_burn _ _ _ _ _ _ _ _ _ _ _ _ _ _ Hquiet Hm eq_refl)
    as (s2 & Hb & Hn & _ & Hidx & _).
  exists s1, s2. split; [exact Hm|]. split; [exact Hb|]. split.
  - rewrite Hidx. vm_compute. reflexivity.
  - rewrite Hn. vm_compute. reflexivity.
Defined.

(** X13 on U1, who holds no role; the role is the digest of "MINTER_ROLE"
    on the demo host. *)
Lemma X13_witness :
  CollectibleLicenseNFT.mintCollectible Demo.U1 Demo.U1 "ipfs://license" "demo" 0
    false false 0 0 Demo.collectible
  = Revert (Error (AccessControl_missing_role Demo.U1 CollectibleLicenseNFT.MINTER_ROLE)) /\
  AccessControl_missing_role Demo.U1 CollectibleLicenseNFT.MINTER_ROLE
  = "AccessControl: account 0x0000000000000000000000000000000000000001 is missing role 0x0000000000000000000000000000000000000000014d494e5445525f524f4c45".
Proof.
  assert (Hno : CollectibleLicenseNFT.hasRole Demo.collectible
                  CollectibleLicenseNFT.MINTER_ROLE Demo.U1 = false)
    by (vm_compute; reflexivity).
  destruct (X13_minting_is_for_minters Demo.U1 Demo.U1 "ipfs://license" "demo" 0
              false false 0 0 [] [] [] [] [] [] [] [] Demo.collectible Hno) as (Hm & _).
  split; [exact Hm|vm_compute; reflexivity].
Defined.

(** X14 on U2, who holds tokens 1 and 2 and whose slot names token 1:
    burning token 2 empties the slot, and token 1 is still held. *)
Lemma X14_witness :
  AppBoundLicense.lookup Scenes.ab_crowded Demo.U2 (keccak256 "demo") = 1 /\
  exists s',
    AppBoundLicense.burn Demo.U2 2 Scenes.ab_crowded = Ok (tt, s') /\
    AppBoundLicense.lookup s' Demo.U2 (keccak256 "demo") = 0 /\
    AppBoundLicense.owner_of s' 1 = Demo.U2.
Proof.
  split; [vm_compute; reflexivity|].
  assert (Hown : AppBoundLicense.owner_of Scenes.ab_crowded 2 = Demo.U2)
    by (vm_compute; reflexivity).
  assert (Hne : Demo.U2 <> 0) by (vm_compute; discriminate).
  assert (Happ : AppBoundLicense.appId (AppBoundLicense.license_of Scenes.ab_crowded 2)
                 = "demo") by (vm_compute; reflexivity).
  destruct (X14_appbound_burn_clears_the_slot Scenes.ab_crowded Demo.U2 2 Hown Hne)
    as (s' & Hb & _ & Hoth & _ & Hidx & _).
  exists s'. split; [exact Hb|]. split.
  - unfold AppBoundLicense.lookup. rewrite Hidx, Happ. apply slot_delete_eq.
  - rewrite Hoth by discriminate. vm_compute. reflexivity.
Defined.

(** X15 on the licence of U1: the contract owner cannot burn it. *)
Lemma X15_witness :
  AppBoundLicense._owner Demo.ab_licensed = Demo.admin /\
  AppBoundLicense.burn Demo.admin 1 Demo.ab_licensed = Revert (Error "NOT_OWNER").
Proof.
  split; [vm_compute; reflexivity|].
  destruct (X15_appbound_burn_is_for_the_holder Demo.ab_licensed Demo.admin 1)
    as (_ & Hno & _).
  apply Hno; vm_compute; discriminate.
Defined.

(** X16 on a licence for "demo" that lapses at second 1000, minted to the
    forwarding U1. *)
Lemma X16_witness :
  exists s',
    AppBoundLicenseR.mintTo (R := Intruders.ab_forwarder)
      (AppBoundLicenseR.dispatch (R := Intruders.ab_forwarder) 0)
      Demo.admin Demo.U1 "demo" "ipfs://license" 1000 Demo.appbound
    = Ok (1, s') /\
    AppBoundLicense.checkLicense Demo.U1 "demo" s' = Ok ((1, "ipfs://license", 1000), s').
Proof.
  assert (Hm : exists s',
             AppBoundLicenseR.mintTo (R := Intruders.ab_forwarder)
               (AppBoundLicenseR.dispatch (R := Intruders.ab_forwarder) 0)
               Demo.admin Demo.U1 "demo" "ipfs://license" 1000 Demo.appbound = Ok (1, s'))
    by (eexists; vm_compute; reflexivity).
  destruct Hm as [s' Hm]. exists s'. split; [exact Hm|].
  destruct (X16_mintTo_then_checkLicense _ _ _ _ _ _ _ _ _ _ Hm) as (_ & Hc & _).
  destruct Hc as (_ & _ & _ & Hc). exact Hc.
Defined.

(** X17 on the licence of U1, and on the slot of U1 that names a burned
    token. *)
Lemma X17_witness :
  AppBoundLicense.checkLicense Demo.U1 "demo" Demo.ab_licensed
  = Ok ((1, "ipfs://license", 0), Demo.ab_licensed) /\
  AppBoundLicense.checkLicense Demo.U1 "demo" Intruders.ab_orphaned
  = Revert (Error "ERC721: invalid token ID").
Proof.
  split.
  - destruct (X17_the_answers_of_checkLicense Demo.ab_licensed Demo.U1 "demo")
      as (_ & Hheld & _).
    rewrite Hheld; [vm_compute; reflexivity|vm_compute; discriminate|vm_compute; discriminate].
  - destruct (X17_the_answers_of_checkLicense Intruders.ab_orphaned Demo.U1 "demo")
      as (_ & _ & Hdead & _).
    apply Hdead; [vm_compute; discriminate|vm_compute; reflexivity].
Defined.


(** X19 on the burned token 1: the next licence of U1 is token 2. *)
Lemma X19_witness :
  let s' := AppBoundLicense.run [Demo.mintTo_tx Demo.U1 "demo" 0] Scenes.ab_spent in
  AppBoundLicense.owner_of s' 1 = 0 /\ AppBoundLicense.owner_of s' 2 = Demo.U1.
Proof.
  intros s'.
  destruct (X19_appbound_ids_and_terms [Demo.mintTo_tx Demo.U1 "demo" 0] Scenes.ab_spent 1)
    as [Hdead _].
  split; [|vm_compute; reflexivity].
  apply Hdead; [vm_compute; reflexivity|vm_compute; discriminate].
Defined.

(** X20 on the credential of U1 for "demo". *)
Lemma X20_witness :
  Backend.auth (Backend.AppBound_view Demo.ab_licensed) 1700000000000 (Some Demo.U1) "demo"
  = Backend.status_200 (Backend.token_for 1700000000000 Demo.U1 "demo" 1) 1 /\
  Backend.call_userAppToken (Backend.AppBound_view Demo.ab_licensed) Demo.U1
    (keccak256 "demo") = Ok 1.
Proof.
  assert (Ha : Backend.auth (Backend.AppBound_view Demo.ab_licensed) 1700000000000
                 (Some Demo.U1) "demo"
               = Backend.status_200 (Backend.token_for 1700000000000 Demo.U1 "demo" 1) 1)
    by (vm_compute; reflexivity).
  split; [exact Ha|].
  destruct (X20_a_credential_needs_an_index_entry _ _ _ _ _ _ Ha)
    as [(w & e & Hw & _ & Hidx & _) _].
  injection Hw as <-. exact Hidx.
Defined.

(** X21 on CollectibleLicenseNFT, which has no checkLicense: the licence
    of U1 gets a server error. *)
Lemma X21_witness :
  Backend.auth (Backend.Collectible_view Demo.licensed) 1700000000000 (Some Demo.U1) "demo"
  = Backend.status_500 "server error".
Proof.
  destruct (X21_the_error_answers (Backend.Collectible_view Demo.licensed) 1700000000000
              Demo.U1 "demo") as (_ & _ & Herr).
  destruct (Herr eq_refl) as (_ & Hcheck & _).
  apply (Hcheck 1 (Error "")).
  - vm_compute. reflexivity.
  - discriminate.
  - reflexivity.
Defined.

(** X22 on the licence of U1 handed to U2. *)
Lemma X22_witness :
  exists s',
    transferFrom Demo.U1 Demo.U1 Demo.U2 1 Demo.ab_licensed = Ok (tt, s') /\
    Backend.auth (Backend.AppBound_view s') 1700000000000 (Some Demo.U2) "demo"
    = Backend.status_200 (Backend.token_for 1700000000000 Demo.U2 "demo" 1) 1 /\
    Backend.auth (Backend.AppBound_view s') 1700000000000 (Some Demo.U1) "demo"
    = Backend.status_403 "No license for this wallet & appId".
Proof.
  assert (Ht : exists s',
             transferFrom Demo.U1 Demo.U1 Demo.U2 1 Demo.ab_licensed = Ok (tt, s'))
    by (eexists; vm_compute; reflexivity).
  destruct Ht as [s' Ht]. exists s'. split; [exact Ht|].
  assert (Happ : AppBoundLicense.appId (AppBoundLicense.license_of Demo.ab_licensed 1)
                 = "demo") by (vm_compute; reflexivity).
  assert (Hexp : AppBoundLicense.expiry (AppBoundLicense.license_of Demo.ab_licensed 1)
                 = 0) by (vm_compute; reflexivity).
  assert (Hclock : (0 <= 1700000000000 <= Backend.max_time_value)%Z)
    by (vm_compute; split; discriminate).
  pose proof (X22_access_follows_the_token Demo.admin [Demo.mintTo_tx Demo.U1 "demo" 0]
                Demo.U1 Demo.U1 Demo.U2 1 tt s' 1700000000000) as Hx.
  cbv zeta in Hx. fold Demo.appbound in Hx. fold Demo.ab_licensed in Hx.
  rewrite Happ, Hexp in Hx.
  destruct (Hx Ht eq_refl Hclock) as [Hto Hfrom].
  split; [exact Hto|]. apply Hfrom; [discriminate|vm_compute; reflexivity].
Defined.

(** X23 on the licence of U1, burned. *)
Lemma X23_witness :
  exists s',
    AppBoundLicense.burn Demo.U1 1 Demo.ab_licensed = Ok (tt, s') /\
    Backend.auth (Backend.AppBound_view s') 1700000000000 (Some Demo.U1) "demo"
    = Backend.status_403 "No license for this wallet & appId".
Proof.
  assert (Hb : exists s', AppBoundLicense.burn Demo.U1 1 Demo.ab_licensed = Ok (tt, s'))
    by (eexists; vm_compute; reflexivity).
  destruct Hb as [s' Hb]. exists s'. split; [exact Hb|].
  assert (Happ : AppBoundLicense.appId (AppBoundLicense.license_of Demo.ab_licensed 1)
                 = "demo") by (vm_compute; reflexivity).
  pose proof (X23_a_burn_withdraws_access Demo.U1 1 Demo.ab_licensed tt s' 1700000000000 Hb)
    as Hx.
  rewrite Happ in Hx. exact (Hx eq_refl).
Defined.

(** X24 on the deployment by admin, seeded for U1. *)
Lemma X24_witness :
  exists s1,
    Scripts.seed Demo.admin Demo.U1 (Scripts.deploy Demo.admin) = Ok (1, s1) /\
    Scripts.checkAccess (Backend.AppBound_view s1) 1700000000000 (Some Demo.U1)
    = Scripts.access_granted (Backend.token_for 1700000000000 Demo.U1 "demo-app" 1) /\
    Scripts.checkAccess (Backend.AppBound_view s1) 1700000000000 (Some Demo.U2)
    = Scripts.error_message "No license for this wallet & appId".
Proof.
  assert (Hne : Demo.U1 <> 0) by (vm_compute; discriminate).
  assert (Hacc : onERC721Received Demo.U1 Demo.admin 0 1 = true) by reflexivity.
  destruct (X24_deploy_seed_checkAccess Demo.admin Demo.U1 1700000000000 Hne Hacc)
    as (s1 & Hs & Hu & Hoth & _).
  exists s1. split; [exact Hs|]. split; [exact Hu|].
  apply Hoth. vm_compute. discriminate.
Defined.

(** X25 on U2, who holds tokens 1 and 2 and whose slot names token 1:
    revoking token 2 leaves the slot alone, and the royalty entry of the
    revoked token stays. *)
Lemma X25_witness :
  DesignLicense.lookup Scenes.d_crowded Demo.U2 (keccak256 "demo") = 1 /\
  exists s',
    DesignLicense.revoke Demo.admin 2 Scenes.d_crowded = Ok (tt, s') /\
    DesignLicense.owner_of s' 2 = 0 /\
    DesignLicense.lookup s' Demo.U2 (keccak256 "demo") = 1 /\
    DesignLicense._tokenRoyaltyInfo s' !! 2 = Some (Demo.U3, 500).
Proof.
  split; [vm_compute; reflexivity|].
  assert (Hown : DesignLicense._owner Scenes.d_crowded = Demo.admin)
    by (vm_compute; reflexivity).
  assert (Hlive : DesignLicense.owner_of Scenes.d_crowded 2 <> 0)
    by (vm_compute; discriminate).
  pose proof (X25_revoke_takes_the_token Scenes.d_crowded Demo.admin 2 Hown Hlive) as Hx.
  cbv zeta in Hx. destruct Hx as (s' & Hr & Hgone & _ & _ & _ & Hkeep & Hroy & _).
  exists s'. split; [exact Hr|]. split; [exact Hgone|]. split.
  - unfold DesignLicense.lookup. rewrite Hkeep; [vm_compute; reflexivity|].
    vm_compute. discriminate.
  - rewrite Hroy. vm_compute. reflexivity.
Defined.

(** X26 on U2, the holder of token 2, who is not the contract owner. *)
Lemma X26_witness :
  DesignLicense.owner_of Scenes.d_crowded 2 = Demo.U2 /\
  DesignLicense.revoke Demo.U2 2 Scenes.d_crowded
  = Revert (Error "Ownable: caller is not the owner").
Proof.
  split; [vm_compute; reflexivity|].
  destruct (X26_revoke_is_for_the_contract_owner Scenes.d_crowded Demo.U2 2) as (Hno & _).
  apply Hno. vm_compute. discriminate.
Defined.

(** X27 on the crowded ledger of the white paper's contract. *)
Lemma X27_witness :
  DesignLicense.no_dangling
    (DesignLicenseR.run (R := Intruders.d_quiet) 0
       [Scenes.d_mintTo_tx Demo.U1 "demo"; Scenes.d_mintTo_tx Demo.U2 "demo";
        Scenes.d_transfer_tx Demo.U1 Demo.U2 1] Scenes.design).
Proof.
  destruct (X27_the_design_index_is_sound Intruders.d_quiet 0 Demo.admin
              "AppBoundLicense" "ABND"
              [Scenes.d_mintTo_tx Demo.U1 "demo"; Scenes.d_mintTo_tx Demo.U2 "demo";
               Scenes.d_transfer_tx Demo.U1 Demo.U2 1]) as (Hd & _).
  - intros to operator from tokenId. exact I.
  - exact Hd.
Defined.

(** X28 on the licence of U1, whose metadata is replaced. *)
Lemma X28_witness :
  exists s',
    DesignLicense.adminSetTokenURI Demo.admin 1 "ipfs://new" Scenes.d_licensed
    = Ok (tt, s') /\
    DesignLicense.checkLicense Demo.U1 "demo" s' = Ok ((1, "ipfs://new", 0), s').
Proof.
  pose proof (X28_adminSetTokenURI_rewrites_the_metadata Demo.admin "AppBoundLicense" "ABND"
                [Scenes.d_mintTo_tx Demo.U1 "demo"] Demo.admin 1 "ipfs://new") as Hx.
  cbv zeta in Hx. fold Scenes.design in Hx. fold Scenes.d_licensed in Hx.
  destruct Hx as (_ & _ & Hok).
  destruct Hok as (s' & Hs & _ & _ & _ & _ & Hc).
  - vm_compute. reflexivity.
  - vm_compute. discriminate.
  - exists s'. split; [exact Hs|].
    rewrite (Hc Demo.U1 "demo"); [|vm_compute; reflexivity].
    vm_compute. reflexivity.
Defined.

(** X29 on the licence of U2, minted with a royalty for U3 and burned. *)
Lemma X29_witness :
  exists s1 s2,
    DesignLicense.mintTo Demo.admin Demo.U2 "demo" "ipfs://license" 0 Demo.U3 500
      Scenes.d_licensed = Ok (2, s1) /\
    DesignLicense.burn Demo.U2 2 s1 = Ok (tt, s2) /\
    DesignLicense.owner_of s2 2 = 0 /\
    DesignLicense._tokenRoyaltyInfo s2 !! 2 = Some (Demo.U3, 500).
Proof.
  set (s1 := commit (DesignLicense.mintTo Demo.admin Demo.U2 "demo" "ipfs://license" 0
                       Demo.U3 500) Scenes.d_licensed).
  set (s2 := commit (DesignLicense.burn Demo.U2 2) s1).
  assert (Hm : DesignLicense.mintTo Demo.admin Demo.U2 "demo" "ipfs://license" 0 Demo.U3 500
                 Scenes.d_licensed = Ok (2, s1)) by (vm_compute; reflexivity).
  assert (Hb : DesignLicense.burn Demo.U2 2 s1 = Ok (tt, s2)) by (vm_compute; reflexivity).
  assert (Hrr : Demo.U3 <> 0) by (vm_compute; discriminate).
  destruct (X29_royalties_outlive_the_token _ _ _ _ _ _ _ _ _ _ Hm Hrr)
    as (_ & _ & Hburn & _).
  destruct (Hburn _ _ _ Hb) as [Hgone Hkeep].
  exists s1, s2. split; [exact Hm|]. split; [exact Hb|]. split; [exact Hgone|exact Hkeep].
Defined.

(** X30 on a mint for "other" to U3, on the ledger where U1 is licensed. *)
Lemma X30_witness :
  exists s',
    CollectibleLicenseNFTR.mintCollectible (R := Intruders.quiet)
      (CollectibleLicenseNFTR.dispatch (R := Intruders.quiet) 0 false)
      Demo.admin Demo.U3 "ipfs://license" "other" 0 false false 0 0 Demo.licensed
    = Ok (2, s').
Proof.
  assert (Hquiet : Callbacks.answers_only (H1 := Intruders.quiet) Demo.U3).
  { intros operator from tokenId. reflexivity. }
  assert (Hmax : CollectibleLicenseNFT.MAX_SUPPLY Demo.licensed < uint256_limit)
    by (vm_compute; reflexivity).
  assert (Hfresh : CollectibleLicenseNFT.owner_of Demo.licensed
                     (CollectibleLicenseNFT.nextTokenId Demo.licensed + 1) = 0)
    by (vm_compute; reflexivity).
  destruct (X30_a_mint_returns_when_its_checks_pass Intruders.quiet
              (CollectibleLicenseNFTR.dispatch (R := Intruders.quiet) 0 false)
              Demo.licensed Demo.admin Demo.U3 "ipfs://license" "other" 0 false false 0 0
              Hquiet Hmax Hfresh) as [_ Hback].
  destruct Hback as [s' Hm]; [|exists s'; exact Hm].
  split; [vm_compute; reflexivity|]. split; [vm_compute; reflexivity|].
  split; [vm_compute; discriminate|]. split; [reflexivity|].
  split; [intros _; vm_compute; reflexivity|intros Hrr; exfalso; apply Hrr; reflexivity].
Defined.
